(* ===== verification/_CoqProject ===== *)
-Q . S2P
Prelude.v
Bitset.v
Porcupine.v
LinkedList.v
SearchSpec.v
CheckerProof.v
CheckSingle.v
Linearizability.v
CheckOps.v
KvModel.v
CheckerProps.v
Visualization.v
VisualizationProps.v
Persister.v
RaftNode.v
RaftFacts.v
RaftProps.v
RaftSpec.v
RaftSafety.v
RaftCluster.v
ClusterSections.v
ClusterSafety.v
ClusterRefines.v
ClusterRuns.v
ClusterLogs.v
ClusterValidity.v
ClusterProgress.v
ClusterCommit.v
ClusterSettled.v
KVRaft.v
KVRaftProps.v
KVTables.v
KVCluster.v
KVClusterInv.v
KVClusterSteps.v
KVSteady.v
KVClusterProps.v
KVProgress.v
KVSrv.v
LabRpc.v
LabGob.v
LabGobCodec.v
MapReduce.v
MapReduceMain.v
ShardCtrler.v
ShardKV.v
RaftHarness.v
Wiring.v
HarnessProps.v
ServiceHarness.v
ServiceProps.v
CtrlerHarness.v
KVSrvHarness.v
KVSrvHarnessProps.v
KVSrvSystem.v
KVSrvExecutions.v
KVSrvSystemInv.v
KVSrvSystemProps.v
ShardHarness.v
ShardHarnessProps.v
