(* ===== verification/Prelude.v ===== *)
(** * A verification of the MIT 6.5840 laboratory code (src/src)

    The repository holds the laboratories of a distributed-systems course in Go:
    Raft (raft/), a key/value service replicated by it (kvraft/), a key/value
    server on one machine (kvsrv/), the simulated network they run on (labrpc/,
    labgob/), the linearizability checker that judges their histories
    (porcupine/, models/), and MapReduce (mr/, mrapps/, main/mrsequential.go);
    shardctrler/ and shardkv/ are skeletons whose servers are still empty.  Each
    package has a test harness (config.go) that builds its servers on the network,
    cuts them off, crashes and restarts them, and compares what they do.

    ** Files

    - Prelude: Go integers and slices, the result monad ([Ret], [Panic],
      [NoFuel]), package sort as the class [GoSort], tactics, generic lemmas.
    - Bitset, Porcupine: porcupine/bitset.go, model.go, checker.go, porcupine.go.
      The linked list of entries lives in a store ([heap]) addressed by pointers.
    - LinkedList: doubly linked segments, and [lift]/[unlift] as inverses.
    - SearchSpec, CheckerProof: the abstract search on lists, and the invariant
      that ties the loop of [checkSingle] - list, bitset, cache, call stack - to
      it, with a weight that bounds the number of iterations.
    - CheckSingle: the list built from a history and the verdict of [checkSingle].
    - Linearizability: histories, real-time order, [linearizable], and the
      equivalence with the search's specification on entries.
    - CheckOps: the select loop of [checkParallel] and the entry points.
    - KvModel: models/kv.go and its contract with the checker.
    - CheckerProps: the checker's properties for any model, and event histories.
    - Visualization, VisualizationProps: the data of porcupine/visualization.go.
    - Persister: raft/persister.go, and the class [Gob] of encodings.
    - RaftNode: raft/raft.go, one definition per section under [rf.mu].
    - RaftFacts, RaftProps: invariants and properties of one peer.
    - RaftCluster: [step]: a cluster of peers, their RPCs and their crashes.
    - RaftSpec, RaftSafety: the abstract protocol - votes, proposals, entries of
      each leader's log, acknowledgements, commitment - as a transition system,
      and the safety of its commitments.
    - ClusterSections: the sections of a peer as one relation ([ran], a rule per
      outcome), and what no section ever moves back ([held]); the invariants of the
      files below go over its rules.
    - ClusterSafety: invariants of all reachable clusters, for the elections.
    - ClusterRefines, ClusterRuns, ClusterLogs: each step of the code is steps of
      the abstract protocol, and so is a run; what its safety says about the logs
      and the applied commands.
    - ClusterValidity: where the entries of the logs come from.
    - ClusterProgress, ClusterCommit: schedules that elect a leader and commit a
      command from any reachable state; the cluster of one server.
    - ClusterSettled: in runs that the safety theorems are about no server has lost
      an entry it committed, so that such a schedule exists.
    - KVRaft, KVRaftProps: kvraft/ on top of RaftNode, one server and one clerk.
    - KVTables: the replicated state machine of the service - its store, duplicate
      table and cached results - as a function of the log.
    - KVCluster: the whole service: servers with their Raft peers, appliers and
      handlers, and the clerks that call them, as one transition system.
    - KVClusterInv, KVClusterSteps: its invariant, and that every step keeps it.
    - KVClusterProps: linearizability of what the clerks observe.
    - KVSteady, KVProgress: what every run keeps whatever its messages do, and the
      schedule on which a pending call of a clerk returns.
    - KVSrv: kvsrv/.
    - LabRpc: labrpc/labrpc.go.  LabGob, LabGobCodec: labgob/labgob.go.
    - MapReduce: mr/, mrapps/, main/mrsequential.go.  MapReduceMain: the processes.
    - ShardCtrler, ShardKV: shardctrler/, shardkv/.
    - RaftHarness: raft/config.go; Wiring: who reaches whom in a test;
      HarnessProps: what its checks mean, and that the cluster passes them.
    - ServiceHarness, ServiceProps: kvraft/config.go and shardctrler/config.go, one
      model over the class [Replica]; partitions and clients.  CtrlerHarness: the
      functions of the second package.
    - KVSrvHarness, KVSrvHarnessProps: kvsrv/config.go.
    - KVSrvSystem: kvsrv from end to end - clerks, labrpc's network, the handlers
      found by reflection, the harness - as one transition system; KVSrvExecutions,
      KVSrvSystemInv: the order of executions that explains a run, and the
      invariant; KVSrvSystemProps: linearizability and progress.
    - ShardHarness, ShardHarnessProps: shardkv/config.go.

    ** How code becomes definitions

    A Go struct is a record with the same field names; a method is a function on
    the record.  A section between [mu.Lock] and [mu.Unlock] is one definition,
    and a method that unlocks in the middle is several ([ticker_read] and
    [ticker_act], [replicate_send] and [replicate_reply], [wait_start],
    [wait_register], [wait_receive] and [wait_timeout]); [RaftCluster.step]
    interleaves such sections freely, and [KVCluster.kv_step] those of the service
    and of its clerks with them; [KVSrvSystem.sy_step] does the same for kvsrv.  A [go] statement is a [spawn] in the
    result.  [None] or [Panic] is a run-time panic: an index out of range, a nil
    dereference, a failed type assertion.  The clock and random numbers are the
    argument [tick].  A harness may also fail its test or exit the process; its
    outcomes are [Done] or [Stopped] with a reason, and what it reads from running
    servers is an argument, one configuration per read.  Integers are Z: an index
    or a term is bounded by the length
    of the execution, and where wrap-around is part of the behaviour - bitset
    words, hashes, request numbers, the example RPC - it is written out.

    Loops that are not structural take fuel, and a theorem gives the amount that
    is enough: [CheckerProof.budget] of the number of operations for the search,
    the number of unapplied entries for [apply_loop], the number of types not yet
    seen for [checkType], the number of pairs for [mrsequential], the number of
    rounds for the clerks.

    Code outside the repository is a parameter: encoding/gob is [Persister.Gob]
    (decoding an encoding into a new variable gives the value back) or, where the
    variable may hold something, [LabGobCodec.GobInto] (flat values of types with
    exported fields only, into a variable that holds zero values, on a stream with a
    state), package sort is [GoSort] (a
    permutation in which no element is less than an earlier one), reflection is
    the list of a type's methods or the graph of its fields, [unicode.IsLetter]
    a predicate on characters; plugins, files and sockets are functions.

    ** What is shown

    - The checker: with enough fuel [checkSingle] returns, and answers true
      exactly when the history is linearizable, unless it is told to stop;
      [checkOperations] and [checkEvents] combine partitions correctly in every
      order of arrival; for the key/value model, whose partition by key is shown
      to be sound and complete, [CheckOperations] decides the linearizability of
      the whole store, except that it waits for ever for an empty history.
    - Raft, one peer: votes, log merging, log matching, commitment by majorities,
      persistence, terms, application in order, absence of panics.
    - Raft, clusters: a leader has the votes of a majority, under losses,
      reordering and restarts; one leader per term as long
      as no server votes twice in a term, and then Log Matching: an index and a
      term determine the log up to there on every server.  With the same premise
      and at most 100 commands the cluster refines the abstract protocol, so that
      every later leader has every committed entry (Leader Completeness) and no
      two servers apply different commands at one index (State Machine Safety).
      Both premises are needed: the code lets a heartbeat erase a vote, and
      [RaftCluster] exhibits an execution with two leaders of a term; and it
      commits entries that a call did not verify, which shows once a call does
      not carry the whole log ([ClusterLogs.unverified_commit_diverges]).
    - Raft, progress: from every reachable state there is a continuation without
      crashes and losses to a state with a leader, and, if there are two servers or
      more and none has lost entries it committed, to one where a given command
      was applied.  Every command applied was submitted.  A single server never
      commits, because only a reply moves the commit index.
    - The tests of Raft: who reaches whom after any sequence of connections,
      disconnections, crashes and restarts; what the appliers, checkOneLeader and
      one decide; and that every run of the cluster passes them, with the premises
      above.
    - The visualisation: no verbose verdict makes it panic, and it shows the
      operations and the recorded executions as they are.
    - kvraft, one server: duplicates are executed once and new requests are not
      absorbed, a request gets the answer of its own operation, the clerk ends.
    - kvraft, the whole service: every run of the servers and the clerks is
      linearizable for the key/value model of models/, and the checker of
      porcupine/ accepts it if it has a call and all returned; replicas that applied as much agree; the peers under
      the service run as the Raft cluster above.  This holds for runs that are
      [KVClusterSteps.fine]: no server votes twice in a term, [Start] is called at
      most 100 times, no message reaches a server ahead of its turn, and the clerks
      have different identifiers.  With a double vote a clerk can read a stale value
      ([KVClusterProps.double_vote_stale_read]).
    - kvraft, progress: with two servers or more, single votes and at most 100
      commands, no call hangs for ever: from every state of a run there is a
      continuation without crashes and with one lost message, the clerk's pending
      request, in which the peers elect a leader, the clerk finds it by trying the
      servers in turn, and its operation is committed, applied and answered.  That
      one loss is the clerk giving up on a request that may wait for a leader that
      was deposed; the handler of such a request gives up too in the code.
    - kvsrv: a retried request is executed exactly once; over the network of labrpc,
      with its losses and delays, every run is linearizable and, if it has an
      operation and all returned, accepted by the checker, and a call returns within six sections once nothing is lost.
    - labrpc, labgob: delivery on reliable networks, no reply from a server that
      was replaced, encoding and dispatch end to end, termination of the type walk;
      as long as labgob counted no warning, basic values and structs of them are
      decoded as they were encoded.
    - MapReduce: the sequential program groups by key, and the word count counts.
    - Shards: the clerks' routing; with the empty controllers a Get never ends;
      the names announced to the controllers reach those servers while they run,
      after any starts and shutdowns, on a reliable network.
    - Partitions of the services: the leader's side is the smaller one and the two
      sides do not reach each other (three servers or more); a client reaches the
      servers it is given.

    ** Limits

    The Go scheduler is represented by the interleaving of locked sections;
    sleeps, logging and time-outs only by the choice of the next step.  A
    restart in [RaftCluster] loses the requests the crashed server had received
    and not handled, and its own requests that are still under way, which labrpc
    could deliver; and a request of Raft that the network reports as failed is
    not handled later, while labrpc may report a failure because the server was
    deleted although its handler still runs.  In [KVCluster] a clerk knows the
    servers in the order of their numbers, where the harness shuffles them, and its
    request numbers do not wrap around.  Snapshots are empty in the source ([Snapshot],
    [applySnapshot], and [persist] saves none).  [sync.Cond], channels and
    atomics are modelled by their effect on the shared record, not as libraries.
    A harness models the servers at the moments it starts, stops or reads them;
    between those their persisters change with them.
    In [KVCluster] and [KVSrvSystem] a clerk has one operation at a time, as in the
    source; a request that was delivered is handled at most once, and its reply may
    come late or never.  [KVCluster] has a network of its own, which loses, delays
    and reorders at will; [KVSrvSystem] runs on the model of labrpc.
    Not modelled: the page of the visualisation (HTML and JavaScript in a string),
    the entry points of laboratories whose packages are not in the repository
    (main/lockc.go, lockd.go, pbc.go, pbd.go, viewd.go, diskvd.go), debug printing,
    random strings (arguments), and what the harnesses print. *)
From stdpp Require Export base tactics decidable list gmap strings fin_maps sets.
From Stdlib Require Export ZArith Lia.

#[global] Open Scope Z_scope.

(** ** Go integers *)

(** An int64 (Go's int on a 64-bit platform) after a possible overflow. *)
Definition wrap64 (z : Z) : Z := (z + 2 ^ 63) `mod` 2 ^ 64 - 2 ^ 63.

(** Unsigned truncations. *)
Definition u64 (z : Z) : Z := z `mod` 2 ^ 64.
Definition u32 (z : Z) : Z := z `mod` 2 ^ 32.

Definition int64_range (z : Z) : Prop := - 2 ^ 63 <= z < 2 ^ 63.

(** ** Go slices: a list with Z indices; [None] is the index panic *)

Definition zlen {A} (l : list A) : Z := Z.of_nat (length l).

Definition zget {A} (l : list A) (i : Z) : option A :=
  if i <? 0 then None else l !! Z.to_nat i.

Definition zset {A} (l : list A) (i : Z) (x : A) : option (list A) :=
  if (0 <=? i) && (i <? zlen l) then Some (<[Z.to_nat i := x]> l) else None.

(** [l[:hi]] and [l[lo:]] *)
Definition ztake {A} (l : list A) (hi : Z) : option (list A) :=
  if (0 <=? hi) && (hi <=? zlen l) then Some (take (Z.to_nat hi) l) else None.

Definition zdrop {A} (l : list A) (lo : Z) : option (list A) :=
  if (0 <=? lo) && (lo <=? zlen l) then Some (drop (Z.to_nat lo) l) else None.

(** [l[lo:hi]] *)
Definition zslice {A} (l : list A) (lo hi : Z) : option (list A) :=
  if (0 <=? lo) && (lo <=? hi) && (hi <=? zlen l)
  then Some (take (Z.to_nat (hi - lo)) (drop (Z.to_nat lo) l)) else None.

(** ** Automation *)

(** [bsimp] turns the boolean comparisons of a context into propositions. *)
Ltac bsimp :=
  repeat match goal with
  | H : _ && _ = true |- _ => apply andb_true_iff in H as [? ?]
  | H : _ && _ = false |- _ => apply andb_false_iff in H
  | H : _ || _ = true |- _ => apply orb_true_iff in H
  | H : _ || _ = false |- _ => apply orb_false_iff in H as [? ?]
  | H : negb _ = true |- _ => apply negb_true_iff in H
  | H : negb _ = false |- _ => apply negb_false_iff in H
  | H : (_ <? _)%Z = true |- _ => apply Z.ltb_lt in H
  | H : (_ <? _)%Z = false |- _ => apply Z.ltb_ge in H
  | H : (_ <=? _)%Z = true |- _ => apply Z.leb_le in H
  | H : (_ <=? _)%Z = false |- _ => apply Z.leb_gt in H
  | H : (_ =? _)%Z = true |- _ => apply Z.eqb_eq in H
  | H : (_ =? _)%Z = false |- _ => apply Z.eqb_neq in H
  | H : bool_decide _ = true |- _ => apply bool_decide_eq_true in H
  | H : bool_decide _ = false |- _ => apply bool_decide_eq_false in H
  end.

(** [bcase] splits on the first boolean test of the goal and reads it. *)
Ltac bcase :=
  match goal with
  | |- context [if ?b then _ else _] =>
      lazymatch b with
      | context [if _ then _ else _] => fail
      | _ => let E := fresh "E" in destruct b eqn:E; bsimp
      end
  end.

(** [opt_inv] takes a chain of option binds that returned [Some] apart. *)
Ltac opt_inv :=
  repeat match goal with
  | H : mbind _ ?e = Some _ |- _ =>
      let E := fresh "E" in destruct e eqn:E; simpl in H; [|discriminate H]
  | H : Some _ = Some _ |- _ => injection H as H
  | H : None = Some _ |- _ => discriminate H
  | H : (_, _) = (_, _) |- _ => injection H as H
  end.

Create HintDb golist.
Create Rewrite HintDb golist.

(** ** Lemmas on Go slices *)

Section golist.
Context {A : Type}.
Implicit Types (l k : list A) (i : Z) (x : A).

Lemma zlen_nonneg l : 0 <= zlen l.
Proof. unfold zlen; lia. Qed.

Lemma zlen_pos l : l <> [] -> 0 < zlen l.
Proof. destruct l; [done|]. intros _. unfold zlen. simpl. lia. Qed.

Lemma zlen_nil : zlen (@nil A) = 0.
Proof. done. Qed.

Lemma zlen_cons x l : zlen (x :: l) = zlen l + 1.
Proof. unfold zlen; simpl; lia. Qed.

Lemma zlen_app l k : zlen (l ++ k) = zlen l + zlen k.
Proof. unfold zlen; rewrite length_app; lia. Qed.

Lemma zlen_insert l n x : zlen (<[n := x]> l) = zlen l.
Proof. unfold zlen; by rewrite length_insert. Qed.

Lemma zlen_replicate n x : zlen (replicate n x) = Z.of_nat n.
Proof. unfold zlen; by rewrite length_replicate. Qed.

Lemma zget_Some_range l i x : zget l i = Some x -> 0 <= i < zlen l.
Proof.
  unfold zget, zlen. destruct (i <? 0) eqn:E; [done|]. bsimp.
  intros H%lookup_lt_Some. lia.
Qed.

Lemma zget_Some_lookup l i x :
  zget l i = Some x <-> 0 <= i /\ l !! Z.to_nat i = Some x.
Proof. unfold zget. destruct (i <? 0) eqn:E; bsimp; naive_solver lia. Qed.

Lemma zget_is_Some l i : is_Some (zget l i) <-> 0 <= i < zlen l.
Proof.
  split.
  - intros [x H]; by eapply zget_Some_range.
  - intros [Hi Hl]. unfold zget. destruct (i <? 0) eqn:E; bsimp; [lia|].
    apply lookup_lt_is_Some. unfold zlen in Hl. lia.
Qed.

Lemma zget_None l i : zget l i = None <-> ~ (0 <= i < zlen l).
Proof. rewrite <- zget_is_Some, eq_None_not_Some. done. Qed.

Lemma zget_app_l l k i : i < zlen l -> zget (l ++ k) i = zget l i.
Proof.
  unfold zget, zlen. intros. destruct (i <? 0) eqn:E; bsimp; [done|].
  rewrite lookup_app_l; [done|lia].
Qed.

Lemma zget_app_r l k i : zlen l <= i -> zget (l ++ k) i = zget k (i - zlen l).
Proof.
  unfold zget, zlen. intros.
  destruct (i <? 0) eqn:E; bsimp; [lia|].
  destruct (i - Z.of_nat (length l) <? 0) eqn:E2; bsimp; [lia|].
  rewrite lookup_app_r; [|lia]. f_equal. lia.
Qed.

Lemma zget_take l n i : i < Z.of_nat n -> zget (take n l) i = zget l i.
Proof.
  unfold zget. intros. destruct (i <? 0) eqn:E; bsimp; [done|].
  apply lookup_take_lt. lia.
Qed.

Lemma zget_drop l n i : 0 <= i -> zget (drop n l) i = zget l (Z.of_nat n + i).
Proof.
  unfold zget. intros.
  destruct (i <? 0) eqn:E; bsimp; [lia|].
  destruct (_ + i <? 0) eqn:E2; bsimp; [lia|].
  rewrite lookup_drop. f_equal. lia.
Qed.

Lemma zlen_take l n : Z.of_nat n <= zlen l -> zlen (take n l) = Z.of_nat n.
Proof. unfold zlen. intros. rewrite length_take. lia. Qed.

Lemma zset_Some l i x l' :
  zset l i x = Some l' <-> 0 <= i < zlen l /\ l' = <[Z.to_nat i := x]> l.
Proof.
  unfold zset. destruct (_ && _) eqn:E; bsimp; [naive_solver lia|].
  split; [done|]. intros [? ->]. destruct E as [E|E]; bsimp; lia.
Qed.

Lemma zset_in l i x :
  0 <= i < zlen l -> zset l i x = Some (<[Z.to_nat i := x]> l).
Proof. intros H. by apply zset_Some. Qed.

Lemma zget_insert_eq l i x :
  0 <= i < zlen l -> zget (<[Z.to_nat i := x]> l) i = Some x.
Proof.
  unfold zget, zlen. intros. destruct (i <? 0) eqn:E; bsimp; [lia|].
  apply list_lookup_insert_eq. lia.
Qed.

Lemma zget_insert_ne l i j x :
  0 <= i -> i <> j -> zget (<[Z.to_nat i := x]> l) j = zget l j.
Proof.
  unfold zget. intros. destruct (j <? 0) eqn:E; bsimp; [done|].
  apply list_lookup_insert_ne. lia.
Qed.

Lemma ztake_Some l hi l' :
  ztake l hi = Some l' <-> 0 <= hi <= zlen l /\ l' = take (Z.to_nat hi) l.
Proof.
  unfold ztake. destruct (_ && _) eqn:E; bsimp; [naive_solver lia|].
  split; [done|]. intros [? ->]. destruct E as [E|E]; bsimp; lia.
Qed.

Lemma zdrop_Some l lo l' :
  zdrop l lo = Some l' <-> 0 <= lo <= zlen l /\ l' = drop (Z.to_nat lo) l.
Proof.
  unfold zdrop. destruct (_ && _) eqn:E; bsimp; [naive_solver lia|].
  split; [done|]. intros [? ->]. destruct E as [E|E]; bsimp; lia.
Qed.

Lemma zslice_Some l lo hi l' :
  zslice l lo hi = Some l' <->
  0 <= lo <= hi /\ hi <= zlen l /\
  l' = take (Z.to_nat (hi - lo)) (drop (Z.to_nat lo) l).
Proof.
  unfold zslice. destruct (_ && _ && _) eqn:E; bsimp; [naive_solver lia|].
  split; [done|]. intros (? & ? & ->).
  destruct E as [E|E]; bsimp; [|lia]. destruct E as [E|E]; bsimp; lia.
Qed.
End golist.

#[export] Hint Rewrite @zlen_nil @zlen_cons @zlen_app @zlen_insert
  @zlen_replicate : golist.
#[export] Hint Resolve zlen_nonneg : golist.

(** A list without duplicates splits at an element in one way. *)
Lemma NoDup_split {A} (a b a' b' : list A) p :
  NoDup (a ++ p :: b) -> a ++ p :: b = a' ++ p :: b' -> a = a' /\ b = b'.
Proof.
  revert a'. induction a as [|x a IH]; intros [|y a'] Hnd Heq; simplify_eq/=.
  - done.
  - apply NoDup_cons in Hnd as [Hnin _]. set_solver.
  - apply NoDup_cons in Hnd as [Hnin _]. set_solver.
  - apply NoDup_cons in Hnd as [_ Hnd]. by destruct (IH a' Hnd) as [-> ->].
Qed.

Lemma wrap64_id z : int64_range z -> wrap64 z = z.
Proof. unfold int64_range, wrap64. intros. rewrite Z.mod_small; lia. Qed.

Lemma wrap64_range z : int64_range (wrap64 z).
Proof.
  unfold int64_range, wrap64.
  pose proof (Z.mod_pos_bound (z + 2 ^ 63) (2 ^ 64)). lia.
Qed.

(** ** Results of code that may panic or run out of fuel *)

(** [Ret a]: the code returned [a]; [Panic]: it stopped with a run-time error
    (index out of range, nil dereference, failed type assertion); [NoFuel]: the
    fuel given to a loop was too small. *)
Inductive result (A : Type) :=
  | Ret (a : A)
  | Panic
  | NoFuel.
Arguments Ret {A} _.
Arguments Panic {A}.
Arguments NoFuel {A}.

#[export] Instance result_bind : MBind result := fun A B f r =>
  match r with Ret a => f a | Panic => Panic | NoFuel => NoFuel end.
#[export] Instance result_ret : MRet result := @Ret.

Definition of_option {A} (o : option A) : result A :=
  match o with Some a => Ret a | None => Panic end.

(** ** Filtering maps *)

Lemma omap_fst_sublist {A B} (f : A -> option B) (l : list A) :
  sublist (omap (fun x => (fun y => (x, y)) <$> f x) l).*1 l.
Proof.
  induction l as [|x l IH]; simpl; [done|]. destruct (f x); simpl; [by apply sublist_skip|by apply sublist_cons].
Qed.

Lemma omap_as_map {A B C} (f : A -> option C) (g : B -> C) (h : A -> option B) (l : list A) :
  (forall x, x ∈ l -> f x = g <$> h x) -> omap f l = map g (omap h l).
Proof.
  induction l as [|x l IH]; intros Hf; [done|].
  change (omap f (x :: l)) with (match f x with Some y => y :: omap f l | None => omap f l end).
  change (omap h (x :: l)) with (match h x with Some y => y :: omap h l | None => omap h l end).
  rewrite IH by set_solver. rewrite Hf by set_solver. by destruct (h x).
Qed.

Lemma omap_ext_in {A B} (f g : A -> option B) (l : list A) :
  (forall x, x ∈ l -> f x = g x) -> omap f l = omap g l.
Proof.
  induction l as [|x l IH]; intros Hf; [done|].
  change (omap f (x :: l)) with (match f x with Some y => y :: omap f l | None => omap f l end).
  change (omap g (x :: l)) with (match g x with Some y => y :: omap g l | None => omap g l end).
  rewrite IH by set_solver. by rewrite Hf by set_solver.
Qed.

(** ** Sorting, as the code uses it *)

(** The part of package sort the program relies on: [sort.Sort] (and
    [sort.Strings], [sort.Slice]) rearranges a slice so that no element is
    [Less] than an earlier one.  It is not stable, and the order of equivalent
    elements is unspecified, so the algorithm stays abstract. *)
Definition weak_order {A} (less : A -> A -> bool) : Prop :=
  (forall a b, less a b = true -> less b a = false) /\
  (forall a b c, less a b = false -> less b c = false -> less a c = false).

Definition sorted_by {A} (less : A -> A -> bool) (l : list A) : Prop :=
  forall i j a b, (i < j)%nat -> l !! i = Some a -> l !! j = Some b ->
  less b a = false.

Class GoSort := {
  gosort : forall {A}, (A -> A -> bool) -> list A -> list A;
  gosort_perm : forall A (less : A -> A -> bool) l, gosort less l ≡ₚ l;
  gosort_sorted : forall A (less : A -> A -> bool) l,
    weak_order less -> sorted_by less (gosort less l) }.

(** A concrete sorting routine, to run the model. *)
Fixpoint isort_insert {A} (less : A -> A -> bool) (x : A) (l : list A) : list A :=
  match l with
  | [] => [x]
  | y :: l' => if less y x then y :: isort_insert less x l' else x :: l
  end.

Definition isort {A} (less : A -> A -> bool) (l : list A) : list A :=
  foldr (isort_insert less) [] l.

Lemma sorted_by_nil {A} (less : A -> A -> bool) : sorted_by less [].
Proof. intros i j a b _ Hi. by rewrite lookup_nil in Hi. Qed.

Lemma sorted_by_cons {A} (less : A -> A -> bool) x l :
  sorted_by less (x :: l) <->
  Forall (fun y => less y x = false) l /\ sorted_by less l.
Proof.
  split.
  - intros H. split.
    + apply Forall_lookup. intros j y Hy. apply (H 0%nat (S j)); [lia|done..].
    + intros i j a b Hij Ha Hb. apply (H (S i) (S j)); [lia|done..].
  - intros [Hx Hs] [|i] [|j] a b Hij Ha Hb; try lia; simpl in *.
    + injection Ha as ->. by eapply Forall_lookup in Hx.
    + apply (Hs i j); [lia|done..].
Qed.

Lemma isort_insert_perm {A} (less : A -> A -> bool) x l :
  isort_insert less x l ≡ₚ x :: l.
Proof.
  induction l as [|y l IH]; simpl; [done|].
  destruct (less y x); [|done]. rewrite IH. apply Permutation_swap.
Qed.

Lemma isort_perm {A} (less : A -> A -> bool) l : isort less l ≡ₚ l.
Proof.
  induction l as [|x l IH]; simpl; [done|]. by rewrite isort_insert_perm, IH.
Qed.

Lemma isort_insert_sorted {A} (less : A -> A -> bool) x l :
  weak_order less -> sorted_by less l -> sorted_by less (isort_insert less x l).
Proof.
  intros [Hasym Htr]. induction l as [|y l IH]; simpl; intros Hs.
  { apply sorted_by_cons. split; [done|apply sorted_by_nil]. }
  apply sorted_by_cons in Hs as [Hy Hs]. destruct (less y x) eqn:E.
  - apply sorted_by_cons. split; [|by apply IH].
    rewrite isort_insert_perm. constructor; [by apply Hasym|done].
  - apply sorted_by_cons. split; [|by apply sorted_by_cons].
    constructor; [done|]. eapply Forall_impl; [exact Hy|].
    simpl. intros z Hz. by apply (Htr z y x).
Qed.

Lemma isort_sorted {A} (less : A -> A -> bool) l :
  weak_order less -> sorted_by less (isort less l).
Proof.
  intros H. induction l; simpl; [apply sorted_by_nil|].
  by apply isort_insert_sorted.
Qed.

Definition isort_GoSort : GoSort := {|
  gosort := @isort; gosort_perm := @isort_perm; gosort_sorted := @isort_sorted |}.
