(* ===== verification/Bitset.v ===== *)
(** Bitsets of the linearizability checker (src/porcupine/bitset.go): a slice
    of 64-bit words, with bit [pos] in word [pos / 64].  The operations are
    shown to implement a finite set of positions. *)
From S2P Require Import Prelude.

Module Bitset.

(** ** Code *)

(** [type bitset []uint64] *)
Abbreviation bitset := (list Z).

Definition newBitset (bits : Z) : bitset :=
  let extra := if negb (bits `mod` 64 =? 0) then 1 else 0 in
  let chunks := bits / 64 + extra in
  replicate (Z.to_nat chunks) 0.

Definition clone (b : bitset) : bitset := b.

Definition bitsetIndex (pos : Z) : Z * Z := (pos / 64, pos `mod` 64).

Definition set (b : bitset) (pos : Z) : option bitset :=
  let '(major, minor) := bitsetIndex pos in
  w ← zget b major;
  zset b major (Z.lor w (u64 (Z.shiftl 1 minor))).

Definition clear (b : bitset) (pos : Z) : option bitset :=
  let '(major, minor) := bitsetIndex pos in
  w ← zget b major;
  zset b major (Z.ldiff w (u64 (Z.shiftl 1 minor))).

Definition get (b : bitset) (pos : Z) : option bool :=
  let '(major, minor) := bitsetIndex pos in
  w ← zget b major;
  Some (negb (Z.land w (u64 (Z.shiftl 1 minor)) =? 0)).

(** [bits.OnesCount64] of the standard library. *)
Definition onesCount64 (w : Z) : Z :=
  foldr (fun i n => n + Z.b2z (Z.testbit w (Z.of_nat i))) 0 (seq 0 64).

Definition popcnt (b : bitset) : Z :=
  foldl (fun total v => total + onesCount64 v) 0 b.

Definition hash (b : bitset) : Z :=
  foldl (fun h v => Z.lxor h v) (u64 (popcnt b)) b.

Definition equals (b b2 : bitset) : bool :=
  if negb (zlen b =? zlen b2) then false
  else forallb (fun p => p.1 =? p.2) (zip b b2).

(** ** Well-formedness and the set a bitset stands for *)

Definition wf (b : bitset) : Prop := Forall (fun w => 0 <= w < 2 ^ 64) b.

(** Capacity in bits. *)
Definition cap (b : bitset) : Z := 64 * zlen b.

(** [repr n b X]: below [n], exactly the positions of [X] are set. *)
Definition repr (n : Z) (b : bitset) (X : gset Z) : Prop :=
  n <= cap b /\ wf b /\
  forall pos, 0 <= pos < n -> get b pos = Some (bool_decide (pos ∈ X)).

(** ** Single bits *)

Lemma pow2_mask minor : 0 <= minor < 64 -> u64 (Z.shiftl 1 minor) = 2 ^ minor.
Proof.
  intros H. unfold u64. rewrite Z.shiftl_1_l. apply Z.mod_small.
  split; [lia|]. apply Z.pow_lt_mono_r; lia.
Qed.

Lemma mask_testbit m i :
  0 <= m -> 0 <= i -> Z.testbit (2 ^ m) i = (m =? i).
Proof.
  intros. destruct (Z.eqb_spec m i) as [->|].
  - by apply Z.pow2_bits_true.
  - by apply Z.pow2_bits_false.
Qed.

Lemma land_mask_zero w m :
  0 <= m -> (Z.land w (2 ^ m) =? 0) = negb (Z.testbit w m).
Proof.
  intros Hm. destruct (Z.testbit w m) eqn:E; simpl.
  - apply Z.eqb_neq. intros H0.
    assert (Z.testbit (Z.land w (2 ^ m)) m = true) as H1.
    { by rewrite Z.land_spec, E, Z.pow2_bits_true. }
    rewrite H0, Z.bits_0 in H1. done.
  - apply Z.eqb_eq. apply Z.bits_inj'. intros i Hi.
    rewrite Z.land_spec, Z.bits_0, mask_testbit by lia.
    destruct (Z.eqb_spec m i) as [<-|]; [by rewrite E|]. apply andb_false_r.
Qed.

Lemma index_bounds b pos :
  0 <= pos < cap b -> 0 <= pos / 64 < zlen b /\ 0 <= pos `mod` 64 < 64.
Proof.
  unfold cap. intros. pose proof (Z.mod_pos_bound pos 64).
  split; [|lia]. split; [apply Z.div_pos; lia|].
  apply Z.div_lt_upper_bound; lia.
Qed.

Lemma index_inj pos pos' :
  pos / 64 = pos' / 64 -> pos `mod` 64 = pos' `mod` 64 -> pos = pos'.
Proof.
  intros H1 H2. rewrite (Z.div_mod pos 64), (Z.div_mod pos' 64) by lia. lia.
Qed.

(** [get] reads the bit of the word. *)
Lemma get_testbit b pos w :
  zget b (pos / 64) = Some w ->
  get b pos = Some (Z.testbit w (pos `mod` 64)).
Proof.
  intros Hw. unfold get, bitsetIndex. rewrite Hw. simpl.
  pose proof (Z.mod_pos_bound pos 64).
  rewrite pow2_mask, land_mask_zero, negb_involutive by lia. done.
Qed.

Lemma get_None b pos : zget b (pos / 64) = None -> get b pos = None.
Proof. intros Hw. unfold get, bitsetIndex. by rewrite Hw. Qed.

(** The shared shape of [set] and [clear]: one word is rewritten by an
    operation that changes one bit. *)
Lemma update_spec (f : Z -> Z -> Z) (v : bool) (b : bitset) pos :
  (forall w m, 0 <= m < 64 -> 0 <= w < 2 ^ 64 -> 0 <= f w (2 ^ m) < 2 ^ 64) ->
  (forall w m i, 0 <= m < 64 -> 0 <= i ->
     Z.testbit (f w (2 ^ m)) i = if m =? i then v else Z.testbit w i) ->
  wf b -> 0 <= pos < cap b ->
  exists b',
    (w ← zget b (pos / 64);
     zset b (pos / 64) (f w (u64 (Z.shiftl 1 (pos `mod` 64))))) = Some b' /\
    wf b' /\ zlen b' = zlen b /\
    forall p, get b' p = if p =? pos then Some v else get b p.
Proof.
  intros Hrange Hbit Hwf Hpos.
  destruct (index_bounds b pos Hpos) as [Hmaj Hmin].
  destruct (proj2 (zget_is_Some b (pos / 64)) Hmaj) as [w Hw].
  rewrite Hw. simpl. rewrite pow2_mask by done.
  exists (<[Z.to_nat (pos / 64) := f w (2 ^ (pos `mod` 64))]> b).
  split_and!.
  - by apply zset_Some.
  - apply Forall_insert; [done|]. apply Hrange; [done|].
    apply zget_Some_lookup in Hw as [_ Hw].
    by eapply Forall_lookup in Hwf.
  - by rewrite zlen_insert.
  - intros p. destruct (decide (p / 64 = pos / 64)) as [Hp|Hp].
    + rewrite (get_testbit _ p (f w (2 ^ (pos `mod` 64))));
        [|rewrite Hp; by apply zget_insert_eq].
      pose proof (Z.mod_pos_bound p 64).
      rewrite Hbit by lia. rewrite (get_testbit b p w) by congruence.
      destruct (Z.eqb_spec (pos `mod` 64) (p `mod` 64)) as [Hm|Hm];
        destruct (Z.eqb_spec p pos) as [->|Hne]; try done.
      exfalso. apply Hne. by apply index_inj.
    + destruct (Z.eqb_spec p pos) as [->|]; [done|].
      unfold get, bitsetIndex. rewrite zget_insert_ne by lia. done.
Qed.

(** A nonnegative number with no bit at 64 or above is a 64-bit word. *)
Lemma bits_range x :
  0 <= x -> (forall i, 64 <= i -> Z.testbit x i = false) -> 0 <= x < 2 ^ 64.
Proof.
  intros Hx Hb. split; [done|].
  destruct (decide (x < 2 ^ 64)) as [|Hge]; [done|].
  assert (64 <= Z.log2 x) by (apply Z.log2_le_pow2; lia).
  pose proof (Z.bit_log2 x ltac:(lia)) as Hl. by rewrite Hb in Hl.
Qed.

Lemma word_high w i : 0 <= w < 2 ^ 64 -> 64 <= i -> Z.testbit w i = false.
Proof.
  intros Hw Hi. destruct (decide (w = 0)) as [->|]; [apply Z.bits_0|].
  apply Z.bits_above_log2; [lia|].
  enough (Z.log2 w < 64) by lia. apply Z.log2_lt_pow2; lia.
Qed.

Lemma lor_mask_range w m :
  0 <= m < 64 -> 0 <= w < 2 ^ 64 -> 0 <= Z.lor w (2 ^ m) < 2 ^ 64.
Proof.
  intros. apply bits_range.
  - apply Z.lor_nonneg; lia.
  - intros i Hi. rewrite Z.lor_spec, word_high, mask_testbit by lia.
    simpl. apply Z.eqb_neq. lia.
Qed.

Lemma ldiff_mask_range w m :
  0 <= m < 64 -> 0 <= w < 2 ^ 64 -> 0 <= Z.ldiff w (2 ^ m) < 2 ^ 64.
Proof.
  intros. apply bits_range.
  - apply Z.ldiff_nonneg; lia.
  - intros i Hi. by rewrite Z.ldiff_spec, word_high by lia.
Qed.

Lemma set_spec b pos :
  wf b -> 0 <= pos < cap b ->
  exists b', set b pos = Some b' /\ wf b' /\ zlen b' = zlen b /\
    forall p, get b' p = if p =? pos then Some true else get b p.
Proof.
  intros Hwf Hpos. unfold set, bitsetIndex.
  apply (update_spec Z.lor true b pos lor_mask_range); [|done|done].
  intros w m i Hm Hi. rewrite Z.lor_spec, mask_testbit by lia.
  destruct (m =? i); [apply orb_true_r|apply orb_false_r].
Qed.

Lemma clear_spec b pos :
  wf b -> 0 <= pos < cap b ->
  exists b', clear b pos = Some b' /\ wf b' /\ zlen b' = zlen b /\
    forall p, get b' p = if p =? pos then Some false else get b p.
Proof.
  intros Hwf Hpos. unfold clear, bitsetIndex.
  apply (update_spec Z.ldiff false b pos ldiff_mask_range); [|done|done].
  intros w m i Hm Hi. rewrite Z.ldiff_spec, mask_testbit by lia.
  destruct (m =? i); simpl; [apply andb_false_r|apply andb_true_r].
Qed.

(** ** The set interface used by the checker *)

Lemma repr_new n : 0 <= n -> repr n (newBitset n) ∅.
Proof.
  intros Hn. unfold newBitset. set (c := n / 64 + _).
  pose proof (Z.div_mod n 64 ltac:(lia)). pose proof (Z.mod_pos_bound n 64).
  assert (n <= 64 * c /\ 0 <= c) as [Hc Hc0].
  { subst c. pose proof (Z.div_pos n 64).
    destruct (Z.eqb_spec (n `mod` 64) 0); simpl; lia. }
  assert (n <= cap (replicate (Z.to_nat c) 0)) as Hcap.
  { unfold cap. rewrite zlen_replicate. lia. }
  split_and!; [done| |].
  - unfold wf. apply Forall_replicate. lia.
  - intros pos Hpos. destruct (index_bounds (replicate (Z.to_nat c) 0) pos)
      as [[w Hw]%zget_is_Some _]; [lia|].
    rewrite (get_testbit _ _ _ Hw).
    apply zget_Some_lookup in Hw as [_ [-> _]%lookup_replicate].
    rewrite Z.bits_0, bool_decide_false; set_solver.
Qed.

Lemma repr_set n b X pos :
  repr n b X -> 0 <= pos < n ->
  exists b', set b pos = Some b' /\ repr n b' ({[pos]} ∪ X).
Proof.
  intros (Hn & Hwf & Hget) Hpos.
  destruct (set_spec b pos Hwf ltac:(lia)) as (b' & Hb' & Hwf' & Hlen & Hg).
  exists b'. split; [done|]. split_and!; [|done|].
  - unfold cap in *. by rewrite Hlen.
  - intros p Hp. rewrite Hg. destruct (Z.eqb_spec p pos) as [->|Hne].
    + rewrite bool_decide_true; set_solver.
    + rewrite Hget by done. f_equal. apply bool_decide_ext. set_solver.
Qed.

Lemma repr_clear n b X pos :
  repr n b X -> 0 <= pos < n ->
  exists b', clear b pos = Some b' /\ repr n b' (X ∖ {[pos]}).
Proof.
  intros (Hn & Hwf & Hget) Hpos.
  destruct (clear_spec b pos Hwf ltac:(lia)) as (b' & Hb' & Hwf' & Hlen & Hg).
  exists b'. split; [done|]. split_and!; [|done|].
  - unfold cap in *. by rewrite Hlen.
  - intros p Hp. rewrite Hg. destruct (Z.eqb_spec p pos) as [->|Hne].
    + rewrite bool_decide_false; set_solver.
    + rewrite Hget by done. f_equal. apply bool_decide_ext. set_solver.
Qed.

Lemma equals_eq b b2 : equals b b2 = true <-> b = b2.
Proof.
  unfold equals. split.
  - destruct (zlen b =? zlen b2) eqn:El; simpl; [|done]. bsimp.
    unfold zlen in El. apply Nat2Z.inj in El. revert b2 El.
    induction b as [|x b IH]; intros [|y b2] El; simpl in *; try lia; [done|].
    intros H. bsimp. f_equal; [done|]. by apply IH; [lia|].
  - intros ->. rewrite Z.eqb_refl. simpl.
    induction b2; simpl; [done|]. by rewrite Z.eqb_refl.
Qed.

Lemma repr_equals n b b2 X Y :
  repr n b X -> repr n b2 Y -> equals b b2 = true ->
  forall pos, 0 <= pos < n -> pos ∈ X <-> pos ∈ Y.
Proof.
  intros (_ & _ & H1) (_ & _ & H2) ->%equals_eq pos Hpos.
  specialize (H1 pos Hpos). rewrite H2 in H1 by done.
  injection H1 as H1.
  rewrite <- (bool_decide_eq_true (pos ∈ X)), <- (bool_decide_eq_true (pos ∈ Y)).
  by rewrite H1.
Qed.
End Bitset.
