(* ===== verification/Porcupine.v ===== *)
(** The linearizability checker (src/porcupine/model.go, checker.go,
    porcupine.go): models, histories, the linked list of entries with its
    lift and unlift operations, the depth-first search of [checkSingle] and
    the aggregation of the partitions' verdicts.  Nodes live in a store
    addressed by pointers, as in the code. *)
From S2P Require Import Prelude Bitset.
Import Bitset.

Module Porcupine.

(** [type CheckResult string] *)
Inductive CheckResult := Unknown | Ok | Illegal.

#[export] Instance CheckResult_eq_dec : EqDecision CheckResult.
Proof. solve_decision. Defined.

(** [entryKind] and [EventKind] are booleans in the code. *)
Definition callEntry : bool := false.
Definition returnEntry : bool := true.
Definition CallEvent : bool := false.
Definition ReturnEvent : bool := true.

Section checker.
(** [V]: the dynamic values carried by [interface{}] inputs and outputs;
    [St]: the states of the model, comparable with [==]. *)
Context {V St : Type} `{!EqDecision St} `{!GoSort}.

Record Operation := mkOperation {
  op_ClientId : Z; op_Input : V; op_Call : Z; op_Output : V; op_Return : Z }.

Record Event := mkEvent {
  ev_ClientId : Z; ev_Kind : bool; ev_Value : V; ev_Id : Z }.

(** Fields that may be nil are options.  [Step] and [Partition] return [None]
    when a type assertion inside them fails.  The two Describe fields, which
    only feed the visualisation, are left out. *)
Record Model := mkModel {
  Partition : option (list Operation -> option (list (list Operation)));
  PartitionEvent : option (list Event -> option (list (list Event)));
  Init : St;
  Step : St -> V -> V -> option (bool * St);
  Equal : option (St -> St -> bool) }.

Definition NoPartition (history : list Operation) : option (list (list Operation)) :=
  Some [history].

Definition NoPartitionEvent (history : list Event) : option (list (list Event)) :=
  Some [history].

Definition ShallowEqual (state1 state2 : St) : bool :=
  bool_decide (state1 = state2).

Definition fillDefault (model : Model) : Model := {|
  Partition := match Partition model with
               | None => Some NoPartition | p => p end;
  PartitionEvent := match PartitionEvent model with
                    | None => Some NoPartitionEvent | p => p end;
  Init := Init model;
  Step := Step model;
  Equal := match Equal model with None => Some ShallowEqual | e => e end |}.

(** ** Entries *)

Record entry := mkEntry {
  e_kind : bool; e_value : V; e_id : Z; e_time : Z; e_clientId : Z }.

(** [byTime.Less] *)
Definition byTime_Less (a b : entry) : bool :=
  if negb (e_time a =? e_time b) then e_time a <? e_time b
  else eqb (e_kind a) callEntry && eqb (e_kind b) returnEntry.

(** The loop of [makeEntries], with [id] counting the operations. *)
Fixpoint makeEntries_from (id : Z) (history : list Operation) : list entry :=
  match history with
  | [] => []
  | elem :: history' =>
      mkEntry callEntry (op_Input elem) id (op_Call elem) (op_ClientId elem) ::
      mkEntry returnEntry (op_Output elem) id (op_Return elem) (op_ClientId elem) ::
      makeEntries_from (id + 1) history'
  end.

Definition makeEntries (history : list Operation) : list entry :=
  gosort byTime_Less (makeEntries_from 0 history).

(** [renumber]: the map [m] gives each identifier a number on first sight. *)
Fixpoint renumber_from (m : gmap Z Z) (id : Z) (events : list Event) : list Event :=
  match events with
  | [] => []
  | v :: events' =>
      match m !! ev_Id v with
      | Some r => mkEvent (ev_ClientId v) (ev_Kind v) (ev_Value v) r ::
                  renumber_from m id events'
      | None => mkEvent (ev_ClientId v) (ev_Kind v) (ev_Value v) id ::
                renumber_from (<[ev_Id v := id]> m) (id + 1) events'
      end
  end.

Definition renumber (events : list Event) : list Event := renumber_from ∅ 0 events.

Definition convertEntries (events : list Event) : list entry :=
  imap (fun i elem =>
    let kind := if eqb (ev_Kind elem) ReturnEvent then returnEntry else callEntry in
    mkEntry kind (ev_Value elem) (ev_Id elem) (Z.of_nat i) (ev_ClientId elem)) events.

(** ** The linked list *)

(** Pointers to nodes index the store; nil is [None]. *)
Abbreviation ptr := nat.

Record node := mkNode {
  n_value : option V; n_match : option ptr; n_id : Z;
  n_next : option ptr; n_prev : option ptr }.

Abbreviation heap := (list node).

Definition node_set_next (x : option ptr) (nd : node) : node :=
  mkNode (n_value nd) (n_match nd) (n_id nd) x (n_prev nd).
Definition node_set_prev (x : option ptr) (nd : node) : node :=
  mkNode (n_value nd) (n_match nd) (n_id nd) (n_next nd) x.

(** [p.next = x] and [p.prev = x] *)
Definition store_next (h : heap) (p : ptr) (x : option ptr) : option heap :=
  nd ← h !! p; Some (<[p := node_set_next x nd]> h).
Definition store_prev (h : heap) (p : ptr) (x : option ptr) : option heap :=
  nd ← h !! p; Some (<[p := node_set_prev x nd]> h).

Definition insertBefore (h : heap) (n : ptr) (mark : option ptr) : option heap :=
  match mark with
  | None => Some h
  | Some m =>
      nm ← h !! m;
      let beforeMark := n_prev nm in
      h ← store_prev h m (Some n);
      h ← store_next h n (Some m);
      match beforeMark with
      | None => Some h
      | Some b => h ← store_prev h n (Some b); store_next h b (Some n)
      end
  end.

(** [length]: the store bounds the number of steps of an acyclic list. *)
Fixpoint length_loop (fuel : nat) (h : heap) (n : option ptr) (l : Z) : result Z :=
  match n with
  | None => Ret l
  | Some p =>
      match fuel with
      | O => NoFuel
      | S fuel =>
          match h !! p with
          | None => Panic
          | Some nd => length_loop fuel h (n_next nd) (l + 1)
          end
      end
  end.

Definition list_length (h : heap) (n : option ptr) : result Z :=
  length_loop (length h) h n 0.

(** One iteration of [makeLinkedEntries]. *)
Definition linkEntry (elem : entry) (acc : option (heap * option ptr * gmap Z ptr)) :
    option (heap * option ptr * gmap Z ptr) :=
  '(h, root, matches) ← acc;
  let p := length h in
  if eqb (e_kind elem) returnEntry then
    h ← insertBefore (h ++ [mkNode (Some (e_value elem)) None (e_id elem) None None]) p root;
    Some (h, Some p, <[e_id elem := p]> matches)
  else
    h ← insertBefore
          (h ++ [mkNode (Some (e_value elem)) (matches !! e_id elem) (e_id elem) None None])
          p root;
    Some (h, Some p, matches).

Definition makeLinkedEntries (entries : list entry) : option (heap * option ptr) :=
  '(h, root, _) ← foldr linkEntry (Some ([], None, ∅)) entries;
  Some (h, root).

(** [p.prev], [p.next] and [p.match] when they are dereferenced next: a nil
    pointer is a panic. *)
Definition deref_prev (h : heap) (p : ptr) : option ptr := nd ← h !! p; n_prev nd.
Definition deref_next (h : heap) (p : ptr) : option ptr := nd ← h !! p; n_next nd.
Definition deref_match (h : heap) (p : ptr) : option ptr := nd ← h !! p; n_match nd.

Definition lift (h : heap) (e : ptr) : option heap :=
  ep ← deref_prev h e; ne ← h !! e;
  h ← store_next h ep (n_next ne);
  en ← deref_next h e; ne ← h !! e;
  h ← store_prev h en (n_prev ne);
  m ← deref_match h e;
  mp ← deref_prev h m; nm ← h !! m;
  h ← store_next h mp (n_next nm);
  nm ← h !! m;
  match n_next nm with
  | None => Some h
  | Some mn => store_prev h mn (n_prev nm)
  end.

Definition unlift (h : heap) (e : ptr) : option heap :=
  m ← deref_match h e;
  mp ← deref_prev h m;
  h ← store_next h mp (Some m);
  nm ← h !! m;
  h ← match n_next nm with
      | None => Some h
      | Some mn => store_prev h mn (Some m)
      end;
  ep ← deref_prev h e;
  h ← store_next h ep (Some e);
  en ← deref_next h e;
  store_prev h en (Some e).

(** ** The search *)

Record cacheEntry := mkCacheEntry { ce_linearized : bitset; ce_state : St }.

Definition cacheContains (model : Model) (cache : gmap Z (list cacheEntry))
    (ent : cacheEntry) : option bool :=
  eq ← Equal model;
  Some (existsb (fun elem =>
          equals (ce_linearized ent) (ce_linearized elem) &&
          eq (ce_state ent) (ce_state elem))
        (default [] (cache !! hash (ce_linearized ent)))).

Record callsEntry := mkCallsEntry { cl_entry : ptr; cl_state : St }.

(** The local variables of [checkSingle].  The slices that [longest] points
    to live in [c_seqs], so that sharing is visible. *)
Record checkState := mkCheck {
  c_heap : heap; c_entry : option ptr; c_state : St; c_linearized : bitset;
  c_cache : gmap Z (list cacheEntry); c_calls : list callsEntry;
  c_seqs : list (list Z); c_longest : list (option nat) }.

(** What one iteration of the loop leaves. *)
Inductive outcome :=
  | Running (c : checkState)
  | Finished (ok : bool) (seqs : list (list Z)) (longest : list (option nat)).

(** The identifiers of the calls, in order. *)
Definition calls_ids (h : heap) (calls : list callsEntry) : option (list Z) :=
  mapM (fun v => n_id <$> h !! cl_entry v) calls.

(** The inner loop that records partial linearizations; [seq] is the pointer
    to the lazily built sequence. *)
Fixpoint record_partial (h : heap) (calls all : list callsEntry)
    (seq : option nat) (seqs : list (list Z)) (longest : list (option nat)) :
    option (list (list Z) * list (option nat)) :=
  match calls with
  | [] => Some (seqs, longest)
  | v :: calls' =>
      nd ← h !! cl_entry v;
      cur ← zget longest (n_id nd);
      replace ← match cur with
                | None => Some true
                | Some q => old ← seqs !! q; Some (zlen old <? zlen all)
                end;
      if (replace : bool) then
        '(sq, seqs) ← match seq with
                      | Some sq => Some (sq, seqs)
                      | None => ids ← calls_ids h all; Some (length seqs, seqs ++ [ids])
                      end;
        longest ← zset longest (n_id nd) (Some sq);
        record_partial h calls' all (Some sq) seqs longest
      else record_partial h calls' all seq seqs longest
  end.

(** The body of the loop; [kill] is what this iteration reads from the flag. *)
Definition checkStep (model : Model) (computePartial kill : bool) (headEntry : ptr)
    (c : checkState) : option outcome :=
  hd ← c_heap c !! headEntry;
  match n_next hd with
  | None =>
      seq ← calls_ids (c_heap c) (c_calls c);
      Some (Finished true (c_seqs c ++ [seq])
             (map (fun _ => Some (length (c_seqs c))) (c_longest c)))
  | Some _ =>
      if kill then Some (Finished false (c_seqs c) (c_longest c))
      else
        e ← c_entry c;
        ne ← c_heap c !! e;
        match n_match ne with
        | Some matching =>
            nm ← c_heap c !! matching;
            inp ← n_value ne; out ← n_value nm;
            '(ok, newState) ← Step model (c_state c) inp out;
            if (ok : bool) then
              newLinearized ← set (clone (c_linearized c)) (n_id ne);
              let newCacheEntry := mkCacheEntry newLinearized newState in
              seen ← cacheContains model (c_cache c) newCacheEntry;
              if negb seen then
                let hsh := hash newLinearized in
                let cache := <[hsh := default [] (c_cache c !! hsh) ++ [newCacheEntry]]>
                               (c_cache c) in
                let calls := c_calls c ++ [mkCallsEntry e (c_state c)] in
                lin ← set (c_linearized c) (n_id ne);
                h ← lift (c_heap c) e;
                hd ← h !! headEntry;
                Some (Running (mkCheck h (n_next hd) newState lin cache calls
                                 (c_seqs c) (c_longest c)))
              else
                Some (Running (mkCheck (c_heap c) (n_next ne) (c_state c) (c_linearized c)
                                 (c_cache c) (c_calls c) (c_seqs c) (c_longest c)))
            else
              Some (Running (mkCheck (c_heap c) (n_next ne) (c_state c) (c_linearized c)
                               (c_cache c) (c_calls c) (c_seqs c) (c_longest c)))
        | None =>
            match last (c_calls c) with
            | None => Some (Finished false (c_seqs c) (c_longest c))
            | Some callsTop =>
                '(seqs, longest) ←
                  (if computePartial
                   then record_partial (c_heap c) (c_calls c) (c_calls c) None
                          (c_seqs c) (c_longest c)
                   else Some (c_seqs c, c_longest c));
                let e := cl_entry callsTop in
                ne ← c_heap c !! e;
                lin ← clear (c_linearized c) (n_id ne);
                h ← unlift (c_heap c) e;
                ne ← h !! e;
                Some (Running (mkCheck h (n_next ne) (cl_state callsTop) lin (c_cache c)
                                 (take (length (c_calls c) - 1) (c_calls c)) seqs longest))
            end
        end
  end.

(** The loop; [kill i] is the flag as iteration [i] reads it. *)
Fixpoint checkLoop (model : Model) (computePartial : bool) (kill : nat -> bool)
    (headEntry : ptr) (fuel iter : nat) (c : checkState) :
    result (bool * list (list Z) * list (option nat)) :=
  match fuel with
  | O => NoFuel
  | S fuel =>
      match checkStep model computePartial (kill iter) headEntry c with
      | None => Panic
      | Some (Finished ok seqs longest) => Ret (ok, seqs, longest)
      | Some (Running c) =>
          checkLoop model computePartial kill headEntry fuel (S iter) c
      end
  end.

(** The state before the first iteration, and the head node. *)
Definition checkInit (model : Model) (history : list entry) :
    result (checkState * ptr) :=
  '(h, e) ← of_option (makeLinkedEntries history);
  len ← list_length h e;
  let n := Z.quot len 2 in
  let headEntry := length h in
  h ← of_option (insertBefore (h ++ [mkNode None None (-1) None None]) headEntry e);
  mret (mkCheck h e (Init model) (newBitset n) ∅ [] []
          (replicate (Z.to_nat n) None), headEntry).

Definition checkSingle (model : Model) (history : list entry) (computePartial : bool)
    (kill : nat -> bool) (fuel : nat) : result (bool * list (list Z) * list (option nat)) :=
  '(c, headEntry) ← checkInit model history;
  checkLoop model computePartial kill headEntry fuel 0 c.

(** ** All partitions *)

(** What the select loop of [checkParallel] receives: the verdict of a
    partition's goroutine, or the time-out. *)
Inductive arrival :=
  | Done (i : nat)
  | Timeout.

Inductive collected :=
  | Blocked                                 (* nothing more will arrive *)
  | Broke (ok timedOut : bool) (count : Z). (* the loop was left *)

(** The select loop.  A zero [timeout] leaves [timeoutChan] nil, and receiving
    from a nil channel blocks. *)
Fixpoint collect (runs : nat -> result bool) (total : Z) (computeInfo : bool) (timeout : Z)
    (sched : list arrival) (ok : bool) (count : Z) : result collected :=
  match sched with
  | [] => Ret Blocked
  | Done i :: sched' =>
      r ← runs i;
      let count := count + 1 in
      let ok := ok && r in
      if negb ok && negb computeInfo then Ret (Broke ok false count)
      else if total <=? count then Ret (Broke ok false count)
      else collect runs total computeInfo timeout sched' ok count
  | Timeout :: _ => if 0 <? timeout then Ret (Broke ok true count) else Ret Blocked
  end.

Record linearizationInfo := mkInfo {
  li_history : list (list entry);
  li_partialLinearizations : list (list (list Z)) }.

(** The distinct sequences [longest] points to; the code iterates over a map
    keyed by the pointers, in an unspecified order. *)
Definition partials (seqs : list (list Z)) (longest : list (option nat)) : list (list Z) :=
  omap (fun q => seqs !! q) (remove_dups (omap id longest)).

(** The partial linearizations of the partitions [l]. *)
Fixpoint allPartials (run : nat -> result (bool * list (list Z) * list (option nat)))
    (l : list nat) : result (list (list (list Z))) :=
  match l with
  | [] => mret []
  | i :: l =>
      '(_, seqs, longest) ← run i;
      rest ← allPartials run l;
      mret (partials seqs longest :: rest)
  end.

(** [kills i j] is what goroutine [i] reads from [kill] in its iteration [j].
    [None]: the call never returns. *)
Definition checkParallel (model : Model) (history : list (list entry)) (computeInfo : bool)
    (timeout : Z) (sched : list arrival) (kills : nat -> nat -> bool) (fuel : nat) :
    result (option (CheckResult * linearizationInfo)) :=
  let run i :=
    subhistory ← of_option (history !! i);
    checkSingle model subhistory computeInfo (kills i) fuel in
  c ← collect (fun i => '(ok, _, _) ← run i; mret ok) (zlen history) computeInfo timeout
        sched true 0;
  match c with
  | Blocked => Ret None
  | Broke ok timedOut _ =>
      info ← (if computeInfo then
                p ← allPartials run (seq 0 (length history));
                mret (mkInfo history p)
              else mret (mkInfo [] []));
      let res := if negb ok then Illegal else if (timedOut : bool) then Unknown else Ok in
      Ret (Some (res, info))
  end.

Definition checkEvents (model : Model) (history : list Event) (verbose : bool) (timeout : Z)
    (sched : list arrival) (kills : nat -> nat -> bool) (fuel : nat) :
    result (option (CheckResult * linearizationInfo)) :=
  let model := fillDefault model in
  part ← of_option (PartitionEvent model);
  partitions ← of_option (part history);
  let l := map (fun subhistory => convertEntries (renumber subhistory)) partitions in
  checkParallel model l verbose timeout sched kills fuel.

Definition checkOperations (model : Model) (history : list Operation) (verbose : bool)
    (timeout : Z) (sched : list arrival) (kills : nat -> nat -> bool) (fuel : nat) :
    result (option (CheckResult * linearizationInfo)) :=
  let model := fillDefault model in
  part ← of_option (Partition model);
  partitions ← of_option (part history);
  let l := map makeEntries partitions in
  checkParallel model l verbose timeout sched kills fuel.

(** The public entry points (porcupine.go). *)
Definition CheckOperations (model : Model) (history : list Operation) sched kills fuel :
    result (option bool) :=
  r ← checkOperations model history false 0 sched kills fuel;
  Ret (option_map (fun p => bool_decide (p.1 = Ok)) r).

Definition CheckOperationsTimeout (model : Model) (history : list Operation) timeout sched
    kills fuel : result (option CheckResult) :=
  r ← checkOperations model history false timeout sched kills fuel;
  Ret (option_map fst r).

Definition CheckOperationsVerbose (model : Model) (history : list Operation) timeout sched
    kills fuel : result (option (CheckResult * linearizationInfo)) :=
  checkOperations model history true timeout sched kills fuel.

Definition CheckEvents (model : Model) (history : list Event) sched kills fuel :
    result (option bool) :=
  r ← checkEvents model history false 0 sched kills fuel;
  Ret (option_map (fun p => bool_decide (p.1 = Ok)) r).

Definition CheckEventsTimeout (model : Model) (history : list Event) timeout sched kills fuel :
    result (option CheckResult) :=
  r ← checkEvents model history false timeout sched kills fuel;
  Ret (option_map fst r).

Definition CheckEventsVerbose (model : Model) (history : list Event) timeout sched kills fuel :
    result (option (CheckResult * linearizationInfo)) :=
  checkEvents model history true timeout sched kills fuel.
End checker.

#[global] Arguments Operation : clear implicits.
#[global] Arguments Event : clear implicits.
#[global] Arguments Model : clear implicits.
#[global] Arguments entry : clear implicits.
#[global] Arguments node : clear implicits.
#[global] Arguments checkState : clear implicits.
#[global] Arguments outcome : clear implicits.
#[global] Arguments callsEntry : clear implicits.
#[global] Arguments cacheEntry : clear implicits.
End Porcupine.
