(* ===== verification/LinkedList.v ===== *)
(** The doubly linked list of the checker: [insertBefore], [makeLinkedEntries],
    [length], [lift] and [unlift] of src/porcupine/checker.go, shown to
    implement operations on the sequence of nodes, and [unlift] to undo
    [lift] exactly. *)
From S2P Require Import Prelude Bitset Porcupine.
Import Porcupine.

Module LinkedList.

Section list.
Context {V : Type}.
Abbreviation heap := (list (node V)).
Implicit Types (h : heap) (p q e m : nat) (l a b c : list nat) (nd : node V).

(** The fields that linking never changes. *)
Definition payload (nd : node V) : option V * option nat * Z :=
  (n_value nd, n_match nd, n_id nd).

Definition first (l : list nat) (nx : option nat) : option nat :=
  match l with [] => nx | p :: _ => Some p end.

Definition final (pv : option nat) (l : list nat) : option nat :=
  match last l with Some p => Some p | None => pv end.

(** [lseg h pv l nx]: the nodes [l] are linked in both directions, the first
    one's prev is [pv] and the last one's next is [nx]. *)
Fixpoint lseg h (pv : option nat) (l : list nat) (nx : option nat) : Prop :=
  match l with
  | [] => True
  | p :: l' =>
      (exists nd, h !! p = Some nd /\ n_prev nd = pv /\ n_next nd = first l' nx) /\
      lseg h (Some p) l' nx
  end.

Definition dll h (l : list nat) : Prop := NoDup l /\ lseg h None l None.

Lemma final_cons pv p l : final pv (p :: l) = final (Some p) l.
Proof. unfold final. rewrite last_cons. by destruct (last l). Qed.

Lemma final_snoc pv l p : final pv (l ++ [p]) = Some p.
Proof. unfold final. by rewrite last_snoc. Qed.

Lemma final_app pv l k : final pv (l ++ k) = final (final pv l) k.
Proof.
  unfold final. rewrite last_app. by destruct (last k).
Qed.

Lemma final_elem pv l p : l <> [] -> final pv l = Some p -> p ∈ l.
Proof.
  intros Hl. destruct l as [|q l _] using rev_ind; [done|].
  rewrite final_snoc. set_solver.
Qed.

Lemma first_app l k nx : first (l ++ k) nx = first l (first k nx).
Proof. by destruct l. Qed.

Lemma lseg_app h pv a b nx :
  lseg h pv (a ++ b) nx <-> lseg h pv a (first b nx) /\ lseg h (final pv a) b nx.
Proof.
  revert pv. induction a as [|p a IH]; intros pv; simpl; [naive_solver|].
  rewrite IH, first_app, final_cons. naive_solver.
Qed.

Lemma lseg_frame h pv l nx p nd :
  p ∉ l -> lseg h pv l nx -> lseg (<[p := nd]> h) pv l nx.
Proof.
  revert pv. induction l as [|q l IH]; intros pv Hp; simpl; [done|].
  intros [(nq & Hq & ?) Hl]. split; [|apply IH; [set_solver|done]].
  exists nq. rewrite list_lookup_insert_ne; [done|]. set_solver.
Qed.

(** Changing the next of the last node, or the prev of the first. *)
Lemma lseg_set_next h pv l p nd nx nx' :
  NoDup (l ++ [p]) -> h !! p = Some nd -> lseg h pv (l ++ [p]) nx ->
  lseg (<[p := node_set_next nx' nd]> h) pv (l ++ [p]) nx'.
Proof.
  intros Hnd Hp. rewrite !lseg_app. simpl. intros (Hl & (nd' & Hp' & Hpv & _) & _).
  apply NoDup_app in Hnd as (_ & Hnin & _).
  split; [apply lseg_frame; [set_solver|done]|].
  split; [|done]. eexists. split_and!.
  - apply list_lookup_insert_eq. by eapply lookup_lt_Some.
  - simpl. congruence.
  - done.
Qed.

Lemma lseg_set_prev h pv pv' p l nd nx :
  NoDup (p :: l) -> h !! p = Some nd -> lseg h pv (p :: l) nx ->
  lseg (<[p := node_set_prev pv' nd]> h) pv' (p :: l) nx.
Proof.
  intros [Hnin Hnd]%NoDup_cons Hp. simpl. intros [(nd' & Hp' & _ & Hnx) Hl].
  split; [|by apply lseg_frame]. eexists. split_and!.
  - apply list_lookup_insert_eq. by eapply lookup_lt_Some.
  - done.
  - simpl. congruence.
Qed.

Lemma lseg_lookup h pv l nx p :
  lseg h pv l nx -> p ∈ l -> is_Some (h !! p).
Proof.
  revert pv. induction l as [|q l IH]; intros pv; [set_solver|].
  simpl. intros [(nd & Hq & _) Hl]. rewrite elem_of_cons. intros [->|Hp]; eauto.
Qed.

(** The node in the middle of a list knows its neighbours. *)
Lemma lseg_middle h pv a e c nx :
  lseg h pv (a ++ e :: c) nx ->
  exists ne, h !! e = Some ne /\ n_prev ne = final pv a /\ n_next ne = first c nx.
Proof. rewrite lseg_app. simpl. naive_solver. Qed.

Lemma payload_insert_next h p nd x :
  h !! p = Some nd -> payload <$> <[p := node_set_next x nd]> h = payload <$> h.
Proof.
  intros H. rewrite list_fmap_insert. apply list_insert_id.
  by rewrite list_lookup_fmap, H.
Qed.

Lemma payload_insert_prev h p nd x :
  h !! p = Some nd -> payload <$> <[p := node_set_prev x nd]> h = payload <$> h.
Proof.
  intros H. rewrite list_fmap_insert. apply list_insert_id.
  by rewrite list_lookup_fmap, H.
Qed.

Lemma payload_lookup h h' p nd :
  payload <$> h = payload <$> h' -> h !! p = Some nd ->
  exists nd', h' !! p = Some nd' /\ payload nd' = payload nd.
Proof.
  intros Heq Hp. assert ((payload <$> h) !! p = Some (payload nd)) as H.
  { by rewrite list_lookup_fmap, Hp. }
  rewrite Heq, list_lookup_fmap in H.
  destruct (h' !! p) as [nd'|]; [|done].
  exists nd'. split; [done|]. simpl in H. congruence.
Qed.

(** ** Unlinking one node, and linking it again *)

(** [p.prev.next = p.next; if p.next != nil { p.next.prev = p.prev }] *)
Definition unlink h p : option heap :=
  pp ← deref_prev h p; np ← h !! p;
  h ← store_next h pp (n_next np);
  np ← h !! p;
  match n_next np with
  | None => Some h
  | Some pn => store_prev h pn (n_prev np)
  end.

(** [p.prev.next = p; if p.next != nil { p.next.prev = p }] *)
Definition relink h p : option heap :=
  pp ← deref_prev h p;
  h ← store_next h pp (Some p);
  np ← h !! p;
  match n_next np with
  | None => Some h
  | Some pn => store_prev h pn (Some p)
  end.

Lemma node_eta nd :
  mkNode (n_value nd) (n_match nd) (n_id nd) (n_next nd) (n_prev nd) = nd.
Proof. by destruct nd. Qed.

Lemma set_next_id nd x : n_next nd = x -> node_set_next x nd = nd.
Proof. intros <-. apply node_eta. Qed.

Lemma set_prev_id nd x : n_prev nd = x -> node_set_prev x nd = nd.
Proof. intros <-. apply node_eta. Qed.

Lemma lookup_insert_same h p nd nd' :
  h !! p = Some nd -> <[p := nd']> h !! p = Some nd'.
Proof. intros H. apply list_lookup_insert_eq. by eapply lookup_lt_Some. Qed.

(** Taking [p] out of the list and putting it back. *)
Definition unlinks h h' p : Prop :=
  payload <$> h' = payload <$> h /\ h' !! p = h !! p /\ relink h' p = Some h.

(** Unlinking the last node. *)
Lemma unlink_end h a w p :
  dll h (a ++ [w; p]) ->
  exists h', unlink h p = Some h' /\ dll h' (a ++ [w]) /\ unlinks h h' p.
Proof.
  intros [Hnd Hl].
  destruct (lseg_middle h None a w [p] None Hl) as (nw & Hw & _ & Hwn).
  change (a ++ [w; p]) with (a ++ [w] ++ [p]) in Hnd, Hl.
  rewrite app_assoc in Hnd, Hl.
  destruct (lseg_middle _ _ _ _ _ _ Hl) as (np & Hp & Hpp & Hpn).
  rewrite final_snoc in Hpp. simpl in *.
  apply lseg_app in Hl as [Hl _]. apply NoDup_app in Hnd as (Hnd & Hd & _).
  assert (w <> p) as Hne by (intros ->; apply (Hd p); set_solver).
  set (h1 := <[w := node_set_next None nw]> h).
  assert (h1 !! p = Some np) as Hp1 by (unfold h1; by rewrite list_lookup_insert_ne).
  assert (h1 !! w = Some (node_set_next None nw)) as Hw1
    by (by eapply lookup_insert_same).
  exists h1. unfold unlinks, unlink, relink, deref_prev, store_next.
  rewrite Hp, Hp1. simpl. rewrite Hpp, Hpn. simpl. rewrite Hw, Hw1. simpl.
  fold h1. rewrite Hp1. simpl. rewrite Hpn.
  split_and!; [done|by split; [|apply (lseg_set_next h _ _ _ nw (Some p))]|by apply payload_insert_next|done|].
  unfold h1. rewrite list_insert_insert_eq, (list_insert_id h w), Hp.
  - simpl. by rewrite Hpn.
  - rewrite Hw. f_equal. symmetry. by apply (set_next_id nw).
Qed.

(** Three nodes in a row point at each other. *)
Lemma three_nodes h a w p x c :
  dll h (a ++ w :: p :: x :: c) -> exists nw np nx,
    (h !! w = Some nw /\ n_next nw = Some p) /\
    (h !! p = Some np /\ n_prev np = Some w /\ n_next np = Some x) /\
    (h !! x = Some nx /\ n_prev nx = Some p) /\ w <> p /\ w <> x /\ p <> x.
Proof.
  intros [Hnd Hl].
  destruct (lseg_middle h None a w _ None Hl) as (nw & Hw & _ & Hwn).
  change (a ++ w :: p :: x :: c) with (a ++ [w] ++ [p] ++ x :: c) in Hl.
  rewrite app_assoc in Hl. pose proof Hl as Hl'. rewrite app_assoc in Hl'.
  destruct (lseg_middle _ _ _ _ _ _ Hl) as (np & Hp & Hpp & Hpn).
  destruct (lseg_middle _ _ _ _ _ _ Hl') as (nx & Hx & Hxp & _).
  rewrite final_snoc in Hpp, Hxp.
  apply NoDup_app in Hnd as (_ & _ & Hnd). rewrite !NoDup_cons in Hnd.
  exists nw, np, nx. split_and!; try done; set_solver.
Qed.

(** The list after [w] and [x] were joined. *)
Lemma dll_bypass h a w p x c nw nx :
  dll h (a ++ w :: p :: x :: c) -> h !! w = Some nw -> h !! x = Some nx ->
  dll (<[x := node_set_prev (Some w) nx]> (<[w := node_set_next (Some x) nw]> h)) (a ++ w :: x :: c).
Proof.
  intros [Hnd Hl] Hw Hx.
  change (a ++ w :: p :: x :: c) with (a ++ [w] ++ p :: x :: c) in Hnd, Hl.
  change (a ++ w :: x :: c) with (a ++ [w] ++ x :: c). rewrite app_assoc in Hnd, Hl |- *.
  apply lseg_app in Hl as [Hl Hr]. simpl in Hr. destruct Hr as [_ Hr].
  apply NoDup_app in Hnd as (Hnda & Hd & Hndc).
  rewrite !NoDup_cons in Hndc. destruct Hndc as (Hpx & Hxc & Hndc).
  assert (w <> x) as Hwx by (intros ->; apply (Hd x); set_solver).
  split; [apply NoDup_app; rewrite NoDup_cons; set_solver|].
  apply lseg_app. rewrite final_snoc. split.
  - apply lseg_frame; [intros ?; eapply (Hd x); set_solver|].
    by apply (lseg_set_next h _ _ _ nw (Some p)).
  - eapply lseg_set_prev; [by apply NoDup_cons|by rewrite list_lookup_insert_ne|].
    apply lseg_frame; [|done]. intros ?. eapply (Hd w); set_solver.
Qed.

(** Unlinking a node that has a successor [x]. *)
Lemma unlink_middle h a w p x c :
  dll h (a ++ w :: p :: x :: c) ->
  exists h', unlink h p = Some h' /\ dll h' (a ++ w :: x :: c) /\ unlinks h h' p.
Proof.
  intros Hdll. destruct (three_nodes _ _ _ _ _ _ Hdll)
    as (nw & np & nx & (Hw & Hwn) & (Hp & Hpp & Hpn) & (Hx & Hxp) & Hwp & Hwx & Hpx).
  pose proof (dll_bypass _ _ _ _ _ _ _ _ Hdll Hw Hx) as Hdll'.
  set (nw1 := node_set_next (Some x) nw) in *. set (nx1 := node_set_prev (Some w) nx) in *.
  set (h1 := <[w := nw1]> h) in *. set (h2 := <[x := nx1]> h1) in *.
  assert (h1 !! p = Some np) as Hp1 by (unfold h1; by rewrite list_lookup_insert_ne).
  assert (h1 !! x = Some nx) as Hx1 by (unfold h1; by rewrite list_lookup_insert_ne).
  assert (h2 !! p = Some np) as Hp2 by (unfold h2; by rewrite list_lookup_insert_ne).
  assert (h2 !! w = Some nw1) as Hw2.
  { unfold h2. rewrite list_lookup_insert_ne by done. by eapply lookup_insert_same. }
  assert (h2 !! x = Some nx1) as Hx2 by (by eapply lookup_insert_same).
  exists h2. unfold unlinks, unlink, relink, deref_prev, store_next, store_prev.
  rewrite Hp, Hp2. simpl. rewrite Hpp, Hpn. simpl. rewrite Hw, Hw2. simpl.
  fold nw1 h1. rewrite Hp1. simpl. rewrite Hpn, Hpp, Hx1. simpl. fold nx1 h2.
  split_and!; [done|done| |done|].
  - etrans; [by apply (payload_insert_prev h1 x nx)|].
    by apply (payload_insert_next h w nw).
  - rewrite list_lookup_insert_ne, Hp2 by done. simpl. rewrite Hpn.
    rewrite list_lookup_insert_ne, Hx2 by done. simpl. f_equal.
    unfold h2. rewrite (list_insert_insert_ne _ w x) by done.
    rewrite list_insert_insert_eq. unfold h1. rewrite list_insert_insert_eq.
    rewrite (list_insert_id h w), (list_insert_id h x); [done| |].
    + rewrite Hx. f_equal. symmetry. by apply (set_prev_id nx).
    + rewrite Hw. f_equal. symmetry. by apply (set_next_id nw).
Qed.

Lemma unlink_spec h a p c :
  a <> [] -> dll h (a ++ p :: c) ->
  exists h', unlink h p = Some h' /\ dll h' (a ++ c) /\ unlinks h h' p.
Proof.
  intros Ha. destruct a as [|w a _] using rev_ind; [done|].
  rewrite <- !app_assoc. simpl. destruct c as [|x c].
  - apply unlink_end.
  - apply unlink_middle.
Qed.

Lemma unlinks_payload h h' p : unlinks h h' p -> payload <$> h' = payload <$> h.
Proof. by intros (? & _). Qed.

Lemma deref_match_payload h h' p :
  payload <$> h' = payload <$> h -> deref_match h' p = deref_match h p.
Proof.
  intros Heq. assert ((payload <$> h') !! p = (payload <$> h) !! p) as H by (by rewrite Heq).
  rewrite !list_lookup_fmap in H. unfold deref_match, payload in *.
  destruct (h' !! p), (h !! p); simpl in *; congruence.
Qed.

(** [lift] unlinks the call and then its return; [unlift] links them again in
    the opposite order. *)
Lemma lift_unlink h e ne :
  h !! e = Some ne -> n_next ne <> None -> n_prev ne <> Some e ->
  lift h e = (h1 ← unlink h e; m ← deref_match h1 e; unlink h1 m).
Proof.
  intros He Hnx Hpv. unfold lift, unlink, deref_prev, deref_next, store_next.
  rewrite He. simpl. destruct (n_prev ne) as [pp|] eqn:Ep; simpl; [|done].
  destruct (h !! pp) as [npp|] eqn:Epp; simpl; [|done].
  rewrite list_lookup_insert_ne by congruence. rewrite He. simpl.
  destruct (n_next ne) as [nx|]; simpl; [|done]. by destruct (store_prev _ nx _).
Qed.

Lemma deref_next_store h h' p q e :
  store_next h p (Some q) = Some h' -> is_Some (deref_next h e) ->
  is_Some (deref_next h' e).
Proof.
  unfold store_next, deref_next. intros Hs Hx.
  destruct (h !! p) as [np|] eqn:Ep; simpl in Hs; [|done]. injection Hs as <-.
  destruct (decide (p = e)) as [<-|Hne].
  - by rewrite (lookup_insert_same h p np).
  - by rewrite list_lookup_insert_ne.
Qed.

Lemma unlift_relink h h1 h2 e m :
  deref_match h2 e = Some m -> relink h2 m = Some h1 -> relink h1 e = Some h ->
  is_Some (deref_next h1 e) -> unlift h2 e = Some h.
Proof.
  intros Hm Hr He Hnx. unfold unlift. rewrite Hm. simpl. unfold relink in Hr.
  destruct (deref_prev h2 m) as [mp|]; simpl in *; [|done].
  destruct (store_next h2 mp (Some m)) as [h3|]; simpl in *; [|done].
  destruct (h3 !! m) as [nm|]; simpl in *; [|done].
  rewrite Hr. simpl. unfold relink in He.
  destruct (deref_prev h1 e) as [ep|]; simpl in *; [|done].
  destruct (store_next h1 ep (Some e)) as [h4|] eqn:E4; simpl in *; [|done].
  destruct (deref_next_store _ _ _ _ _ E4 Hnx) as [en Hen].
  rewrite Hen. simpl. unfold deref_next in Hen.
  destruct (h4 !! e); simpl in *; [|done]. by rewrite Hen in He.
Qed.

Lemma lift_spec h a e b m c :
  a <> [] -> dll h (a ++ e :: b ++ m :: c) -> deref_match h e = Some m ->
  exists h', lift h e = Some h' /\ dll h' (a ++ b ++ c) /\
    payload <$> h' = payload <$> h /\ unlift h' e = Some h.
Proof.
  intros Ha Hd Hm.
  destruct (unlink_spec h a e _ Ha Hd) as (h1 & E1 & Hd1 & Hp1 & He1 & Hr1).
  rewrite app_assoc in Hd1.
  destruct (unlink_spec h1 (a ++ b) m c) as (h2 & E2 & Hd2 & Hp2 & _ & Hr2);
    [by destruct a|done|].
  destruct Hd as [Hnd Hl].
  destruct (lseg_middle _ _ _ _ _ _ Hl) as (ne & He & Hpv & Hnx).
  assert (is_Some (n_next ne)) as [x Hx] by (rewrite Hnx; destruct b; eauto).
  assert (n_prev ne <> Some e) as Hpe.
  { rewrite Hpv. intros Hf%final_elem; [|done].
    apply NoDup_app in Hnd as (_ & Hd & _). apply (Hd e); set_solver. }
  exists h2. split_and!.
  - rewrite (lift_unlink h e ne), E1 by (done || by rewrite Hx).
    simpl. by rewrite (deref_match_payload _ _ _ Hp1), Hm.
  - by rewrite app_assoc.
  - by rewrite Hp2.
  - eapply unlift_relink; [|exact Hr2|exact Hr1|].
    + by rewrite (deref_match_payload h1), (deref_match_payload h).
    + unfold deref_next. rewrite He1, He. simpl. by rewrite Hx.
Qed.

(** ** Building the list *)

Lemma length_loop_spec h pv l fuel acc :
  lseg h pv l None -> (length l <= fuel)%nat ->
  length_loop fuel h (first l None) acc = Ret (acc + zlen l).
Proof.
  revert pv fuel acc. induction l as [|p l IH]; intros pv fuel acc Hl Hf.
  - destruct fuel; simpl; f_equal; unfold zlen; simpl; lia.
  - destruct fuel as [|fuel]; simpl in *; [lia|].
    destruct Hl as [(nd & -> & _ & ->) Hl].
    rewrite (IH (Some p)) by (done || lia). f_equal. rewrite zlen_cons. lia.
Qed.

Lemma lseg_app_store h k pv l nx : lseg h pv l nx -> lseg (h ++ k) pv l nx.
Proof.
  revert pv. induction l as [|p l IH]; intros pv; simpl; [done|].
  intros [(np & Hp & ?) Hl]. split; [|by apply IH].
  exists np. split; [by apply lookup_app_l_Some|done].
Qed.

(** Inserting a fresh node in front of a list. *)
Lemma insertBefore_fresh h l nd :
  dll h l -> Forall (fun p => (p < length h)%nat) l ->
  n_next nd = None -> n_prev nd = None ->
  exists h', insertBefore (h ++ [nd]) (length h) (first l None) = Some h' /\
    dll h' (length h :: l) /\ payload <$> h' = payload <$> (h ++ [nd]).
Proof.
  intros [Hnd Hl] Hlt Hnx Hpv. set (n := length h).
  assert (n ∉ l) as Hnin.
  { intros Hin. rewrite Forall_forall in Hlt. specialize (Hlt _ Hin). lia. }
  apply (lseg_app_store _ [nd]) in Hl. set (k := h ++ [nd]) in *.
  assert (k !! n = Some nd) as Hn by (by apply list_lookup_middle).
  destruct l as [|p l]; simpl.
  - eexists. split_and!; [done| |done]. split; [apply NoDup_singleton|].
    split; [|done]. eauto.
  - pose proof Hl as [(np & Hp & Hpp & _) _]. rewrite Hp. simpl. rewrite Hpp.
    assert (p <> n) as Hpn by set_solver.
    unfold store_prev, store_next. rewrite Hp. simpl.
    rewrite list_lookup_insert_ne, Hn by done. simpl.
    eexists. split; [done|]. split; [split; [by apply NoDup_cons|split]|].
    + exists (node_set_next (Some p) nd). split; [|split; [exact Hpv|done]].
      apply (lookup_insert_same _ n nd). by rewrite list_lookup_insert_ne.
    + apply (lseg_frame _ _ (p :: l)); [done|]. by eapply lseg_set_prev.
    + etrans; [apply (payload_insert_next _ n nd)|by apply (payload_insert_prev k p np)].
      by rewrite list_lookup_insert_ne.
Qed.
End list.
End LinkedList.
