(* ===== verification/SearchSpec.v ===== *)
(** The abstract search behind [checkSingle] (src/porcupine/checker.go): the
    remaining entries as a list of nodes, the calls that may come next, and
    what it means that a remainder can be linearized from a state. *)
From S2P Require Import Prelude Bitset Porcupine.
Import Porcupine.

Set Default Proof Using "Type".

Module SearchSpec.

Section rem.
Context (nid : nat -> Z).
Implicit Types (L : list nat) (X : gset Z).

(** The remainder once the operations [X] are linearized. *)
Definition rem L X : list nat := filter (fun p => nid p ∉ X) L.

Lemma rem_empty L : rem L ∅ = L.
Proof.
  unfold rem. induction L as [|p L IH]; [done|].
  rewrite filter_cons_True by set_solver. by rewrite IH.
Qed.

Lemma rem_union L X Y : rem L (X ∪ Y) = rem (rem L X) Y.
Proof.
  unfold rem. rewrite list_filter_filter. apply list_filter_iff. set_solver.
Qed.

Lemma rem_all L X : (forall p, p ∈ L -> nid p ∉ X) -> rem L X = L.
Proof.
  unfold rem. induction L as [|p L IH]; intros H; [done|].
  rewrite filter_cons_True by (apply H; set_solver).
  rewrite IH; [done|]. intros q Hq. apply H. set_solver.
Qed.

End rem.

Section wf.
Context (mt : nat -> option nat) (nid : nat -> Z).
Abbreviation rem := (rem nid).
Implicit Types (L a b c : list nat) (p q m : nat) (X : gset Z).

Definition is_call p : Prop := is_Some (mt p).

(** Every call is followed by its return, and nothing else shares its id. *)
Definition pair_at L p m : Prop :=
  exists a b c, L = a ++ p :: b ++ m :: c /\ mt m = None /\ nid m = nid p.

Record wf_list L : Prop := {
  wf_nodup : NoDup L;
  wf_call p m : p ∈ L -> mt p = Some m -> pair_at L p m;
  wf_ret m : m ∈ L -> mt m = None -> exists p, p ∈ L /\ mt p = Some m;
  wf_inj p q : p ∈ L -> q ∈ L -> is_call p -> is_call q -> nid p = nid q -> p = q }.

(** Nothing else in the list has the id of a call and its return. *)
Lemma wf_other a p b m c q :
  wf_list (a ++ p :: b ++ m :: c) -> mt p = Some m -> q ∈ a ++ b ++ c ->
  nid q <> nid p.
Proof.
  intros Hwf Hm Hq Hid. set (L := a ++ p :: b ++ m :: c) in *.
  assert (q <> p /\ q <> m) as [Hqp Hqm].
  { pose proof (wf_nodup L Hwf) as Hnd. unfold L in Hnd.
    rewrite !NoDup_app, !NoDup_cons, !NoDup_app, !NoDup_cons in Hnd.
    set_solver. }
  assert (q ∈ L) as HqL by set_solver. assert (p ∈ L) as HpL by set_solver.
  destruct (mt q) as [m'|] eqn:Eq.
  - apply Hqp. apply (wf_inj L Hwf); [done|done|by exists m'|by exists m|done].
  - destruct (wf_ret L Hwf q HqL Eq) as (q' & Hq' & Emq').
    destruct (wf_call L Hwf q' q Hq' Emq') as (? & ? & ? & _ & _ & Hid').
    assert (q' = p) as ->.
    { apply (wf_inj L Hwf); [done|done|by exists q|by exists m|congruence]. }
    congruence.
Qed.

Lemma rem_pair a p b m c :
  wf_list (a ++ p :: b ++ m :: c) -> mt p = Some m ->
  rem (a ++ p :: b ++ m :: c) {[nid p]} = a ++ b ++ c.
Proof.
  intros Hwf Hm. pose proof (wf_other a p b m c) as Ho.
  assert (nid m = nid p) as Hid.
  { destruct (wf_call _ Hwf p m) as (? & ? & ? & _ & _ & ?); [set_solver|done|done]. }
  unfold rem. rewrite !filter_app, filter_cons_False by set_solver.
  rewrite filter_app, filter_cons_False by set_solver.
  fold (rem a {[nid p]}) (rem b {[nid p]}) (rem c {[nid p]}).
  rewrite !rem_all; [done|..]; intros q Hq; specialize (Ho q Hwf Hm); set_solver.
Qed.

Lemma wf_rem L X : wf_list L -> wf_list (rem L X).
Proof.
  intros Hwf. split.
  - apply NoDup_filter, (wf_nodup _ Hwf).
  - intros p m [HpX Hp]%list_elem_of_filter Hm.
    destruct (wf_call _ Hwf p m Hp Hm) as (a & b & c & -> & Hmm & Hid).
    exists (rem a X), (rem b X), (rem c X). split; [|done].
    unfold rem. rewrite !filter_app, filter_cons_True by done.
    rewrite filter_app, filter_cons_True by (by rewrite Hid). done.
  - intros m [HmX Hm]%list_elem_of_filter Hmm.
    destruct (wf_ret _ Hwf m Hm Hmm) as (p & Hp & Hpm).
    exists p. split; [|done]. apply list_elem_of_filter. split; [|done].
    by destruct (wf_call _ Hwf p m Hp Hpm) as (? & ? & ? & _ & _ & <-).
  - intros p q [_ Hp]%list_elem_of_filter [_ Hq]%list_elem_of_filter.
    by apply (wf_inj _ Hwf).
Qed.

(** The last entry of a non-empty list is a return. *)
Lemma wf_not_all_calls L : wf_list L -> Forall is_call L -> L = [].
Proof.
  intros Hwf Hall. destruct L as [|p L]; [done|exfalso].
  pose proof Hall as Hall'. apply Forall_cons in Hall' as [[m Hm] _].
  destruct (wf_call _ Hwf p m) as (a & b & c & Heq & Hmm & _); [set_solver|done|].
  rewrite Forall_forall in Hall. destruct (Hall m) as [? ?]; [|congruence].
  rewrite Heq. set_solver.
Qed.
End wf.

Section spec.
Context {V St : Type}.
(** The model's step, and the fixed part of the nodes: value, match, id. *)
Context (step : St -> V -> V -> option (bool * St)).
Context (val : nat -> option V) (mt : nat -> option nat) (nid : nat -> Z).
Abbreviation rem := (rem nid).
Abbreviation is_call := (is_call mt).
Abbreviation wf_list := (wf_list mt nid).
Implicit Types (L a b c : list nat) (p q m : nat) (s : St) (X : gset Z).

(** [child L s p s' L']: executing call [p] in state [s] is legal, leads to
    [s'], and leaves [L'] once the call and its return are taken out. *)
Definition child L s p s' L' : Prop :=
  exists a b m c vp vm,
    L = a ++ p :: b ++ m :: c /\ L' = a ++ b ++ c /\ mt p = Some m /\
    val p = Some vp /\ val m = Some vm /\ step s vp vm = Some (true, s').

(** [lin s L]: the remaining entries can be linearized from [s], choosing at
    each step a call that no remaining return precedes. *)
Inductive lin : St -> list nat -> Prop :=
  | lin_nil s : lin s []
  | lin_step s a p r s' L' :
      Forall is_call a -> child (a ++ p :: r) s p s' L' -> lin s' L' ->
      lin s (a ++ p :: r).

(** A call whose execution cannot be completed to a linearization. *)
Definition dead L s p : Prop := forall s' L', child L s p s' L' -> ~ lin s' L'.

Lemma child_mt L s p s' L' : child L s p s' L' -> is_call p.
Proof. intros (a & b & m & c & vp & vm & _ & _ & Hm & _). by exists m. Qed.

(** The return of a call is unique, so are the split and the remainder. *)
Lemma child_rem L s p s' L' :
  wf_list L -> child L s p s' L' -> L' = rem L {[nid p]}.
Proof.
  intros Hwf (a & b & m & c & vp & vm & -> & -> & Hm & _).
  symmetry. by apply (rem_pair mt).
Qed.

Lemma child_wf L s p s' L' : wf_list L -> child L s p s' L' -> wf_list L'.
Proof. intros Hwf Hc. rewrite (child_rem _ _ _ _ _ Hwf Hc). by apply wf_rem. Qed.

(** When every call in front of the first return is dead, so is the list. *)
Lemma dead_prefix_not_lin L s a m r :
  L = a ++ m :: r -> mt m = None -> Forall (dead L s) a -> ~ lin s L.
Proof.
  intros HL Hm Hdead Hlin. inversion Hlin as [? HL'|? a' p r' s' L' Ha' Hc Hl Hs HL'].
  { subst. by destruct a. }
  rewrite HL' in Hc. rewrite Forall_forall in Hdead.
  assert (p ∈ a) as Hp; [|by apply (Hdead p Hp s' L')].
  rewrite HL in HL'. clear -Ha' Hm HL' Hc.
  revert a HL'. induction a' as [|x a' IH]; intros [|y a] HL'; simplify_eq/=.
  - apply child_mt in Hc as [? ?]. congruence.
  - set_solver.
  - apply Forall_cons in Ha' as [[? ?] _]. congruence.
  - apply Forall_cons in Ha' as [_ Ha']. apply elem_of_cons. right. by apply IH.
Qed.
End spec.
End SearchSpec.
