(* ===== verification/CheckerProof.v ===== *)
(** Correctness of the loop of [checkSingle]: an invariant relating its
    variables to the abstract search, from which follow soundness,
    completeness, absence of panics and termination. *)
From S2P Require Import Prelude Bitset Porcupine LinkedList SearchSpec.
Import Bitset Porcupine LinkedList SearchSpec.

Module CheckerProof.

(** An upper bound on the number of iterations that explore completely a
    list of [k] operations, and the one from a position with [r] nodes left. *)
Fixpoint budget (k : nat) : nat :=
  match k with O => 1%nat | S k' => (2 * k * (1 + budget k') + 1)%nat end.

Definition weight (k r : nat) : nat := (r * (1 + budget (k - 1)) + 1)%nat.

Lemma weight_pos k r : (0 < weight k r)%nat.
Proof. unfold weight. lia. Qed.

Lemma weight_cons k (p : nat) (r : list nat) :
  weight k (length (p :: r)) = (weight k (length r) + budget (k - 1) + 1)%nat.
Proof. unfold weight. simpl. lia. Qed.

Lemma weight_full k : (weight k (2 * k) <= budget k)%nat.
Proof. destruct k; unfold weight; simpl; [lia|]. rewrite Nat.sub_0_r. lia. Qed.

Section proof.
Context {V St : Type} `{!EqDecision St} (M : Model V St).
Context (eqf : St -> St -> bool) (HEq : Equal M = Some eqf).
Context (Heqf : forall s s', eqf s s' = true -> s = s').

Implicit Types (h : list (node V)) (s : St) (X : gset Z).

(** The initial store, head node and list of entry nodes. *)
Context (h0 : list (node V)) (hp : nat) (L0 : list nat) (n : nat).

Definition val (p : nat) : option V := nd ← h0 !! p; n_value nd.
Definition mt (p : nat) : option nat := nd ← h0 !! p; n_match nd.
Definition nid (p : nat) : Z := default 0 (n_id <$> h0 !! p).

Abbreviation child := (child (Step M) val mt).
Abbreviation lin := (lin (Step M) val mt).
Abbreviation dead := (dead (Step M) val mt).
Abbreviation is_call := (is_call mt).
Abbreviation wf_list := (wf_list mt nid).
Abbreviation rem := (rem nid).

Context (Hdll0 : dll h0 (hp :: L0)) (Hwf0 : wf_list L0).
Context (Hids : forall p, p ∈ L0 -> 0 <= nid p < Z.of_nat n).
Context (Hlen0 : length L0 = (2 * n)%nat).
(** The type assertions of the model succeed on the entries. *)
Context (Htyped : forall s p m, p ∈ L0 -> mt p = Some m ->
  exists vp vm r, val p = Some vp /\ val m = Some vm /\ Step M s vp vm = Some r).

(** [stack h L s calls X lv w]: the calls on the stack lead from the initial
    configuration to the store [h] with the remaining nodes [L], in state [s],
    with the identifiers [X] linearized; [lv] lists the set and the state of
    every level, [w] is the budget left for the levels below, and every
    candidate passed over on the way is dead. *)
Inductive stack : list (node V) -> list nat -> St -> list (callsEntry St) ->
    gset Z -> list (gset Z * St) -> nat -> Prop :=
  | stack_nil : stack h0 L0 (Init M) [] ∅ [(∅, Init M)] 0
  | stack_snoc h L s calls X lv w h' a p r s' L' :
      stack h L s calls X lv w ->
      L = a ++ p :: r -> Forall is_call a -> Forall (dead L s) a ->
      child L s p s' L' ->
      dll h' (hp :: L') -> payload <$> h' = payload <$> h -> unlift h' p = Some h ->
      stack h' L' s' (calls ++ [mkCallsEntry p s]) ({[nid p]} ∪ X)
        (lv ++ [({[nid p]} ∪ X, s')]) (w + weight (n - length calls) (length r)).

Record stack_facts h L (s : St) (calls : list (callsEntry St)) X (lv : list (gset Z * St)) : Prop := {
  sf_dll : dll h (hp :: L);
  sf_payload : payload <$> h = payload <$> h0;
  sf_rem : L = rem L0 X;
  sf_sub : forall i, i ∈ X -> 0 <= i < Z.of_nat n;
  sf_size : size X = length calls;
  sf_len : (length L + 2 * length calls = 2 * n)%nat;
  sf_levels : forall Y t, (Y, t) ∈ lv -> (size Y <= length calls)%nat;
  sf_last : last lv = Some (X, s);
  sf_calls : Forall (fun v => cl_entry v ∈ L0) calls;
  sf_ids : forall i, i ∈ X <-> exists v, v ∈ calls /\ nid (cl_entry v) = i }.

Lemma stack_wf h L s calls X lv : stack_facts h L s calls X lv -> wf_list L.
Proof. intros F. rewrite (sf_rem _ _ _ _ _ _ F). by apply wf_rem. Qed.

Lemma rem_sub X p : p ∈ rem L0 X -> p ∈ L0 /\ nid p ∉ X.
Proof. unfold SearchSpec.rem. rewrite list_elem_of_filter. naive_solver. Qed.

Lemma child_elem L s p s' L' : child L s p s' L' -> p ∈ L.
Proof. intros (a & b & m & c & ? & ? & -> & _). set_solver. Qed.

Lemma child_length L s p s' L' : child L s p s' L' -> length L = (2 + length L')%nat.
Proof.
  intros (a & b & m & c & ? & ? & -> & -> & _).
  rewrite !length_app. simpl. rewrite !length_app. simpl. lia.
Qed.

Lemma stack_facts_hold h L s calls X lv w :
  stack h L s calls X lv w -> stack_facts h L s calls X lv.
Proof.
  induction 1 as [|h L s calls X lv w h' a p r s' L' _ F HL _ _ Hc Hd' Hp' _].
  - split; try done.
    + by rewrite rem_empty.
    + simpl. lia.
    + intros Y t Hin%list_elem_of_singleton. by injection Hin as -> _.
    + set_solver.
  - pose proof (stack_wf _ _ _ _ _ _ F) as Hwf.
    pose proof (child_elem _ _ _ _ _ Hc) as Hp. rewrite (sf_rem _ _ _ _ _ _ F) in Hp.
    apply rem_sub in Hp as [Hp0 HpX].
    assert (size ({[nid p]} ∪ X) = S (length calls)) as Hsz.
    { rewrite size_union, size_singleton, (sf_size _ _ _ _ _ _ F) by set_solver. lia. }
    split.
    + done.
    + by rewrite Hp', (sf_payload _ _ _ _ _ _ F).
    + rewrite (child_rem _ _ _ _ _ _ _ _ _ Hwf Hc), (sf_rem _ _ _ _ _ _ F).
      rewrite <- rem_union. f_equal. set_solver.
    + intros i. rewrite elem_of_union, elem_of_singleton.
      intros [->|Hi]; [by apply Hids|by apply (sf_sub _ _ _ _ _ _ F)].
    + rewrite Hsz, length_app. simpl. lia.
    + pose proof (child_length _ _ _ _ _ Hc). pose proof (sf_len _ _ _ _ _ _ F).
      rewrite length_app. simpl. lia.
    + intros Y t. rewrite length_app. simpl.
      intros [Hin|Hin%list_elem_of_singleton]%elem_of_app;
        [|injection Hin as -> _; lia].
      pose proof (sf_levels _ _ _ _ _ _ F _ _ Hin). lia.
    + by rewrite last_snoc.
    + apply Forall_app. split; [apply (sf_calls _ _ _ _ _ _ F)|by constructor].
    + intros i. rewrite elem_of_union, (sf_ids _ _ _ _ _ _ F), elem_of_singleton.
      setoid_rewrite elem_of_app. setoid_rewrite list_elem_of_singleton.
      naive_solver.
Qed.

(** A linearization of the remainder extends to one of the whole history. *)
Lemma stack_lin h L s calls X lv w :
  stack h L s calls X lv w -> lin s L -> lin (Init M) L0.
Proof.
  induction 1 as [|h L s calls X lv w h' a p r s' L' _ IH -> Ha _ Hc _ _ _]; [done|].
  intros Hl. apply IH. by eapply lin_step.
Qed.

(** Every cached configuration is on the stack or cannot be completed. *)
Definition cache_inv (lv : list (gset Z * St)) (cache : gmap Z (list (cacheEntry St))) : Prop :=
  forall key elems elem, cache !! key = Some elems -> elem ∈ elems ->
  exists X, repr (Z.of_nat n) (ce_linearized elem) X /\
    (forall i, i ∈ X -> 0 <= i < Z.of_nat n) /\
    ((X, ce_state elem) ∈ lv \/ ~ lin (ce_state elem) (rem L0 X)).

(** The state after the calls [ps] are executed one after the other. *)
Fixpoint run_calls (s : St) (ps : list nat) : option St :=
  match ps with
  | [] => Some s
  | p :: ps =>
      m ← mt p; vp ← val p; vm ← val m;
      '(ok, s') ← Step M s vp vm;
      if (ok : bool) then run_calls s' ps else None
  end.

Lemma run_calls_snoc s ps p s1 m vp vm s2 :
  run_calls s ps = Some s1 -> mt p = Some m -> val p = Some vp -> val m = Some vm ->
  Step M s1 vp vm = Some (true, s2) -> run_calls s (ps ++ [p]) = Some s2.
Proof.
  intros Hrun Hm Hp Hvm Hst. revert s Hrun. induction ps as [|q ps IH]; intros s; simpl.
  - intros [= ->]. rewrite Hm. simpl. rewrite Hp. simpl. rewrite Hvm. simpl. by rewrite Hst.
  - destruct (mt q) as [mq|]; simpl; [|done]. destruct (val q) as [vq|]; simpl; [|done].
    destruct (val mq) as [vmq|]; simpl; [|done].
    destruct (Step M s vq vmq) as [[[] s']|]; simpl; [|done..]. apply IH.
Qed.

(** The calls on the stack lead to the current state. *)
Lemma stack_run h L s calls X lv w :
  stack h L s calls X lv w -> run_calls (Init M) (map cl_entry calls) = Some s.
Proof.
  induction 1 as [|h L s calls X lv w h' a p r s' L' _ IH _ _ _ Hc _ _ _]; [done|].
  destruct Hc as (? & ? & m & ? & vp & vm & _ & _ & Hm & Hp & Hvm & Hst).
  rewrite map_app. by eapply run_calls_snoc.
Qed.

(** A sequence of identifiers that the model can execute. *)
Definition explained (ids : list Z) : Prop :=
  exists ps s, ids = map nid ps /\ Forall (fun p => p ∈ L0) ps /\ run_calls (Init M) ps = Some s.

(** The diagnostics stay in bounds, and what they record can be executed. *)
Record longest_inv (seqs : list (list Z)) (longest : list (option nat)) : Prop := {
  lg_len : length longest = n;
  lg_in i q : longest !! i = Some (Some q) -> is_Some (seqs !! q);
  lg_explained : Forall explained seqs }.

(** The loop invariant: [a] are the candidates already passed over, [r] starts
    at the current entry. *)
Inductive inv (c : checkState V St) : nat -> Prop :=
  inv_intro L X lv w a r :
    stack (c_heap c) L (c_state c) (c_calls c) X lv w ->
    repr (Z.of_nat n) (c_linearized c) X ->
    L = a ++ r -> Forall is_call a -> Forall (dead L (c_state c)) a ->
    c_entry c = first r None ->
    cache_inv lv (c_cache c) ->
    longest_inv (c_seqs c) (c_longest c) ->
    inv c (w + weight (n - length (c_calls c)) (length r)).

(** ** Reading the store *)

Lemma head_node h L :
  dll h (hp :: L) -> exists nd, h !! hp = Some nd /\ n_next nd = first L None.
Proof. intros [_ [(nd & ? & _ & ?) _]]. eauto. Qed.

Lemma payload_node h p ne :
  payload <$> h = payload <$> h0 -> h !! p = Some ne ->
  n_match ne = mt p /\ n_id ne = nid p /\ n_value ne = val p.
Proof.
  intros Heq Hp. destruct (payload_lookup h h0 p ne Heq Hp) as (n0 & Hn0 & Hpl).
  unfold mt, nid, val. rewrite Hn0. simpl. unfold payload in Hpl. simplify_eq. by split_and!.
Qed.

Lemma entry_node h a p r :
  dll h (hp :: a ++ p :: r) -> payload <$> h = payload <$> h0 ->
  exists ne, h !! p = Some ne /\ n_next ne = first r None /\
    n_match ne = mt p /\ n_id ne = nid p /\ n_value ne = val p.
Proof.
  intros [_ Hl] Hpl. rewrite app_comm_cons in Hl.
  destruct (lseg_middle _ _ _ _ _ _ Hl) as (ne & Hp & _ & Hnx).
  exists ne. split; [done|]. split; [done|]. by apply (payload_node h).
Qed.

(** The return matched with a call of the list comes later in it. *)
Lemma call_split a p r m :
  wf_list (a ++ p :: r) -> mt p = Some m ->
  exists b c, r = b ++ m :: c.
Proof.
  intros Hwf Hm. destruct (wf_call _ _ _ Hwf p m) as (a' & b & c & Heq & _);
    [set_solver|done|].
  exists b, c. by apply NoDup_split in Heq as [_ ->]; [|apply (wf_nodup _ _ _ Hwf)].
Qed.

(** ** The three kinds of iterations *)

(** A candidate that cannot be completed is passed over. *)
Lemma inv_skip c L X lv w a p r :
  stack (c_heap c) L (c_state c) (c_calls c) X lv w ->
  repr (Z.of_nat n) (c_linearized c) X ->
  L = a ++ p :: r -> Forall is_call a -> Forall (dead L (c_state c)) a ->
  is_call p -> dead L (c_state c) p ->
  cache_inv lv (c_cache c) -> longest_inv (c_seqs c) (c_longest c) ->
  inv (mkCheck (c_heap c) (first r None) (c_state c) (c_linearized c)
         (c_cache c) (c_calls c) (c_seqs c) (c_longest c))
      (w + weight (n - length (c_calls c)) (length r)).
Proof.
  intros Hst Hrep -> Ha Hd Hp Hdp Hc Hlg.
  apply (inv_intro (mkCheck _ _ _ _ _ _ _ _) (a ++ p :: r) X lv w (a ++ [p]) r);
    simpl; try done.
  - by rewrite <- app_assoc.
  - apply Forall_app. split; [done|by constructor].
  - apply Forall_app. split; [done|by constructor].
Qed.

Lemma cache_inv_snoc lv x cache : cache_inv lv cache -> cache_inv (lv ++ [x]) cache.
Proof.
  intros H key elems elem Hk He. destruct (H key elems elem Hk He) as (Y & ? & ? & HY).
  exists Y. split_and!; [done|done|]. rewrite elem_of_app. naive_solver.
Qed.

(** The configuration just pushed enters the cache. *)
Lemma cache_inv_insert lv cache key lin' s X :
  cache_inv lv cache -> repr (Z.of_nat n) lin' X ->
  (forall i, i ∈ X -> 0 <= i < Z.of_nat n) -> (X, s) ∈ lv ->
  cache_inv lv (<[key := default [] (cache !! key) ++ [mkCacheEntry lin' s]]> cache).
Proof.
  intros H Hr HX Hin k elems elem. rewrite lookup_insert_Some.
  intros [[<- <-]|[Hne Hk]] He; [|by eapply H].
  apply elem_of_app in He as [He| ->%list_elem_of_singleton].
  - destruct (cache !! key) as [es|] eqn:E; simpl in He; [by eapply H|].
    by apply elem_of_nil in He.
  - exists X. split_and!; [done|done|by left].
Qed.

(** A legal candidate is executed and taken out of the list. *)
Lemma inv_lift c L X lv w a p r m vp vm s' lin' :
  stack (c_heap c) L (c_state c) (c_calls c) X lv w ->
  L = a ++ p :: r -> Forall is_call a -> Forall (dead L (c_state c)) a ->
  mt p = Some m -> val p = Some vp -> val m = Some vm ->
  Step M (c_state c) vp vm = Some (true, s') ->
  repr (Z.of_nat n) lin' ({[nid p]} ∪ X) ->
  cache_inv lv (c_cache c) -> longest_inv (c_seqs c) (c_longest c) ->
  exists h' hd k,
    lift (c_heap c) p = Some h' /\ h' !! hp = Some hd /\
    (k < w + weight (n - length (c_calls c)) (length (p :: r)))%nat /\
    inv (mkCheck h' (n_next hd) s' lin'
           (<[hash lin' := default [] (c_cache c !! hash lin') ++ [mkCacheEntry lin' s']]>
              (c_cache c))
           (c_calls c ++ [mkCallsEntry p (c_state c)]) (c_seqs c) (c_longest c)) k.
Proof.
  intros Hst HL Ha Hd Hm Hvp Hvm Hstep Hrep Hc Hlg.
  pose proof (stack_facts_hold _ _ _ _ _ _ _ Hst) as F.
  pose proof (stack_wf _ _ _ _ _ _ F) as Hwf. rewrite HL in Hwf.
  destruct (call_split _ _ _ _ Hwf Hm) as (b & c0 & ->).
  pose proof (sf_dll _ _ _ _ _ _ F) as Hdll. rewrite HL in Hdll.
  destruct (lift_spec (c_heap c) (hp :: a) p b m c0) as (h' & El & Hd' & Hp' & Hul);
    [done|done| |].
  { destruct (entry_node _ _ _ _ Hdll (sf_payload _ _ _ _ _ _ F)) as (ne & Hne & _ & Hmt & _).
    unfold deref_match. rewrite Hne. simpl. by rewrite Hmt. }
  assert (child L (c_state c) p s' (a ++ b ++ c0)) as Hch.
  { exists a, b, m, c0, vp, vm. by split_and!. }
  destruct (head_node _ _ Hd') as (hd & Hhd & Hnx).
  pose proof (stack_snoc _ _ _ _ _ _ _ _ _ _ _ _ _ Hst HL Ha Hd Hch Hd' Hp' Hul) as Hst'.
  pose proof (stack_facts_hold _ _ _ _ _ _ _ Hst') as F'.
  eexists h', hd, _. split; [done|]. split; [done|]. split.
  2: { rewrite Hnx. eapply (inv_intro (mkCheck _ _ _ _ _ _ _ _) _ _ _ _ [] (a ++ b ++ c0));
         simpl; try done.
       apply (cache_inv_insert _ _ _ _ _ ({[nid p]} ∪ X)); [by apply cache_inv_snoc|done|apply (sf_sub _ _ _ _ _ _ F')|].
       set_solver. }
  pose proof (sf_len _ _ _ _ _ _ F') as Hlen. cbn [c_calls].
  rewrite (length_app (c_calls c)) in Hlen |- *. rewrite weight_cons.
  cbn [c_calls length] in *.
  assert (length (a ++ b ++ c0) = 2 * (n - (length (c_calls c) + 1)))%nat as -> by lia.
  pose proof (weight_full (n - (length (c_calls c) + 1))).
  replace (n - length (c_calls c) - 1)%nat with (n - (length (c_calls c) + 1))%nat by lia.
  lia.
Qed.

Lemma child_det L s p s1 L1 s2 L2 :
  wf_list L -> child L s p s1 L1 -> child L s p s2 L2 -> s1 = s2 /\ L1 = L2.
Proof.
  intros Hwf H1 H2. split.
  - destruct H1 as (? & ? & ? & ? & ? & ? & _ & _ & ? & ? & ? & ?).
    destruct H2 as (? & ? & ? & ? & ? & ? & _ & _ & ? & ? & ? & ?). congruence.
  - rewrite (child_rem _ _ _ _ _ _ _ _ _ Hwf H1).
    by rewrite (child_rem _ _ _ _ _ _ _ _ _ Hwf H2).
Qed.

(** ** The diagnostics *)

Definition call_id (v : callsEntry St) : Z := nid (cl_entry v).

Lemma store_node h p :
  payload <$> h = payload <$> h0 -> p ∈ L0 ->
  exists ne, h !! p = Some ne /\ n_id ne = nid p.
Proof.
  intros Hpl Hp. destruct Hdll0 as [_ Hl].
  destruct (lseg_lookup _ _ _ _ p Hl) as [n0 Hn0]; [set_solver|].
  destruct (payload_lookup h0 h p n0 (eq_sym Hpl) Hn0) as (ne & Hne & _).
  exists ne. split; [done|]. by apply (payload_node h).
Qed.

Lemma calls_ids_spec h calls :
  payload <$> h = payload <$> h0 -> Forall (fun v => cl_entry v ∈ L0) calls ->
  calls_ids h calls = Some (map call_id calls).
Proof.
  intros Hpl Hall. unfold calls_ids. apply mapM_Some.
  induction Hall as [|v calls Hv _ IH]; simpl; constructor; [|done].
  destruct (store_node h (cl_entry v) Hpl Hv) as (ne & -> & Hid). simpl. by rewrite Hid.
Qed.

Lemma stack_explained h L s calls X lv w :
  stack h L s calls X lv w -> explained (map call_id calls).
Proof.
  intros Hst. exists (map cl_entry calls), s. split; [by rewrite map_map|].
  split; [|by eapply stack_run]. apply Forall_map.
  apply (sf_calls _ _ _ _ _ _ (stack_facts_hold _ _ _ _ _ _ _ Hst)).
Qed.

Lemma longest_inv_push seqs longest sq :
  longest_inv seqs longest -> explained sq -> longest_inv (seqs ++ [sq]) longest.
Proof.
  intros [Hl Hs He] Hsq. split; [done| |by apply Forall_app; split; [|by constructor]]. intros i q Hq.
  destruct (Hs i q Hq) as [x Hx]. exists x. by apply lookup_app_l_Some.
Qed.

Lemma longest_inv_set seqs longest i q :
  longest_inv seqs longest -> is_Some (seqs !! q) ->
  longest_inv seqs (<[i := Some q]> longest).
Proof.
  intros [Hl Hs He] Hq. split; [by rewrite length_insert| |done].
  intros j q' [(-> & [= ->] & _)|[_ Hj]]%list_lookup_insert_Some; [done|by eapply Hs].
Qed.

Lemma record_partial_ok h (calls all : list (callsEntry St)) seq seqs longest :
  payload <$> h = payload <$> h0 ->
  Forall (fun v => cl_entry v ∈ L0) calls -> Forall (fun v => cl_entry v ∈ L0) all ->
  explained (map call_id all) ->
  longest_inv seqs longest -> (forall q, seq = Some q -> is_Some (seqs !! q)) ->
  exists seqs' longest',
    record_partial h calls all seq seqs longest = Some (seqs', longest') /\
    longest_inv seqs' longest'.
Proof.
  intros Hpl Hcalls Hall Hex. revert seq seqs longest.
  induction Hcalls as [|v calls Hv _ IH]; intros seq seqs longest Hlg Hseq; simpl; [eauto|].
  destruct (store_node h (cl_entry v) Hpl Hv) as (ne & -> & Hid). simpl.
  pose proof (Hids _ Hv) as Hrange. rewrite Hid.
  assert (0 <= nid (cl_entry v) < zlen longest) as Hin.
  { unfold zlen. by rewrite (lg_len _ _ Hlg). }
  destruct (proj2 (zget_is_Some _ _) Hin) as [cur Hcur]. rewrite Hcur. simpl.
  assert (exists b, match cur with
                    | None => Some true
                    | Some q => old ← seqs !! q; Some (zlen old <? zlen all)
                    end = Some b) as [[|] ->]; simpl.
  { destruct cur as [q|]; [|eauto]. apply zget_Some_lookup in Hcur as [_ Hcur].
    destruct (lg_in _ _ Hlg _ _ Hcur) as [old ->]. simpl. eauto. }
  - destruct seq as [sq|]; simpl.
    + rewrite zset_in by done. simpl. apply IH; [|done]. apply longest_inv_set; [done|by apply Hseq].
    + rewrite (calls_ids_spec h all) by done. simpl.
      rewrite zset_in by done. simpl. apply IH.
      * apply longest_inv_set; [by apply longest_inv_push|].
        rewrite list_lookup_middle by done. eauto.
      * intros q [= <-]. rewrite list_lookup_middle by done. eauto.
  - by apply IH.
Qed.

(** At the end one sequence explains every operation. *)
Lemma longest_inv_final seqs longest sq :
  longest_inv seqs longest -> explained sq ->
  longest_inv (seqs ++ [sq]) (map (fun _ => Some (length seqs)) longest).
Proof.
  intros [Hl Hs He] Hsq. split; [by rewrite length_map| |by apply Forall_app; split; [|by constructor]].
  intros i q Hq. change (map ?f ?l) with (f <$> l) in Hq.
  rewrite list_lookup_fmap in Hq. destruct (longest !! i); simpl in Hq; [|done].
  injection Hq as <-.
  rewrite list_lookup_middle by done. eauto.
Qed.

(** ** Backtracking *)

Lemma stack_bottom h L s X lv w : stack h L s [] X lv w -> L = L0 /\ s = Init M.
Proof.
  remember [] as calls eqn:E. destruct 1 as [|? ? ? calls]; [done|]. by destruct calls.
Qed.

Lemma cache_inv_pop lv X s cache L :
  cache_inv (lv ++ [(X, s)]) cache -> L = rem L0 X -> ~ lin s L -> cache_inv lv cache.
Proof.
  intros H -> Hnl key elems elem Hk He.
  destruct (H key elems elem Hk He) as (Y & ? & ? & HY). exists Y.
  split_and!; [done|done|]. destruct HY as [HY|]; [|by right].
  apply elem_of_app in HY as [?|Heq%list_elem_of_singleton]; [by left|].
  right. by injection Heq as -> ->.
Qed.

(** The stack below the last call, whose candidate is now known to be dead. *)
Lemma stack_pop h L s calls top X lv w :
  stack h L s calls X lv w -> last calls = Some top -> ~ lin s L ->
  exists h' L' calls' X' lv' w' a r,
    calls = calls' ++ [top] /\ lv = lv' ++ [(X, s)] /\
    stack h' L' (cl_state top) calls' X' lv' w' /\
    L' = a ++ cl_entry top :: r /\ Forall is_call a /\ is_call (cl_entry top) /\
    Forall (dead L' (cl_state top)) a /\ dead L' (cl_state top) (cl_entry top) /\
    unlift h (cl_entry top) = Some h' /\ X = {[call_id top]} ∪ X' /\
    w = (w' + weight (n - length calls') (length r))%nat.
Proof.
  intros Hst Hlast Hnl.
  destruct Hst as [|h' L' s' calls' X' lv' w' h a p r s L Hst HL Ha Hd Hc _ _ Hul]; [done|].
  rewrite last_snoc in Hlast. injection Hlast as <-. simpl.
  exists h', L', calls', X', lv', w', a, r. split_and!; try done.
  - by eapply child_mt.
  - intros s2 L2 Hc2. pose proof (stack_facts_hold _ _ _ _ _ _ _ Hst) as F.
    by destruct (child_det _ _ _ _ _ _ _ (stack_wf _ _ _ _ _ _ F) Hc Hc2) as [<- <-].
Qed.

Lemma inv_backtrack c cp L X lv w a p r top :
  stack (c_heap c) L (c_state c) (c_calls c) X lv w ->
  repr (Z.of_nat n) (c_linearized c) X ->
  L = a ++ p :: r -> Forall (dead L (c_state c)) a -> mt p = None ->
  cache_inv lv (c_cache c) -> longest_inv (c_seqs c) (c_longest c) ->
  last (c_calls c) = Some top ->
  exists seqs longest ne lin' h' ne' k,
    (if (cp : bool) then record_partial (c_heap c) (c_calls c) (c_calls c) None
                 (c_seqs c) (c_longest c)
     else Some (c_seqs c, c_longest c)) = Some (seqs, longest) /\
    c_heap c !! cl_entry top = Some ne /\
    clear (c_linearized c) (n_id ne) = Some lin' /\
    unlift (c_heap c) (cl_entry top) = Some h' /\ h' !! cl_entry top = Some ne' /\
    (k < w + weight (n - length (c_calls c)) (length (p :: r)))%nat /\
    inv (mkCheck h' (n_next ne') (cl_state top) lin' (c_cache c)
           (take (length (c_calls c) - 1) (c_calls c)) seqs longest) k.
Proof.
  intros Hst Hrep HL Hd Hp Hc Hlg Hlast.
  pose proof (dead_prefix_not_lin _ _ _ _ _ _ _ _ HL Hp Hd) as Hnl.
  pose proof (stack_facts_hold _ _ _ _ _ _ _ Hst) as F.
  destruct (stack_pop _ _ _ _ _ _ _ _ Hst Hlast Hnl) as
    (h' & L' & calls' & X' & lv' & w' & a' & r' & Hcalls & -> & Hst' & HL' & Ha' & Hcall &
     Hd' & Hdt & Hul & HX & ->).
  pose proof (stack_facts_hold _ _ _ _ _ _ _ Hst') as F'.
  pose proof (sf_payload _ _ _ _ _ _ F) as Hpl.
  assert (exists seqs longest,
    (if cp then record_partial (c_heap c) (c_calls c) (c_calls c) None
                  (c_seqs c) (c_longest c)
     else Some (c_seqs c, c_longest c)) = Some (seqs, longest) /\
    longest_inv seqs longest) as (seqs & longest & Hrec & Hlg').
  { destruct cp; [|eauto]. apply record_partial_ok; [done|..|done|done];
      [apply (sf_calls _ _ _ _ _ _ F)..|by eapply stack_explained]. }
  assert (cl_entry top ∈ L0 /\ call_id top ∉ X') as [Htop HtopX].
  { apply rem_sub. rewrite <- (sf_rem _ _ _ _ _ _ F'), HL'. set_solver. }
  destruct (store_node _ _ Hpl Htop) as (ne & Hne & Hid).
  destruct (repr_clear _ _ _ (nid (cl_entry top)) Hrep (Hids _ Htop)) as (lin' & Hcl & Hrep').
  pose proof (sf_dll _ _ _ _ _ _ F') as Hdll'. rewrite HL' in Hdll'.
  destruct (entry_node _ _ _ _ Hdll' (sf_payload _ _ _ _ _ _ F')) as (ne' & Hne' & Hnx & _).
  exists seqs, longest, ne, lin', h', ne'. rewrite Hid.
  exists (w' + weight (n - length calls') (length r'))%nat.
  split_and!; [done|done|done|done|done|rewrite weight_cons; lia|].
  rewrite Hnx, Hcalls, length_app, Nat.add_sub, take_app_length.
  apply (inv_skip (mkCheck h' (Some (cl_entry top)) (cl_state top) lin' (c_cache c)
                     calls' seqs longest) L' X' lv' w' a' (cl_entry top)); try done.
  - rewrite HX in Hrep'. unfold call_id in Hrep', HtopX.
    by replace (_ ∖ _) with X' in Hrep' by set_solver.
  - by eapply cache_inv_pop; [|apply (sf_rem _ _ _ _ _ _ F)|].
Qed.

(** ** One iteration *)

(** A candidate whose step is refused is dead. *)
Lemma refused_dead L s p m vp vm s' :
  mt p = Some m -> val p = Some vp -> val m = Some vm ->
  Step M s vp vm = Some (false, s') -> dead L s p.
Proof.
  intros Hm Hvp Hvm Hst s1 L1 (? & ? & ? & ? & ? & ? & _ & _ & ? & ? & ? & ?). congruence.
Qed.

(** A candidate leading to a cached configuration is dead: the configuration
    is one call deeper than everything on the stack. *)
Lemma cached_dead h L s calls X lv w p m vp vm s' cache key lin' elems :
  stack h L s calls X lv w -> cache_inv lv cache -> p ∈ L ->
  mt p = Some m -> val p = Some vp -> val m = Some vm ->
  Step M s vp vm = Some (true, s') ->
  repr (Z.of_nat n) lin' ({[nid p]} ∪ X) -> cache !! key = Some elems ->
  existsb (fun elem => equals lin' (ce_linearized elem) && eqf s' (ce_state elem)) elems = true ->
  dead L s p.
Proof.
  intros Hst Hc Hp Hm Hvp Hvm Hstep Hrep Hkey Hex s1 L1 Hch.
  pose proof (stack_facts_hold _ _ _ _ _ _ _ Hst) as F.
  rewrite (child_rem _ _ _ _ _ _ _ _ _ (stack_wf _ _ _ _ _ _ F) Hch).
  rewrite (sf_rem _ _ _ _ _ _ F) in Hp |- *. apply rem_sub in Hp as [Hp0 HpX].
  assert (s1 = s') as ->.
  { destruct Hch as (? & ? & ? & ? & ? & ? & _ & _ & ? & ? & ? & ?). congruence. }
  apply existsb_exists in Hex as (elem & Hin%list_elem_of_In & [Heq Hs]%andb_true_iff).
  apply Heqf in Hs as ->. destruct (Hc _ _ _ Hkey Hin) as (Y & HY & HYr & Hdead).
  assert (Y = {[nid p]} ∪ X) as ->.
  { apply set_eq. intros i. split; intros Hi.
    - eapply (repr_equals _ _ _ _ _ Hrep HY Heq); auto.
    - eapply (repr_equals _ _ _ _ _ Hrep HY Heq); [|done].
      apply elem_of_union in Hi as [->%elem_of_singleton|Hi]; [by apply Hids|].
      by apply (sf_sub _ _ _ _ _ _ F). }
  rewrite <- rem_union, (union_comm_L X). destruct Hdead as [Hlv|]; [|done].
  pose proof (sf_levels _ _ _ _ _ _ F _ _ Hlv) as Hsz.
  rewrite size_union, size_singleton, (sf_size _ _ _ _ _ _ F) in Hsz by set_solver. lia.
Qed.

Definition step_post (kill : bool) (k : nat) (o : outcome V St) : Prop :=
  match o with
  | Running c' => exists k', (k' < k)%nat /\ inv c' k'
  | Finished true seqs longest => lin (Init M) L0 /\ longest_inv seqs longest
  | Finished false seqs longest =>
      (kill = true \/ ~ lin (Init M) L0) /\ longest_inv seqs longest
  end.

(** The candidate and its return are in the store, and the model accepts or
    refuses them. *)
Lemma call_nodes h L s calls X lv w a p r m :
  stack h L s calls X lv w -> L = a ++ p :: r -> mt p = Some m ->
  exists nm vp vm ok s', h !! m = Some nm /\ n_value nm = Some vm /\
    val p = Some vp /\ val m = Some vm /\ Step M s vp vm = Some (ok, s') /\ p ∈ L /\ p ∈ L0.
Proof.
  intros Hst HL Em. pose proof (stack_facts_hold _ _ _ _ _ _ _ Hst) as F.
  pose proof (stack_wf _ _ _ _ _ _ F) as Hwf. pose proof (sf_dll _ _ _ _ _ _ F) as Hdll.
  assert (p ∈ L) as HpL by (rewrite HL; set_solver).
  assert (p ∈ L0) as Hp0.
  { apply (rem_sub X). by rewrite <- (sf_rem _ _ _ _ _ _ F). }
  destruct (Htyped s p m Hp0 Em) as (vp & vm & [ok s'] & Hvp & Hvm & Hstep).
  assert (m ∈ L) as HmL.
  { destruct (wf_call _ _ _ Hwf p m) as (? & ? & ? & -> & _); [done|done|set_solver]. }
  apply list_elem_of_split in HmL as (a1 & r1 & Hsplit). rewrite Hsplit in Hdll.
  destruct (entry_node _ _ _ _ Hdll (sf_payload _ _ _ _ _ _ F)) as (nm & Hh & _ & _ & _ & Hnm).
  exists nm, vp, vm, ok, s'. by rewrite Hnm.
Qed.

(** The configuration whose remaining entries are [L], at the candidate [p]. *)
Lemma at_entry c L X lv w a p r :
  stack (c_heap c) L (c_state c) (c_calls c) X lv w -> L = a ++ p :: r ->
  exists hd x ne, c_heap c !! hp = Some hd /\ n_next hd = Some x /\
    c_heap c !! p = Some ne /\ n_next ne = first r None /\ n_match ne = mt p /\
    n_id ne = nid p /\ n_value ne = val p.
Proof.
  intros Hst HL. pose proof (stack_facts_hold _ _ _ _ _ _ _ Hst) as F.
  pose proof (sf_dll _ _ _ _ _ _ F) as Hdll.
  destruct (head_node _ _ Hdll) as (hd & Hhd & Hnx). rewrite HL in Hdll, Hnx.
  destruct (entry_node _ _ _ _ Hdll (sf_payload _ _ _ _ _ _ F)) as (ne & Hne & Hx & Hmt & Hid & Hval).
  exists hd. rewrite Hnx. destruct a as [|x a]; [exists p, ne|exists x, ne]; by split_and!.
Qed.

(** At a call: the model refuses it, its configuration is in the cache, or it is
    linearized. *)
Lemma checkStep_call c cp L X lv w a p r m :
  stack (c_heap c) L (c_state c) (c_calls c) X lv w ->
  repr (Z.of_nat n) (c_linearized c) X -> L = a ++ p :: r ->
  Forall is_call a -> Forall (dead L (c_state c)) a -> c_entry c = Some p -> mt p = Some m ->
  cache_inv lv (c_cache c) -> longest_inv (c_seqs c) (c_longest c) ->
  exists o, checkStep M cp false hp c = Some o /\
    step_post false (w + weight (n - length (c_calls c)) (length (p :: r))) o.
Proof.
  intros Hst Hrep HL Ha Hd He Em Hc Hlg.
  destruct (at_entry _ _ _ _ _ _ _ _ Hst HL) as (hd & x & ne & Hhd & Hx & Hp & Hne & Hmt & Hid & Hval).
  destruct (call_nodes _ _ _ _ _ _ _ _ _ _ _ Hst HL Em)
    as (nm & vp & vm & ok & s' & Hm & Hnm & Hvp & Hvm & Hstep & HpL & Hp0).
  unfold checkStep. rewrite Hhd. simpl. rewrite Hx, He. simpl. rewrite Hp. simpl.
  rewrite Hmt, Em, Hm. simpl. rewrite Hval, Hvp, Hnm. simpl. rewrite Hstep. simpl.
  assert (is_call p) as Hcall by (by exists m).
  assert (w + weight (n - length (c_calls c)) (length r) <
          w + weight (n - length (c_calls c)) (length (p :: r)))%nat as Hlt.
  { rewrite weight_cons. lia. }
  destruct ok; simpl.
  - rewrite Hid. unfold clone.
    destruct (repr_set _ _ _ (nid p) Hrep (Hids _ Hp0)) as (lin' & -> & Hrep'). simpl.
    unfold cacheContains. rewrite HEq. simpl.
    destruct (existsb _ _) eqn:Eex; simpl.
    + eexists. split; [done|]. simpl. rewrite Hne.
      eexists. split; [exact Hlt|]. eapply inv_skip; try done.
      destruct (c_cache c !! hash lin') as [elems|] eqn:Ekey; [|done].
      by eapply cached_dead.
    + destruct (inv_lift c L X lv w a p r m vp vm s' lin')
        as (h' & hd' & k' & -> & Hhd' & Hk & Hinv); [done..|].
      simpl. rewrite Hhd'. simpl. eexists. split; [done|]. simpl. eauto.
  - eexists. split; [done|]. simpl. rewrite Hne.
    eexists. split; [exact Hlt|]. eapply inv_skip; try done. by eapply refused_dead.
Qed.

(** At a return: the last call is taken back, or the search has failed. *)
Lemma checkStep_return c cp L X lv w a p r :
  stack (c_heap c) L (c_state c) (c_calls c) X lv w ->
  repr (Z.of_nat n) (c_linearized c) X -> L = a ++ p :: r ->
  Forall (dead L (c_state c)) a -> c_entry c = Some p -> mt p = None ->
  cache_inv lv (c_cache c) -> longest_inv (c_seqs c) (c_longest c) ->
  exists o, checkStep M cp false hp c = Some o /\
    step_post false (w + weight (n - length (c_calls c)) (length (p :: r))) o.
Proof.
  intros Hst Hrep HL Hd He Em Hc Hlg.
  destruct (at_entry _ _ _ _ _ _ _ _ Hst HL) as (hd & x & ne & Hhd & Hx & Hp & _ & Hmt & _).
  unfold checkStep. rewrite Hhd. simpl. rewrite Hx, He. simpl. rewrite Hp. simpl. rewrite Hmt, Em.
  destruct (last (c_calls c)) as [top|] eqn:Elast.
  - destruct (inv_backtrack c cp L X lv w a p r top)
      as (seqs & longest & nt & lin' & h' & ne' & k' & -> & Hnt & Hcl & Hul & Hne' & Hk & Hinv);
      [done..|].
    simpl. rewrite Hnt. simpl. rewrite Hcl. simpl. rewrite Hul. simpl. rewrite Hne'. simpl.
    eexists. split; [done|]. simpl. eauto.
  - eexists. split; [done|]. split; [right|done]. apply last_None in Elast.
    pose proof (stack_wf _ _ _ _ _ _ (stack_facts_hold _ _ _ _ _ _ _ Hst)) as Hwf.
    assert (L = L0 /\ c_state c = Init M) as [<- <-].
    { rewrite Elast in Hst. by eapply stack_bottom. }
    by eapply dead_prefix_not_lin.
Qed.

Lemma checkStep_inv c k cp kill :
  inv c k -> exists o, checkStep M cp kill hp c = Some o /\ step_post kill k o.
Proof.
  intros [L X lv w a r Hst Hrep HL Ha Hd He Hc Hlg].
  pose proof (stack_facts_hold _ _ _ _ _ _ _ Hst) as F.
  destruct (decide (L = [])) as [->|HLne].
  { unfold checkStep. destruct (head_node _ _ (sf_dll _ _ _ _ _ _ F)) as (hd & -> & Hnx).
    simpl. rewrite Hnx. simpl.
    rewrite calls_ids_spec; [|apply (sf_payload _ _ _ _ _ _ F)|apply (sf_calls _ _ _ _ _ _ F)].
    simpl. eexists. split; [done|]. simpl. split; [eapply stack_lin; [done|constructor]|].
    apply longest_inv_final; [done|by eapply stack_explained]. }
  destruct r as [|p r].
  { exfalso. apply HLne, (wf_not_all_calls mt nid); [apply (stack_wf _ _ _ _ _ _ F)|].
    by rewrite HL, app_nil_r. }
  destruct kill.
  { destruct (at_entry _ _ _ _ _ _ _ _ Hst HL) as (hd & x & ne & Hhd & Hx & _).
    unfold checkStep. rewrite Hhd. simpl. rewrite Hx. eexists. split; [done|by split; [left|]]. }
  destruct (mt p) as [m|] eqn:Em.
  - by eapply checkStep_call.
  - by eapply checkStep_return.
Qed.

(** ** The loop *)

Lemma checkLoop_inv cp kill fuel iter c k :
  inv c k -> (k < fuel)%nat ->
  exists ok seqs longest,
    checkLoop M cp kill hp fuel iter c = Ret (ok, seqs, longest) /\
    longest_inv seqs longest /\
    (ok = true -> lin (Init M) L0) /\
    (ok = false -> (exists i, kill i = true) \/ ~ lin (Init M) L0).
Proof.
  revert iter c k. induction fuel as [|fuel IH]; intros iter c k Hinv Hk; [lia|].
  simpl. destruct (checkStep_inv c k cp (kill iter) Hinv) as (o & -> & Ho).
  destruct o as [c'|[|] seqs longest]; simpl in Ho.
  - destruct Ho as (k' & Hk' & Hinv'). apply (IH _ _ k'); [done|lia].
  - destruct Ho as [Hl Hlg]. by exists true, seqs, longest.
  - destruct Ho as [Ho Hlg]. exists false, seqs, longest. split; [done|]. split; [done|].
    split; [done|]. intros _. destruct Ho; eauto.
Qed.

Lemma inv_init :
  inv (mkCheck h0 (first L0 None) (Init M) (newBitset (Z.of_nat n)) ∅ [] []
         (replicate n None)) (weight n (length L0)).
Proof.
  replace (weight n (length L0)) with (0 + weight (n - length (@nil (callsEntry St))) (length L0))%nat
    by (rewrite Nat.sub_0_r; done).
  apply (inv_intro (mkCheck _ _ _ _ _ _ _ _) L0 ∅ [(∅, Init M)] 0 [] L0); simpl; try done.
  - constructor.
  - apply repr_new. lia.
  - split; [apply length_replicate| |constructor]. by intros i q [? _]%lookup_replicate.
Qed.
End proof.
End CheckerProof.
