(* ===== verification/CheckSingle.v ===== *)
(** [checkSingle] (src/porcupine/checker.go) from a list of entries: the linked
    list built from a well-formed history satisfies the assumptions of the
    search, and the verdict is the linearizability of the history. *)
From S2P Require Import Prelude Bitset Porcupine LinkedList SearchSpec CheckerProof.
Import Bitset Porcupine LinkedList.

Module CheckSingle.

(** ** The specification, on entries *)

Section spec.
Context {V St : Type} (M : Model V St).

(** [linearizes s E]: the operations of the entries [E] can be executed one
    after the other from [s], each chosen among the calls that precede every
    remaining return, with the outputs that were observed. *)
Inductive linearizes : St -> list (entry V) -> Prop :=
  | linearizes_nil s : linearizes s []
  | linearizes_step s a p b r c s' :
      Forall (fun e => e_kind e = callEntry) a ->
      e_kind p = callEntry -> e_kind r = returnEntry -> e_id r = e_id p ->
      Step M s (e_value p) (e_value r) = Some (true, s') ->
      linearizes s' (a ++ b ++ c) ->
      linearizes s (a ++ p :: b ++ r :: c).

(** A complete history of [n] operations numbered from 0: one call and one
    later return each. *)
Record wf_history (n : nat) (E : list (entry V)) : Prop := {
  wh_len : length E = (2 * n)%nat;
  wh_nodup : NoDup (map (fun e => (e_kind e, e_id e)) E);
  wh_ids e : e ∈ E -> 0 <= e_id e < Z.of_nat n;
  wh_call a e c : E = a ++ e :: c -> e_kind e = callEntry ->
    exists r, r ∈ c /\ e_kind r = returnEntry /\ e_id r = e_id e;
  wh_ret a e c : E = a ++ e :: c -> e_kind e = returnEntry ->
    exists p, p ∈ a /\ e_kind p = callEntry /\ e_id p = e_id e }.

(** The operations with the identifiers [ids] can be executed one after the
    other, with the inputs and outputs of the entries [E]. *)
Inductive executes (E : list (entry V)) : St -> list Z -> St -> Prop :=
  | executes_nil s : executes E s [] s
  | executes_cons s p r s1 ids s2 :
      p ∈ E -> r ∈ E -> e_kind p = callEntry -> e_kind r = returnEntry -> e_id r = e_id p ->
      Step M s (e_value p) (e_value r) = Some (true, s1) ->
      executes E s1 ids s2 -> executes E s (e_id p :: ids) s2.

(** The type assertions in [Step] succeed on the entries of the history. *)
Definition well_typed (E : list (entry V)) : Prop :=
  forall s p r, p ∈ E -> r ∈ E -> e_kind p = callEntry -> e_kind r = returnEntry ->
  is_Some (Step M s (e_value p) (e_value r)).
End spec.

(** ** The linked list of a history *)

Section build.
Context {V : Type}.
Implicit Types (E a c r : list (entry V)) (e : entry V).

(** The node of the [i]th entry from the end is at address [i]. *)
Fixpoint ptrs (k : nat) : list nat :=
  match k with O => [] | S k' => k' :: ptrs k' end.

Fixpoint retptr E (id : Z) : option nat :=
  match E with
  | [] => None
  | e :: r => if eqb (e_kind e) returnEntry && (e_id e =? id)
              then Some (length r) else retptr r id
  end.

Definition payload_of e r : option V * option nat * Z :=
  (Some (e_value e),
   if eqb (e_kind e) returnEntry then None else retptr r (e_id e), e_id e).

Fixpoint payloads E : list (option V * option nat * Z) :=
  match E with [] => [] | e :: r => payloads r ++ [payload_of e r] end.

Lemma ptrs_elem p k : p ∈ ptrs k <-> (p < k)%nat.
Proof.
  induction k as [|k IH]; simpl; [split; [by intros ?%elem_of_nil|lia]|].
  rewrite elem_of_cons, IH. lia.
Qed.

Lemma ptrs_nodup k : NoDup (ptrs k).
Proof.
  induction k; simpl; constructor; [|done]. rewrite ptrs_elem. lia.
Qed.

Lemma ptrs_length k : length (ptrs k) = k.
Proof. induction k; simpl; congruence. Qed.

Lemma ptrs_split k p : (p < k)%nat -> exists l, ptrs k = l ++ p :: ptrs p.
Proof.
  induction k as [|k IH]; [lia|]. intros Hp. simpl.
  destruct (decide (p = k)) as [->|]; [by exists []|].
  destruct IH as [l ->]; [lia|]. by exists (k :: l).
Qed.

Lemma payloads_length E : length (payloads E) = length E.
Proof. induction E; simpl; [done|]. rewrite length_app. simpl. lia. Qed.

Lemma payloads_lookup a e r : payloads (a ++ e :: r) !! length r = Some (payload_of e r).
Proof.
  induction a as [|x a IH]; simpl.
  - apply list_lookup_middle. by rewrite payloads_length.
  - by apply lookup_app_l_Some.
Qed.

Lemma makeLinked_loop E :
  exists h matches,
    foldr linkEntry (Some ([], None, ∅)) E = Some (h, first (ptrs (length E)) None, matches) /\
    dll h (ptrs (length E)) /\ payload <$> h = payloads E /\
    forall id, matches !! id = retptr E id.
Proof.
  induction E as [|e E (h & matches & IH & Hd & Hp & Hm)]; simpl.
  { exists [], ∅. split; [done|]. split; [split; constructor|]. split; [done|].
    intros id. apply lookup_empty. }
  rewrite IH. simpl.
  assert (length h = length E) as Hlen by (rewrite <- payloads_length, <- Hp; by rewrite length_fmap).
  assert (Forall (fun p => (p < length h)%nat) (ptrs (length E))) as Hlt.
  { apply Forall_forall. intros p. rewrite ptrs_elem. lia. }
  destruct (eqb (e_kind e) returnEntry) eqn:Ek.
  - destruct (insertBefore_fresh h _ (mkNode (Some (e_value e)) None (e_id e) None None) Hd Hlt)
      as (h' & -> & Hd' & Hp'); [done|done|].
    simpl. rewrite Hlen in *. eexists _, _. split; [done|]. split; [done|]. split.
    + rewrite Hp', fmap_app, Hp. simpl. unfold payload_of, payload. simpl. by rewrite Ek.
    + intros id. rewrite lookup_insert. simpl.
      destruct (Z.eqb_spec (e_id e) id); simpl; rewrite ?decide_True, ?decide_False by done; done.
  - destruct (insertBefore_fresh h _
      (mkNode (Some (e_value e)) (matches !! e_id e) (e_id e) None None) Hd Hlt)
      as (h' & -> & Hd' & Hp'); [done|done|].
    simpl. rewrite Hlen in *. eexists _, _. split; [done|]. split; [done|]. split; [|done].
    rewrite Hp', fmap_app, Hp, Hm. simpl. unfold payload_of, payload. simpl. by rewrite Ek.
Qed.
End build.

Section history.
Context {V : Type} (E : list (entry V)) (n : nat) (Hwf : wf_history n E).
Context (h0 : list (node V)) (Hpay : payload <$> h0 = payloads E ++ [(None, None, -1)]).
Implicit Types (a c r : list (entry V)) (e : entry V) (p m : nat).

Abbreviation mt := (CheckerProof.mt h0).
Abbreviation nid := (CheckerProof.nid h0).
Abbreviation val := (CheckerProof.val h0).

(** [at_ptr p e]: address [p] holds the node of entry [e]. *)
Definition at_ptr p e : Prop := exists a r, E = a ++ e :: r /\ length r = p.

Lemma at_ptr_node p e :
  at_ptr p e -> exists a r, E = a ++ e :: r /\ length r = p /\
    val p = Some (e_value e) /\ nid p = e_id e /\
    mt p = if eqb (e_kind e) returnEntry then None else retptr r (e_id e).
Proof.
  intros (a & r & HE & Hp). exists a, r. split; [done|]. split; [done|].
  assert ((payload <$> h0) !! p = Some (payload_of e r)) as H.
  { rewrite Hpay. apply lookup_app_l_Some. rewrite HE, <- Hp. apply payloads_lookup. }
  rewrite list_lookup_fmap in H. unfold CheckerProof.val, CheckerProof.nid, CheckerProof.mt.
  destruct (h0 !! p) as [nd|]; [|done]. simpl in *. unfold payload, payload_of in H.
  by simplify_eq.
Qed.

Lemma at_ptr_all a r : E = a ++ r -> Forall2 at_ptr (ptrs (length r)) r.
Proof.
  revert a. induction r as [|e r IH]; intros a HE; simpl; constructor.
  - by exists a, r.
  - apply (IH (a ++ [e])). by rewrite <- app_assoc.
Qed.

Lemma at_ptr_lt p e : at_ptr p e -> (p < length E)%nat.
Proof. intros (a & r & -> & <-). rewrite length_app. simpl. lia. Qed.

Lemma at_ptr_ex p : (p < length E)%nat -> exists e, at_ptr p e.
Proof.
  intros Hp. pose proof (at_ptr_all [] E eq_refl) as Hall.
  apply ptrs_elem in Hp. apply list_elem_of_lookup in Hp as [i Hi].
  destruct (Forall2_lookup_l _ _ _ _ _ Hall Hi) as (e & _ & He). eauto.
Qed.

Lemma at_ptr_fun p e e' : at_ptr p e -> at_ptr p e' -> e = e'.
Proof.
  intros (a & r & HE & Hp) (a' & r' & HE' & Hp'). rewrite HE in HE'.
  apply app_inj_2 in HE' as [_ HE']; [|simpl; congruence]. by injection HE'.
Qed.

(** Entries with the same kind and identifier are the same entry. *)
Lemma entry_unique a e r a' e' r' :
  E = a ++ e :: r -> E = a' ++ e' :: r' -> e_kind e = e_kind e' -> e_id e = e_id e' ->
  length r = length r'.
Proof.
  intros HE HE' Hk Hid. pose proof (wh_nodup _ _ Hwf) as Hnd.
  assert (length a = length a') as Hla.
  { apply (NoDup_lookup _ _ _ (e_kind e, e_id e) Hnd).
    - rewrite HE, map_app. simpl. by rewrite list_lookup_middle; [|rewrite length_map].
    - rewrite HE', map_app. simpl. rewrite list_lookup_middle by by rewrite length_map.
      congruence. }
  assert (length E = length a + S (length r))%nat by (rewrite HE, length_app; done).
  assert (length E = length a' + S (length r'))%nat by (rewrite HE', length_app; done).
  lia.
Qed.

Lemma retptr_Some r id m :
  retptr r id = Some m ->
  exists b e c, r = b ++ e :: c /\ length c = m /\ e_kind e = returnEntry /\ e_id e = id.
Proof.
  induction r as [|e r IH]; simpl; [done|].
  destruct (eqb (e_kind e) returnEntry && (e_id e =? id)) eqn:Ee.
  - intros [= <-]. bsimp. apply eqb_prop in H. by exists [], e, r.
  - intros Hm. destruct (IH Hm) as (b & e' & c & -> & ? & ? & ?). by exists (e :: b), e', c.
Qed.

Lemma retptr_is_Some r id e :
  e ∈ r -> e_kind e = returnEntry -> e_id e = id -> is_Some (retptr r id).
Proof.
  intros Hin Hk Hid. induction r as [|x r IH]; [by apply elem_of_nil in Hin|]. simpl.
  destruct (eqb (e_kind x) returnEntry && (e_id x =? id)) eqn:Ex; [eauto|].
  apply elem_of_cons in Hin as [<-|Hin]; [|by apply IH].
  by rewrite Hk, Hid, Z.eqb_refl in Ex.
Qed.

Lemma eqb_call_ret e : eqb (e_kind e) returnEntry = false <-> e_kind e = callEntry.
Proof. unfold returnEntry, callEntry. destruct (e_kind e); done. Qed.

(** The kind of an entry shows in the match of its node. *)
Lemma is_call_kind p e :
  at_ptr p e -> SearchSpec.is_call mt p <-> e_kind e = callEntry.
Proof.
  intros He. destruct (at_ptr_node p e He) as (a & r & HE & _ & _ & _ & Hmt).
  unfold SearchSpec.is_call. rewrite Hmt, <- eqb_call_ret.
  destruct (eqb (e_kind e) returnEntry) eqn:Ek.
  - split; [by intros [? ?]|done].
  - split; [done|]. intros _. apply eqb_call_ret in Ek.
    destruct (wh_call _ _ Hwf a e r HE Ek) as (e' & Hin & Hk' & Hid').
    by apply (retptr_is_Some r _ e').
Qed.

(** The match of a call is the node of its return. *)
Lemma mt_return p e m :
  at_ptr p e -> mt p = Some m ->
  (m < p)%nat /\ exists e', at_ptr m e' /\ e_kind e' = returnEntry /\ e_id e' = e_id e.
Proof.
  intros He Hm. destruct (at_ptr_node p e He) as (a & r & HE & Hp & _ & _ & Hmt).
  rewrite Hm in Hmt. destruct (eqb (e_kind e) returnEntry); [done|].
  destruct (retptr_Some r (e_id e) m (eq_sym Hmt)) as (b & e' & c & -> & Hc & Hk & Hid).
  split. { rewrite length_app in Hp. simpl in Hp. lia. }
  exists e'. split; [|done]. exists (a ++ e :: b), c. split; [|done].
  by rewrite HE, <- app_assoc.
Qed.

Lemma return_mt m e :
  at_ptr m e -> e_kind e = returnEntry ->
  exists p, (m < p < length E)%nat /\ mt p = Some m /\ nid p = e_id e.
Proof.
  intros He Hk. destruct He as (a & r & HE & Hm).
  destruct (wh_ret _ _ Hwf a e r HE Hk) as (q & Hq & Hkq & Hidq).
  apply list_elem_of_split in Hq as (a1 & a2 & ->).
  rewrite <- app_assoc in HE. simpl in HE.
  assert (at_ptr (length (a2 ++ e :: r)) q) as Hat by (by exists a1, (a2 ++ e :: r)).
  destruct (at_ptr_node _ q Hat) as (a' & r' & HE' & Hr' & _ & Hid & Hmt).
  exists (length (a2 ++ e :: r)). split.
  { pose proof (at_ptr_lt _ _ Hat). rewrite length_app in *. simpl in *. lia. }
  rewrite Hid, Hidq. split; [|done].
  destruct (proj2 (is_call_kind _ _ Hat) Hkq) as [m' Hm']. rewrite Hm'. f_equal.
  destruct (mt_return _ _ _ Hat Hm') as (_ & e' & (a3 & r3 & HE3 & <-) & Hk3 & Hid3).
  rewrite <- Hm. apply (entry_unique a3 e' r3 (a1 ++ q :: a2) e r); [done| |congruence..].
  by rewrite HE, <- app_assoc.
Qed.

(** The list of the history's nodes is well formed. *)
Lemma ptrs_wf : SearchSpec.wf_list mt nid (ptrs (length E)).
Proof.
  split.
  - apply ptrs_nodup.
  - intros p m Hp%ptrs_elem Hm. destruct (at_ptr_ex p Hp) as [e He].
    destruct (mt_return p e m He Hm) as (Hmp & e' & He' & Hk' & Hid').
    destruct (ptrs_split _ _ Hp) as [l ->]. destruct (ptrs_split _ _ Hmp) as [l' ->].
    destruct (at_ptr_node m e' He') as (? & ? & _ & _ & _ & Hidm & Hmtm).
    destruct (at_ptr_node p e He) as (? & ? & _ & _ & _ & Hidp & _).
    exists l, l', (ptrs m). split; [done|]. split; [|congruence].
    rewrite Hmtm, Hk'. done.
  - intros m Hm%ptrs_elem Hmt. destruct (at_ptr_ex m Hm) as [e He].
    destruct (return_mt m e He) as (p & Hp & Hmp & _).
    { destruct (e_kind e) eqn:Ek; [done|].
      destruct (proj2 (is_call_kind m e He) Ek) as [? ?]. congruence. }
    exists p. split; [apply ptrs_elem; lia|done].
  - intros p q Hp%ptrs_elem Hq%ptrs_elem Hcp Hcq Hid.
    destruct (at_ptr_ex p Hp) as [e He]. destruct (at_ptr_ex q Hq) as [e' He'].
    apply (is_call_kind _ _ He) in Hcp. apply (is_call_kind _ _ He') in Hcq.
    destruct (at_ptr_node _ _ He) as (a & r & HE & <- & _ & Hid1 & _).
    destruct (at_ptr_node _ _ He') as (a' & r' & HE' & <- & _ & Hid2 & _).
    eapply entry_unique; [exact HE|exact HE'|congruence|congruence].
Qed.

Lemma ptrs_ids p : p ∈ ptrs (length E) -> 0 <= nid p < Z.of_nat n.
Proof.
  intros Hp%ptrs_elem. destruct (at_ptr_ex p Hp) as [e He].
  destruct (at_ptr_node p e He) as (a & r & HE & _ & _ & -> & _).
  apply (wh_ids _ _ Hwf). rewrite HE. set_solver.
Qed.

Context {St : Type} (M : Model V St).

(** The abstract search on nodes is the specification on entries. *)
Lemma calls_kind L es :
  Forall2 at_ptr L es ->
  Forall (SearchSpec.is_call mt) L <-> Forall (fun e => e_kind e = callEntry) es.
Proof.
  induction 1 as [|x e l k Hx _ IH]; [by split|].
  by rewrite !Forall_cons, IH, (is_call_kind x e Hx).
Qed.

Lemma lin_to_linearizes s L es :
  SearchSpec.wf_list mt nid L -> Forall2 at_ptr L es ->
  SearchSpec.lin (Step M) val mt s L -> linearizes M s es.
Proof.
  intros HwfL Hall Hl. revert es HwfL Hall.
  induction Hl as [s|s a p r s' L' Ha Hch Hl IH]; intros es HwfL Hall.
  { apply Forall2_nil_inv_l in Hall as ->. constructor. }
  pose proof (SearchSpec.child_wf _ _ _ _ _ _ _ _ _ HwfL Hch) as HwfL'.
  destruct Hch as (a' & b & m & c & vp & vm & Heq & -> & Hm & Hvp & Hvm & Hst).
  apply NoDup_split in Heq as [<- ->]; [|apply (SearchSpec.wf_nodup _ _ _ HwfL)].
  apply Forall2_app_inv_l in Hall as (ea & es' & Hea & Hes & ->).
  apply Forall2_cons_inv_l in Hes as (ep & es1 & Hep & Hes & ->).
  apply Forall2_app_inv_l in Hes as (eb & es2 & Heb & Hes & ->).
  apply Forall2_cons_inv_l in Hes as (em & ec & Hem & Hec & ->).
  destruct (mt_return p ep m Hep Hm) as (_ & em' & Hem' & Hkm & Hidm).
  rewrite (at_ptr_fun _ _ _ Hem' Hem) in *.
  destruct (at_ptr_node p ep Hep) as (? & ? & _ & _ & Hvp' & _).
  destruct (at_ptr_node m em Hem) as (? & ? & _ & _ & Hvm' & _).
  simplify_eq. apply linearizes_step with s'.
  - by apply (calls_kind _ _ Hea).
  - apply (is_call_kind p ep Hep). by exists m.
  - done.
  - done.
  - congruence.
  - apply IH; [done|]. by repeat apply Forall2_app.
Qed.

Lemma linearizes_to_lin s L es :
  SearchSpec.wf_list mt nid L -> Forall2 at_ptr L es ->
  linearizes M s es -> SearchSpec.lin (Step M) val mt s L.
Proof.
  intros HwfL Hall Hl. revert L HwfL Hall.
  induction Hl as [s|s a p b r c s' Ha Hkp Hkr Hid Hst Hl IH]; intros L HwfL Hall.
  { apply Forall2_nil_inv_r in Hall as ->. constructor. }
  apply Forall2_app_inv_r in Hall as (la & L1 & Hla & Hes & ->).
  apply Forall2_cons_inv_r in Hes as (q & L2 & Hq & Hes & ->).
  apply Forall2_app_inv_r in Hes as (lb & L3 & Hlb & Hes & ->).
  apply Forall2_cons_inv_r in Hes as (m & lc & Hm & Hlc & ->).
  destruct (at_ptr_node q p Hq) as (? & ? & _ & _ & Hvq & Hidq & _).
  destruct (at_ptr_node m r Hm) as (? & ? & _ & _ & Hvm & Hidm & Hmtm).
  assert (mt q = Some m) as Hqm.
  { rewrite Hkr in Hmtm. simpl in Hmtm.
    destruct (SearchSpec.wf_ret _ _ _ HwfL m) as (q' & Hq' & Hmq'); [set_solver|done|].
    destruct (SearchSpec.wf_call _ _ _ HwfL q' m Hq' Hmq') as (? & ? & ? & _ & _ & Hid').
    replace q with q'; [done|]. apply (SearchSpec.wf_inj _ _ _ HwfL); [done|set_solver| | |].
    - by exists m.
    - by apply (is_call_kind q p Hq).
    - congruence. }
  assert (SearchSpec.child (Step M) val mt (la ++ q :: lb ++ m :: lc) s q s' (la ++ lb ++ lc))
    as Hch.
  { exists la, lb, m, lc, (e_value p), (e_value r). by split_and!. }
  apply SearchSpec.lin_step with s' (la ++ lb ++ lc); [|done|].
  - by apply (calls_kind _ _ Hla).
  - apply IH; [by eapply SearchSpec.child_wf|]. by repeat apply Forall2_app.
Qed.

Lemma lin_linearizes s L es :
  SearchSpec.wf_list mt nid L -> Forall2 at_ptr L es ->
  SearchSpec.lin (Step M) val mt s L <-> linearizes M s es.
Proof. intros HwfL Hall. split; [by apply lin_to_linearizes|by apply linearizes_to_lin]. Qed.

(** What the search records, on entries. *)
Lemma run_calls_executes s ps s' :
  Forall (fun p => p ∈ ptrs (length E)) ps -> CheckerProof.run_calls M h0 s ps = Some s' ->
  executes M E s (map nid ps) s'.
Proof.
  intros Hps. revert s. induction Hps as [|p ps Hp _ IH]; intros s; simpl.
  { intros [= ->]. constructor. }
  apply ptrs_elem in Hp. destruct (at_ptr_ex p Hp) as [e He].
  destruct (mt p) as [m|] eqn:Hm; simpl; [|done].
  destruct (mt_return p e m He Hm) as (_ & e' & He' & Hk' & Hid').
  destruct (at_ptr_node p e He) as (a & r & HE & _ & Hv & Hid & _).
  destruct (at_ptr_node m e' He') as (a' & r' & HE' & _ & Hv' & _ & _).
  rewrite Hv. simpl. rewrite Hv'. simpl.
  destruct (Step M s (e_value e) (e_value e')) as [[[] s1]|] eqn:Hst; simpl; [|done..].
  intros Hrun. rewrite Hid. eapply executes_cons; try done; [rewrite HE|rewrite HE'| |by apply IH].
  - apply elem_of_app. right. apply list_elem_of_here.
  - apply elem_of_app. right. apply list_elem_of_here.
  - apply (is_call_kind p e He). by exists m.
Qed.
End history.

(** ** The verdict *)

Section verdict.
Context {V St : Type} `{!EqDecision St} (M : Model V St).
Context (eqf : St -> St -> bool) (HEq : Equal M = Some eqf).
Context (Heqf : forall s s', eqf s s' = true -> s = s').

Lemma checkInit_spec n (E : list (entry V)) :
  wf_history n E ->
  exists h0, checkInit M E =
      Ret (mkCheck h0 (first (ptrs (length E)) None) (Init M) (newBitset (Z.of_nat n)) ∅ [] []
             (replicate n None), length E) /\
    dll h0 (length E :: ptrs (length E)) /\
    payload <$> h0 = payloads E ++ [(None, None, -1)].
Proof.
  intros Hwf. unfold checkInit, makeLinkedEntries.
  destruct (makeLinked_loop E) as (h & matches & -> & Hd & Hp & _). simpl.
  assert (length h = length E) as Hlen.
  { rewrite <- payloads_length, <- Hp. by rewrite length_fmap. }
  unfold list_length. rewrite (length_loop_spec h None (ptrs (length E)));
    [|apply Hd|rewrite ptrs_length; lia]. simpl.
  destruct (insertBefore_fresh h (ptrs (length E)) (mkNode None None (-1) None None) Hd)
    as (h0 & -> & Hd0 & Hp0); [|done|done|].
  { apply Forall_forall. intros p. rewrite ptrs_elem. lia. }
  simpl. assert (Z.quot (0 + zlen (ptrs (length E))) 2 = Z.of_nat n) as ->.
  { unfold zlen. rewrite ptrs_length, (wh_len _ _ Hwf).
    rewrite Z.quot_div_nonneg by lia. rewrite Z.add_0_l, Nat2Z.inj_mul, Z.mul_comm.
    by rewrite Z.div_mul. }
  rewrite Nat2Z.id, Hlen. rewrite Hlen in Hd0. exists h0. split; [done|]. split; [done|].
  rewrite Hp0, fmap_app, Hp. done.
Qed.

(** The iterations needed for a history of [n] operations. *)
Abbreviation budget := CheckerProof.budget.

Lemma checkSingle_full n (E : list (entry V)) cp kill fuel :
  wf_history n E -> well_typed M E -> (budget n < fuel)%nat ->
  exists ok seqs longest,
    checkSingle M E cp kill fuel = Ret (ok, seqs, longest) /\
    Forall (fun ids => exists s, executes M E (Init M) ids s) seqs /\
    (ok = true -> linearizes M (Init M) E) /\
    (ok = false -> (exists i, kill i = true) \/ ~ linearizes M (Init M) E).
Proof.
  intros Hwf Hty Hfuel. unfold checkSingle.
  destruct (checkInit_spec n E Hwf) as (h0 & -> & Hd & Hp). simpl.
  pose proof (lin_linearizes E n Hwf h0 Hp M (Init M) (ptrs (length E)) E
    (ptrs_wf E n Hwf h0 Hp) (at_ptr_all E [] E eq_refl)) as Hspec.
  assert (length (ptrs (length E)) = (2 * n)%nat) as Hlen.
  { by rewrite ptrs_length, (wh_len _ _ Hwf). }
  setoid_rewrite <- Hspec.
  edestruct (CheckerProof.checkLoop_inv M eqf HEq Heqf h0 (length E) (ptrs (length E)) n)
    with (k := CheckerProof.weight n (length (ptrs (length E)))) (cp := cp) (kill := kill)
      (fuel := fuel) (iter := 0%nat)
    as (ok & seqs & longest & Hrun & Hlg & Hyes & Hno); try done.
  - by eapply ptrs_wf.
  - intros p Hin. by eapply ptrs_ids.
  - intros s p m Hin%ptrs_elem Hm.
    destruct (at_ptr_ex E p Hin) as [e He].
    destruct (mt_return E n Hwf h0 Hp p e m He Hm) as (_ & e' & He' & Hk' & _).
    destruct (at_ptr_node E n Hwf h0 Hp p e He) as (a & r & HE & _ & -> & _).
    destruct (at_ptr_node E n Hwf h0 Hp m e' He') as (a' & r' & HE' & _ & -> & _).
    destruct (Hty s e e') as [x Hx]; [rewrite HE; set_solver|rewrite HE'; set_solver| |done|].
    + apply (is_call_kind E n Hwf h0 Hp p e He). by exists m.
    + eauto 6.
  - by apply CheckerProof.inv_init.
  - rewrite Hlen. pose proof (CheckerProof.weight_full n). lia.
  - exists ok, seqs, longest. split; [exact Hrun|]. split; [|done].
    eapply Forall_impl; [apply (CheckerProof.lg_explained _ _ _ _ _ _ Hlg)|].
    intros ids (ps & s & -> & Hps & Hs). exists s. by eapply run_calls_executes.
Qed.

Lemma checkSingle_verdict n (E : list (entry V)) cp kill fuel :
  wf_history n E -> well_typed M E -> (budget n < fuel)%nat ->
  exists ok seqs longest,
    checkSingle M E cp kill fuel = Ret (ok, seqs, longest) /\
    (ok = true -> linearizes M (Init M) E) /\
    (ok = false -> (exists i, kill i = true) \/ ~ linearizes M (Init M) E).
Proof.
  intros Hwf Hty Hf. destruct (checkSingle_full n E cp kill fuel Hwf Hty Hf)
    as (ok & seqs & longest & Hrun & _ & Hspec). by exists ok, seqs, longest.
Qed.
End verdict.
End CheckSingle.
