(* ===== verification/Linearizability.v ===== *)
(** Linearizability of a history of operations (the promise of
    src/porcupine/porcupine.go), and its equivalence with the specification on
    the sorted entries that [makeEntries] builds. *)
From S2P Require Import Prelude Bitset Porcupine CheckSingle.
Import Porcupine CheckSingle.

Module Linearizability.

Section spec.
Context {V St : Type} (M : Model V St).
Implicit Types (o : Operation V) (l : list (Operation V)).

(** [o] returned before [o'] was called. *)
Definition precedes o o' : Prop := op_Return o < op_Call o'.

(** Executing [l] one by one from [s] produces the observed outputs. *)
Fixpoint legal (s : St) l : Prop :=
  match l with
  | [] => True
  | o :: l' => exists s', Step M s (op_Input o) (op_Output o) = Some (true, s') /\ legal s' l'
  end.

(** No operation comes before one that precedes it in real time. *)
Fixpoint realtime l : Prop :=
  match l with
  | [] => True
  | o :: l' => Forall (fun o' => ~ precedes o' o) l' /\ realtime l'
  end.

Definition linearizable_from (s : St) (history : list (Operation V)) : Prop :=
  exists l, l ≡ₚ history /\ realtime l /\ legal s l.

Definition linearizable (history : list (Operation V)) : Prop :=
  linearizable_from (Init M) history.

(** A history is a multiset of operations. *)
#[export] Instance linearizable_from_perm s :
  Proper ((≡ₚ) ==> iff) (linearizable_from s).
Proof.
  intros k k' Hk. unfold linearizable_from.
  split; intros (l & Hl & H); exists l; [rewrite <- Hk|rewrite Hk]; done.
Qed.

(** Operations return no earlier than they are called. *)
Definition timely (history : list (Operation V)) : Prop :=
  Forall (fun o => op_Call o <= op_Return o) history.

(** The type assertions of the model succeed on the history. *)
Definition typed_ops (history : list (Operation V)) : Prop :=
  forall s o o', o ∈ history -> o' ∈ history ->
  is_Some (Step M s (op_Input o) (op_Output o')).
End spec.

Lemma realtime_lookup {V} (l : list (Operation V)) :
  (forall i j a b, (i < j)%nat -> l !! i = Some a -> l !! j = Some b -> ~ precedes b a) ->
  realtime l.
Proof.
  induction l as [|o l IH]; intros H; [done|]. split.
  - apply Forall_lookup. intros j b Hj. by apply (H 0%nat (S j)); [lia|..].
  - apply IH. intros i j a b Hij Hi Hj. by apply (H (S i) (S j)); [lia|..].
Qed.

Section entries.
Context {V : Type}.
Implicit Types (o : Operation V) (E a b c : list (entry V)) (iops : list (Z * Operation V)).

Definition call_of (io : Z * Operation V) : entry V :=
  mkEntry callEntry (op_Input io.2) io.1 (op_Call io.2) (op_ClientId io.2).
Definition ret_of (io : Z * Operation V) : entry V :=
  mkEntry returnEntry (op_Output io.2) io.1 (op_Return io.2) (op_ClientId io.2).

Definition entries_of iops : list (entry V) :=
  concat (map (fun io => [call_of io; ret_of io]) iops).

Definition number (id : Z) (history : list (Operation V)) : list (Z * Operation V) :=
  imap (fun i o => (id + Z.of_nat i, o)) history.

Lemma number_cons id o history :
  number id (o :: history) = (id, o) :: number (id + 1) history.
Proof.
  unfold number. simpl. f_equal; [f_equal; lia|].
  apply imap_ext. intros i x _. simpl. f_equal. lia.
Qed.

Lemma makeEntries_from_number id history :
  makeEntries_from id history = entries_of (number id history).
Proof.
  revert id. induction history as [|o history IH]; intros id; [done|].
  rewrite number_cons. simpl. by rewrite IH.
Qed.

Lemma number_snd id history : (number id history).*2 = history.
Proof.
  revert id. induction history as [|o history IH]; intros id; [done|].
  rewrite number_cons. simpl. by rewrite IH.
Qed.

Lemma number_ids id history i :
  i ∈ (number id history).*1 -> id <= i < id + zlen history.
Proof.
  revert id. induction history as [|o history IH]; intros id; [by intros ?%elem_of_nil|].
  rewrite number_cons, zlen_cons. pose proof (zlen_nonneg history). simpl.
  intros [->|Hi]%elem_of_cons; [lia|]. apply IH in Hi. lia.
Qed.

Lemma number_nodup id history : NoDup (number id history).*1.
Proof.
  revert id. induction history as [|o history IH]; intros id; [constructor|].
  rewrite number_cons. simpl. constructor; [|done].
  intros Hi%number_ids. lia.
Qed.

Lemma entries_of_length iops : length (entries_of iops) = (2 * length iops)%nat.
Proof. induction iops; [done|]. unfold entries_of in *. simpl. lia. Qed.

Lemma elem_of_entries e iops :
  e ∈ entries_of iops <-> exists io, io ∈ iops /\ (e = call_of io \/ e = ret_of io).
Proof.
  induction iops as [|io iops IH].
  - split; [by intros ?%elem_of_nil|]. intros (? & ?%elem_of_nil & _). done.
  - unfold entries_of in *. simpl. rewrite !elem_of_cons, IH.
    setoid_rewrite elem_of_cons. naive_solver.
Qed.

#[export] Instance entries_of_perm : Proper ((≡ₚ) ==> (≡ₚ)) entries_of.
Proof.
  intros iops iops'. induction 1; simpl; [done| | |by etrans].
  - unfold entries_of in *. simpl. by do 2 f_equiv.
  - unfold entries_of. simpl. solve_Permutation.
Qed.

(** [byTime] orders by time, calls first. *)
Lemma byTime_Less_spec (e e' : entry V) :
  byTime_Less e e' = true <->
  e_time e < e_time e' \/
  (e_time e = e_time e' /\ e_kind e = callEntry /\ e_kind e' = returnEntry).
Proof.
  unfold byTime_Less, callEntry, returnEntry.
  destruct (Z.eqb_spec (e_time e) (e_time e')) as [->|]; simpl.
  - destruct (e_kind e), (e_kind e'); simpl; naive_solver lia.
  - rewrite Z.ltb_lt. naive_solver lia.
Qed.

Lemma byTime_Less_false (e e' : entry V) :
  byTime_Less e e' = false <->
  ~ (e_time e < e_time e' \/
     (e_time e = e_time e' /\ e_kind e = callEntry /\ e_kind e' = returnEntry)).
Proof. rewrite <- byTime_Less_spec. by rewrite not_true_iff_false. Qed.

Lemma byTime_weak_order : weak_order (@byTime_Less V).
Proof.
  split.
  - intros a b. rewrite byTime_Less_spec, byTime_Less_false.
    unfold callEntry, returnEntry. naive_solver (lia || congruence).
  - intros a b c. rewrite !byTime_Less_false. unfold callEntry, returnEntry.
    destruct (e_kind a) eqn:?, (e_kind b) eqn:?, (e_kind c) eqn:?; naive_solver lia.
Qed.

Lemma sorted_split (a c : list (entry V)) e e' :
  sorted_by byTime_Less (a ++ e :: c) -> e' ∈ c -> byTime_Less e' e = false.
Proof.
  intros Hs [j Hj]%list_elem_of_lookup.
  apply (Hs (length a) (length a + S j)%nat); [lia|by apply list_lookup_middle|].
  rewrite lookup_app_r by lia. by replace (_ - _)%nat with (S j) by lia.
Qed.

Lemma sorted_split_l (a c : list (entry V)) e e' :
  sorted_by byTime_Less (a ++ e :: c) -> e' ∈ a -> byTime_Less e e' = false.
Proof.
  intros Hs (a1 & a2 & ->)%list_elem_of_split. rewrite <- app_assoc in Hs.
  eapply sorted_split; [exact Hs|]. set_solver.
Qed.

Lemma sorted_remove (a c : list (entry V)) e :
  sorted_by byTime_Less (a ++ e :: c) -> sorted_by byTime_Less (a ++ c).
Proof.
  intros Hs i j x y Hij Hx Hy.
  apply (Hs (if decide (i < length a)%nat then i else S i)
            (if decide (j < length a)%nat then j else S j)).
  - repeat case_decide; lia.
  - case_decide.
    + rewrite lookup_app_l in Hx |- * by done. done.
    + rewrite lookup_app_r in Hx |- * by lia.
      by replace (S i - length a)%nat with (S (i - length a)) by lia.
  - case_decide.
    + rewrite lookup_app_l in Hy |- * by done. done.
    + rewrite lookup_app_r in Hy |- * by lia.
      by replace (S j - length a)%nat with (S (j - length a)) by lia.
Qed.

(** In sorted entries the return of an operation comes after its call. *)
Lemma ret_after_call (a c : list (entry V)) io :
  sorted_by byTime_Less (a ++ call_of io :: c) -> op_Call io.2 <= op_Return io.2 ->
  ret_of io ∈ a ++ call_of io :: c -> ret_of io ∈ c.
Proof.
  intros Hs Hcr [Hin|[Heq|]%elem_of_cons]%elem_of_app; [|done|done].
  pose proof (sorted_split_l _ _ _ _ Hs Hin) as Hless.
  apply byTime_Less_false in Hless. simpl in Hless. exfalso. apply Hless.
  destruct (decide (op_Call io.2 = op_Return io.2)); [by right|left; lia].
Qed.

Lemma call_before_ret (a c : list (entry V)) io :
  sorted_by byTime_Less (a ++ ret_of io :: c) -> op_Call io.2 <= op_Return io.2 ->
  call_of io ∈ a ++ ret_of io :: c -> call_of io ∈ a.
Proof.
  intros Hs Hcr [|[Heq|Hin]%elem_of_cons]%elem_of_app; [done|done|].
  pose proof (sorted_split _ _ _ _ Hs Hin) as Hless.
  apply byTime_Less_false in Hless. simpl in Hless. exfalso. apply Hless.
  destruct (decide (op_Call io.2 = op_Return io.2)); [by right|left; lia].
Qed.

Lemma entries_of_nodup iops :
  NoDup iops.*1 -> NoDup (map (fun e => (e_kind e, e_id e)) (entries_of iops)).
Proof.
  induction iops as [|io iops IH]; [constructor|]. intros [Hf Hnd]%NoDup_cons.
  unfold entries_of in *. simpl.
  assert (forall k, (k, io.1) ∉ map (fun e => (e_kind e, e_id e)) (entries_of iops)) as Hno.
  { intros k (e & Heq & He)%list_elem_of_fmap. apply Hf.
    apply elem_of_entries in He as (io' & Hio' & He).
    apply list_elem_of_fmap. exists io'. split; [|done].
    destruct He as [-> | ->]; simpl in Heq; congruence. }
  constructor; [|constructor; [apply Hno|by apply IH]].
  rewrite elem_of_cons. intros [Heq|Hin]; [done|by eapply Hno].
Qed.

Lemma sorted_entries_wf E iops n :
  E ≡ₚ entries_of iops -> sorted_by byTime_Less E -> NoDup iops.*1 -> timely iops.*2 ->
  (forall i, i ∈ iops.*1 -> 0 <= i < Z.of_nat n) -> length iops = n -> wf_history n E.
Proof.
  intros HE Hs Hnd Htm Hids Hlen.
  assert (forall io, io ∈ iops -> op_Call io.2 <= op_Return io.2) as Hcr.
  { intros io Hio. unfold timely in Htm. rewrite Forall_forall in Htm.
    apply Htm. by apply list_elem_of_fmap_2. }
  assert (forall e, e ∈ E -> exists io, io ∈ iops /\ (e = call_of io \/ e = ret_of io) /\
    call_of io ∈ E /\ ret_of io ∈ E) as Hin.
  { intros e He. rewrite HE in He. apply elem_of_entries in He as (io & Hio & He).
    exists io. rewrite HE, !elem_of_entries. naive_solver. }
  split.
  - by rewrite HE, entries_of_length, Hlen.
  - rewrite HE. by apply entries_of_nodup.
  - intros e He. destruct (Hin e He) as (io & Hio & Heq & _).
    replace (e_id e) with io.1 by by destruct Heq as [-> | ->].
    apply Hids. by apply list_elem_of_fmap_2.
  - intros a e c -> Hk. destruct (Hin e) as (io & Hio & [->| ->] & Hc & Hr);
      [set_solver| |done].
    exists (ret_of io). split; [|done]. eapply ret_after_call; eauto.
  - intros a e c -> Hk. destruct (Hin e) as (io & Hio & [->| ->] & Hc & Hr);
      [set_solver|done|].
    exists (call_of io). split; [|done]. eapply call_before_ret; eauto.
Qed.
End entries.

Section equivalence.
Context {V St : Type} (M : Model V St).
Implicit Types (o : Operation V) (E a b c : list (entry V)) (iops : list (Z * Operation V)).

(** Two entries with the same identifier belong to the same operation. *)
Lemma entries_op iops io e :
  NoDup iops.*1 -> io ∈ iops -> e ∈ entries_of iops -> e_id e = io.1 ->
  e = call_of io \/ e = ret_of io.
Proof.
  intros Hnd Hio He Hid. apply elem_of_entries in He as (io' & Hio' & He).
  enough (io' = io) as -> by done.
  assert (io'.1 = io.1) as Heq by (destruct He as [-> | ->]; done).
  apply list_elem_of_lookup in Hio as [i Hi], Hio' as [j Hj].
  assert (i = j) as ->; [|congruence].
  apply (NoDup_lookup _ _ _ io.1 Hnd); rewrite list_lookup_fmap, ?Hi, ?Hj; simpl; congruence.
Qed.

(** The entries of one operation taken out of the history. *)
Lemma entries_remove iops io a b c :
  a ++ call_of io :: b ++ ret_of io :: c ≡ₚ entries_of (io :: iops) ->
  a ++ b ++ c ≡ₚ entries_of iops.
Proof.
  intros H. apply (Permutation_app_inv_l [call_of io; ret_of io]).
  change ([call_of io; ret_of io] ++ entries_of iops) with (entries_of (io :: iops)).
  rewrite <- H. simpl. solve_Permutation.
Qed.

(** Choosing a call that no remaining return precedes respects real time. *)
Lemma linearizes_realtime E iops s :
  E ≡ₚ entries_of iops -> sorted_by byTime_Less E -> NoDup iops.*1 ->
  linearizes M s E -> linearizable_from M s iops.*2.
Proof.
  intros HE Hs Hnd Hl. revert iops HE Hs Hnd.
  induction Hl as [s|s a p b r c s' Ha Hkp Hkr Hid Hst Hl IH]; intros iops HE Hs Hnd.
  - apply Permutation_nil_l, (f_equal length) in HE.
    rewrite entries_of_length in HE. simpl in HE.
    destruct iops; simpl in HE; [|lia]. by exists [].
  - assert (p ∈ entries_of iops /\ r ∈ entries_of iops) as [Hp Hr].
    { rewrite <- HE. set_solver. }
    apply elem_of_entries in Hp as (io & Hio & [->| ->]); [|done].
    destruct (entries_op iops io r Hnd Hio Hr Hid) as [->| ->]; [done|].
    apply elem_of_Permutation in Hio as [iops' Hperm].
    rewrite Hperm in Hnd |- *. simpl in Hnd |- *. apply NoDup_cons in Hnd as [_ Hnd].
    assert (a ++ b ++ c ≡ₚ entries_of iops') as HE'.
    { apply (entries_remove _ io). by rewrite HE, Hperm. }
    assert (sorted_by byTime_Less (a ++ b ++ c)) as Hs'.
    { rewrite app_assoc. apply sorted_remove with (ret_of io).
      rewrite <- app_assoc. by apply sorted_remove with (call_of io). }
    destruct (IH iops' HE' Hs' Hnd) as (l & Hl' & Hrt & Hleg).
    exists (io.2 :: l). split; [by rewrite Hl'|]. split; [split; [|done]|by exists s'].
    rewrite Forall_forall. intros o' Ho' Hprec. unfold precedes in Hprec.
    rewrite Hl' in Ho'. apply list_elem_of_fmap in Ho' as (io' & -> & Hio').
    assert (ret_of io' ∈ a ++ b ++ c) as Hin.
    { rewrite HE'. apply elem_of_entries. eauto. }
    assert (ret_of io' ∈ b ++ ret_of io :: c) as Hin2.
    { apply elem_of_app in Hin as [Hin|Hin]; [|set_solver].
      rewrite Forall_forall in Ha. by apply Ha in Hin. }
    pose proof (sorted_split _ _ _ _ Hs Hin2) as Hless.
    apply byTime_Less_false in Hless. simpl in Hless. lia.
Qed.

(** A linearization in real-time order can be followed on the entries. *)
Lemma realtime_linearizes l E iops s :
  E ≡ₚ entries_of iops -> sorted_by byTime_Less E -> NoDup iops.*1 -> timely iops.*2 ->
  l ≡ₚ iops.*2 -> realtime l -> legal M s l -> linearizes M s E.
Proof.
  revert E iops s. induction l as [|o l IH]; intros E iops s HE Hs Hnd Htm Hl Hrt Hleg.
  - apply Permutation_nil_l, (f_equal length) in Hl. rewrite length_fmap in Hl.
    destruct iops; simpl in Hl; [|lia]. apply Permutation_nil_r in HE as ->. constructor.
  - assert (o ∈ iops.*2) as Ho by (rewrite <- Hl; set_solver).
    apply list_elem_of_fmap in Ho as (io & -> & Hio).
    apply elem_of_Permutation in Hio as [iops' Hperm].
    rewrite (entries_of_perm _ _ Hperm) in HE. unfold timely in Htm.
    rewrite Hperm in Hnd, Htm, Hl. simpl in *.
    apply NoDup_cons in Hnd as [Hfresh Hnd]. apply Forall_cons in Htm as [Hcr Htm].
    apply (inj (cons _)) in Hl || apply Permutation_cons_inv in Hl.
    destruct Hrt as [Hfirst Hrt]. destruct Hleg as (s' & Hst & Hleg).
    assert (call_of io ∈ E) as Hcin by (rewrite HE; set_solver).
    apply list_elem_of_split in Hcin as (a & rest & ->).
    assert (ret_of io ∈ rest) as Hrin.
    { eapply ret_after_call; [exact Hs|done|]. rewrite HE. set_solver. }
    apply list_elem_of_split in Hrin as (b & c & ->).
    apply linearizes_step with s'; try done.
    + apply Forall_forall. intros e He.
      destruct (e_kind e) eqn:Ek; [|done]. exfalso.
      pose proof (sorted_split_l _ _ _ _ Hs He) as Hless.
      apply byTime_Less_false in Hless. simpl in Hless. rewrite Ek in Hless.
      assert (e ∈ entries_of iops') as Hin.
      { rewrite <- (entries_remove _ _ _ _ _ HE). set_solver. }
      apply elem_of_entries in Hin as (io' & Hio' & [->| ->]); [done|].
      rewrite Forall_forall in Hfirst. apply (Hfirst io'.2).
      { rewrite Hl. by apply list_elem_of_fmap_2. }
      unfold precedes. simpl in Hless. unfold callEntry, returnEntry in Hless.
      destruct (decide (op_Call io.2 = op_Return io'.2)); [exfalso; naive_solver|].
      lia.
    + apply (IH _ iops'); try done.
      * by apply (entries_remove _ io).
      * rewrite app_assoc. apply sorted_remove with (ret_of io).
        rewrite <- app_assoc. by apply sorted_remove with (call_of io).
Qed.

Context `{!GoSort}.

Lemma makeEntries_perm (history : list (Operation V)) :
  makeEntries history ≡ₚ entries_of (number 0 history).
Proof. unfold makeEntries. by rewrite gosort_perm, makeEntries_from_number. Qed.

Lemma makeEntries_sorted (history : list (Operation V)) :
  sorted_by byTime_Less (makeEntries history).
Proof. apply gosort_sorted, byTime_weak_order. Qed.

Lemma makeEntries_wf (history : list (Operation V)) :
  timely history -> wf_history (length history) (makeEntries history).
Proof.
  intros Htm. eapply (sorted_entries_wf _ (number 0 history)).
  - apply makeEntries_perm.
  - apply makeEntries_sorted.
  - apply number_nodup.
  - by rewrite number_snd.
  - intros i Hi%number_ids. unfold zlen in Hi. lia.
  - unfold number. apply length_imap.
Qed.

Lemma makeEntries_linearizes (history : list (Operation V)) :
  timely history ->
  linearizes M (Init M) (makeEntries history) <-> linearizable M history.
Proof.
  intros Htm. split.
  - intros Hl. unfold linearizable. rewrite <- (number_snd 0 history).
    eapply linearizes_realtime; [apply makeEntries_perm|apply makeEntries_sorted| |done].
    apply number_nodup.
  - intros (l & Hl & Hrt & Hleg).
    eapply (realtime_linearizes l _ (number 0 history)); try done.
    + apply makeEntries_perm.
    + apply makeEntries_sorted.
    + apply number_nodup.
    + by rewrite number_snd.
    + by rewrite number_snd.
Qed.

Lemma makeEntries_typed (history : list (Operation V)) :
  typed_ops M history -> well_typed M (makeEntries history).
Proof.
  intros Hty s p r Hp Hr Hkp Hkr. rewrite makeEntries_perm in Hp, Hr.
  apply elem_of_entries in Hp as (io & Hio & [->| ->]); [|done].
  apply elem_of_entries in Hr as (io' & Hio' & [->| ->]); [done|].
  apply Hty; rewrite <- (number_snd 0 history); by apply list_elem_of_fmap_2.
Qed.
End equivalence.
End Linearizability.
