(* ===== verification/CheckOps.v ===== *)
(** The aggregation of the partitions' verdicts ([checkParallel],
    [checkOperations], [CheckOperations] of src/porcupine): what Ok and Illegal
    mean, whatever the order in which the goroutines finish. *)
From S2P Require Import Prelude Bitset Porcupine CheckerProof CheckSingle Linearizability.
Import Porcupine CheckSingle Linearizability.

Module CheckOps.

(** The partitions whose verdicts a schedule delivers. *)
Fixpoint dones (sched : list arrival) : list nat :=
  match sched with
  | [] => []
  | Done i :: s => i :: dones s
  | Timeout :: s => dones s
  end.

Section collect.
Context (runs : nat -> result bool) (v : nat -> bool) (N : nat) (ci : bool) (timeout : Z).
Context (Hruns : forall i, (i < N)%nat -> runs i = Ret (v i)).

(** What leaving the loop tells about the verdicts received. *)
Definition broke_spec (sched : list arrival) (c : collected) : Prop :=
  match c with
  | Blocked => True
  | Broke ok timedOut _ =>
      exists seen, NoDup seen /\ Forall (fun i => (i < N)%nat) seen /\
        Forall (fun i => i ∈ dones sched) seen /\
        ok = forallb v seen /\ (ok = true -> timedOut = false -> (N <= length seen)%nat)
  end.

Lemma broke_spec_mono sched sched' c :
  (forall i, i ∈ dones sched -> i ∈ dones sched') -> broke_spec sched c -> broke_spec sched' c.
Proof.
  intros H. destruct c as [|ok to cnt]; [done|]. intros (seen & ? & ? & Hs & ?).
  exists seen. split_and!; try done; [|tauto..]. eapply Forall_impl; [exact Hs|]. auto.
Qed.

Lemma collect_spec full seen sched :
  (forall i, i ∈ seen ++ dones sched -> i ∈ dones full) ->
  NoDup (seen ++ dones sched) -> Forall (fun i => (i < N)%nat) (seen ++ dones sched) ->
  exists c, collect runs (Z.of_nat N) ci timeout sched (forallb v seen) (zlen seen) = Ret c /\
    broke_spec full c /\
    (Timeout ∉ sched -> sched <> [] -> (length seen + length sched = N)%nat -> c <> Blocked).
Proof.
  revert seen. induction sched as [|[i|] sched IH]; intros seen Hfull Hnd Hlt; simpl in *.
  - by exists Blocked.
  - rewrite (cons_middle i), app_assoc in Hnd, Hlt.
    assert (Forall (fun j => j ∈ dones full) (seen ++ [i])) as Hin.
    { apply Forall_forall. intros j Hj. apply Hfull. set_solver. }
    assert (NoDup (seen ++ [i]) /\ Forall (fun i => (i < N)%nat) (seen ++ [i])) as [Hnd' Hlt'].
    { apply NoDup_app in Hnd as (? & _). by apply Forall_app in Hlt as [? _]. }
    rewrite (Hruns i) by (rewrite Forall_forall in Hlt; apply Hlt; set_solver). simpl.
    replace (forallb v seen && v i) with (forallb v (seen ++ [i]))
      by (rewrite forallb_app; simpl; by rewrite andb_true_r).
    replace (zlen seen + 1) with (zlen (seen ++ [i])) by (by rewrite zlen_app).
    destruct (negb _ && negb ci) eqn:E1; [|destruct (_ <=? _) eqn:E2].
    + eexists. split; [done|]. split; [|done]. exists (seen ++ [i]).
      split_and!; try done. intros Ht. by rewrite Ht in E1.
    + eexists. split; [done|]. split; [|done]. exists (seen ++ [i]).
      split_and!; try done. intros _ _. bsimp. unfold zlen in E2. lia.
    + destruct (IH (seen ++ [i])) as (c & Hc & Hs & Hb); [|done|done|].
      { intros j Hj. apply Hfull. set_solver. }
      exists c. split; [done|]. split; [done|].
      intros Hto _ Hlen. rewrite length_app in Hb. simpl in Hb.
      apply Hb; [set_solver| |lia].
      intros ->. bsimp. unfold zlen in E2. rewrite length_app in E2. simpl in *. lia.
  - destruct (0 <? timeout); eexists; (split; [done|split; [|set_solver]]); [|done].
    exists seen. split_and!; try done.
    + by apply NoDup_app in Hnd as (? & _).
    + by apply Forall_app in Hlt as [? _].
    + apply Forall_forall. intros j Hj. apply Hfull. set_solver.
Qed.

End collect.

(** Only a time-out makes the loop report one. *)
Lemma collect_timeout runs total ci timeout sched ok count ok' count' :
  collect runs total ci timeout sched ok count = Ret (Broke ok' true count') ->
  Timeout ∈ sched.
Proof.
  revert ok count. induction sched as [|[i|] sched IH]; intros ok count; simpl; [done| |set_solver].
  destruct (runs i) as [r| |]; simpl; try done.
  destruct (negb _ && negb ci); [done|]. destruct (_ <=? _); [done|].
  intros H%IH. set_solver.
Qed.

(** [N] distinct numbers below [N] are all of them. *)
Lemma nodup_lt_all (l : list nat) N :
  NoDup l -> Forall (fun i => (i < N)%nat) l -> (N <= length l)%nat ->
  forall i, (i < N)%nat -> i ∈ l.
Proof.
  intros Hnd Hlt Hlen i Hi.
  assert (l ≡ₚ seq 0 N) as ->; [|apply elem_of_seq; lia].
  apply submseteq_length_Permutation; [|by rewrite length_seq].
  apply NoDup_submseteq; [done|]. intros x Hx. rewrite Forall_forall in Hlt.
  apply elem_of_seq. apply Hlt in Hx. lia.
Qed.

Lemma forallb_false {A} (f : A -> bool) l :
  forallb f l = false -> exists x, x ∈ l /\ f x = false.
Proof.
  induction l as [|x l IH]; [done|]. simpl. intros [H|H]%andb_false_iff; [set_solver|].
  destruct (IH H) as (y & ? & ?). set_solver.
Qed.

(** ** The verdict of all partitions *)

Section parallel.
Context {V St : Type} `{!EqDecision St} (M : Model V St).
Context (eqf : St -> St -> bool) (HEq : Equal M = Some eqf).
Context (Heqf : forall s s', eqf s s' = true -> s = s').

(** A partition that [checkSingle] can decide with the given fuel. *)
Definition decidable_part (fuel : nat) (E : list (entry V)) : Prop :=
  exists n, wf_history n E /\ well_typed M E /\ (CheckerProof.budget n < fuel)%nat.

(** A possible run of the select loop over [N] partitions: every goroutine
    reports at most once, a time-out needs a positive [timeout], and the
    goroutines heard by the loop did not see [kill] set, since only leaving
    the loop sets it. *)
Record valid_run (N : nat) (timeout : Z) (sched : list arrival)
    (kills : nat -> nat -> bool) : Prop := {
  vr_nodup : NoDup (dones sched);
  vr_lt : Forall (fun i => (i < N)%nat) (dones sched);
  vr_timeout : Timeout ∈ sched -> 0 < timeout;
  vr_kills i : i ∈ dones sched -> forall j, kills i j = false }.

(** Every partition reports: the run is not cut short by a time-out. *)
Definition complete_run (N : nat) (sched : list arrival) : Prop :=
  (Timeout ∉ sched) /\ length sched = N.

Lemma dones_length sched : Timeout ∉ sched -> length (dones sched) = length sched.
Proof.
  induction sched as [|[i|] sched IH]; simpl; [done| |set_solver].
  intros H. rewrite IH; [done|set_solver].
Qed.

Context (history : list (list (entry V))) (fuel : nat).
Context (Hparts : Forall (decidable_part fuel) history).

Lemma run_spec ci kill i E :
  history !! i = Some E ->
  exists ok seqs longest, checkSingle M E ci kill fuel = Ret (ok, seqs, longest) /\
    (ok = true -> linearizes M (Init M) E) /\
    ((forall j, kill j = false) -> ok = false -> ~ linearizes M (Init M) E).
Proof.
  intros HE. rewrite Forall_lookup in Hparts.
  destruct (Hparts i E HE) as (n & Hwf & Hty & Hf).
  destruct (checkSingle_verdict M eqf HEq Heqf n E ci kill fuel Hwf Hty Hf)
    as (ok & seqs & longest & Hr & Ht & Hn).
  exists ok, seqs, longest. split; [done|]. split; [done|].
  intros Hk Hf'. destruct (Hn Hf') as [[j Hj]|]; [|done]. by rewrite Hk in Hj.
Qed.

(** What a verdict says about the partitions. *)
Definition verdict_spec (res : CheckResult) : Prop :=
  match res with
  | Ok => Forall (linearizes M (Init M)) history
  | Illegal => Exists (fun E => ~ linearizes M (Init M) E) history
  | Unknown => True
  end.

Lemma infos_total ci kills l :
  Forall (fun i => (i < length history)%nat) l ->
  exists p, allPartials (fun i => subhistory ← of_option (history !! i);
                                  checkSingle M subhistory ci (kills i) fuel) l = Ret p.
Proof.
  induction 1 as [|i l Hi _ [p IH]]; simpl; [by exists []|].
  apply lookup_lt_is_Some in Hi as [E HE]. rewrite HE. simpl.
  destruct (run_spec ci (kills i) i E HE) as (ok & seqs & longest & -> & _). simpl.
  rewrite IH. simpl. eauto.
Qed.

Lemma checkParallel_spec ci timeout sched kills :
  valid_run (length history) timeout sched kills ->
  exists r, checkParallel M history ci timeout sched kills fuel = Ret r /\
    (forall res info, r = Some (res, info) -> verdict_spec res) /\
    (forall info, r = Some (Unknown, info) -> Timeout ∈ sched) /\
    (history <> [] -> complete_run (length history) sched -> r <> None).
Proof.
  intros [Hnd Hlt Hto Hk].
  set (ok_of i := match history !! i with
    | Some E => match checkSingle M E ci (kills i) fuel with Ret (ok, _, _) => ok | _ => false end
    | None => false end).
  set (N := length history) in *.
  unfold checkParallel. set (runs := fun i : nat => _ : result bool).
  assert (forall i, (i < N)%nat -> runs i = Ret (ok_of i)) as Hruns.
  { intros i Hi. unfold runs, ok_of. apply lookup_lt_is_Some in Hi as [E HE].
    rewrite HE. simpl. by destruct (run_spec ci (kills i) i E HE) as (? & ? & ? & -> & _). }
  destruct (collect_spec runs ok_of N ci timeout Hruns sched [] sched) as (c & Hc & Hs & Hb);
    [done|done|done|].
  simpl in Hc. change (zlen []) with 0 in Hc. unfold zlen. fold N. rewrite Hc. simpl.
  destruct c as [|ok to cnt].
  { exists None. split; [done|]. split; [done|]. split; [done|].
    intros Hne [Hnt Hlen]. exfalso. apply Hb; try done.
    - intros ->. by destruct history. }
  match goal with |- context [mbind _ ?m] => assert (exists info, m = Ret info) as [info ->] end.
  { destruct ci; [|by eexists].
    destruct (infos_total true kills (seq 0 N)) as [p ->]; [|by eexists].
    apply Forall_forall. intros i Hi%elem_of_seq. unfold N in Hi. lia. }
  simpl. eexists. split; [done|].
  destruct Hs as (seen & Hnds & Hlts & Hins & -> & Hcnt).
  split; [|split; [|done]].
  - intros res info' [= <- _]. destruct (forallb ok_of seen) eqn:Efb; simpl.
    + destruct to; [done|]. specialize (Hcnt eq_refl eq_refl).
      apply Forall_lookup. intros i E HE.
      assert (i ∈ seen) as Hi by (eapply nodup_lt_all; eauto using lookup_lt_Some).
      rewrite forallb_forall in Efb. specialize (Efb i (proj1 (list_elem_of_In _ _) Hi)).
      unfold ok_of in Efb. rewrite HE in Efb.
      destruct (run_spec ci (kills i) i E HE) as (ok & seqs & longest & Hr & Hy & _).
      rewrite Hr in Efb. by apply Hy.
    + apply forallb_false in Efb as (i & Hi & Hok). rewrite Forall_forall in Hlts, Hins.
      destruct (lookup_lt_is_Some_2 history i) as [E HE]; [by apply Hlts|].
      apply Exists_exists. exists E. split; [by eapply list_elem_of_lookup_2|].
      unfold ok_of in Hok. rewrite HE in Hok.
      destruct (run_spec ci (kills i) i E HE) as (ok & seqs & longest & Hr & _ & Hn).
      rewrite Hr in Hok. apply Hn; [|done]. intros j. apply Hk. by apply Hins.
  - intros info' [= Heq _]. destruct (forallb ok_of seen); simpl in Heq; [|done].
    destruct to; [|done]. by eapply collect_timeout.
Qed.
End parallel.

(** ** The entry points on operations *)

Section operations.
Context {V St : Type} `{!EqDecision St} `{!GoSort} (M : Model V St).
Context (part : list (Operation V) -> option (list (list (Operation V)))).
Context (eqf : St -> St -> bool).
Context (HP : Partition (fillDefault M) = Some part) (HEq : Equal (fillDefault M) = Some eqf).
Context (Heqf : forall s s', eqf s s' = true -> s = s').

(** The partitions the checker can decide: operations return after they are
    called, the type assertions succeed, and the fuel is large enough. *)
Definition decidable_ops (fuel : nat) (p : list (Operation V)) : Prop :=
  timely p /\ typed_ops M p /\ (CheckerProof.budget (length p) < fuel)%nat.

Context (history : list (Operation V)) (partitions : list (list (Operation V))) (fuel : nat).
Context (Hpart : part history = Some partitions).
Context (Hdec : Forall (decidable_ops fuel) partitions).

Lemma partitions_decidable :
  Forall (decidable_part (fillDefault M) fuel) (map makeEntries partitions).
Proof.
  apply Forall_fmap. eapply Forall_impl; [exact Hdec|]. intros p (Htm & Hty & Hf). simpl.
  exists (length p). split_and!; [by apply makeEntries_wf|by apply makeEntries_typed|done].
Qed.

Lemma partitions_linearizable res :
  verdict_spec (fillDefault M) (map makeEntries partitions) res ->
  match res with
  | Ok => Forall (linearizable M) partitions
  | Illegal => ~ Forall (linearizable M) partitions
  | Unknown => True
  end.
Proof.
  assert (forall p, p ∈ partitions ->
    linearizes (fillDefault M) (Init M) (makeEntries p) <-> linearizable M p) as Hiff.
  { intros p Hp. rewrite Forall_forall in Hdec. destruct (Hdec p Hp) as (Htm & _).
    exact (makeEntries_linearizes (fillDefault M) p Htm). }
  destruct res; simpl; [done| |].
  - intros Hl. apply Forall_forall. intros p Hp. apply Hiff; [done|].
    rewrite Forall_forall in Hl. apply Hl. by apply list_elem_of_fmap_2.
  - intros (E & HE & Hn)%Exists_exists Hall. apply list_elem_of_fmap in HE as (p & -> & Hp).
    rewrite Forall_forall in Hall. by apply Hn, Hiff, Hall.
Qed.

(** Every verdict is right, the time-out is the only excuse for Unknown, and
    a complete run has a verdict. *)
Lemma checkOperations_verdict verbose timeout sched kills :
  valid_run (length partitions) timeout sched kills ->
  exists r, checkOperations M history verbose timeout sched kills fuel = Ret r /\
    (forall res info, r = Some (res, info) ->
      match res with
      | Ok => Forall (linearizable M) partitions
      | Illegal => ~ Forall (linearizable M) partitions
      | Unknown => Timeout ∈ sched
      end) /\
    (partitions <> [] -> complete_run (length partitions) sched -> r <> None).
Proof.
  intros Hrun. unfold checkOperations. rewrite HP. simpl. rewrite Hpart. simpl.
  rewrite <- (length_map makeEntries partitions) in Hrun.
  destruct (checkParallel_spec (fillDefault M) eqf HEq Heqf (map makeEntries partitions) fuel
    partitions_decidable verbose timeout sched kills Hrun) as (r & -> & Hv & Hu & Hc).
  exists r. split; [done|]. split.
  - intros res info ->. pose proof (partitions_linearizable res (Hv _ _ eq_refl)) as Hm.
    destruct res; [|done..]. by eapply Hu.
  - intros Hne [Hto Hlen]. apply Hc; [by destruct partitions|].
    split; [done|]. by rewrite length_map.
Qed.

Lemma CheckOperations_verdict sched kills :
  valid_run (length partitions) 0 sched kills ->
  exists r, CheckOperations M history sched kills fuel = Ret r /\
    (forall ok, r = Some ok -> ok = true <-> Forall (linearizable M) partitions) /\
    (partitions <> [] -> complete_run (length partitions) sched -> r <> None).
Proof.
  intros Hrun. unfold CheckOperations.
  destruct (checkOperations_verdict false 0 sched kills Hrun) as (r & -> & Hv & Hc). simpl.
  eexists. split; [done|]. split.
  - intros ok Hok. destruct r as [[res info]|]; [|done]. simpl in Hok. injection Hok as <-.
    specialize (Hv _ _ eq_refl). destruct res; simpl.
    + by apply (vr_timeout _ _ _ _ Hrun) in Hv.
    + done.
    + done.
  - intros Hne Hcr. specialize (Hc Hne Hcr). by destruct r.
Qed.
End operations.

(** With no partition nobody ever reports: without a time-out the select loop
    waits for ever. *)
Lemma checkParallel_nil {V St} `{!EqDecision St} (M : Model V St) ci sched kills fuel :
  valid_run 0 0 sched kills -> checkParallel M [] ci 0 sched kills fuel = Ret None.
Proof.
  intros [_ Hlt Hto _]. destruct sched as [|[i|] sched]; [done| |].
  - simpl in Hlt. apply Forall_cons in Hlt as [? _]. lia.
  - exfalso. assert (0 < 0) by (apply Hto; set_solver). lia.
Qed.
End CheckOps.
