(* ===== verification/KvModel.v ===== *)
(** The key/value model of src/models/kv.go and its contract with the checker:
    partitioning a history by key preserves linearizability, so the verdict of
    the checker on the partitions is the verdict on the whole store. *)
From S2P Require Import Prelude Bitset Porcupine CheckerProof CheckSingle Linearizability CheckOps.
Import Porcupine CheckSingle Linearizability CheckOps.

Module KvModel.

(** [Op] is 0 for get, 1 for put, 2 for append; any other value is an append
    that returns the old value. *)
Record KvInput := mkKvInput { inp_Op : Z; inp_Key : string; inp_Value : string }.
Record KvOutput := mkKvOutput { out_Value : string }.

(** The dynamic types a history can carry. *)
Inductive value :=
  | VInput (i : KvInput)
  | VOutput (o : KvOutput)
  | VOther.

Definition as_KvInput (v : value) : option KvInput :=
  match v with VInput i => Some i | _ => None end.
Definition as_KvOutput (v : value) : option KvOutput :=
  match v with VOutput o => Some o | _ => None end.

Section model.
Context {GS : GoSort}.
Implicit Types (o : Operation value) (history : list (Operation value)).

(** The first loop of [Partition]: group by key. *)
Fixpoint group (m : gmap string (list (Operation value))) history :
    option (gmap string (list (Operation value))) :=
  match history with
  | [] => Some m
  | v :: history' =>
      inp ← as_KvInput (op_Input v);
      let key := inp_Key inp in
      group (<[key := default [] (m !! key) ++ [v]]> m) history'
  end.

Definition kv_Partition history : option (list (list (Operation value))) :=
  m ← group ∅ history;
  let keys := gosort String.ltb (map fst (map_to_list m)) in
  Some (map (fun k => default [] (m !! k)) keys).

Definition kv_Init : string := "".

Definition kv_Step (state : string) (input output : value) : option (bool * string) :=
  inp ← as_KvInput input;
  out ← as_KvOutput output;
  let st := state in
  if inp_Op inp =? 0 then Some (String.eqb (out_Value out) st, state)
  else if inp_Op inp =? 1 then Some (true, inp_Value inp)
  else if inp_Op inp =? 2 then Some (true, (st ++ inp_Value inp)%string)
  else Some (String.eqb (out_Value out) st, (st ++ inp_Value inp)%string).

Definition DescribeOperation (input output : value) : option string :=
  inp ← as_KvInput input;
  out ← as_KvOutput output;
  Some (if (inp_Op inp =? 0)%Z then
          "get('" ++ inp_Key inp ++ "') -> '" ++ out_Value out ++ "'"
        else if (inp_Op inp =? 1)%Z then
          "put('" ++ inp_Key inp ++ "', '" ++ inp_Value inp ++ "')"
        else if (inp_Op inp =? 2)%Z then
          "append('" ++ inp_Key inp ++ "', '" ++ inp_Value inp ++ "')"
        else "<invalid>")%string.

Definition KvModel : Model value string := {|
  Partition := Some kv_Partition;
  PartitionEvent := None;
  Init := kv_Init;
  Step := kv_Step;
  Equal := None |}.

(** ** The whole store, as a specification *)

Definition get (m : gmap string string) (k : string) : string := default "" (m !! k).

(** A step of the store is a step of the addressed key. *)
Definition store_Step (m : gmap string string) (input output : value) :
    option (bool * gmap string string) :=
  inp ← as_KvInput input;
  '(ok, st) ← kv_Step (get m (inp_Key inp)) input output;
  Some (ok, <[inp_Key inp := st]> m).

Definition StoreModel : Model value (gmap string string) := {|
  Partition := None; PartitionEvent := None;
  Init := ∅; Step := store_Step; Equal := None |}.

(** The inputs and outputs have the types the model asserts. *)
Definition kv_typed history : Prop :=
  Forall (fun o => is_Some (as_KvInput (op_Input o)) /\ is_Some (as_KvOutput (op_Output o)))
    history.

Definition key_of o : string :=
  match as_KvInput (op_Input o) with Some i => inp_Key i | None => "" end.

(** ** What [Partition] computes *)

Definition part_of (k : string) history : list (Operation value) :=
  filter (fun o => key_of o = k) history.

Lemma group_spec history m :
  kv_typed history ->
  exists m', group m history = Some m' /\
    (forall k, default [] (m' !! k) = default [] (m !! k) ++ part_of k history) /\
    (forall k, is_Some (m' !! k) <-> is_Some (m !! k) \/ exists o, o ∈ history /\ key_of o = k).
Proof.
  intros Hty. revert m. induction Hty as [|o history [[i Hi] _] _ IH]; intros m; simpl.
  { exists m. split; [done|]. split; [by intros; rewrite app_nil_r|].
    intros k. split; [by left|]. intros [|(? & ?%elem_of_nil & _)]; done. }
  rewrite Hi. simpl.
  assert (key_of o = inp_Key i) as Hk by (unfold key_of; by rewrite Hi).
  edestruct IH as (m' & -> & Hl & Hd). exists m'. split; [done|]. split; intros k.
  - rewrite Hl. unfold part_of at 2. rewrite filter_cons. fold (part_of k history).
    destruct (decide (key_of o = k)) as [<-|Hne].
    + rewrite <- Hk, lookup_insert_eq. simpl. by rewrite <- app_assoc.
    + rewrite lookup_insert_ne by congruence. done.
  - rewrite Hd. destruct (decide (inp_Key i = k)) as [<-|Hne].
    + rewrite lookup_insert_eq. split; [right; exists o; set_solver|by left].
    + rewrite lookup_insert_ne by done. setoid_rewrite elem_of_cons.
      split; [|intros [|(o' & [->|] & ?)]]; naive_solver.
Qed.

Lemma kv_Partition_spec history :
  kv_typed history ->
  exists keys, kv_Partition history = Some (map (fun k => part_of k history) keys) /\
    NoDup keys /\ forall k, k ∈ keys <-> exists o, o ∈ history /\ key_of o = k.
Proof.
  intros Hty. destruct (group_spec history ∅ Hty) as (m & Hg & Hl & Hd).
  unfold kv_Partition. rewrite Hg. simpl.
  exists (gosort String.ltb (map fst (map_to_list m))). split; [|split].
  - f_equal. apply map_ext. intros k. by rewrite Hl, lookup_empty.
  - rewrite gosort_perm. apply NoDup_fst_map_to_list.
  - intros k. rewrite gosort_perm. rewrite lookup_empty in Hd || setoid_rewrite lookup_empty in Hd.
    transitivity (is_Some (m !! k)).
    + rewrite list_elem_of_fmap. split.
      * intros ([k' l] & -> & H%elem_of_map_to_list). by exists l.
      * intros [l Hkl]. exists (k, l). by rewrite elem_of_map_to_list.
    + rewrite Hd. split; [intros [[? ?]|]; done|by right].
Qed.
End model.
(** ** Merging linearizations of independent keys *)

(** [l] interleaves [l1] and [l2]. *)
Inductive interleave {A} : list A -> list A -> list A -> Prop :=
  | interleave_nil : interleave [] [] []
  | interleave_l x l1 l2 l : interleave l1 l2 l -> interleave (x :: l1) l2 (x :: l)
  | interleave_r x l1 l2 l : interleave l1 l2 l -> interleave l1 (x :: l2) (x :: l).

Lemma interleave_perm {A} (l1 l2 l : list A) : interleave l1 l2 l -> l ≡ₚ l1 ++ l2.
Proof.
  induction 1 as [|x l1 l2 l _ IH|x l1 l2 l _ IH]; simpl; [done|by rewrite IH|].
  rewrite IH. solve_Permutation.
Qed.

Lemma interleave_nil_r {A} (l : list A) : interleave l [] l.
Proof. induction l; by constructor. Qed.

Lemma interleave_nil_l {A} (l : list A) : interleave [] l l.
Proof. induction l; by constructor. Qed.

Section merge.
Context {V : Type}.
Implicit Types (l : list (Operation V)).

(** Of the heads of two real-time sequences, one can go first. *)
Lemma head_first o1 l1 o2 l2 :
  timely (o1 :: l1) -> timely (o2 :: l2) -> realtime (o1 :: l1) -> realtime (o2 :: l2) ->
  Forall (fun o => ~ precedes o o1) (o2 :: l2) \/ Forall (fun o => ~ precedes o o2) (o1 :: l1).
Proof.
  unfold timely, precedes. intros Ht1 Ht2 [Hr1 _] [Hr2 _].
  destruct (decide (Forall (fun o => ~ op_Return o < op_Call o1) (o2 :: l2)))
    as [|Hn]; [by left|right].
  apply not_Forall_Exists in Hn; [|apply _].
  apply Exists_exists in Hn as (x2 & Hx2 & Hp2). apply dec_stable in Hp2.
  apply Forall_forall. intros x1 Hx1 Hp1.
  assert (op_Call o1 <= op_Return x1).
  { apply elem_of_cons in Hx1 as [->|Hx1]; [by apply Forall_cons in Ht1 as [? _]|].
    rewrite Forall_forall in Hr1. specialize (Hr1 _ Hx1). unfold precedes in Hr1. lia. }
  assert (op_Call o2 <= op_Return x2).
  { apply elem_of_cons in Hx2 as [->|Hx2]; [by apply Forall_cons in Ht2 as [? _]|].
    rewrite Forall_forall in Hr2. specialize (Hr2 _ Hx2). unfold precedes in Hr2. lia. }
  lia.
Qed.

Lemma realtime_merge l1 l2 :
  timely l1 -> timely l2 -> realtime l1 -> realtime l2 ->
  exists l, interleave l1 l2 l /\ realtime l.
Proof.
  remember (length l1 + length l2)%nat as n eqn:Hn.
  revert l1 l2 Hn. induction n as [|n IH]; intros l1 l2 Hn Ht1 Ht2 Hr1 Hr2.
  { destruct l1, l2; simpl in Hn; try lia. exists []. split; [constructor|done]. }
  destruct l1 as [|o1 l1]; [exists l2; split; [apply interleave_nil_l|done]|].
  destruct l2 as [|o2 l2]; [exists (o1 :: l1); split; [apply interleave_nil_r|done]|].
  pose proof Ht1 as [_ Ht1']%Forall_cons. pose proof Ht2 as [_ Ht2']%Forall_cons.
  pose proof Hr1 as [Hf1 Hr1']. pose proof Hr2 as [Hf2 Hr2']. simpl in Hn.
  destruct (head_first o1 l1 o2 l2) as [Hf|Hf]; try done.
  - destruct (IH l1 (o2 :: l2)) as (l & Hl & Hr); simpl; try done; [lia|].
    exists (o1 :: l). split; [by constructor|]. split; [|done].
    rewrite (interleave_perm _ _ _ Hl). by apply Forall_app.
  - destruct (IH (o1 :: l1) l2) as (l & Hl & Hr); simpl; try done; [lia|].
    exists (o2 :: l). split; [by constructor|]. split; [|done].
    rewrite (interleave_perm _ _ _ Hl). by apply Forall_app.
Qed.

Lemma realtime_filter (P : Operation V -> Prop) `{!forall o, Decision (P o)} l :
  realtime l -> realtime (filter P l).
Proof.
  induction l as [|o l IH]; [done|]. intros [Hf Hr]. rewrite filter_cons.
  destruct (decide (P o)); [|by apply IH]. split; [|by apply IH].
  apply Forall_forall. intros o' [_ Ho']%list_elem_of_filter.
  rewrite Forall_forall in Hf. by apply Hf.
Qed.

Lemma timely_perm l l' : l ≡ₚ l' -> timely l -> timely l'.
Proof. unfold timely. by intros ->. Qed.

Lemma timely_sub l l' : (forall o, o ∈ l' -> o ∈ l) -> timely l -> timely l'.
Proof. unfold timely. rewrite !Forall_forall. auto. Qed.
End merge.

(** ** Locality *)

Section locality.
Context {GS : GoSort}.
Implicit Types (o : Operation value) (l history : list (Operation value)).
Implicit Types (m : gmap string string).

Lemma get_insert_eq m k s : get (<[k := s]> m) k = s.
Proof. unfold get. by rewrite lookup_insert_eq. Qed.

Lemma get_insert_ne m k k' s : k <> k' -> get (<[k := s]> m) k' = get m k'.
Proof. intros. unfold get. by rewrite lookup_insert_ne. Qed.

(** A successful step of the store is one of the key, and leaves the others. *)
Lemma store_Step_spec m o m' :
  store_Step m (op_Input o) (op_Output o) = Some (true, m') <->
  exists s, kv_Step (get m (key_of o)) (op_Input o) (op_Output o) = Some (true, s) /\
    m' = <[key_of o := s]> m.
Proof.
  unfold store_Step, key_of. split.
  - intros Hst. destruct (as_KvInput (op_Input o)) as [i|]; simpl in Hst; [|done].
    destruct (kv_Step _ _ _) as [[ok s]|]; simpl in Hst; [|done].
    injection Hst as -> <-. eauto.
  - intros (s & Hst & ->). destruct (as_KvInput (op_Input o)) as [i|] eqn:Hi; simpl.
    + rewrite Hst. done.
    + unfold kv_Step in Hst. rewrite Hi in Hst. done.
Qed.

Lemma legal_project m l k :
  legal StoreModel m l -> legal KvModel (get m k) (part_of k l).
Proof.
  revert m. induction l as [|o l IH]; intros m; [done|].
  intros (m' & Hst & Hl). apply store_Step_spec in Hst as (s & Hst & ->).
  unfold part_of. rewrite filter_cons. fold (part_of k l).
  destruct (decide (key_of o = k)) as [<-|Hne].
  - exists s. split; [done|]. rewrite <- (get_insert_eq m (key_of o) s) at 1. by apply IH.
  - rewrite <- (get_insert_ne m (key_of o) k s Hne). by apply IH.
Qed.

Lemma legal_merge k m m2 l1 l2 l :
  interleave l1 l2 l ->
  Forall (fun o => key_of o = k) l1 -> Forall (fun o => key_of o <> k) l2 ->
  (forall k', k' <> k -> get m k' = get m2 k') ->
  legal KvModel (get m k) l1 -> legal StoreModel m2 l2 -> legal StoreModel m l.
Proof.
  intros Hi. revert m m2. induction Hi as [|o l1 l2 l _ IH|o l1 l2 l _ IH];
    intros m m2 H1 H2 Hm Hl1 Hl2; [done| |].
  - apply Forall_cons in H1 as [Hk H1]. destruct Hl1 as (s & Hst & Hl1).
    exists (<[k := s]> m). split.
    { apply store_Step_spec. rewrite Hk. eauto. }
    apply (IH _ m2); try done.
    + intros k' Hne. rewrite get_insert_ne by done. by apply Hm.
    + by rewrite get_insert_eq.
  - apply Forall_cons in H2 as [Hk H2]. destruct Hl2 as (m2' & Hst & Hl2).
    apply store_Step_spec in Hst as (s & Hst & ->).
    exists (<[key_of o := s]> m). split.
    { apply store_Step_spec. rewrite Hm by done. eauto. }
    apply (IH _ (<[key_of o := s]> m2)); try done.
    + intros k' Hne. unfold get. destruct (decide (key_of o = k')) as [->|].
      * by rewrite !lookup_insert_eq.
      * rewrite !lookup_insert_ne by done. by apply Hm.
    + by rewrite get_insert_ne.
Qed.

(** The operations whose key is one of [keys]. *)
Definition on_keys (keys : list string) history : list (Operation value) :=
  filter (fun o => key_of o ∈ keys) history.

Lemma on_keys_nil history : on_keys [] history = [].
Proof.
  induction history as [|o history IH]; [done|]. unfold on_keys in *.
  rewrite filter_cons, decide_False; [done|]. by intros ?%elem_of_nil.
Qed.

Lemma on_keys_all keys history :
  (forall o, o ∈ history -> key_of o ∈ keys) -> on_keys keys history = history.
Proof.
  induction history as [|o history IH]; intros Hin; [done|]. unfold on_keys in *.
  rewrite filter_cons, decide_True by (apply Hin; set_solver).
  f_equal. apply IH. set_solver.
Qed.

Lemma on_keys_cons k keys history :
  k ∉ keys -> on_keys (k :: keys) history ≡ₚ part_of k history ++ on_keys keys history.
Proof.
  intros Hk. induction history as [|o history IH]; [done|].
  unfold on_keys, part_of in *. rewrite !filter_cons.
  destruct (decide (key_of o = k)) as [<-|Hne].
  - rewrite decide_True by set_solver. rewrite decide_False by done. simpl. by rewrite IH.
  - destruct (decide (key_of o ∈ keys)).
    + rewrite decide_True by set_solver. rewrite IH. solve_Permutation.
    + rewrite decide_False by set_solver. done.
Qed.

Lemma on_keys_linearizable keys history :
  NoDup keys -> timely history ->
  Forall (linearizable KvModel) (map (fun k => part_of k history) keys) ->
  linearizable StoreModel (on_keys keys history).
Proof.
  intros Hnd Htm. induction Hnd as [|k keys Hk Hnd IH]; intros Hall.
  { exists []. by rewrite on_keys_nil. }
  simpl in Hall. apply Forall_cons in Hall as [(l1 & Hp1 & Hr1 & Hl1) Hall].
  destruct (IH Hall) as (l2 & Hp2 & Hr2 & Hl2).
  assert (forall o, o ∈ l1 -> key_of o = k /\ o ∈ history) as Hin1.
  { intros o. rewrite Hp1. by intros [? ?]%list_elem_of_filter. }
  assert (forall o, o ∈ l2 -> key_of o ∈ keys /\ o ∈ history) as Hin2.
  { intros o. rewrite Hp2. by intros [? ?]%list_elem_of_filter. }
  destruct (realtime_merge l1 l2) as (l & Hi & Hr); try done.
  { eapply timely_sub; [|exact Htm]. intros o Ho. by apply Hin1. }
  { eapply timely_sub; [|exact Htm]. intros o Ho. by apply Hin2. }
  exists l. split; [|split; [done|]].
  - by rewrite (interleave_perm _ _ _ Hi), Hp1, Hp2, on_keys_cons.
  - apply (legal_merge k _ ∅ l1 l2); try done.
    + apply Forall_forall. intros o Ho. by apply Hin1.
    + apply Forall_forall. intros o Ho <-. apply Hk. by apply Hin2.
Qed.

Lemma part_of_linearizable k history :
  linearizable StoreModel history -> linearizable KvModel (part_of k history).
Proof.
  intros (l & Hp & Hr & Hl). exists (part_of k l). split; [|split].
  - unfold part_of. by rewrite Hp.
  - by apply realtime_filter.
  - exact (legal_project ∅ l k Hl).
Qed.

Lemma partition_locality history parts :
  timely history -> kv_typed history -> kv_Partition history = Some parts ->
  linearizable StoreModel history <-> Forall (linearizable KvModel) parts.
Proof.
  intros Htm Hty Hpart. destruct (kv_Partition_spec history Hty) as (keys & Hp & Hnd & Hk).
  rewrite Hp in Hpart. injection Hpart as <-. split.
  - intros Hl. apply Forall_forall. intros p (k & -> & _)%list_elem_of_fmap.
    by apply part_of_linearizable.
  - intros Hall%on_keys_linearizable; [|done..].
    rewrite on_keys_all in Hall; [done|]. intros o Ho. apply Hk. by exists o.
Qed.
End locality.

(** ** The checker on the key/value model *)

Section check.
Context {GS : GoSort}.
Implicit Types (history : list (Operation value)).

Lemma budget_mono n k : (n <= k)%nat -> (CheckerProof.budget n <= CheckerProof.budget k)%nat.
Proof. induction 1 as [|k _ IH]; [done|]. simpl. nia. Qed.

Lemma kv_parts_typed history parts :
  kv_typed history -> kv_Partition history = Some parts ->
  Forall (typed_ops KvModel) parts.
Proof.
  intros Hty Hpart. destruct (kv_Partition_spec history Hty) as (keys & Hp & _).
  rewrite Hp in Hpart. injection Hpart as <-.
  apply Forall_forall. intros p (k & -> & _)%list_elem_of_fmap s o o' Ho Ho'.
  apply list_elem_of_filter in Ho as [_ Ho], Ho' as [_ Ho'].
  unfold kv_typed in Hty. rewrite Forall_forall in Hty.
  destruct (Hty o Ho) as [[i Hi] _], (Hty o' Ho') as [_ [u Hu]].
  simpl. unfold kv_Step. rewrite Hi, Hu. simpl. repeat case_match; by eexists.
Qed.

Lemma kv_parts_decidable history parts fuel :
  timely history -> kv_typed history -> kv_Partition history = Some parts ->
  (CheckerProof.budget (length history) < fuel)%nat ->
  Forall (decidable_ops KvModel fuel) parts.
Proof.
  intros Htm Hty Hpart Hfuel. pose proof (kv_parts_typed _ _ Hty Hpart) as Htys.
  destruct (kv_Partition_spec history Hty) as (keys & Hp & _).
  rewrite Hp in Hpart. injection Hpart as <-.
  rewrite Forall_forall in Htys |- *. intros p Hpk. specialize (Htys p Hpk).
  apply list_elem_of_fmap in Hpk as (k & -> & _). split; [|split; [done|]].
  - eapply timely_sub; [|exact Htm]. by intros o [_ ?]%list_elem_of_filter.
  - eapply Nat.le_lt_trans; [|exact Hfuel]. apply budget_mono. apply length_filter.
Qed.

Lemma kv_parts_ne history parts :
  kv_typed history -> kv_Partition history = Some parts -> history <> [] -> parts <> [].
Proof.
  intros Hty Hpart Hne ->. destruct (kv_Partition_spec history Hty) as (keys & Hp & _ & Hk).
  rewrite Hp in Hpart. injection Hpart as Hkeys%map_eq_nil. destruct history as [|o h]; [by destruct Hne|].
  assert (key_of o ∈ keys) as Hin by (apply Hk; exists o; set_solver).
  rewrite Hkeys in Hin. by apply elem_of_nil in Hin.
Qed.

Lemma kv_Partition_nil : kv_Partition [] = Some [].
Proof.
  destruct (kv_Partition_spec []) as (keys & -> & _ & Hk); [constructor|].
  destruct keys as [|k keys]; [done|]. exfalso.
  assert (k ∈ k :: keys) as (o & []%elem_of_nil & _)%Hk by set_solver.
Qed.

(** Partitioning never fails on well-typed histories, and the history of the
    whole store is linearizable exactly when every partition is: the contract
    stated at [Model.Partition] in model.go. *)
Theorem kv_Partition_local history :
  timely history -> kv_typed history ->
  exists parts, kv_Partition history = Some parts /\
    (linearizable StoreModel history <-> Forall (linearizable KvModel) parts).
Proof.
  intros Htm Hty. destruct (kv_Partition_spec history Hty) as (keys & Hp & _).
  eexists. split; [exact Hp|]. by apply partition_locality.
Qed.

(** The verdict of the checker, partition by partition. *)
Lemma CheckOperations_KvModel_decides history parts sched kills fuel :
  timely history -> kv_typed history -> history <> [] ->
  kv_Partition history = Some parts -> (CheckerProof.budget (length history) < fuel)%nat ->
  valid_run (length parts) 0 sched kills -> complete_run (length parts) sched ->
  exists ok, CheckOperations KvModel history sched kills fuel = Ret (Some ok) /\
    (ok = true <-> linearizable StoreModel history).
Proof.
  intros Htm Hty Hne Hpart Hfuel Hrun Hcr.
  pose proof (kv_parts_decidable _ _ _ Htm Hty Hpart Hfuel) as Hdec.
  destruct (CheckOperations_verdict KvModel kv_Partition ShallowEqual eq_refl eq_refl
    (fun s s' => proj1 (bool_decide_eq_true _)) history parts fuel Hpart Hdec sched kills Hrun)
    as (r & Hr & Hv & Hc).
  destruct r as [ok|]; [|by destruct (Hc (kv_parts_ne _ _ Hty Hpart Hne) Hcr)].
  exists ok. split; [done|]. rewrite (Hv ok eq_refl).
  symmetry. by apply partition_locality.
Qed.

(** Without operations there is no partition, and no goroutine to wait for. *)
Lemma CheckOperations_KvModel_nil sched kills fuel :
  valid_run 0 0 sched kills -> CheckOperations KvModel [] sched kills fuel = Ret None.
Proof.
  intros Hrun. unfold CheckOperations, checkOperations.
  change (Partition (fillDefault KvModel)) with (Some kv_Partition).
  cbn [of_option mbind result_bind]. rewrite kv_Partition_nil. simpl.
  by rewrite checkParallel_nil.
Qed.

(** C4. [CheckOperations KvModel] decides the linearizability of a non-empty history
    of the whole store, in which no operation returns before its call and the
    inputs and outputs have the model's types: with a budget of search steps that
    depends on the length of the history, and in every order in which all the
    goroutines report, it returns, and the answer is the right one.  The empty
    history is the one exception: there, and only there, it gives no answer, for it
    has no time-out and waits for ever ([Ret None]). *)
Theorem CheckOperations_KvModel_correct history parts sched kills fuel :
  timely history -> kv_typed history ->
  kv_Partition history = Some parts -> (CheckerProof.budget (length history) < fuel)%nat ->
  valid_run (length parts) 0 sched kills -> complete_run (length parts) sched ->
  exists r, CheckOperations KvModel history sched kills fuel = Ret r /\
    (r = None <-> history = []) /\
    (forall ok, r = Some ok -> (ok = true <-> linearizable StoreModel history)).
Proof.
  intros Ht Hty Hp Hf Hrun Hcr. destruct (decide (history = [])) as [->|Hne].
  - rewrite kv_Partition_nil in Hp. injection Hp as <-.
    exists None. split; [by apply CheckOperations_KvModel_nil|done].
  - destruct (CheckOperations_KvModel_decides history parts sched kills fuel) as (ok & Hok & Hv); try done.
    exists (Some ok). split; [done|]. split; [done|]. by intros ? [= <-].
Qed.

(** On an empty history the checker waits for ever, although the empty history is
    linearizable. *)
Theorem CheckOperations_KvModel_empty_blocks sched kills fuel :
  valid_run 0 0 sched kills ->
  CheckOperations KvModel [] sched kills fuel = Ret None /\ linearizable StoreModel [].
Proof. intros Hrun. split; [by apply CheckOperations_KvModel_nil|by exists []]. Qed.
End check.

(** ** Runs on concrete histories *)

Section runs.
#[local] Existing Instance isort_GoSort.

Definition op_put (c : Z) (k v : string) (call ret : Z) : Operation value :=
  mkOperation c (VInput (mkKvInput 1 k v)) call (VOutput (mkKvOutput "")) ret.
Definition op_get (c : Z) (k v : string) (call ret : Z) : Operation value :=
  mkOperation c (VInput (mkKvInput 0 k "")) call (VOutput (mkKvOutput v)) ret.

(** Two overlapping reads around a write on [x], and a write on [y]. *)
Definition sample : list (Operation value) :=
  [op_put 0 "x" "a" 0 10; op_get 1 "x" "" 2 4; op_get 2 "x" "a" 5 12; op_put 1 "y" "b" 6 7].

(** The second read returns the old value although the first saw the new one. *)
Definition stale : list (Operation value) :=
  [op_put 0 "x" "a" 0 10; op_get 1 "x" "a" 2 4; op_get 2 "x" "" 5 12; op_put 1 "y" "b" 6 7].

Definition both : list arrival := [Done 1; Done 0].
Definition nokill (i j : nat) : bool := false.

Lemma both_valid : valid_run 2 0 both nokill.
Proof.
  split.
  - simpl. by apply (bool_decide_unpack _).
  - simpl. repeat constructor.
  - unfold both. intros ?. set_solver.
  - done.
Qed.

Example sample_accepted :
  CheckOperations KvModel sample both nokill 2000 = Ret (Some true).
Proof. vm_compute. reflexivity. Qed.

Example stale_rejected :
  CheckOperations KvModel stale both nokill 2000 = Ret (Some false).
Proof. vm_compute. reflexivity. Qed.

Lemma CheckOperations_KvModel_correct_witness :
  exists parts ok, kv_Partition stale = Some parts /\
    CheckOperations KvModel stale both nokill 2000 = Ret (Some ok) /\
    (ok = true <-> linearizable StoreModel stale).
Proof.
  eexists _. refine (_ : exists ok, _).
  edestruct (CheckOperations_KvModel_correct stale) as ([ok|] & Hok & Hne & Hv);
    [..|exists ok; split; [|split; [exact Hok|exact (Hv ok eq_refl)]]
       |discriminate (proj1 Hne eq_refl)].
  - by apply (bool_decide_unpack _).
  - repeat constructor; by eexists.
  - by vm_compute.
  - apply Nat.ltb_lt. by vm_compute.
  - exact both_valid.
  - split; [unfold both; set_solver|done].
  - by vm_compute.
Defined.

Lemma kv_Partition_local_witness :
  exists parts, kv_Partition sample = Some parts /\
    (linearizable StoreModel sample <-> Forall (linearizable KvModel) parts).
Proof.
  apply kv_Partition_local.
  - by apply (bool_decide_unpack _).
  - repeat constructor; by eexists.
Defined.

Lemma CheckOperations_KvModel_empty_blocks_witness :
  CheckOperations KvModel [] [] nokill 10 = Ret None /\
  linearizable StoreModel [].
Proof.
  apply CheckOperations_KvModel_empty_blocks. split; [constructor|constructor| |done].
  by intros ?%elem_of_nil.
Defined.
End runs.
End KvModel.
