(* ===== verification/CheckerProps.v ===== *)
(** What the checker promises, for any model (src/porcupine/porcupine.go,
    checker.go, bitset.go): the two data structures of the search, one
    partition, histories of operations and histories of events. *)
From S2P Require Import Prelude Bitset Porcupine LinkedList CheckerProof CheckSingle Linearizability CheckOps KvModel.
Import Porcupine LinkedList CheckSingle Linearizability CheckOps.

Module CheckerProps.

(** ** The data structures of the search *)

(** A bitset is a finite set of positions: [set], [clear] and [get] on its
    64-bit words are insertion, removal and membership. *)
Theorem bitset_is_set n b X pos :
  Bitset.repr n b X -> 0 <= pos < n ->
  (exists b', Bitset.set b pos = Some b' /\ Bitset.repr n b' ({[pos]} ∪ X)) /\
  (exists b', Bitset.clear b pos = Some b' /\ Bitset.repr n b' (X ∖ {[pos]})) /\
  Bitset.get b pos = Some (bool_decide (pos ∈ X)).
Proof.
  intros Hr Hpos. split; [by apply Bitset.repr_set|]. split; [by apply Bitset.repr_clear|].
  by apply Hr.
Qed.

(** [lift] takes a call and its return out of the doubly linked list and
    changes nothing else; [unlift] puts the store back exactly as it was, which
    is what makes the search's backtracking sound. *)
Theorem lift_unlift {V} (h : list (node V)) a e b m c :
  a <> [] -> dll h (a ++ e :: b ++ m :: c) -> deref_match h e = Some m ->
  exists h', lift h e = Some h' /\ dll h' (a ++ b ++ c) /\
    payload <$> h' = payload <$> h /\ unlift h' e = Some h.
Proof. apply lift_spec. Qed.

(** ** Histories of events *)

Section events.
Context {V : Type}.
Implicit Types (events : list (Event V)) (iops : list (Z * Operation V)) (m : gmap Z Z).

Definition rename_event (f : Z -> Z) (v : Event V) : Event V :=
  mkEvent (ev_ClientId v) (ev_Kind v) (ev_Value v) (f (ev_Id v)).
Definition rename_entry (f : Z -> Z) (e : entry V) : entry V :=
  mkEntry (e_kind e) (e_value e) (f (e_id e)) (e_time e) (e_clientId e).

(** [m] numbers its keys from 0, differently. *)
Definition numbering m : Prop :=
  (forall x y r, m !! x = Some r -> m !! y = Some r -> x = y) /\
  (forall x r, m !! x = Some r -> 0 <= r < Z.of_nat (size m)).

Lemma numbering_empty : numbering ∅.
Proof. by split; intros *; rewrite lookup_empty. Qed.

Lemma numbering_insert m x :
  numbering m -> m !! x = None -> numbering (<[x := Z.of_nat (size m)]> m).
Proof.
  intros [Hinj Hr] Hx. split.
  - intros y z r. rewrite !lookup_insert_Some. intros [[<- <-]|[Hy Hmy]] [[<- Heq]|[Hz Hmz]];
      try done; [apply Hr in Hmz|subst; apply Hr in Hmy|by eapply Hinj]; lia.
  - intros y r. rewrite map_size_insert_None, lookup_insert_Some by done.
    intros [[<- <-]|[_ Hy]]; [lia|]. apply Hr in Hy. lia.
Qed.

Lemma renumber_from_rename m events :
  numbering m ->
  exists m', m ⊆ m' /\ numbering m' /\
    dom m' = dom m ∪ list_to_set (map ev_Id events) /\
    renumber_from m (Z.of_nat (size m)) events =
      map (rename_event (fun i => default 0 (m' !! i))) events.
Proof.
  revert m. induction events as [|v events IH]; intros m Hm; simpl.
  { exists m. split; [done|]. split; [done|]. split; [set_solver|done]. }
  destruct (m !! ev_Id v) as [r|] eqn:Ev.
  - destruct (IH m Hm) as (m' & Hsub & Hm' & Hdom & Heq). exists m'.
    split; [done|]. split; [done|]. split.
    + rewrite Hdom. apply elem_of_dom_2 in Ev. set_solver.
    + rewrite Heq. f_equal. unfold rename_event. by rewrite (lookup_weaken _ _ _ _ Ev Hsub).
  - destruct (IH _ (numbering_insert m _ Hm Ev)) as (m' & Hsub & Hm' & Hdom & Heq).
    rewrite map_size_insert_None, Nat2Z.inj_succ in Heq by done.
    exists m'. split; [by etrans; [apply insert_subseteq|]|]. split; [done|]. split.
    + rewrite Hdom, dom_insert_L. set_solver.
    + unfold Z.succ in Heq. rewrite Heq. f_equal. unfold rename_event.
      assert (m' !! ev_Id v = Some (Z.of_nat (size m))) as ->; [|done].
      eapply lookup_weaken; [|exact Hsub]. by rewrite lookup_insert_eq.
Qed.

Lemma convertEntries_rename f events :
  convertEntries (map (rename_event f) events) = map (rename_entry f) (convertEntries events).
Proof.
  unfold convertEntries. change (map (rename_event f) events) with (rename_event f <$> events).
  change (map (rename_entry f)) with (fmap (M := list) (rename_entry f)).
  rewrite imap_fmap, fmap_imap. by apply imap_ext.
Qed.

Lemma entries_of_rename f iops :
  entries_of (map (fun io => (f io.1, io.2)) iops) = map (rename_entry f) (entries_of iops).
Proof.
  induction iops as [|io iops IH]; [done|]. unfold entries_of in *. simpl. by rewrite IH.
Qed.

(** The times of the entries are their positions. *)
Lemma convertEntries_sorted events : sorted_by byTime_Less (convertEntries events).
Proof.
  intros i j a b Hij Ha Hb. unfold convertEntries in *.
  rewrite list_lookup_imap in Ha, Hb.
  destruct (events !! i), (events !! j); simpl in *; try done.
  injection Ha as <-. injection Hb as <-. unfold byTime_Less. simpl.
  destruct (Z.eqb_spec (Z.of_nat j) (Z.of_nat i)); [lia|]. simpl. apply Z.ltb_ge. lia.
Qed.

(** [events] are the calls and returns of the operations [iops], each with an
    identifier of its own; the times of an operation are the positions of its
    two events. *)
Definition event_history events iops : Prop :=
  convertEntries events ≡ₚ entries_of iops /\ NoDup iops.*1 /\ timely iops.*2.

Lemma event_ids events iops :
  event_history events iops ->
  (list_to_set (map ev_Id events) : gset Z) = list_to_set iops.*1.
Proof.
  intros (Hp & _ & _). apply set_eq. intros x. rewrite !elem_of_list_to_set.
  assert (map ev_Id events = map e_id (convertEntries events)) as ->.
  { unfold convertEntries. change (map e_id) with (fmap (M := list) (e_id (V := V))).
    rewrite fmap_imap. change (map ev_Id events) with (ev_Id <$> events).
    rewrite <- (list_fmap_id (ev_Id <$> events)). rewrite <- imap_const, imap_fmap.
    by apply imap_ext. }
  rewrite Hp. rewrite !list_elem_of_fmap. setoid_rewrite elem_of_entries. split.
  - intros (e & -> & io & Hio & [-> | ->]); by exists io.
  - intros (io & -> & Hio). exists (call_of io). split; [done|]. exists io. auto.
Qed.

(** After [renumber] the identifiers are 0, 1, ... in the order of the calls. *)
Lemma renumber_entries events iops :
  event_history events iops ->
  exists iops', iops'.*2 = iops.*2 /\ NoDup iops'.*1 /\ length iops' = length iops /\
    (forall i, i ∈ iops'.*1 -> 0 <= i < Z.of_nat (length iops)) /\
    convertEntries (renumber events) ≡ₚ entries_of iops'.
Proof.
  intros Hev. pose proof Hev as (Hp & Hnd & _).
  destruct (renumber_from_rename ∅ events numbering_empty) as (m & _ & [Hinj Hr] & Hdom & Heq).
  rewrite dom_empty_L, union_empty_l_L, (event_ids _ _ Hev) in Hdom.
  assert (size m = length iops) as Hsize.
  { rewrite <- (size_dom (D := gset Z)), Hdom, size_list_to_set by done. by rewrite length_fmap. }
  set (f i := default 0 (m !! i)).
  assert (forall i, i ∈ iops.*1 -> m !! i = Some (f i)) as Hf.
  { intros i Hi. assert (i ∈ dom m) as [r Hm]%elem_of_dom.
    { rewrite Hdom. by apply elem_of_list_to_set. }
    unfold f. by rewrite Hm. }
  exists (map (fun io => (f io.1, io.2)) iops).
  assert ((map (fun io => (f io.1, io.2)) iops).*1 = f <$> iops.*1) as H1.
  { change (map (fun io => (f io.1, io.2)) iops) with ((fun io => (f io.1, io.2)) <$> iops).
    by rewrite <- !list_fmap_compose. }
  split_and!.
  - change (map (fun io => (f io.1, io.2)) iops) with ((fun io => (f io.1, io.2)) <$> iops).
    by rewrite <- list_fmap_compose.
  - rewrite H1. apply NoDup_fmap_2_strong; [|done]. intros x y Hx Hy Hxy.
    apply Hf in Hx, Hy. rewrite Hxy in Hx. by apply (Hinj x y (f y)).
  - apply length_map.
  - intros i Hi. rewrite H1 in Hi. apply list_elem_of_fmap in Hi as (x & -> & Hx).
    rewrite <- Hsize. by apply (Hr x), Hf.
  - unfold renumber. change 0 with (Z.of_nat (size (∅ : gmap Z Z))). rewrite Heq.
    rewrite convertEntries_rename, entries_of_rename. fold f. by rewrite Hp.
Qed.
End events.

(** ** Verdicts *)

Section verdicts.
Context {V St : Type} `{!EqDecision St}.
Implicit Types (M : Model V St).

(** C22. One partition, any model whose [Equal] only holds of equal states, a complete
    history with the types the model expects: with the fuel of [budget] the search
    returns; [true] means that the history is linearizable, and [false] that it is not
    or that the search was told to stop. *)
Theorem checkSingle_correct M eqf n (E : list (entry V)) cp kill fuel :
  Equal M = Some eqf -> (forall s s', eqf s s' = true -> s = s') ->
  wf_history n E -> well_typed M E -> (CheckerProof.budget n < fuel)%nat ->
  exists ok seqs longest,
    checkSingle M E cp kill fuel = Ret (ok, seqs, longest) /\
    (ok = true -> linearizes M (Init M) E) /\
    (ok = false -> (exists i, kill i = true) \/ ~ linearizes M (Init M) E).
Proof. intros HEq Heqf. by apply (checkSingle_verdict M eqf). Qed.

Context `{!GoSort}.

(** C21. Histories of operations, any model whose [Equal] only holds of equal states,
    with a time-out: when the operations of each partition return no earlier than
    they are called and have the types the model expects, and the search has its
    budget, then Ok means that every partition is linearizable, Illegal that one is
    not, Unknown that the time-out came first; and if there is a partition and every
    one reports, there is an answer. *)
Theorem checkOperations_correct M part eqf history partitions fuel verbose timeout sched kills :
  Partition (fillDefault M) = Some part -> Equal (fillDefault M) = Some eqf ->
  (forall s s', eqf s s' = true -> s = s') ->
  part history = Some partitions -> Forall (decidable_ops M fuel) partitions ->
  valid_run (length partitions) timeout sched kills ->
  exists r, checkOperations M history verbose timeout sched kills fuel = Ret r /\
    (forall res info, r = Some (res, info) ->
      match res with
      | Ok => Forall (linearizable M) partitions
      | Illegal => ~ Forall (linearizable M) partitions
      | Unknown => Timeout ∈ sched
      end) /\
    (partitions <> [] -> complete_run (length partitions) sched -> r <> None).
Proof. intros HP HEq Heqf Hpart Hdec. by apply (checkOperations_verdict M part eqf). Qed.

(** A partition of events the checker can decide. *)
Definition decidable_events M (fuel : nat) (events : list (Event V))
    (iops : list (Z * Operation V)) : Prop :=
  event_history events iops /\ typed_ops M iops.*2 /\
  (CheckerProof.budget (length iops) < fuel)%nat.

Lemma event_entries_decidable M fuel events iops :
  decidable_events M fuel events iops ->
  decidable_part (fillDefault M) fuel (convertEntries (renumber events)) /\
  (linearizes (fillDefault M) (Init M) (convertEntries (renumber events)) <->
   linearizable M iops.*2).
Proof.
  intros (Hev & Hty & Hf). pose proof Hev as (_ & _ & Htm).
  destruct (renumber_entries events iops Hev) as (iops' & H2 & Hnd & Hlen & Hids & Hp).
  pose proof (convertEntries_sorted (renumber events)) as Hs.
  rewrite <- H2 in Hty, Htm |- *. split.
  - exists (length iops). split; [|split; [|done]].
    + by eapply sorted_entries_wf.
    + intros s p r Hp' Hr Hkp Hkr. rewrite Hp in Hp', Hr.
      apply elem_of_entries in Hp' as (io & Hio & [->| ->]); [|done].
      apply elem_of_entries in Hr as (io' & Hio' & [->| ->]); [done|].
      apply Hty; by apply list_elem_of_fmap_2.
  - split.
    + intros Hl. by apply (linearizes_realtime (fillDefault M) _ _ _ Hp Hs Hnd) in Hl.
    + intros (l & Hl & Hrt & Hleg).
      by apply (realtime_linearizes (fillDefault M) l _ iops').
Qed.

(** C30. Histories of events, any model whose [Equal] only holds of equal states: when
    the events of each partition are the calls and the later returns of operations
    with the types the model expects, then, whatever identifiers the events carry,
    the verdict is about those operations: Ok means that every partition is
    linearizable, Illegal that one is not, Unknown that the time-out came first; and
    if there is a partition and every one reports, there is an answer. *)
Theorem checkEvents_correct M part eqf events parts iopss fuel verbose timeout sched kills :
  PartitionEvent (fillDefault M) = Some part -> Equal (fillDefault M) = Some eqf ->
  (forall s s', eqf s s' = true -> s = s') ->
  part events = Some parts -> Forall2 (decidable_events M fuel) parts iopss ->
  valid_run (length parts) timeout sched kills ->
  exists r, checkEvents M events verbose timeout sched kills fuel = Ret r /\
    (forall res info, r = Some (res, info) ->
      match res with
      | Ok => Forall (fun iops => linearizable M iops.*2) iopss
      | Illegal => ~ Forall (fun iops => linearizable M iops.*2) iopss
      | Unknown => Timeout ∈ sched
      end) /\
    (parts <> [] -> complete_run (length parts) sched -> r <> None).
Proof.
  intros HP HEq Heqf Hpart Hdec Hrun. unfold checkEvents. rewrite HP. simpl. rewrite Hpart. simpl.
  set (conv p := convertEntries (renumber p)).
  assert (Forall (decidable_part (fillDefault M) fuel) (map conv parts)) as Hdp.
  { clear -Hdec. induction Hdec as [|p iops ps ios Hd _ IH]; constructor; [|done].
    by apply (event_entries_decidable M fuel p iops). }
  assert (Forall (linearizes (fillDefault M) (Init M)) (map conv parts) <->
    Forall (fun iops => linearizable M iops.*2) iopss) as Hiff.
  { clear -Hdec. induction Hdec as [|p iops ps ios Hd _ IH]; [done|].
    cbn [map]. rewrite !Forall_cons, IH.
    pose proof (proj2 (event_entries_decidable M fuel p iops Hd)). tauto. }
  rewrite <- (length_map conv parts) in Hrun.
  destruct (checkParallel_spec (fillDefault M) eqf HEq Heqf (map conv parts) fuel Hdp
    verbose timeout sched kills Hrun) as (r & -> & Hv & Hu & Hc).
  exists r. split; [done|]. split.
  - intros res info ->. specialize (Hv _ _ eq_refl). destruct res; simpl in Hv.
    + by eapply Hu.
    + by apply Hiff.
    + intros Hall%Hiff. apply Exists_exists in Hv as (E & HE & Hn).
      rewrite Forall_forall in Hall. by apply Hn, Hall.
  - intros Hne [Hto Hlen]. apply Hc; [by destruct parts|]. split; [done|]. by rewrite length_map.
Qed.
End verdicts.

(** ** Concrete runs *)

Section runs.
#[local] Existing Instance isort_GoSort.
Import KvModel.

Lemma bitset_is_set_witness :
  exists b', Bitset.set (Bitset.newBitset 70) 67 = Some b' /\
    Bitset.repr 70 b' ({[67]} ∪ ∅).
Proof.
  by apply (bitset_is_set 70 (Bitset.newBitset 70) ∅ 67 (Bitset.repr_new 70 ltac:(lia)) ltac:(lia)).
Defined.

(** Head, call, return. *)
Definition three : list (node Z) :=
  [mkNode None None (-1) (Some 1%nat) None;
   mkNode (Some 5) (Some 2%nat) 0 (Some 2%nat) (Some 0%nat);
   mkNode (Some 6) None 0 None (Some 1%nat)].

Lemma three_dll : dll three [0; 1; 2]%nat.
Proof.
  split; [by apply (bool_decide_unpack _)|]. simpl. split_and!; eauto.
Qed.

Lemma lift_unlift_witness :
  exists h', lift three 1 = Some h' /\ dll h' [0%nat] /\ unlift h' 1 = Some three.
Proof.
  destruct (lift_unlift three [0%nat] 1 [] 2 [] ltac:(done) three_dll eq_refl)
    as (h' & Hl & Hd & _ & Hu). by exists h'.
Defined.

Definition kv_eq (a b : string) : bool := bool_decide (a = b).

Lemma checkSingle_correct_witness :
  exists ok seqs longest,
    checkSingle (fillDefault KvModel) (makeEntries [op_put 0 "x" "a" 0 10]) true
      (fun _ => false) 100 = Ret (ok, seqs, longest) /\
    (ok = true -> linearizes (fillDefault KvModel) "" (makeEntries [op_put 0 "x" "a" 0 10])).
Proof.
  destruct (checkSingle_correct (fillDefault KvModel) kv_eq 1
    (makeEntries [op_put 0 "x" "a" 0 10]) true (fun _ => false) 100)
    as (ok & seqs & longest & Hr & Ht & _); [done|..].
  - by intros s s' Hs%bool_decide_eq_true.
  - apply (makeEntries_wf [op_put 0 "x" "a" 0 10]). by apply (bool_decide_unpack _).
  - intros s p r Hp Hr. vm_compute in Hp, Hr.
    apply (makeEntries_typed (fillDefault KvModel) [op_put 0 "x" "a" 0 10]); [|done..].
    intros s' o o' ->%list_elem_of_singleton ->%list_elem_of_singleton. by eexists.
  - apply Nat.ltb_lt. by vm_compute.
  - by exists ok, seqs, longest.
Defined.

(** The events of [stale]'s key x; the identifiers are arbitrary. *)
Definition ev_get (c : Z) (id : Z) (call : bool) (v : string) : Event value :=
  mkEvent c (if call then CallEvent else ReturnEvent)
    (if call then VInput (mkKvInput 0 "x" "") else VOutput (mkKvOutput v)) id.
Definition ev_put (c : Z) (id : Z) (call : bool) (v : string) : Event value :=
  mkEvent c (if call then CallEvent else ReturnEvent)
    (if call then VInput (mkKvInput 1 "x" v) else VOutput (mkKvOutput "")) id.

Definition stale_events : list (Event value) :=
  [ev_put 0 70 true "a"; ev_get 1 50 true ""; ev_get 1 50 false "a"; ev_get 1 60 true "";
   ev_put 0 70 false ""; ev_get 1 60 false ""].
Definition stale_iops : list (Z * Operation value) :=
  [(70, op_put 0 "x" "a" 0 4); (50, op_get 1 "x" "a" 1 2); (60, op_get 1 "x" "" 3 5)].

Definition one : list arrival := [Done 0].

Lemma one_valid : valid_run 1 0 one nokill.
Proof.
  split; [by apply (bool_decide_unpack _)|repeat constructor| |done]. unfold one. set_solver.
Qed.

Lemma one_complete : complete_run 1 one.
Proof. split; [|done]. unfold one. set_solver. Qed.

Lemma both_complete : complete_run 2 both.
Proof. split; [|done]. unfold both. set_solver. Qed.

Lemma stale_decidable : decidable_events KvModel 3000 stale_events stale_iops.
Proof.
  split; [|split].
  - split; [|split]; [|by apply (bool_decide_unpack _)..].
    apply (Permutation_app_inv_l []). vm_compute. solve_Permutation.
  - intros s o o' Ho Ho'. unfold stale_iops in *. simpl in Ho, Ho'.
    rewrite !elem_of_cons, elem_of_nil in Ho, Ho'. naive_solver eauto.
  - apply Nat.ltb_lt. by vm_compute.
Qed.

Example stale_events_rejected :
  CheckEvents KvModel stale_events one nokill 3000 = Ret (Some false).
Proof. vm_compute. reflexivity. Qed.

Lemma checkEvents_correct_witness :
  exists r, checkEvents KvModel stale_events false 0 one nokill 3000 = Ret r /\ r <> None.
Proof.
  destruct (checkEvents_correct KvModel NoPartitionEvent kv_eq stale_events [stale_events]
    [stale_iops] 3000 false 0 one nokill) as (r & Hr & _ & Hc); [done|done|..].
  - by intros s s' Hs%bool_decide_eq_true.
  - done.
  - constructor; [exact stale_decidable|constructor].
  - exact one_valid.
  - exists r. split; [exact Hr|]. by apply Hc, one_complete.
Defined.

Lemma stale_parts_decidable :
  Forall (decidable_ops KvModel 3000)
    [[op_put 0 "x" "a" 0 10; op_get 1 "x" "a" 2 4; op_get 2 "x" "" 5 12];
     [op_put 1 "y" "b" 6 7]].
Proof.
  apply Forall_cons; split; [|apply Forall_singleton]; (split; [|split]);
    try (by apply (bool_decide_unpack _)); try (apply Nat.ltb_lt; by vm_compute);
    intros s o o' Ho Ho'; rewrite ?elem_of_cons, ?elem_of_nil in Ho, Ho'; naive_solver eauto.
Qed.

Lemma checkOperations_correct_witness :
  exists r, checkOperations KvModel stale false 0 both nokill 3000 = Ret r /\ r <> None.
Proof.
  destruct (checkOperations_correct KvModel kv_Partition kv_eq stale
    [[op_put 0 "x" "a" 0 10; op_get 1 "x" "a" 2 4; op_get 2 "x" "" 5 12];
     [op_put 1 "y" "b" 6 7]] 3000 false 0 both nokill) as (r & Hr & _ & Hc); [done|done|..].
  - by intros s s' Hs%bool_decide_eq_true.
  - by vm_compute.
  - exact stale_parts_decidable.
  - exact both_valid.
  - exists r. split; [exact Hr|]. by apply Hc, both_complete.
Defined.
End runs.
End CheckerProps.
