(* ===== verification/Visualization.v ===== *)
(** The data of the checker's visualisation (src/porcupine/visualization.go):
    the operations of each partition and the partial linearizations the search
    recorded, replayed on the model, written as JSON into a page; the JSON encoder
    and the page are parameters. *)
From S2P Require Import Prelude Porcupine.
Import Porcupine.

Module Visualization.

Record historyElement := mkHistoryElement {
  ClientId : Z; Start : Z; End_ : Z; Description : string }.

Record linearizationStep := mkLinearizationStep { Index : Z; StateDescription : string }.

Definition partialLinearization := list linearizationStep.

Record partitionVisualizationData := mkPartitionData {
  History : list historyElement;
  PartialLinearizations : list partialLinearization;
  Largest : gmap Z Z }.

Section visualization.
Context {V St : Type} `{!EqDecision St} `{!GoSort}.

(** The two Describe fields of the model, after [fillDefault]; [None]: a type
    assertion in it fails.  [nil] is the nil value of [interface{}]. *)
Context (DescribeOperation : V -> V -> option string) (DescribeState : St -> string) (nil : V).

(** [history], [callValue] and [returnValue]. *)
Record scan := mkScan {
  sc_history : list historyElement; callValue : gmap Z V; returnValue : gmap Z V }.

Definition visit_call (elem : entry V) (sc : scan) : option scan :=
  el ← zget (sc_history sc) (e_id elem);
  hist ← zset (sc_history sc) (e_id elem)
           (mkHistoryElement (e_clientId elem) (e_time elem) (End_ el) (Description el));
  Some (mkScan hist (<[e_id elem := e_value elem]> (callValue sc)) (returnValue sc)).

Definition visit_return (elem : entry V) (sc : scan) : option scan :=
  el ← zget (sc_history sc) (e_id elem);
  desc ← DescribeOperation (default nil (callValue sc !! e_id elem)) (e_value elem);
  hist ← zset (sc_history sc) (e_id elem)
           (mkHistoryElement (ClientId el) (Start el) (e_time elem) desc);
  Some (mkScan hist (callValue sc) (<[e_id elem := e_value elem]> (returnValue sc))).

Definition visit (elem : entry V) (sc : scan) : option scan :=
  if eqb (e_kind elem) callEntry then visit_call elem sc else visit_return elem sc.

Fixpoint scan_history (history : list (entry V)) (sc : scan) : option scan :=
  match history with
  | [] => Some sc
  | elem :: history => sc ← visit elem sc; scan_history history sc
  end.

(** [largestSize] and [largestIndex]. *)
Record largest := mkLargest { largestSize : gmap Z Z; largestIndex : gmap Z Z }.

(** [i]: the place of the sequence, [len] its length. *)
Definition note (i len histId : Z) (lg : largest) : largest :=
  if default 0 (largestSize lg !! histId) <? len
  then mkLargest (<[histId := len]> (largestSize lg)) (<[histId := i]> (largestIndex lg))
  else lg.

(** One partial linearization, from the state [s]; a refused step panics. *)
Fixpoint replay (model : Model V St) (sc : scan) (i len : Z) (partial : list Z) (s : St)
    (lg : largest) : option (partialLinearization * largest) :=
  match partial with
  | [] => Some ([], lg)
  | histId :: partial =>
      '(ok, s) ← Step model s (default nil (callValue sc !! histId))
                   (default nil (returnValue sc !! histId));
      if (ok : bool) then
        '(steps, lg) ← replay model sc i len partial s (note i len histId lg);
        Some (mkLinearizationStep histId (DescribeState s) :: steps, lg)
      else None
  end.

Fixpoint replay_all (model : Model V St) (sc : scan) (i : Z) (partials : list (list Z))
    (lg : largest) : option (list partialLinearization * largest) :=
  match partials with
  | [] => Some ([], lg)
  | partial :: partials =>
      '(steps, lg) ← replay model sc i (zlen partial) partial (Init model) lg;
      '(rest, lg) ← replay_all model sc (i + 1) partials lg;
      Some (steps :: rest, lg)
  end.

Definition longer (a b : list Z) : bool := zlen b <? zlen a.

(** One partition.  The slice of partials is sorted in place; nothing reads it
    afterwards. *)
Definition partition_data (model : Model V St) (history : list (entry V))
    (partials : list (list Z)) : option partitionVisualizationData :=
  let n := Z.quot (zlen history) 2 in
  sc ← scan_history history
         (mkScan (replicate (Z.to_nat n) (mkHistoryElement 0 0 0 "")) ∅ ∅);
  let partials := gosort longer partials in
  '(linearizations, lg) ← replay_all model sc 0 partials (mkLargest ∅ ∅);
  Some (mkPartitionData (sc_history sc) linearizations (largestIndex lg)).

(** Missing partials are an index out of range. *)
Definition computeVisualizationData (model : Model V St) (info : linearizationInfo (V := V)) :
    option (list partitionVisualizationData) :=
  let model := fillDefault model in
  mapM (fun p => partials ← zget (li_partialLinearizations info) p;
                 history ← zget (li_history info) p;
                 partition_data model history partials)
    (map Z.of_nat (seq 0 (length (li_history info)))).

(** [Marshal] is [json.Marshal], [html] the page around the data, [Write] and
    [Create] whether the output takes a text and the file can be made.  The result
    is the text written or an error. *)
Definition Visualize (Marshal : list partitionVisualizationData -> option string)
    (html : string -> string) (Write : string -> bool) (model : Model V St)
    (info : linearizationInfo (V := V)) : option (option string) :=
  data ← computeVisualizationData model info;
  Some match Marshal data with
       | None => None
       | Some jsonData => if Write (html jsonData) then Some (html jsonData) else None
       end.

Definition VisualizePath (Marshal : list partitionVisualizationData -> option string)
    (html : string -> string) (Write : string -> bool) (Create : string -> bool)
    (model : Model V St) (info : linearizationInfo (V := V)) (path : string) :
    option (option string) :=
  if Create path then Visualize Marshal html Write model info else Some None.
End visualization.
End Visualization.
