(* ===== verification/VisualizationProps.v ===== *)
(** The visualisation of a verdict (src/porcupine/visualization.go) never
    panics on what [checkOperations] reports: each recorded partial
    linearization replays on the model, and the page's data shows the
    operations, the states and the longest sequences as they are. *)
From S2P Require Import Prelude Porcupine CheckerProof CheckSingle Linearizability CheckOps Visualization KvModel CheckerProps.
Import Porcupine CheckSingle Linearizability CheckOps Visualization.

Module VisualizationProps.

Section partition.
Context {V St : Type} `{!EqDecision St} (M : Model V St).
Context (DescribeOperation : V -> V -> option string) (DescribeState : St -> string) (nil : V).
Implicit Types (E a c : list (entry V)) (e p r : entry V) (sc : scan (V := V)).

(** The operations of [E] can be described. *)
Definition describable E : Prop :=
  forall p r, p ∈ E -> r ∈ E -> e_kind p = callEntry -> e_kind r = returnEntry ->
  e_id r = e_id p -> is_Some (DescribeOperation (e_value p) (e_value r)).

(** [steps] are steps of the model on operations of [E], from the state [s],
    each shown with the state it leads to. *)
Inductive replays E : St -> partialLinearization -> Prop :=
  | replays_nil s : replays E s []
  | replays_cons s p r s1 steps :
      p ∈ E -> r ∈ E -> e_kind p = callEntry -> e_kind r = returnEntry -> e_id r = e_id p ->
      Step M s (e_value p) (e_value r) = Some (true, s1) ->
      replays E s1 steps ->
      replays E s (mkLinearizationStep (e_id p) (DescribeState s1) :: steps).

(** What the data [d] of a partition shows of its entries [E] and of the
    recorded sequences [ps]. *)
Record shows E (ps : list (list Z)) (d : partitionVisualizationData) : Prop := {
  sh_len : length E = (2 * length (History d))%nat;
  sh_ops p r : p ∈ E -> r ∈ E -> e_kind p = callEntry -> e_kind r = returnEntry ->
    e_id r = e_id p ->
    exists desc, DescribeOperation (e_value p) (e_value r) = Some desc /\
      zget (History d) (e_id p) =
        Some (mkHistoryElement (e_clientId p) (e_time p) (e_time r) desc);
  sh_steps : Forall (replays E (Init M)) (PartialLinearizations d);
  sh_perm : map (map Index) (PartialLinearizations d) ≡ₚ ps;
  sh_sorted : sorted_by longer (map (map Index) (PartialLinearizations d));
  sh_largest id :
    match Largest d !! id with
    | Some i => exists l, zget (map (map Index) (PartialLinearizations d)) i = Some l /\
        id ∈ l /\ forall l', l' ∈ ps -> id ∈ l' -> zlen l' <= zlen l
    | None => forall l', l' ∈ ps -> id ∉ l'
    end }.

(** ** The scan of the entries *)

Record scanned (n : nat) a sc : Prop := {
  sn_len : length (sc_history sc) = n;
  sn_call p : p ∈ a -> e_kind p = callEntry ->
    callValue sc !! e_id p = Some (e_value p) /\
    exists el, zget (sc_history sc) (e_id p) = Some el /\
      ClientId el = e_clientId p /\ Start el = e_time p;
  sn_return r : r ∈ a -> e_kind r = returnEntry ->
    returnValue sc !! e_id r = Some (e_value r) /\
    exists el p, zget (sc_history sc) (e_id r) = Some el /\ End_ el = e_time r /\
      p ∈ a /\ e_kind p = callEntry /\ e_id p = e_id r /\
      DescribeOperation (e_value p) (e_value r) = Some (Description el) }.

Section scan.
Context (E : list (entry V)) (n : nat) (Hwf : wf_history n E).

(** Two entries of the same kind have different identifiers. *)
Lemma fresh_id a x c e :
  E = a ++ x :: c -> e ∈ a -> e_kind e = e_kind x -> e_id e <> e_id x.
Proof.
  intros HE He Hk Hid. pose proof (wh_nodup _ _ Hwf) as Hnd. rewrite HE, map_app in Hnd.
  apply NoDup_app in Hnd as (_ & Hd & _). apply (Hd (e_kind e, e_id e)).
  - apply list_elem_of_In, in_map_iff. exists e. by rewrite <- list_elem_of_In.
  - simpl. rewrite Hk, Hid. apply list_elem_of_here.
Qed.

Lemma same_entry e e' : e ∈ E -> e' ∈ E -> e_kind e = e_kind e' -> e_id e = e_id e' -> e = e'.
Proof.
  intros He He' Hk Hid. apply list_elem_of_split in He' as (a & c & HE).
  rewrite HE in He. apply elem_of_app in He as [He|[He|He]%elem_of_cons]; [|done|].
  - by destruct (fresh_id a e' c e HE He Hk).
  - apply list_elem_of_split in He as (c1 & c2 & ->).
    destruct (fresh_id (a ++ e' :: c1) e c2 e'); [|set_solver|done..].
    rewrite HE, <- app_assoc. done.
Qed.

Lemma id_range e a c sc : E = a ++ e :: c -> scanned n a sc -> 0 <= e_id e < zlen (sc_history sc).
Proof.
  intros HE Hs. unfold zlen. rewrite (sn_len _ _ _ Hs).
  apply (wh_ids _ _ Hwf). rewrite HE. set_solver.
Qed.

Lemma visit_call_ok a e c sc :
  E = a ++ e :: c -> e_kind e = callEntry -> scanned n a sc ->
  exists sc', visit_call e sc = Some sc' /\ scanned n (a ++ [e]) sc'.
Proof.
  intros HE Hk Hs. pose proof (id_range e a c sc HE Hs) as Hr.
  destruct (proj2 (zget_is_Some _ _) Hr) as [el Hel].
  unfold visit_call. rewrite Hel. simpl. rewrite zset_in by done. simpl.
  eexists. split; [done|]. split; simpl.
  - rewrite length_insert. apply Hs.
  - intros p [Hp| ->%list_elem_of_singleton]%elem_of_app Hkp.
    + pose proof (fresh_id a e c p HE Hp ltac:(congruence)) as Hne.
      rewrite lookup_insert_ne, zget_insert_ne by (done || lia). by apply (sn_call _ _ _ Hs).
    + rewrite lookup_insert_eq, zget_insert_eq by done. split; [done|]. by eexists.
  - intros r [Hin| ->%list_elem_of_singleton]%elem_of_app Hkr; [|by rewrite Hk in Hkr].
    destruct (sn_return _ _ _ Hs r Hin Hkr) as (? & el' & p & Hg & Hend & Hp & Hkp & Hip & Hd).
    split; [done|]. pose proof (fresh_id a e c p HE Hp ltac:(congruence)) as Hne.
    exists el', p. rewrite zget_insert_ne by (done || lia || congruence). set_solver.
Qed.

Context (Hdesc : describable E).

Lemma visit_return_ok a e c sc :
  E = a ++ e :: c -> e_kind e = returnEntry -> scanned n a sc ->
  exists sc', visit_return DescribeOperation nil e sc = Some sc' /\ scanned n (a ++ [e]) sc'.
Proof.
  intros HE Hk Hs. pose proof (id_range e a c sc HE Hs) as Hr.
  destruct (wh_ret _ _ Hwf a e c HE Hk) as (q & Hq & Hkq & Hiq).
  destruct (sn_call _ _ _ Hs q Hq Hkq) as (Hcv & el & Hel & Hcl & Hst). rewrite Hiq in Hcv, Hel.
  unfold visit_return. rewrite Hel, Hcv. simpl.
  destruct (Hdesc q e) as [desc Hds]; [rewrite HE; set_solver..|done|done|done|].
  rewrite Hds. simpl. rewrite zset_in by done. simpl.
  eexists. split; [done|]. split; simpl.
  - rewrite length_insert. apply Hs.
  - intros p [Hp| ->%list_elem_of_singleton]%elem_of_app Hkp; [|by rewrite Hk in Hkp].
    destruct (decide (e_id p = e_id e)) as [Hid|Hne].
    + destruct (same_entry p q); [rewrite HE; set_solver..|congruence|congruence|].
      rewrite Hid, zget_insert_eq by done. split; [done|]. by eexists.
    + rewrite zget_insert_ne by (done || lia || congruence). by apply (sn_call _ _ _ Hs).
  - intros r [Hin| ->%list_elem_of_singleton]%elem_of_app Hkr.
    + pose proof (fresh_id a e c r HE Hin ltac:(congruence)) as Hne.
      rewrite lookup_insert_ne, zget_insert_ne by (done || lia).
      destruct (sn_return _ _ _ Hs r Hin Hkr) as (? & el' & p & ? & ? & ? & ? & ? & ?).
      split; [done|]. exists el', p. set_solver.
    + rewrite lookup_insert_eq, zget_insert_eq by done. split; [done|].
      eexists _, q. split; [done|]. set_solver.
Qed.

Lemma scan_history_ok c a sc :
  E = a ++ c -> scanned n a sc ->
  exists sc', scan_history DescribeOperation nil c sc = Some sc' /\ scanned n E sc'.
Proof.
  revert a sc. induction c as [|e c IH]; intros a sc HE Hs; simpl.
  { exists sc. by rewrite HE, app_nil_r. }
  assert (exists sc', visit DescribeOperation nil e sc = Some sc' /\ scanned n (a ++ [e]) sc')
    as (sc' & -> & Hs').
  { unfold visit. destruct (eqb (e_kind e) callEntry) eqn:Ek.
    - apply eqb_prop in Ek. by eapply visit_call_ok.
    - eapply visit_return_ok; [done| |done]. by destruct (e_kind e). }
  simpl. apply (IH (a ++ [e]) sc'); [|done]. by rewrite HE, <- app_assoc.
Qed.

Lemma scanned_init :
  scanned n [] (mkScan (replicate n (mkHistoryElement 0 0 0 "")) ∅ ∅).
Proof. split; simpl; [apply length_replicate|by intros ? ?%elem_of_nil..]. Qed.
End scan.

(** ** The replay of the recorded sequences *)

(** [lg] names, for each operation, the longest of the sequences [done] with it. *)
Definition lg_ok (seen : list (list Z)) (lg : largest) : Prop :=
  forall id, match largestIndex lg !! id with
  | Some i => exists l, zget seen i = Some l /\ id ∈ l /\ largestSize lg !! id = Some (zlen l) /\
      forall l', l' ∈ seen -> id ∈ l' -> zlen l' <= zlen l
  | None => largestSize lg !! id = None /\ forall l', l' ∈ seen -> id ∉ l'
  end.

Definition note_all (i len : Z) (ids : list Z) (lg : largest) : largest :=
  foldl (fun lg id => note i len id lg) lg ids.

Lemma note_all_lookup i len ids lg id :
  let new := bool_decide (id ∈ ids) && (default 0 (largestSize lg !! id) <? len) in
  largestSize (note_all i len ids lg) !! id =
    (if new then Some len else largestSize lg !! id) /\
  largestIndex (note_all i len ids lg) !! id =
    (if new then Some i else largestIndex lg !! id).
Proof.
  simpl. revert lg. induction ids as [|x ids IH]; intros lg; [done|]. simpl.
  destruct (IH (note i len x lg)) as [H1 H2]. unfold note_all in *. rewrite H1, H2. clear H1 H2 IH.
  unfold note. destruct (decide (id = x)) as [->|Hne].
  - rewrite (bool_decide_eq_true_2 (x ∈ x :: ids)) by set_solver. simpl.
    destruct (default 0 (largestSize lg !! x) <? len) eqn:El; simpl.
    + rewrite !lookup_insert_eq. simpl. rewrite Z.ltb_irrefl, andb_false_r. done.
    + rewrite El, andb_false_r. done.
  - replace (bool_decide (id ∈ x :: ids)) with (bool_decide (id ∈ ids))
      by (apply bool_decide_ext; set_solver).
    destruct (default 0 (largestSize lg !! x) <? len); simpl; [|done].
    by rewrite !lookup_insert_ne.
Qed.

Lemma note_all_ok seen ids lg :
  lg_ok seen lg -> lg_ok (seen ++ [ids]) (note_all (zlen seen) (zlen ids) ids lg).
Proof.
  intros Hlg id. specialize (Hlg id).
  destruct (note_all_lookup (zlen seen) (zlen ids) ids lg id) as [-> ->].
  destruct (bool_decide (id ∈ ids)) eqn:Ein; bsimp; simpl.
  - assert (0 < zlen ids) by (apply zlen_pos; intros ->; by apply elem_of_nil in Ein).
    destruct (_ <? _) eqn:El; bsimp.
    + exists ids. rewrite zget_app_r, Z.sub_diag by lia. split_and!; [done..|].
      intros l' [Hl'| ->%list_elem_of_singleton]%elem_of_app Hid; [|lia].
      destruct (largestIndex lg !! id); [|by destruct Hlg as [_ Hlg]; apply Hlg in Hid].
      destruct Hlg as (l & _ & _ & Hsz & Hmax). rewrite Hsz in El. simpl in El.
      specialize (Hmax l' Hl' Hid). lia.
    + destruct (largestIndex lg !! id) as [i|].
      * destruct Hlg as (l & Hi & Hin & Hsz & Hmax). rewrite Hsz in El. simpl in El.
        exists l. rewrite zget_app_l by (by eapply zget_Some_range).
        split_and!; [done..|]. set_solver by lia.
      * destruct Hlg as [Hn _]. rewrite Hn in El. simpl in El. lia.
  - destruct (largestIndex lg !! id) as [i|].
    + destruct Hlg as (l & Hi & Hin & Hsz & Hmax).
      exists l. rewrite zget_app_l by (by eapply zget_Some_range). set_solver.
    + set_solver.
Qed.

Section replay.
Context (E : list (entry V)) (n : nat) (sc : scan (V := V)) (Hsc : scanned n E sc).

Lemma replay_ok s ids s' i len lg :
  executes M E s ids s' ->
  exists steps, replay DescribeState nil M sc i len ids s lg =
      Some (steps, note_all i len ids lg) /\
    replays E s steps /\ map Index steps = ids.
Proof.
  intros He. revert lg. induction He as [s|s p r s1 ids s2 Hp Hr Hkp Hkr Hid Hst He IH];
    intros lg; simpl.
  { exists []. split; [done|]. split; [constructor|done]. }
  rewrite (proj1 (sn_call _ _ _ Hsc p Hp Hkp)).
  pose proof (proj1 (sn_return _ _ _ Hsc r Hr Hkr)) as Hret. rewrite Hid in Hret. rewrite Hret.
  simpl. rewrite Hst. simpl.
  destruct (IH (note i len (e_id p) lg)) as (steps & -> & Hrep & Hidx). simpl.
  eexists. split; [done|]. split; [by econstructor|]. simpl. by rewrite Hidx.
Qed.

Lemma replay_all_ok ps seen lg :
  Forall (fun ids => exists s, executes M E (Init M) ids s) ps -> lg_ok seen lg ->
  exists ls lg', replay_all DescribeState nil M sc (zlen seen) ps lg = Some (ls, lg') /\
    Forall (replays E (Init M)) ls /\ map (map Index) ls = ps /\ lg_ok (seen ++ ps) lg'.
Proof.
  intros Hps. revert seen lg. induction Hps as [|ids ps [s He] _ IH]; intros seen lg Hlg; simpl.
  { exists [], lg. by rewrite app_nil_r. }
  destruct (replay_ok _ _ _ (zlen seen) (zlen ids) lg He) as (steps & -> & Hrep & Hidx). simpl.
  destruct (IH (seen ++ [ids]) _ (note_all_ok seen ids lg Hlg)) as (ls & lg' & Hra & Hl & Hm & Hk).
  rewrite zlen_app in Hra. change (zlen [ids]) with 1 in Hra. rewrite Hra. simpl.
  eexists _, lg'. split; [done|]. split; [by constructor|]. simpl.
  rewrite Hidx, Hm. split; [done|]. by rewrite <- app_assoc in Hk.
Qed.
End replay.

Lemma longer_weak_order : weak_order longer.
Proof. unfold longer. split; intros *; rewrite ?Z.ltb_lt, ?Z.ltb_ge; lia. Qed.

Context `{!GoSort}.

Lemma partition_data_ok n E ps :
  wf_history n E -> describable E ->
  Forall (fun ids => exists s, executes M E (Init M) ids s) ps ->
  exists d, partition_data DescribeOperation DescribeState nil M E ps = Some d /\ shows E ps d.
Proof.
  intros Hwf Hdesc Hps. unfold partition_data.
  replace (Z.to_nat (Z.quot (zlen E) 2)) with n.
  2:{ unfold zlen. rewrite (wh_len _ _ Hwf), Nat2Z.inj_mul, Z.mul_comm, Z.quot_mul by lia. lia. }
  destruct (scan_history_ok E n Hwf Hdesc E [] _ eq_refl (scanned_init n)) as (sc & -> & Hsc).
  simpl. pose proof (gosort_perm _ longer ps) as Hperm.
  destruct (replay_all_ok E n sc Hsc (gosort longer ps) [] (mkLargest ∅ ∅))
    as (ls & lg & Hra & Hl & Hm & Hlg).
  { by rewrite Hperm. }
  { intros id. simpl. split; [done|]. by intros ? ?%elem_of_nil. }
  change (zlen []) with 0 in Hra. rewrite Hra. simpl.
  eexists. split; [done|]. simpl in Hlg. split; simpl.
  - by rewrite (sn_len _ _ _ Hsc), (wh_len _ _ Hwf).
  - intros p r Hp Hr Hkp Hkr Hid.
    destruct (sn_call _ _ _ Hsc p Hp Hkp) as (_ & el & Hel & Hc & Hst).
    destruct (sn_return _ _ _ Hsc r Hr Hkr) as (_ & el' & p' & Hel' & Hen & Hp' & Hk' & Hid' & Hd).
    destruct (same_entry E n Hwf p' p Hp' Hp); [congruence|congruence|].
    rewrite Hid in Hel'. rewrite Hel in Hel'. injection Hel' as <-.
    exists (Description el). split; [done|]. rewrite Hel, <- Hc, <- Hst, <- Hen. by destruct el.
  - done.
  - by rewrite Hm.
  - rewrite Hm. apply gosort_sorted, longer_weak_order.
  - intros id. rewrite Hm. specialize (Hlg id). destruct (largestIndex lg !! id) as [i|].
    + destruct Hlg as (l & Hi & Hin & _ & Hmax). exists l. split_and!; [done..|].
      intros l' Hl'. rewrite <- Hperm in Hl'. by apply Hmax.
    + destruct Hlg as [_ Hlg]. intros l' Hl'. rewrite <- Hperm in Hl'. by apply Hlg.
Qed.
End partition.

(** ** What a verbose check reports *)

Section report.
Context {V St : Type} `{!EqDecision St} `{!GoSort} (M : Model V St).

(** The sequences recorded for [E] are executions of the model. *)
Definition recorded (E : list (entry V)) (ps : list (list Z)) : Prop :=
  Forall (fun ids => exists s, executes M E (Init M) ids s) ps.

Lemma partials_recorded E seqs longest : recorded E seqs -> recorded E (partials seqs longest).
Proof.
  unfold recorded, partials. intros Hs. apply Forall_forall.
  intros ids (q & _ & Hq)%list_elem_of_omap. by eapply Forall_lookup_1 in Hs.
Qed.

Lemma allPartials_recorded (history : list (list (entry V))) run ps j l :
  (forall i E ok seqs longest, history !! i = Some E -> run i = Ret (ok, seqs, longest) ->
     recorded E seqs) ->
  allPartials run (seq j (length l)) = Ret ps -> drop j history = l -> Forall2 recorded l ps.
Proof.
  intros Hrun. revert j ps. induction l as [|E l IH]; intros j ps Hall Hd; simpl in Hall.
  { injection Hall as <-. constructor. }
  destruct (run j) as [[[ok seqs] longest]| |] eqn:Er; simpl in Hall; try done.
  destruct (allPartials run (seq (S j) (length l))) as [rest| |] eqn:Ea; simpl in Hall; try done.
  injection Hall as <-.
  assert (history !! j = Some E) as Hj.
  { rewrite <- (Nat.add_0_r j), <- lookup_drop, Hd. done. }
  constructor; [by eapply partials_recorded, Hrun|].
  apply (IH (S j)); [done|]. replace (S j) with (j + 1)%nat by lia.
  by rewrite <- drop_drop, Hd.
Qed.

Lemma checkParallel_info eqf history timeout sched kills fuel res info :
  Equal M = Some eqf -> (forall s s', eqf s s' = true -> s = s') ->
  Forall (decidable_part M fuel) history ->
  checkParallel M history true timeout sched kills fuel = Ret (Some (res, info)) ->
  li_history info = history /\ Forall2 recorded history (li_partialLinearizations info).
Proof.
  intros HEq Heqf Hdec. unfold checkParallel. set (run := fun i : nat => _ : result (_ * _ * _)).
  destruct (collect _ _ _ _ _ _ _) as [[|ok to cnt]| |]; simpl; try done.
  destruct (allPartials run _) as [ps| |] eqn:Ep; simpl; try done.
  intros [= _ <-]. simpl. split; [done|]. eapply allPartials_recorded; [|exact Ep|done].
  unfold run. intros i E ok' seqs longest HE. rewrite HE. simpl. intros Hr.
  rewrite Forall_lookup in Hdec. destruct (Hdec i E HE) as (n & Hwf & Hty & Hf).
  destruct (checkSingle_full M eqf HEq Heqf n E true (kills i) fuel Hwf Hty Hf)
    as (? & ? & ? & Hr' & Hs & _). rewrite Hr in Hr'. by injection Hr' as <- <- <-.
Qed.

End report.

Lemma zget_drop_head {A} (l : list A) j x k : drop j l = x :: k -> zget l (Z.of_nat j) = Some x.
Proof.
  intros Hd. apply zget_Some_lookup. split; [lia|].
  by rewrite Nat2Z.id, <- (Nat.add_0_r j), <- lookup_drop, Hd.
Qed.

Lemma drop_tail {A} (l : list A) j x k : drop j l = x :: k -> drop (S j) l = k.
Proof. intros Hd. replace (S j) with (j + 1)%nat by lia. by rewrite <- drop_drop, Hd. Qed.

(** The loop over the partitions runs its body on each. *)
Lemma each_partition {A B C} (F : B -> A -> option C) (S : A -> B -> C -> Prop) parts pss j l k :
  drop j parts = l -> drop j pss = k ->
  Forall2 (fun E ps => exists d, F ps E = Some d /\ S E ps d) l k ->
  exists ds, mapM (fun p => partials ← zget pss p; history ← zget parts p; F partials history)
      (map Z.of_nat (seq j (length l))) = Some ds /\ Forall3 S l k ds.
Proof.
  intros Hl Hk HF. revert j Hl Hk. induction HF as [|E ps l k (d & Hd & HS) _ IH]; intros j Hl Hk.
  { exists []. split; [done|constructor]. }
  simpl. rewrite (zget_drop_head _ _ _ _ Hl), (zget_drop_head _ _ _ _ Hk). simpl. rewrite Hd. simpl.
  destruct (IH (Datatypes.S j)) as (ds & -> & HS'); [by eapply drop_tail..|]. simpl.
  eexists. split; [done|by constructor].
Qed.

Lemma computeVisualizationData_ok {V St} `{!EqDecision St} `{!GoSort} (M : Model V St)
    DescribeOperation (DescribeState : St -> string) nil info :
  Forall (fun E => (exists n, wf_history n E) /\ describable DescribeOperation E)
    (li_history info) ->
  Forall2 (recorded (fillDefault M)) (li_history info) (li_partialLinearizations info) ->
  exists data,
    computeVisualizationData DescribeOperation DescribeState nil M info = Some data /\
    Forall3 (shows (fillDefault M) DescribeOperation DescribeState)
      (li_history info) (li_partialLinearizations info) data.
Proof.
  intros Hwf Hrec. unfold computeVisualizationData.
  apply (each_partition (fun ps E => partition_data DescribeOperation DescribeState nil
    (fillDefault M) E ps)); [done..|].
  apply Forall2_same_length_lookup_2; [by eapply Forall2_length|].
  intros i E ps HE Hps. rewrite Forall_lookup in Hwf. destruct (Hwf i E HE) as [[n Hn] Hd].
  apply (partition_data_ok (fillDefault M) _ _ _ n); [done..|].
  exact (Forall2_lookup_lr _ _ _ _ _ _ Hrec HE Hps).
Qed.

(** The operations of a partition can be described. *)
Definition describable_ops {V} (DescribeOperation : V -> V -> option string)
    (p : list (Operation V)) : Prop :=
  Forall (fun o => is_Some (DescribeOperation (op_Input o) (op_Output o))) p.

Lemma makeEntries_describable {V} `{!GoSort} (D : V -> V -> option string) p :
  describable_ops D p -> describable D (makeEntries p).
Proof.
  intros Hd c r Hc Hr Hkc Hkr Hid. unfold makeEntries in Hc, Hr.
  rewrite gosort_perm, makeEntries_from_number in Hc, Hr.
  apply elem_of_entries in Hc as (io & Hio & [->| ->]); [|done].
  apply elem_of_entries in Hr as (io' & Hio' & [->| ->]); [done|].
  assert (io' = io) as ->.
  { apply list_elem_of_lookup in Hio as [i Hi], Hio' as [j Hj].
    assert (i = j) as ->; [|congruence].
    apply (NoDup_lookup _ _ _ io.1 (number_nodup 0 p)); rewrite list_lookup_fmap.
    - by rewrite Hi.
    - rewrite Hj. simpl in *. by rewrite Hid. }
  unfold describable_ops in Hd. rewrite Forall_forall in Hd. apply (Hd io.2).
  rewrite <- (number_snd 0 p). by apply list_elem_of_fmap_2.
Qed.

(** The data computed from a verbose verdict. *)
Lemma verbose_check_data {V St} `{!EqDecision St} `{!GoSort} (M : Model V St)
    DescribeOperation (DescribeState : St -> string) nil
    part eqf history partitions fuel timeout sched kills res info :
  Partition (fillDefault M) = Some part -> Equal (fillDefault M) = Some eqf ->
  (forall s s', eqf s s' = true -> s = s') ->
  part history = Some partitions -> Forall (decidable_ops M fuel) partitions ->
  Forall (describable_ops DescribeOperation) partitions ->
  checkOperations M history true timeout sched kills fuel = Ret (Some (res, info)) ->
  exists data,
    computeVisualizationData DescribeOperation DescribeState nil M info = Some data /\
    Forall3 (shows (fillDefault M) DescribeOperation DescribeState)
      (map makeEntries partitions) (li_partialLinearizations info) data.
Proof.
  intros HP HEq Heqf Hpart Hdec Hdesc Hrun.
  unfold checkOperations in Hrun. rewrite HP in Hrun. simpl in Hrun. rewrite Hpart in Hrun.
  simpl in Hrun.
  destruct (checkParallel_info (fillDefault M) eqf (map makeEntries partitions) timeout sched
    kills fuel res info HEq Heqf) as [Hh Hrec]; [|exact Hrun|].
  { by apply partitions_decidable. }
  rewrite <- Hh in Hrec |- *. apply computeVisualizationData_ok; [|done]. rewrite Hh.
  apply Forall_fmap, Forall_forall. intros p Hp. simpl. rewrite Forall_forall in Hdec, Hdesc. split.
  - exists (length p). apply makeEntries_wf. by apply (Hdec p Hp).
  - by apply makeEntries_describable, Hdesc.
Qed.

(** C26. What [checkOperations] reports when it is asked for details can be
    visualised: the computation does not panic, every recorded partial
    linearization is an execution of the model shown step by step with its
    states, longest first, every operation is shown with its client, its times
    and its description, and [Largest] points to a longest recorded sequence
    containing the operation.  The model can describe every operation, its [Equal]
    only holds of equal states, and the operations have their times in order and
    the model's types. *)
Theorem verbose_check_visualizes {V St} `{!EqDecision St} `{!GoSort} (M : Model V St)
    DescribeOperation (DescribeState : St -> string) nil
    part eqf history partitions fuel timeout sched kills res info :
  Partition (fillDefault M) = Some part -> Equal (fillDefault M) = Some eqf ->
  (forall s s', eqf s s' = true -> s = s') ->
  part history = Some partitions -> Forall (decidable_ops M fuel) partitions ->
  Forall (describable_ops DescribeOperation) partitions ->
  checkOperations M history true timeout sched kills fuel = Ret (Some (res, info)) ->
  exists data,
    computeVisualizationData DescribeOperation DescribeState nil M info = Some data /\
    Forall3 (shows (fillDefault M) DescribeOperation DescribeState)
      (map makeEntries partitions) (li_partialLinearizations info) data.
Proof. apply verbose_check_data. Qed.

(** Then the page is written, if the file, the encoder and the disk allow it. *)
Theorem verbose_check_written {V St} `{!EqDecision St} `{!GoSort} (M : Model V St)
    DescribeOperation (DescribeState : St -> string) nil Marshal html Write Create path
    part eqf history partitions fuel timeout sched kills res info :
  Partition (fillDefault M) = Some part -> Equal (fillDefault M) = Some eqf ->
  (forall s s', eqf s s' = true -> s = s') ->
  part history = Some partitions -> Forall (decidable_ops M fuel) partitions ->
  Forall (describable_ops DescribeOperation) partitions ->
  checkOperations M history true timeout sched kills fuel = Ret (Some (res, info)) ->
  Create path = true -> (forall data, is_Some (Marshal data)) -> (forall text, Write text = true) ->
  exists data json, Marshal data = Some json /\
    computeVisualizationData DescribeOperation DescribeState nil M info = Some data /\
    VisualizePath DescribeOperation DescribeState nil Marshal html Write Create M info path =
      Some (Some (html json)).
Proof.
  intros HP HEq Heqf Hpart Hdec Hdesc Hrun Hc Hm Hw.
  destruct (verbose_check_data M DescribeOperation DescribeState nil part eqf history partitions fuel
    timeout sched kills res info) as (data & Hd & _); try done.
  destruct (Hm data) as [json Hj]. exists data, json. split; [done|]. split; [done|].
  unfold VisualizePath, Visualize. rewrite Hc, Hd. simpl. by rewrite Hj, Hw.
Qed.

Section run.
#[local] Existing Instance isort_GoSort.
Import KvModel CheckerProps.

(** What the check of the stale read reports. *)
Definition stale_info : linearizationInfo (V := value) :=
  match checkOperations KvModel stale true 0 both nokill 3000 with
  | Ret (Some (_, info)) => info
  | _ => mkInfo [] []
  end.

(** The put and the fresh read are the longest prefix of key x. *)
Example stale_data :
  map (map (map Index) ∘ PartialLinearizations) <$>
    computeVisualizationData DescribeOperation (fun s => s) VOther KvModel stale_info =
  Some [[[0; 1]]; [[0]]].
Proof. vm_compute. reflexivity. Qed.

(** The state of a key is a string and is shown as it is. *)
Lemma verbose_check_visualizes_witness :
  exists data,
    computeVisualizationData DescribeOperation (fun s => s) VOther KvModel stale_info = Some data /\
    length data = 2%nat.
Proof.
  destruct (verbose_check_visualizes KvModel DescribeOperation (fun s => s) VOther kv_Partition
    kv_eq stale
    [[op_put 0 "x" "a" 0 10; op_get 1 "x" "a" 2 4; op_get 2 "x" "" 5 12];
     [op_put 1 "y" "b" 6 7]] 3000 0 both nokill Illegal stale_info) as (data & Hd & Hs);
    [done|done|..].
  - by intros s s' Hs%bool_decide_eq_true.
  - by vm_compute.
  - exact stale_parts_decidable.
  - repeat constructor; by eexists.
  - by vm_compute.
  - exists data. split; [exact Hd|]. apply Forall3_length_lr in Hs. by rewrite <- Hs.
Defined.
End run.
End VisualizationProps.
