(* ===== verification/Persister.v ===== *)
(** Stable storage (src/raft/persister.go) and the encoder it is used with:
    the promise of encoding/gob (behind src/labgob) as an interface, with a
    concrete implementation, and the persister's record and operations. *)
From S2P Require Import Prelude.
From stdpp Require Import countable.
From Stdlib Require Import Init.Byte.

Module Persister.

Abbreviation bytes := (list byte).

(** ** Encoding

    [enc a] is what [Encode] appends to the buffer and [dec] is one call of
    [Decode]: values written in sequence are read back in sequence. *)
Class Gob (A : Type) := {
  enc : A -> bytes;
  dec : bytes -> option (A * bytes);
  dec_enc : forall a rest, dec (enc a ++ rest) = Some (a, rest);
  enc_ne : forall a, enc a <> [] }.
#[global] Hint Mode Gob ! : typeclass_instances.

(** A concrete encoding of any countable type: the binary digits of its
    number, closed by a byte of their own. *)
Section countable_gob.
Context {A : Type} `{Countable A}.

Fixpoint digits (p : positive) : bytes :=
  match p with
  | xH => [x02]
  | xO p => x00 :: digits p
  | xI p => x01 :: digits p
  end.

Fixpoint undigits (b : bytes) : option (positive * bytes) :=
  match b with
  | [] => None
  | d :: b =>
      if Byte.eqb d x02 then Some (xH, b)
      else '(p, b) ← undigits b;
           if Byte.eqb d x00 then Some (xO p, b)
           else if Byte.eqb d x01 then Some (xI p, b) else None
  end.

Lemma undigits_digits p rest : undigits (digits p ++ rest) = Some (p, rest).
Proof. induction p as [p IH|p IH|]; simpl; [by rewrite IH..|done]. Qed.

Definition countable_dec (b : bytes) : option (A * bytes) :=
  '(p, b) ← undigits b; a ← decode p; Some (a, b).

#[export] Program Instance countable_gob : Gob A := {|
  enc a := digits (encode a); dec := countable_dec |}.
Next Obligation.
  intros a rest. unfold countable_dec. rewrite undigits_digits. simpl.
  by rewrite decode_encode.
Qed.
Next Obligation. intros a. simpl. destruct (encode a); simpl; congruence. Qed.
End countable_gob.

(** ** The persister *)

(** [Save] and the readers copy the slices, so a value stands for a slice; a
    nil slice and an empty one read the same. *)
Record Persister := mkPersister { raftstate : bytes; snapshot : bytes }.

Definition MakePersister : Persister := mkPersister [] [].

Definition clone (orig : bytes) : bytes := orig.

Definition Copy (ps : Persister) : Persister :=
  let np := MakePersister in
  let np := mkPersister (raftstate ps) (snapshot np) in
  mkPersister (raftstate np) (snapshot ps).

Definition ReadRaftState (ps : Persister) : bytes := clone (raftstate ps).

Definition RaftStateSize (ps : Persister) : Z := zlen (raftstate ps).

Definition Save (ps : Persister) (raftstate snapshot : bytes) : Persister :=
  mkPersister (clone raftstate) (clone snapshot).

Definition ReadSnapshot (ps : Persister) : bytes := clone (snapshot ps).

Definition SnapshotSize (ps : Persister) : Z := zlen (snapshot ps).

Lemma Copy_id ps : Copy ps = ps.
Proof. by destruct ps. Qed.

Lemma Save_spec ps r s :
  ReadRaftState (Save ps r s) = r /\ ReadSnapshot (Save ps r s) = s /\
  RaftStateSize (Save ps r s) = zlen r /\ SnapshotSize (Save ps r s) = zlen s.
Proof. done. Qed.
End Persister.
