(* ===== verification/RaftNode.v ===== *)
(** A Raft peer (src/raft/raft.go): the state of one server and its
    operations.  Every section of code that runs under [rf.mu] is one
    definition, from the state to the new state; the goroutines a section
    starts are listed in its result, and a run-time error (an index out of
    range) is [None].  The clock and the random numbers are inputs. *)
From S2P Require Import Prelude Persister.
Import Persister.

Module Raft.

Section defs.
(** [Cmd]: the non-nil values of [interface{}] the service submits. *)
Context {Cmd : Type}.

Record ApplyMsg := mkApplyMsg {
  CommandValid : bool; Command : option Cmd; CommandIndex : Z;
  SnapshotValid : bool; Snapshot_ : bytes; SnapshotTerm : Z; SnapshotIndex : Z }.

(** [Command] is nil in the sentinel entry only. *)
Record LogEntry := mkEntry { e_Term : Z; e_Command : option Cmd }.

Inductive State := Follower | Candidate | Leader.

#[export] Instance State_eq_dec : EqDecision State.
Proof. solve_decision. Defined.

(** Durations in nanoseconds. *)
Definition HeartbeatInterval : Z := 100 * 10 ^ 6.
Definition ElectionTimeoutMin : Z := 300 * 10 ^ 6.
Definition ElectionTimeoutMax : Z := 600 * 10 ^ 6.

(** [peers] is the length of the slice of RPC end points; the mutex and the
    apply channel are the granularity of the definitions and their outputs. *)
Record Raft := mkRaft {
  peers : Z; persister : Persister; me : Z; dead : Z;
  currentTerm : Z; votedFor : Z; log : list LogEntry;
  commitIndex : Z; lastApplied : Z;
  nextIndex : option (list Z); matchIndex : option (list Z);
  state : State; lastElectionReset : Z; electionTimeout : Z }.

Definition set_persister p rf := mkRaft (peers rf) p (me rf) (dead rf) (currentTerm rf)
  (votedFor rf) (log rf) (commitIndex rf) (lastApplied rf) (nextIndex rf) (matchIndex rf)
  (state rf) (lastElectionReset rf) (electionTimeout rf).
Definition set_dead d rf := mkRaft (peers rf) (persister rf) (me rf) d (currentTerm rf)
  (votedFor rf) (log rf) (commitIndex rf) (lastApplied rf) (nextIndex rf) (matchIndex rf)
  (state rf) (lastElectionReset rf) (electionTimeout rf).
Definition set_currentTerm t rf := mkRaft (peers rf) (persister rf) (me rf) (dead rf) t
  (votedFor rf) (log rf) (commitIndex rf) (lastApplied rf) (nextIndex rf) (matchIndex rf)
  (state rf) (lastElectionReset rf) (electionTimeout rf).
Definition set_votedFor v rf := mkRaft (peers rf) (persister rf) (me rf) (dead rf)
  (currentTerm rf) v (log rf) (commitIndex rf) (lastApplied rf) (nextIndex rf)
  (matchIndex rf) (state rf) (lastElectionReset rf) (electionTimeout rf).
Definition set_log l rf := mkRaft (peers rf) (persister rf) (me rf) (dead rf)
  (currentTerm rf) (votedFor rf) l (commitIndex rf) (lastApplied rf) (nextIndex rf)
  (matchIndex rf) (state rf) (lastElectionReset rf) (electionTimeout rf).
Definition set_commitIndex c rf := mkRaft (peers rf) (persister rf) (me rf) (dead rf)
  (currentTerm rf) (votedFor rf) (log rf) c (lastApplied rf) (nextIndex rf)
  (matchIndex rf) (state rf) (lastElectionReset rf) (electionTimeout rf).
Definition set_lastApplied a rf := mkRaft (peers rf) (persister rf) (me rf) (dead rf)
  (currentTerm rf) (votedFor rf) (log rf) (commitIndex rf) a (nextIndex rf)
  (matchIndex rf) (state rf) (lastElectionReset rf) (electionTimeout rf).
Definition set_nextIndex n rf := mkRaft (peers rf) (persister rf) (me rf) (dead rf)
  (currentTerm rf) (votedFor rf) (log rf) (commitIndex rf) (lastApplied rf) n
  (matchIndex rf) (state rf) (lastElectionReset rf) (electionTimeout rf).
Definition set_matchIndex m rf := mkRaft (peers rf) (persister rf) (me rf) (dead rf)
  (currentTerm rf) (votedFor rf) (log rf) (commitIndex rf) (lastApplied rf) (nextIndex rf)
  m (state rf) (lastElectionReset rf) (electionTimeout rf).
Definition set_state s rf := mkRaft (peers rf) (persister rf) (me rf) (dead rf)
  (currentTerm rf) (votedFor rf) (log rf) (commitIndex rf) (lastApplied rf) (nextIndex rf)
  (matchIndex rf) s (lastElectionReset rf) (electionTimeout rf).
Definition set_timer r t rf := mkRaft (peers rf) (persister rf) (me rf) (dead rf)
  (currentTerm rf) (votedFor rf) (log rf) (commitIndex rf) (lastApplied rf) (nextIndex rf)
  (matchIndex rf) (state rf) r t.

(** A reading of the clock, and a result of
    [rand.Int63n(ElectionTimeoutMax - ElectionTimeoutMin)]. *)
Record tick := mkTick { now : Z; rnd : Z }.

(** Goroutines started by a section. *)
Inductive spawn :=
  | SpawnTicker
  | SpawnBroadcast
  | SpawnElection (term : Z)
  | SpawnReplicate (peer term : Z)
  | SpawnApply.

(** ** Accessors and timers *)

Definition GetState (rf : Raft) : Z * bool :=
  (currentTerm rf, bool_decide (state rf = Leader)).

Definition Kill (rf : Raft) : Raft := set_dead 1 rf.

Definition killed (rf : Raft) : bool := dead rf =? 1.

Definition lastLogIndex (rf : Raft) : Z := zlen (log rf) - 1.

Definition lastLogTerm (rf : Raft) : Z :=
  match last (log rf) with None => 0 | Some e => e_Term e end.

Definition resetElectionTimerLocked (k : tick) (rf : Raft) : Raft :=
  let delta := ElectionTimeoutMin + rnd k in
  set_timer (now k) delta rf.

Definition min (a b : Z) : Z := if a <? b then a else b.

Definition max (a b : Z) : Z := if b <? a then a else b.

(** [Snapshot] has an empty body. *)
Definition Snapshot (rf : Raft) (index : Z) (snapshot : bytes) : Raft := rf.

(** ** Persistence *)

Context `{!Gob Z, !Gob (list LogEntry)}.

Definition persist (rf : Raft) : Raft :=
  let raftstate := enc (currentTerm rf) ++ enc (votedFor rf) ++ enc (log rf) in
  set_persister (Save (persister rf) raftstate []) rf.

Definition readPersist (data : bytes) (rf : Raft) : Raft :=
  if zlen data =? 0 then rf
  else
    match
      '(currentTerm, d) ← dec data;
      '(votedFor, d) ← dec d;
      '(logEntries, d) ← dec d;
      Some ((currentTerm, votedFor, logEntries) : Z * Z * list LogEntry)
    with
    | None => rf
    | Some (currentTerm, votedFor, logEntries) =>
        let rf := set_log logEntries (set_votedFor votedFor (set_currentTerm currentTerm rf)) in
        if zlen (log rf) =? 0 then set_log [mkEntry 0 None] rf else rf
    end.

(** The zero value of the struct. *)
Definition zero_Raft : Raft :=
  mkRaft 0 MakePersister 0 0 0 0 [] 0 0 None None Follower 0 0.

Definition Make (npeers me : Z) (persister : Persister) (k : tick) : Raft * list spawn :=
  let rf := mkRaft npeers persister me 0 0 (-1) [mkEntry 0 None] 0 0 None None Follower 0 0 in
  let rf := resetElectionTimerLocked k rf in
  (readPersist (ReadRaftState persister) rf, [SpawnTicker]).

(** ** Roles *)

Definition becomeFollowerLocked (term : Z) (k : tick) (rf : Raft) : Raft :=
  let rf := if bool_decide (state rf <> Follower) then set_state Follower rf else rf in
  let rf := set_currentTerm term rf in
  let rf := set_votedFor (-1) rf in
  resetElectionTimerLocked k (persist rf).

Definition becomeCandidateLocked (k : tick) (rf : Raft) : Raft :=
  let rf := set_state Candidate rf in
  let rf := set_currentTerm (currentTerm rf + 1) rf in
  let rf := set_votedFor (me rf) rf in
  resetElectionTimerLocked k (persist rf).

Definition becomeLeaderLocked (rf : Raft) : Raft * list spawn :=
  let rf := set_state Leader rf in
  let li := lastLogIndex rf in
  let rf := set_nextIndex (Some (replicate (Z.to_nat (peers rf)) (li + 1))) rf in
  let rf := set_matchIndex (Some (replicate (Z.to_nat (peers rf)) 0)) rf in
  (rf, [SpawnBroadcast]).

(** ** RequestVote *)

Record RequestVoteArgs := mkRVArgs {
  rv_Term : Z; rv_CandidateId : Z; rv_LastLogIndex : Z; rv_LastLogTerm : Z }.

Record RequestVoteReply := mkRVReply { rvr_Term : Z; rvr_VoteGranted : bool }.

Definition candidateUpToDateLocked (rf : Raft) (args : RequestVoteArgs) : bool :=
  let myLastTerm := lastLogTerm rf in
  if negb (rv_LastLogTerm args =? myLastTerm) then myLastTerm <? rv_LastLogTerm args
  else lastLogIndex rf <=? rv_LastLogIndex args.

Definition RequestVote (args : RequestVoteArgs) (k1 k2 : tick) (rf : Raft) :
    Raft * RequestVoteReply :=
  let reply := mkRVReply (currentTerm rf) false in
  if rv_Term args <? currentTerm rf then (rf, reply)
  else
    let rf := if currentTerm rf <? rv_Term args
              then becomeFollowerLocked (rv_Term args) k1 rf else rf in
    if negb (votedFor rf =? -1) && negb (votedFor rf =? rv_CandidateId args) then (rf, reply)
    else if negb (candidateUpToDateLocked rf args) then (rf, reply)
    else
      let rf := set_votedFor (rv_CandidateId args) rf in
      let rf := resetElectionTimerLocked k2 (persist rf) in
      (rf, mkRVReply (rvr_Term reply) true).

(** ** Start *)

(** [bump o me v]: [if o != nil && me < len(o) && o[me] < v { o[me] = v }]. *)
Definition bump (o : option (list Z)) (me v : Z) : option (option (list Z)) :=
  match o with
  | None => Some None
  | Some l =>
      if me <? zlen l then
        x ← zget l me;
        if x <? v then l ← zset l me v; Some (Some l) else Some (Some l)
      else Some (Some l)
  end.

(** The indices [range rf.peers] gives. *)
Definition range_peers (rf : Raft) : list Z :=
  map Z.of_nat (seq 0 (Z.to_nat (peers rf))).

Definition other_peers (rf : Raft) : list Z :=
  filter (fun i => i <> me rf) (range_peers rf).

Definition Start (command : Cmd) (rf : Raft) : option (Raft * (Z * Z * bool) * list spawn) :=
  let term := currentTerm rf in
  if negb (bool_decide (state rf = Leader)) then Some (rf, (-1, term, false), [])
  else
    let index := lastLogIndex rf + 1 in
    let entry := mkEntry term (Some command) in
    let rf := persist (set_log (log rf ++ [entry]) rf) in
    m ← bump (matchIndex rf) (me rf) index;
    let rf := set_matchIndex m rf in
    n ← bump (nextIndex rf) (me rf) (index + 1);
    let rf := set_nextIndex n rf in
    Some (rf, (index, term, true),
          map (fun i => SpawnReplicate i (currentTerm rf)) (other_peers rf)).

(** ** The ticker: two locked sections, the second one using the state and
    term read by the first *)

Definition ticker_read (rf : Raft) : option (State * Z) :=
  if killed rf then None else Some (state rf, currentTerm rf).

Definition ticker_act (st : State) (term : Z) (clock : Z) (k : tick) (rf : Raft) :
    Raft * list spawn :=
  match st with
  | Leader => (rf, [SpawnBroadcast])
  | Follower | Candidate =>
      let elapsed := clock - lastElectionReset rf in
      if electionTimeout rf <=? elapsed
      then (becomeCandidateLocked k rf, [SpawnElection (term + 1)])
      else (rf, [])
  end.

(** ** AppendEntries *)

Record AppendEntriesArgs := mkAEArgs {
  ae_Term : Z; ae_LeaderId : Z; ae_PrevLogIndex : Z; ae_PrevLogTerm : Z;
  ae_Entries : list LogEntry; ae_LeaderCommit : Z }.

Record AppendEntriesReply := mkAEReply { aer_Term : Z; aer_Success : bool }.

(** The first locked section of [broadcastAppendEntries]: the arguments sent
    to every peer. *)
Definition broadcastAppendEntries (rf : Raft) : option (option AppendEntriesArgs) :=
  if negb (bool_decide (state rf = Leader)) then Some None
  else
    let term := currentTerm rf in
    let leaderCommit := commitIndex rf in
    let prevIndex := lastLogIndex rf in
    prevTerm ← (if (0 <=? prevIndex) && (prevIndex <? zlen (log rf)) && (0 <? prevIndex)
                then option_map e_Term (zget (log rf) prevIndex) else Some 0);
    Some (Some (mkAEArgs term (me rf) prevIndex prevTerm [] leaderCommit)).

(** What the goroutine of one peer does with a reply. *)
Definition heartbeat_reply (reply : AppendEntriesReply) (k : tick) (rf : Raft) : Raft :=
  if currentTerm rf <? aer_Term reply then becomeFollowerLocked (aer_Term reply) k rf else rf.

(** The loop that looks for the first conflict; [rest] is
    [args.Entries[newEntriesIndex:]].  The result is the log, cut at a
    conflict, and the entries still to append. *)
Fixpoint find_conflict (log : list LogEntry) (insertIndex : Z) (rest : list LogEntry) :
    option (list LogEntry * list LogEntry) :=
  match rest with
  | [] => Some (log, [])
  | e :: rest' =>
      if insertIndex <? zlen log then
        x ← zget log insertIndex;
        if negb (e_Term x =? e_Term e) then
          log ← ztake log insertIndex; Some (log, rest)
        else find_conflict log (insertIndex + 1) rest'
      else Some (log, rest)
  end.

(** Rules 3 and 4 of Figure 2. *)
Definition append_entries (args : AppendEntriesArgs) (rf : Raft) : option Raft :=
  if 0 <? zlen (ae_Entries args) then
    '(l, rest) ← find_conflict (log rf) (ae_PrevLogIndex args + 1) (ae_Entries args);
    Some (persist (set_log (if 0 <? zlen rest then l ++ rest else l) rf))
  else Some rf.

(** Rule 5 of Figure 2, as the code has it. *)
Definition follow_commit (leaderCommit : Z) (rf : Raft) : Raft * list spawn :=
  if commitIndex rf <? leaderCommit then
    let oldCommitIndex := commitIndex rf in
    let rf := set_commitIndex (min leaderCommit (lastLogIndex rf)) rf in
    (rf, if oldCommitIndex <? commitIndex rf then [SpawnApply] else [])
  else (rf, []).

(** The consistency check at [PrevLogIndex]. *)
Definition prev_matches (args : AppendEntriesArgs) (rf : Raft) : option bool :=
  if lastLogIndex rf <? ae_PrevLogIndex args then Some false
  else if 0 <? ae_PrevLogIndex args then
    if zlen (log rf) <=? ae_PrevLogIndex args then Some false
    else e ← zget (log rf) (ae_PrevLogIndex args); Some (e_Term e =? ae_PrevLogTerm args)
  else Some true.

Definition AppendEntries (args : AppendEntriesArgs) (k1 k2 : tick) (rf : Raft) :
    option (Raft * AppendEntriesReply * list spawn) :=
  let reply := mkAEReply (currentTerm rf) false in
  if ae_Term args <? currentTerm rf then Some (rf, reply, [])
  else
    let rf := if currentTerm rf <=? ae_Term args
              then becomeFollowerLocked (ae_Term args) k1 rf else rf in
    let rf := resetElectionTimerLocked k2 rf in
    ok ← prev_matches args rf;
    if negb ok then Some (rf, reply, [])
    else
      let reply := mkAEReply (aer_Term reply) true in
      rf ← append_entries args rf;
      let '(rf, spawns) := follow_commit (ae_LeaderCommit args) rf in
      Some (rf, reply, spawns).

(** ** Committing *)

(** The count of the peers known to store index [N], the leader included. *)
Fixpoint count_match (mi : list Z) (me N : Z) (range : list Z) (cnt : Z) : option Z :=
  match range with
  | [] => Some cnt
  | i :: range =>
      if i =? me then count_match mi me N range cnt
      else
        m ← zget mi i;
        count_match mi me N range (if N <=? m then cnt + 1 else cnt)
  end.

(** The loop over [N], with [n] iterations left. *)
Fixpoint advance_from (rf : Raft) (N : Z) (n : nat) : option Raft :=
  match n with
  | O => Some rf
  | S n =>
      if N <=? commitIndex rf then Some rf
      else
        e ← zget (log rf) N;
        if negb (e_Term e =? currentTerm rf) then advance_from rf (N - 1) n
        else
          cnt ← count_match (default [] (matchIndex rf)) (me rf) N (range_peers rf) 1;
          if peers rf / 2 <? cnt then Some (set_commitIndex N rf)
          else advance_from rf (N - 1) n
  end.

Definition tryAdvanceCommitLocked (rf : Raft) : option Raft :=
  if negb (bool_decide (state rf = Leader)) then Some rf
  else
    let Nmax := lastLogIndex rf in
    advance_from rf Nmax (Z.to_nat (Nmax - commitIndex rf)).

(** One iteration of [applyCommittedEntries]; the message is sent after the
    lock is released.  [Some None]: the goroutine ends. *)
Definition applyCommittedEntries (rf : Raft) : option (option (Raft * ApplyMsg)) :=
  if commitIndex rf <=? lastApplied rf then Some None
  else
    let index := lastApplied rf + 1 in
    e ← zget (log rf) index;
    Some (Some (set_lastApplied index rf, mkApplyMsg true (e_Command e) index false [] 0 0)).

(** The loop of a goroutine that is alone: the messages in the order it
    sends them. *)
Fixpoint apply_loop (fuel : nat) (rf : Raft) : result (Raft * list ApplyMsg) :=
  match fuel with
  | O => NoFuel
  | S fuel =>
      match applyCommittedEntries rf with
      | None => Panic
      | Some None => Ret (rf, [])
      | Some (Some (rf, msg)) =>
          '(rf, msgs) ← apply_loop fuel rf; mret (rf, msg :: msgs)
      end
  end.

(** ** Replication: the two locked sections of an iteration of
    [replicateToPeer] *)

(** [Some None]: the goroutine ends. *)
Definition replicate_send (peer termStarted : Z) (rf : Raft) :
    option (option AppendEntriesArgs) :=
  if killed rf then Some None
  else if negb (bool_decide (state rf = Leader)) || negb (currentTerm rf =? termStarted)
  then Some None
  else if peer =? me rf then Some None
  else
    match nextIndex rf, matchIndex rf with
    | Some ni, Some _ =>
        nextIdx ← zget ni peer;
        let lastIdx := lastLogIndex rf in
        if lastIdx <? nextIdx then Some None
        else
          let prevIndex := nextIdx - 1 in
          prevTerm ← (if (0 <? prevIndex) && (prevIndex <? zlen (log rf))
                      then option_map e_Term (zget (log rf) prevIndex) else Some 0);
          let maxEntries := min 100 (lastIdx - nextIdx + 1) in
          entries ← zslice (log rf) nextIdx (nextIdx + maxEntries);
          Some (Some (mkAEArgs (currentTerm rf) (me rf) prevIndex prevTerm entries
                        (commitIndex rf)))
    | _, _ => Some None
    end.

(** The section after the reply: the new state, what to start, and whether
    the loop continues. *)
Definition replicate_reply (peer termStarted : Z) (args : AppendEntriesArgs)
    (reply : AppendEntriesReply) (k : tick) (rf : Raft) : option (Raft * list spawn * bool) :=
  if negb (bool_decide (state rf = Leader)) || negb (currentTerm rf =? termStarted)
  then Some (rf, [], false)
  else if currentTerm rf <? aer_Term reply
  then Some (becomeFollowerLocked (aer_Term reply) k rf, [], false)
  else if aer_Success reply then
    let newMatch := ae_PrevLogIndex args + zlen (ae_Entries args) in
    let mi := default [] (matchIndex rf) in
    m ← zget mi peer;
    mi ← (if m <? newMatch then zset mi peer newMatch else Some mi);
    m ← zget mi peer;
    ni ← zset (default [] (nextIndex rf)) peer (m + 1);
    let rf := set_nextIndex (Some ni) (set_matchIndex (Some mi) rf) in
    let oldCommit := commitIndex rf in
    rf ← tryAdvanceCommitLocked rf;
    Some (rf, if oldCommit <? commitIndex rf then [SpawnApply] else [], true)
  else
    let ni := default [] (nextIndex rf) in
    x ← zget ni peer;
    ni ← (if 1 <? x then zset ni peer (x - 1) else Some ni);
    Some (set_nextIndex (Some ni) rf, [], true).

(** ** Elections *)

(** The arguments of the RequestVote calls, or nothing if the election is
    out of date. *)
Definition startElection (term : Z) (rf : Raft) : option RequestVoteArgs :=
  if negb (currentTerm rf =? term) || negb (bool_decide (state rf = Candidate)) then None
  else Some (mkRVArgs term (me rf) (lastLogIndex rf) (lastLogTerm rf)).

(** The variables the goroutines of an election share. *)
Record Election := mkElection {
  el_term : Z; el_node : Z; el_peersCount : Z;
  votes : Z; finished : Z; electionDone : bool }.

Definition newElection (term : Z) (rf : Raft) : Election :=
  mkElection term (me rf) (peers rf) 1 0 false.

(** The handling of a reply; the second part is the term of the [go func]
    that steps down. *)
Definition vote_reply (reply : RequestVoteReply) (el : Election) : Election * option Z :=
  if electionDone el then (el, None)
  else
    let '(v, down) :=
      if rvr_VoteGranted reply then (votes el + 1, None)
      else (votes el, if el_term el <? rvr_Term reply then Some (rvr_Term reply) else None) in
    (mkElection (el_term el) (el_node el) (el_peersCount el) v (finished el + 1)
       (electionDone el), down).

Definition vote_failed (el : Election) : Election :=
  mkElection (el_term el) (el_node el) (el_peersCount el) (votes el) (finished el + 1)
    (electionDone el).

(** The [go func] that steps down. *)
Definition step_down (term : Z) (k : tick) (rf : Raft) : Raft :=
  if currentTerm rf <? term then becomeFollowerLocked term k rf else rf.

(** The condition of the [for ... cond.Wait()] loop. *)
Definition election_waits (el : Election) : bool :=
  (votes el <=? el_peersCount el / 2) && (finished el <? el_peersCount el - 1)
  && negb (electionDone el).

(** After the loop. *)
Definition election_end (el : Election) (rf : Raft) : Election * Raft * list spawn :=
  let el := mkElection (el_term el) (el_node el) (el_peersCount el) (votes el) (finished el)
              true in
  if el_peersCount el / 2 <? votes el then
    if (currentTerm rf =? el_term el) && bool_decide (state rf = Candidate) then
      let '(rf, spawns) := becomeLeaderLocked rf in (el, rf, spawns)
    else (el, rf, [])
  else (el, rf, []).
End defs.

#[export] Instance LogEntry_eq_dec {Cmd} `{EqDecision Cmd} : EqDecision (@LogEntry Cmd).
Proof. solve_decision. Defined.

#[export] Program Instance LogEntry_countable {Cmd} `{Countable Cmd} : Countable (@LogEntry Cmd) :=
  inj_countable' (fun e => (e_Term e, e_Command e)) (fun p => mkEntry p.1 p.2) _.
Next Obligation. by intros ? ? ? []. Qed.

#[global] Arguments LogEntry : clear implicits.
#[global] Arguments ApplyMsg : clear implicits.
#[global] Arguments Raft : clear implicits.
#[global] Arguments AppendEntriesArgs : clear implicits.
End Raft.
