(* ===== verification/RaftFacts.v ===== *)
(** Properties of a single Raft peer: its reachable states, what every
    operation does to the log, the vote and the commit index, and what a crash
    preserves. *)
From S2P Require Import Prelude Persister RaftNode.
Import Persister Raft.

Module RaftFacts.

(** Case analysis on the boolean tests of the code. *)
Ltac raft_case :=
  repeat match goal with
  | H : context [if ?b then _ else _] |- _ => destruct b eqn:?; simpl in H
  | |- context [if ?b then _ else _] => destruct b eqn:?; simpl
  end.

Section facts.
Context {Cmd : Type} `{!Gob Z, !Gob (list (LogEntry Cmd))}.
Implicit Types (rf : Raft Cmd) (k : tick) (l es : list (LogEntry Cmd)).

(** ** The steps of a peer *)

(** One locked section of the code, other than AppendEntries. *)
Inductive quiet_step : Raft Cmd -> Raft Cmd -> Prop :=
  | qs_RequestVote args k1 k2 rf : quiet_step rf (RequestVote args k1 k2 rf).1
  | qs_Start c rf rf' r sp : Start c rf = Some (rf', r, sp) -> quiet_step rf rf'
  | qs_ticker st term clock k rf : quiet_step rf (ticker_act st term clock k rf).1
  | qs_heartbeat reply k rf : quiet_step rf (heartbeat_reply reply k rf)
  | qs_replicate peer term args reply k rf rf' sp more :
      0 <= peer < peers rf ->
      replicate_reply peer term args reply k rf = Some (rf', sp, more) -> quiet_step rf rf'
  | qs_apply rf rf' msg :
      applyCommittedEntries rf = Some (Some (rf', msg)) -> quiet_step rf rf'
  | qs_election el rf : quiet_step rf (election_end el rf).1.2
  | qs_step_down term k rf : quiet_step rf (step_down term k rf)
  | qs_Kill rf : quiet_step rf (Kill rf)
  | qs_restart k rf : quiet_step rf (Make (peers rf) (me rf) (persister rf) k).1.

(** Leaders send non-negative indices. *)
Inductive node_step : Raft Cmd -> Raft Cmd -> Prop :=
  | ns_quiet rf rf' : quiet_step rf rf' -> node_step rf rf'
  | ns_AppendEntries args k1 k2 rf rf' r sp :
      0 <= ae_PrevLogIndex args -> AppendEntries args k1 k2 rf = Some (rf', r, sp) ->
      node_step rf rf'.

(** ** What a crash preserves *)

(** A peer made from the persister has the same term, vote and log. *)
Definition durable rf : Prop :=
  log rf <> [] /\
  forall n m k, let rf' := (Make n m (persister rf) k).1 in
    currentTerm rf' = currentTerm rf /\ votedFor rf' = votedFor rf /\ log rf' = log rf.

Lemma readPersist_persist rf rf0 :
  log rf <> [] ->
  let rf' := readPersist (ReadRaftState (persister (persist rf))) rf0 in
  currentTerm rf' = currentTerm rf /\ votedFor rf' = votedFor rf /\ log rf' = log rf.
Proof.
  intros Hne. unfold readPersist, persist, ReadRaftState, clone. simpl.
  unfold clone.
  assert ((zlen (enc (currentTerm rf) ++ enc (votedFor rf) ++ enc (log rf)) =? 0) = false) as ->.
  { apply Z.eqb_neq. rewrite zlen_app. pose proof (zlen_nonneg (enc (votedFor rf) ++ enc (log rf))).
    pose proof (enc_ne (currentTerm rf)).
    destruct (enc (currentTerm rf)) as [|b bs]; [done|]. rewrite zlen_cons.
    pose proof (zlen_nonneg bs). lia. }
  rewrite dec_enc. simpl. rewrite dec_enc. simpl.
  rewrite <- (app_nil_r (enc (log rf))), dec_enc. simpl.
  destruct (log rf) as [|e l]; [done|]. rewrite zlen_cons.
  pose proof (zlen_nonneg l). destruct (zlen l + 1 =? 0) eqn:E2; bsimp; [lia|done].
Qed.

Lemma persist_durable rf : log rf <> [] -> durable (persist rf).
Proof. intros Hne. split; [done|]. intros n m k. exact (readPersist_persist rf _ Hne). Qed.

(** Only these four fields matter. *)
Lemma durable_ext rf rf' :
  persister rf' = persister rf -> currentTerm rf' = currentTerm rf ->
  votedFor rf' = votedFor rf -> log rf' = log rf -> durable rf -> durable rf'.
Proof. unfold durable. by intros -> -> -> ->. Qed.

Lemma becomeFollower_durable term k rf :
  log rf <> [] -> durable (becomeFollowerLocked term k rf).
Proof.
  intros Hne. unfold becomeFollowerLocked.
  eapply durable_ext; [..|apply (persist_durable (set_votedFor (-1) (set_currentTerm term rf)))];
    by raft_case.
Qed.

Lemma becomeCandidate_durable k rf : log rf <> [] -> durable (becomeCandidateLocked k rf).
Proof.
  intros Hne. by apply (durable_ext (persist
    (set_votedFor (me rf) (set_currentTerm (currentTerm rf + 1) rf)))); [..|apply persist_durable].
Qed.

(** The fields of a follower. *)
Lemma becomeFollower_fields term k rf :
  let rf' := becomeFollowerLocked term k rf in
  peers rf' = peers rf /\ me rf' = me rf /\ currentTerm rf' = term /\ votedFor rf' = -1 /\
  log rf' = log rf /\ commitIndex rf' = commitIndex rf /\ lastApplied rf' = lastApplied rf /\
  state rf' = Follower /\ nextIndex rf' = nextIndex rf /\ matchIndex rf' = matchIndex rf.
Proof.
  unfold becomeFollowerLocked. simpl. destruct (bool_decide _) eqn:E; simpl; [done|].
  apply bool_decide_eq_false, dec_stable in E. done.
Qed.

(** ** The loop over the new entries *)

(** The terms of [es] match the log from index [i] on. *)
Fixpoint terms_match l (i : Z) es : bool :=
  match es with
  | [] => true
  | e :: es => match zget l i with
               | Some x => (e_Term x =? e_Term e) && terms_match l (i + 1) es
               | None => false
               end
  end.

Lemma find_conflict_spec l i es :
  0 <= i <= zlen l ->
  exists l' pre rest, find_conflict l i es = Some (l', rest) /\ es = pre ++ rest /\
    terms_match l i pre = true /\
    ((rest = [] /\ l' = l) \/
     (rest <> [] /\ l' = take (Z.to_nat (i + zlen pre)) l /\ i + zlen pre <= zlen l /\
      forall x e, zget l (i + zlen pre) = Some x -> head rest = Some e -> e_Term x <> e_Term e)).
Proof.
  revert i. induction es as [|e es IH]; intros i Hi; simpl.
  { exists l, [], []. split_and!; try done. by left. }
  destruct (i <? zlen l) eqn:E; bsimp.
  - destruct (proj2 (zget_is_Some l i)) as [x Hx]; [lia|]. rewrite Hx. simpl.
    destruct (e_Term x =? e_Term e) eqn:Et; simpl.
    + destruct (IH (i + 1)) as (l' & pre & rest & Hf & -> & Hm & Hr); [lia|].
      exists l', (e :: pre), rest. rewrite Hf. split_and!; try done.
      * simpl. by rewrite Hx, Et, Hm.
      * rewrite zlen_cons. by replace (i + (zlen pre + 1)) with (i + 1 + zlen pre) by lia.
    + rewrite (proj2 (ztake_Some l i (take (Z.to_nat i) l))); [|split; [lia|done]]. simpl.
      exists (take (Z.to_nat i) l), [], (e :: es). split_and!; try done. right.
      rewrite zlen_nil, Z.add_0_r. split_and!; try done; [lia|].
      intros x' e' Hx' [= <-]. bsimp. congruence.
  - exists l, [], (e :: es). split_and!; try done. right. rewrite zlen_nil, Z.add_0_r.
    split_and!; try done; [|lia|].
    + rewrite take_ge; [done|]. unfold zlen in E. lia.
    + intros x e' Hx%zget_Some_range. lia.
Qed.


(** The entry a log holds at an index and term is determined by them. *)
Definition log_matching l (i : Z) es : Prop :=
  forall j x e, 0 <= j -> zget l (i + j) = Some x -> zget es j = Some e ->
  e_Term x = e_Term e -> x = e.

Lemma log_matching_tail l i e es : log_matching l i (e :: es) -> log_matching l (i + 1) es.
Proof.
  intros H j x e' Hj Hx He. apply (H (j + 1)); [lia| |].
  - by replace (i + (j + 1)) with (i + 1 + j) by lia.
  - unfold zget in *. destruct (j <? 0) eqn:E; bsimp; [lia|].
    destruct (j + 1 <? 0) eqn:E2; bsimp; [lia|].
    by replace (Z.to_nat (j + 1)) with (S (Z.to_nat j)) by lia.
Qed.

Lemma zget_head e es : @zget (LogEntry Cmd) (e :: es) 0 = Some e.
Proof. done. Qed.

Lemma terms_match_take l i pre rest :
  0 <= i -> terms_match l i pre = true -> log_matching l i (pre ++ rest) ->
  take (Z.to_nat (i + zlen pre)) l = take (Z.to_nat i) l ++ pre.
Proof.
  revert i. induction pre as [|e pre IH]; intros i Hi Hm Hlm.
  { by rewrite zlen_nil, Z.add_0_r, app_nil_r. }
  simpl in Hm. destruct (zget l i) as [x|] eqn:Hx; [|done].
  apply andb_true_iff in Hm as [Ht Hm]. bsimp.
  assert (x = e) as ->.
  { apply (Hlm 0); [lia|by rewrite Z.add_0_r|apply zget_head|done]. }
  rewrite zlen_cons. replace (i + (zlen pre + 1)) with (i + 1 + zlen pre) by lia.
  rewrite IH; [|lia|done|by eapply log_matching_tail].
  replace (Z.to_nat (i + 1)) with (S (Z.to_nat i)) by lia.
  apply zget_Some_lookup in Hx as [_ Hx].
  rewrite (take_S_r _ _ e Hx). by rewrite <- app_assoc.
Qed.

(** The reference: keep the log if it already holds the entries, otherwise
    replace everything after [prev] by them. *)
Definition merge l (prev : Z) es : list (LogEntry Cmd) :=
  if terms_match l (prev + 1) es then l else take (Z.to_nat (prev + 1)) l ++ es.

Lemma terms_match_app l i pre rest :
  terms_match l i (pre ++ rest) = terms_match l i pre && terms_match l (i + zlen pre) rest.
Proof.
  revert i. induction pre as [|e pre IH]; intros i; simpl.
  { by rewrite zlen_nil, Z.add_0_r. }
  rewrite zlen_cons, IH. replace (i + (zlen pre + 1)) with (i + 1 + zlen pre) by lia.
  destruct (zget l i); [by rewrite andb_assoc|done].
Qed.

Lemma find_conflict_merge l prev es :
  0 <= prev + 1 <= zlen l -> log_matching l (prev + 1) es ->
  exists l' rest, find_conflict l (prev + 1) es = Some (l', rest) /\
    l' ++ rest = merge l prev es.
Proof.
  intros Hp Hlm. destruct (find_conflict_spec l (prev + 1) es Hp)
    as (l' & pre & rest & -> & -> & Hm & Hr).
  exists l', rest. split; [done|]. unfold merge. rewrite terms_match_app, Hm. simpl.
  destruct Hr as [[-> ->]|(Hne & -> & Hle & Hconf)].
  - simpl. by rewrite app_nil_r.
  - destruct rest as [|e rest]; [done|].
    assert (terms_match l (prev + 1 + zlen pre) (e :: rest) = false) as ->.
    { simpl. destruct (zget _ _) as [x|] eqn:Hx; [|done].
      specialize (Hconf x e eq_refl eq_refl).
      destruct (e_Term x =? e_Term e) eqn:E; bsimp; done. }
    rewrite (terms_match_take l _ pre (e :: rest)); [by rewrite <- app_assoc|lia|done..].
Qed.

Lemma merge_nonempty l prev es : 0 <= prev -> l <> [] -> merge l prev es <> [].
Proof.
  intros Hp Hne. unfold merge. destruct (terms_match _ _ _); [done|].
  destruct l as [|e l]; [done|]. replace (Z.to_nat (prev + 1)) with (S (Z.to_nat prev)) by lia.
  done.
Qed.

(** ** AppendEntries *)

(** The consistency check passes. *)
Definition prev_ok (args : AppendEntriesArgs Cmd) l : Prop :=
  ae_PrevLogIndex args < zlen l /\
  (0 < ae_PrevLogIndex args -> exists e, zget l (ae_PrevLogIndex args) = Some e /\
    e_Term e = ae_PrevLogTerm args).

Lemma prev_matches_spec args rf :
  exists ok, prev_matches args rf = Some ok /\ (ok = true <-> prev_ok args (log rf)).
Proof.
  unfold prev_matches, prev_ok, lastLogIndex.
  destruct (zlen (log rf) - 1 <? ae_PrevLogIndex args) eqn:E1; bsimp.
  { exists false. split; [done|]. split; [done|lia]. }
  destruct (0 <? ae_PrevLogIndex args) eqn:E2; bsimp.
  2: { exists true. split; [done|]. split; [|done]. intros _. split; lia. }
  destruct (zlen (log rf) <=? ae_PrevLogIndex args) eqn:E3; bsimp.
  { exists false. split; [done|]. split; [done|lia]. }
  destruct (proj2 (zget_is_Some (log rf) (ae_PrevLogIndex args))) as [e He]; [lia|].
  rewrite He. simpl. eexists. split; [done|]. rewrite Z.eqb_eq. split.
  - intros Ht. split; [lia|]. eauto.
  - intros [_ H]. destruct H as (e' & [= <-] & ?); [done|]. done.
Qed.

(** What rule 5 does to the commit index. *)
Definition new_commit (leaderCommit last commit : Z) : Z :=
  if commit <? leaderCommit then Z.min leaderCommit last else commit.

Lemma min_spec a b : min a b = Z.min a b.
Proof. unfold min. destruct (a <? b) eqn:E; bsimp; lia. Qed.

Lemma max_spec a b : max a b = Z.max a b.
Proof. unfold max. destruct (b <? a) eqn:E; bsimp; lia. Qed.

(** The state an accepted request leaves, [l] being the new log. *)
Record accepted (args : AppendEntriesArgs Cmd) rf rf' l : Prop := {
  ac_term : currentTerm rf' = ae_Term args;
  ac_vote : votedFor rf' = -1;
  ac_state : state rf' = Follower;
  ac_log : log rf' = l;
  ac_peers : peers rf' = peers rf;
  ac_me : me rf' = me rf;
  ac_applied : lastApplied rf' = lastApplied rf;
  ac_persist : log rf <> [] -> l <> [] -> durable rf' }.

Lemma follow_commit_spec c rf :
  exists sp, follow_commit c rf =
    (set_commitIndex (new_commit c (lastLogIndex rf) (commitIndex rf)) rf, sp) /\
    (sp = [SpawnApply] <-> commitIndex rf < new_commit c (lastLogIndex rf) (commitIndex rf)) /\
    (sp = [] \/ sp = [SpawnApply]).
Proof.
  unfold follow_commit, new_commit. destruct (commitIndex rf <? c) eqn:E; bsimp.
  - eexists. rewrite min_spec. split; [done|]. simpl.
    destruct (commitIndex rf <? _) eqn:E2; bsimp; (split; [split; [done|]|]); try tauto; lia.
  - exists []. split; [by destruct rf|]. split; [split; [done|lia]|by left].
Qed.

(** The log after the entries are appended. *)
Lemma append_entries_run args rf :
  0 <= ae_PrevLogIndex args + 1 <= zlen (log rf) ->
  exists l rest,
    find_conflict (log rf) (ae_PrevLogIndex args + 1) (ae_Entries args) = Some (l, rest) /\
    append_entries args rf = Some (if 0 <? zlen (ae_Entries args)
                                   then persist (set_log (l ++ rest) rf) else rf) /\
    (zlen (ae_Entries args) <= 0 -> l ++ rest = log rf).
Proof.
  intros Hi.
  destruct (find_conflict_spec (log rf) (ae_PrevLogIndex args + 1) (ae_Entries args))
    as (l & pre & rest & Hfc & Hes & _ & Hrest); [lia|].
  exists l, rest. split; [done|]. split.
  - unfold append_entries. destruct (0 <? zlen (ae_Entries args)); [|done].
    rewrite Hfc. simpl. do 3 f_equal. destruct rest; [by rewrite app_nil_r|].
    rewrite zlen_cons. pose proof (zlen_nonneg rest). destruct (0 <? _) eqn:E0; bsimp; [done|lia].
  - intros E0. assert (ae_Entries args = []) as Hnil.
    { destruct (ae_Entries args) as [|e es]; [done|]. rewrite zlen_cons in E0.
      pose proof (zlen_nonneg es). lia. }
    rewrite Hnil in Hes. destruct pre, rest; try done.
    destruct Hrest as [[_ ->]|[? _]]; [|done]. by rewrite app_nil_r.
Qed.

(** Every outcome of [AppendEntries]. *)
Lemma AppendEntries_cases args k1 k2 rf :
  log rf <> [] -> 0 <= ae_PrevLogIndex args ->
  exists rf' r sp, AppendEntries args k1 k2 rf = Some (rf', r, sp) /\
    aer_Term r = currentTerm rf /\
    (aer_Success r = true <->
       currentTerm rf <= ae_Term args /\ prev_ok args (log rf)) /\
    (ae_Term args < currentTerm rf -> rf' = rf /\ sp = []) /\
    (currentTerm rf <= ae_Term args -> ~ prev_ok args (log rf) ->
       accepted args rf rf' (log rf) /\ commitIndex rf' = commitIndex rf /\ sp = []) /\
    (currentTerm rf <= ae_Term args -> prev_ok args (log rf) ->
       exists l rest, accepted args rf rf' (l ++ rest) /\
         find_conflict (log rf) (ae_PrevLogIndex args + 1) (ae_Entries args) = Some (l, rest) /\
         commitIndex rf' =
           new_commit (ae_LeaderCommit args) (lastLogIndex rf') (commitIndex rf) /\
         (sp = [SpawnApply] <-> commitIndex rf < commitIndex rf')).
Proof.
  intros Hne Hprev. unfold AppendEntries.
  destruct (ae_Term args <? currentTerm rf) eqn:E; bsimp.
  { eexists _, _, _. split; [done|]. split; [done|]. split; [split; [done|lia]|].
    split; [done|]. split; lia. }
  assert ((currentTerm rf <=? ae_Term args) = true) as -> by (apply Z.leb_le; lia).
  pose proof (becomeFollower_fields (ae_Term args) k1 rf)
    as (Hp & Hm & Ht & Hv & Hl & Hc & Ha & Hs & _).
  pose proof (becomeFollower_durable (ae_Term args) k1 rf Hne) as Hd.
  set (rf1 := becomeFollowerLocked (ae_Term args) k1 rf) in *.
  set (rf2 := resetElectionTimerLocked k2 rf1).
  assert (durable rf2) as Hd2 by (by eapply durable_ext; [..|exact Hd]).
  change (log rf1) with (log rf2) in Hl. change (commitIndex rf1) with (commitIndex rf2) in Hc.
  destruct (prev_matches_spec args rf2) as (ok & Hok & Hiff). rewrite Hl in Hiff.
  rewrite Hok. simpl. destruct ok; simpl.
  2: { eexists _, _, _. split; [done|]. split; [done|].
    assert (~ prev_ok args (log rf)) as Hno by (intros ?%Hiff; done).
    split; [split; [done|by intros [? ?]]|]. split; [lia|].
    split; [|by intros]. intros _ _. split; [by split|done]. }
  pose proof (proj1 Hiff eq_refl) as Hpo.
  destruct (append_entries_run args rf2) as (l & rest & Hfc & -> & Hnil).
  { rewrite Hl. destruct Hpo as [Hpo _]. lia. }
  simpl. set (rf3 := if 0 <? zlen (ae_Entries args) then persist (set_log (l ++ rest) rf2) else rf2).
  assert (accepted args rf rf3 (l ++ rest)) as Hac.
  { unfold rf3. destruct (0 <? zlen (ae_Entries args)) eqn:E0; bsimp.
    - split; try done. intros _ Hne'. by apply (persist_durable (set_log (l ++ rest) rf2)).
    - rewrite (Hnil E0), Hl. by split. }
  destruct (follow_commit_spec (ae_LeaderCommit args) rf3) as (sp & -> & Hsp & _).
  assert (commitIndex rf3 = commitIndex rf) as Hc3.
  { rewrite <- Hc. unfold rf3. by destruct (0 <? _). }
  eexists _, _, _. split; [done|]. split; [done|]. simpl.
  split; [tauto|]. split; [lia|]. split; [by intros|]. intros _ _.
  exists l, rest. rewrite Hl in Hfc. rewrite Hc3 in Hsp |- *. split; [|done].
  destruct Hac as [? ? ? ? ? ? ? Hdur]. split; try done.
Qed.

(** ** Well-formed states *)

Definition leader_ok rf : Prop :=
  exists ni mi, nextIndex rf = Some ni /\ matchIndex rf = Some mi /\
    zlen ni = peers rf /\ zlen mi = peers rf /\
    Forall (fun n => 1 <= n) ni /\ Forall (fun m => 0 <= m) mi.

Record node_ok rf : Prop := {
  ok_me : 0 <= me rf < peers rf;
  ok_log : log rf <> [];
  ok_commit : 0 <= commitIndex rf;
  ok_applied : 0 <= lastApplied rf;
  ok_leader : state rf = Leader -> leader_ok rf }.

(** ** Committing *)

(** Peer [i] is known to store index [N]. *)
Definition stores mi (N i : Z) : bool :=
  match zget mi i with Some m => N <=? m | None => false end.

(** The number of peers, the leader included, known to store [N]. *)
Definition acks rf (N : Z) : Z :=
  1 + zlen (filter (fun i => stores (default [] (matchIndex rf)) N i = true) (other_peers rf)).

(** The commit rule: a majority stores the entry, and it is of this term. *)
Definition committable rf (N : Z) : Prop :=
  (exists e, zget (log rf) N = Some e /\ e_Term e = currentTerm rf) /\
  peers rf / 2 < acks rf N.

Lemma count_match_spec mi m N range cnt :
  Forall (fun i => 0 <= i < zlen mi) range ->
  count_match mi m N range cnt =
    Some (cnt + zlen (filter (fun i => stores mi N i = true) (filter (fun i => i <> m) range))).
Proof.
  intros Hr. revert cnt. induction Hr as [|i range Hi _ IH]; intros cnt; simpl.
  { change (zlen _) with 0. by rewrite Z.add_0_r. }
  rewrite filter_cons. destruct (i =? m) eqn:E; bsimp.
  { rewrite decide_False by (intros H; apply H; done). apply IH. }
  rewrite decide_True by done. rewrite filter_cons.
  destruct (proj2 (zget_is_Some mi i) Hi) as [x Hx]. rewrite Hx. simpl. rewrite IH. f_equal.
  destruct (N <=? x) eqn:E2.
  - rewrite decide_True; [rewrite zlen_cons; lia|]. unfold stores. by rewrite Hx.
  - rewrite decide_False; [done|]. unfold stores. by rewrite Hx, E2.
Qed.

Lemma range_peers_lt rf i : i ∈ range_peers rf <-> 0 <= i < peers rf.
Proof.
  unfold range_peers. rewrite list_elem_of_fmap. split.
  - intros (n & -> & Hn%elem_of_seq). lia.
  - intros Hi. exists (Z.to_nat i). split; [lia|]. apply elem_of_seq. lia.
Qed.

Lemma committable_commitIndex N c rf : committable (set_commitIndex c rf) N <-> committable rf N.
Proof. done. Qed.

Lemma advance_from_spec n N rf :
  leader_ok rf -> -1 <= commitIndex rf -> N <= lastLogIndex rf ->
  Z.of_nat n = N - commitIndex rf ->
  exists c, advance_from rf N n = Some (set_commitIndex c rf) /\ commitIndex rf <= c /\
    (commitIndex rf < c -> c <= N /\ committable rf c) /\
    forall M, c < M <= N -> ~ committable rf M.
Proof.
  intros Hok Hc HN Hn. revert N HN Hn. induction n as [|n IH]; intros N HN Hn; simpl.
  { exists (commitIndex rf). split; [by destruct rf|]. split; [lia|]. split; lia. }
  destruct (N <=? commitIndex rf) eqn:E; bsimp; [lia|].
  destruct (proj2 (zget_is_Some (log rf) N)) as [e He]; [unfold lastLogIndex in HN; lia|].
  rewrite He. simpl.
  assert (~ committable rf N -> exists c, advance_from rf (N - 1) n =
    Some (set_commitIndex c rf) /\ commitIndex rf <= c /\
    (commitIndex rf < c -> c <= N /\ committable rf c) /\
    forall M, c < M <= N -> ~ committable rf M) as Hskip.
  { intros Hno. destruct (IH (N - 1)) as (c & Hr & Hle & Hcm & Hmax); [lia..|].
    exists c. split; [done|]. split; [done|]. split; [intros Hlt; split; [|apply Hcm; done]|].
    - specialize (Hcm Hlt) as [? _]. lia.
    - intros M HM. destruct (decide (M = N)) as [->|]; [done|]. apply Hmax. lia. }
  destruct (e_Term e =? currentTerm rf) eqn:Et; bsimp; simpl.
  2: { apply Hskip. intros [(e' & He' & Ht) _]. congruence. }
  destruct Hok as (ni & mi & Hni & Hmi & _ & Hlen & _).
  rewrite count_match_spec.
  2: { apply Forall_forall. intros i Hi%range_peers_lt. rewrite Hmi. simpl. lia. }
  simpl. change (1 + zlen _) with (acks rf N).
  destruct (peers rf / 2 <? acks rf N) eqn:Ea; bsimp.
  - exists N. split; [done|]. split; [lia|]. split; [|lia]. intros _. split; [lia|].
    split; [by exists e|done].
  - apply Hskip. intros [_ ?]. lia.
Qed.

Lemma tryAdvanceCommit_spec rf :
  leader_ok rf -> -1 <= commitIndex rf -> state rf = Leader ->
  exists c, tryAdvanceCommitLocked rf = Some (set_commitIndex c rf) /\ commitIndex rf <= c /\
    (commitIndex rf < c -> c <= lastLogIndex rf /\ committable rf c) /\
    forall M, c < M <= lastLogIndex rf -> ~ committable rf M.
Proof.
  intros Hok Hc Hs. unfold tryAdvanceCommitLocked. rewrite bool_decide_eq_true_2 by done. simpl.
  destruct (decide (commitIndex rf <= lastLogIndex rf)).
  - apply advance_from_spec; [done..|]. lia.
  - replace (Z.to_nat _) with 0%nat by lia. simpl.
    exists (commitIndex rf). split; [by destruct rf|]. split; [lia|]. split; lia.
Qed.

(** ** The steps, summarised *)

(** What a step other than AppendEntries may do to the term, vote and role. *)
Inductive quiet rf rf' : Prop :=
  | quiet_same : currentTerm rf' = currentTerm rf ->
      (votedFor rf' = votedFor rf \/ votedFor rf = -1) -> quiet rf rf'
  | quiet_newer : currentTerm rf < currentTerm rf' -> quiet rf rf'.

(** Nobody becomes a candidate or a leader. *)
Definition role_kept rf rf' : Prop :=
  (state rf' = Candidate -> state rf = Candidate /\ currentTerm rf' = currentTerm rf) /\
  (state rf' = Leader -> state rf = Leader /\ currentTerm rf' = currentTerm rf).

Lemma role_kept_same rf rf' :
  state rf' = state rf -> currentTerm rf' = currentTerm rf -> role_kept rf rf'.
Proof. unfold role_kept. by intros -> ->. Qed.

Lemma role_kept_follower rf rf' : state rf' = Follower -> role_kept rf rf'.
Proof. unfold role_kept. by intros ->. Qed.

(** Everything a step preserves. *)
Record step_ok rf rf' : Prop := {
  so_node : node_ok rf';
  so_durable : durable rf -> durable rf';
  so_peers : peers rf' = peers rf;
  so_me : me rf' = me rf }.

Lemma becomeFollower_ok term k rf :
  node_ok rf -> step_ok rf (becomeFollowerLocked term k rf).
Proof.
  intros [Hm Hl Hc Ha Hld].
  pose proof (becomeFollower_fields term k rf) as (Hp & Hm' & _ & _ & Hl' & Hc' & Ha' & Hs & _).
  split; [split|..]; rewrite ?Hp, ?Hm', ?Hl', ?Hc', ?Ha', ?Hs; try done.
  intros _. by apply becomeFollower_durable.
Qed.

Lemma RequestVote_ok args k1 k2 rf :
  node_ok rf -> step_ok rf (RequestVote args k1 k2 rf).1.
Proof.
  intros Hok. unfold RequestVote. destruct (_ <? currentTerm rf); [by split|].
  set (rf1 := if _ <? _ then _ else rf).
  assert (step_ok rf rf1) as [Hn Hd Hp Hm].
  { unfold rf1. destruct (_ <? _); [by apply becomeFollower_ok|by split]. }
  destruct (_ && _); [by split|]. destruct (negb _); [by split|]. simpl.
  destruct Hn as [? ? ? ? ?]. split; [by split|..]; try done.
  intros _. eapply durable_ext; [..|apply (persist_durable (set_votedFor (rv_CandidateId args) rf1))]; done.
Qed.

Lemma AppendEntries_ok args k1 k2 rf rf' r sp :
  0 <= ae_PrevLogIndex args -> AppendEntries args k1 k2 rf = Some (rf', r, sp) ->
  node_ok rf -> step_ok rf rf'.
Proof.
  intros Hprev Happ [Hm Hl Hc Ha Hld].
  destruct (AppendEntries_cases args k1 k2 rf Hl Hprev)
    as (rf1 & r1 & sp1 & Heq & _ & _ & Hold & Hrej & Hacc).
  rewrite Happ in Heq. injection Heq as <- <- <-.
  destruct (decide (ae_Term args < currentTerm rf)) as [|Hge].
  { destruct Hold as [-> _]; [done|]. by split. }
  destruct (prev_matches_spec args rf) as (ok & _ & Hiff). destruct ok.
  - destruct Hacc as (l & rest & [Ht Hv Hs Hlog Hp Hme Hap Hd] & Hfc & Hcm & _);
      [lia|by apply Hiff|].
    destruct (find_conflict_spec (log rf) (ae_PrevLogIndex args + 1) (ae_Entries args))
      as (l' & pre & rest' & Hfc' & _ & _ & Hr).
    { destruct (proj1 Hiff eq_refl) as [? _]. lia. }
    rewrite Hfc in Hfc'. injection Hfc' as <- <-.
    assert (l ++ rest <> []) as Hne.
    { destruct Hr as [[-> ->]|[Hr _]]; [by rewrite app_nil_r|].
      intros Hnil%(f_equal length). rewrite length_app in Hnil. destruct rest; [done|].
      simpl in Hnil. lia. }
    split; [split|..]; rewrite ?Hp, ?Hme, ?Hap, ?Hlog, ?Hs; try done; [|tauto].
    rewrite Hcm. unfold new_commit, lastLogIndex. rewrite Hlog.
    destruct (l ++ rest) as [|e l0]; [done|]. rewrite zlen_cons. pose proof (zlen_nonneg l0).
    destruct (_ <? _) eqn:E; bsimp; lia.
  - destruct Hrej as ([Ht Hv Hs Hlog Hp Hme Hap Hd] & Hcm & _); [lia|by intros ?%Hiff|].
    split; [split|..]; rewrite ?Hp, ?Hme, ?Hap, ?Hlog, ?Hs, ?Hcm; try done. tauto.
Qed.

(** Updating one position of a list of numbers. *)
Lemma zset_bound (l : list Z) i v b :
  0 <= i < zlen l -> b <= v -> Forall (fun x => b <= x) l ->
  exists l' : list Z, zset l i v = Some l' /\ zlen l' = zlen l /\ Forall (fun x => b <= x) l' /\
    zget l' i = Some v.
Proof.
  intros Hi Hv Hl. exists (<[Z.to_nat i := v]> l). split; [by apply zset_in|].
  split; [apply zlen_insert|]. split; [by apply Forall_insert|by apply zget_insert_eq].
Qed.

Lemma zset_if_bound (b : bool) (l : list Z) i x lo :
  0 <= i < zlen l -> (b = true -> lo <= x) -> Forall (fun y => lo <= y) l ->
  exists l' : list Z, (if b then zset l i x else Some l) = Some l' /\ zlen l' = zlen l /\
    Forall (fun y => lo <= y) l'.
Proof.
  intros Hi Hx Hl. destruct b; [|by exists l].
  destruct (zset_bound l i x lo) as (l' & ? & ? & ? & _); eauto.
Qed.

Lemma zget_bound (l : list Z) i b :
  0 <= i < zlen l -> Forall (fun x => b <= x) l -> exists x, zget l i = Some x /\ b <= x.
Proof.
  intros Hi Hl. destruct (proj2 (zget_is_Some l i) Hi) as [x Hx]. exists x. split; [done|].
  apply zget_Some_lookup in Hx as [_ Hx]. by eapply Forall_lookup in Hl.
Qed.

Lemma bump_bound (l : list Z) i v b :
  0 <= i < zlen l -> b <= v -> Forall (fun x => b <= x) l ->
  exists l' : list Z, bump (Some l) i v = Some (Some l') /\ zlen l' = zlen l /\
    Forall (fun x => b <= x) l'.
Proof.
  intros Hi Hv Hl. unfold bump. destruct (i <? zlen l) eqn:E; bsimp; [|lia].
  destruct (zget_bound l i b Hi Hl) as (x & -> & Hx). simpl.
  destruct (x <? v); [|by exists l].
  destruct (zset_bound l i v b Hi Hv Hl) as (l' & -> & ? & ? & _). by exists l'.
Qed.

(** What [Start] does. *)
Lemma Start_cases c rf :
  node_ok rf ->
  exists rf' r sp, Start c rf = Some (rf', r, sp) /\ step_ok rf rf' /\
    currentTerm rf' = currentTerm rf /\ votedFor rf' = votedFor rf /\ state rf' = state rf /\
    commitIndex rf' = commitIndex rf /\
    ((state rf <> Leader /\ rf' = rf /\ r = (-1, currentTerm rf, false) /\ sp = []) \/
     (state rf = Leader /\ r = (zlen (log rf), currentTerm rf, true) /\
      log rf' = log rf ++ [mkEntry (currentTerm rf) (Some c)] /\
      sp = map (fun i => SpawnReplicate i (currentTerm rf)) (other_peers rf))).
Proof.
  intros Hok. unfold Start. destruct (decide (state rf = Leader)) as [Hs|Hs].
  2: { rewrite bool_decide_eq_false_2 by done. simpl. eexists _, _, _. split; [done|].
    split; [by split|]. do 4 (split; [done|]). left. done. }
  rewrite bool_decide_eq_true_2 by done. simpl.
  destruct Hok as [Hm Hl Hc Ha Hld].
  destruct (Hld Hs) as (ni & mi & Hni & Hmi & Hnl & Hml & Hn1 & Hm0). rewrite Hni, Hmi.
  assert (0 <= lastLogIndex rf) as Hlast.
  { unfold lastLogIndex. destruct (log rf) as [|e l]; [done|]. rewrite zlen_cons.
    pose proof (zlen_nonneg l). lia. }
  destruct (bump_bound mi (me rf) (lastLogIndex rf + 1) 0) as (mi' & -> & Hml' & Hm0');
    [lia|lia|done|]. cbn [mbind option_bind].
  destruct (bump_bound ni (me rf) (lastLogIndex rf + 1 + 1) 1) as (ni' & Hb & Hnl' & Hn1');
    [lia|lia|done|].
  cbn [nextIndex set_matchIndex persist set_persister set_log me]. rewrite Hb. simpl.
  eexists _, _, _. split; [done|]. split.
  - split; [split; simpl; try done|..]; try done.
    + by destruct (log rf).
    + intros _. exists ni', mi'. simpl. split_and!; try done; congruence.
    + intros _. eapply durable_ext; [..|apply (persist_durable
        (set_log (log rf ++ [mkEntry (currentTerm rf) (Some c)]) rf))];
        try done. simpl. by destruct (log rf).
  - do 4 (split; [done|]). right. unfold lastLogIndex. simpl.
    split; [done|]. split; [do 2 f_equal; lia|done].
Qed.

Lemma becomeLeader_ok rf : node_ok rf -> step_ok rf (becomeLeaderLocked rf).1.
Proof.
  intros [Hm Hl Hc Ha Hld]. unfold becomeLeaderLocked. simpl.
  split; [split; simpl; try done|..]; try done.
  intros _. eexists _, _. simpl. split; [done|]. split; [done|].
  rewrite !zlen_replicate. split; [lia|]. split; [lia|].
  split; apply Forall_replicate; [|lia]. unfold lastLogIndex. simpl.
  destruct (log rf) as [|e l]; [done|]. rewrite zlen_cons. pose proof (zlen_nonneg l). lia.
Qed.

Lemma ticker_ok st term clock k rf :
  node_ok rf -> step_ok rf (ticker_act st term clock k rf).1.
Proof.
  intros Hok. destruct st; simpl; [| |by split].
  all: destruct (_ <=? _); [simpl|by split]; destruct Hok as [Hm Hl Hc Ha Hld];
    split; [by split|intros _; by apply becomeCandidate_durable|done..].
Qed.

Lemma replicate_reply_cases peer term args reply k rf :
  node_ok rf -> 0 <= peer < peers rf ->
  exists rf' sp more, replicate_reply peer term args reply k rf = Some (rf', sp, more) /\
    step_ok rf rf' /\ quiet rf rf' /\ (log rf' = log rf /\ role_kept rf rf') /\
    (state rf = Leader -> currentTerm rf = term -> aer_Term reply <= currentTerm rf ->
     aer_Success reply = true ->
     (commitIndex rf < commitIndex rf' -> commitIndex rf' <= lastLogIndex rf' /\
        committable rf' (commitIndex rf')) /\
     forall M, commitIndex rf' < M <= lastLogIndex rf' -> ~ committable rf' M).
Proof.
  intros Hok Hpeer. unfold replicate_reply.
  destruct (_ || _) eqn:E0.
  { eexists _, _, _. split; [done|]. split; [by split|]. split; [constructor; auto|].
    split; [split; [done|by apply role_kept_same]|]. intros Hs Ht. rewrite bool_decide_eq_true_2, Ht, Z.eqb_refl in E0 by done.
    done. }
  apply orb_false_iff in E0 as [E0 E1]. apply negb_false_iff in E0, E1.
  apply bool_decide_eq_true in E0. apply Z.eqb_eq in E1.
  destruct (currentTerm rf <? aer_Term reply) eqn:E2; bsimp.
  { eexists _, _, _. split; [done|].
    pose proof (becomeFollower_fields (aer_Term reply) k rf) as (_ & _ & Ht & _ & Hl & _ & _ & Hs & _).
    split; [by apply becomeFollower_ok|]. split; [apply quiet_newer; lia|].
    split; [split; [done|by apply role_kept_follower]|lia]. }
  pose proof Hok as [Hm Hl Hc Ha Hld].
  destruct (Hld E0) as (ni & mi & Hni & Hmi & Hnl & Hml & Hn1 & Hm0). rewrite Hni, Hmi. simpl.
  destruct (aer_Success reply).
  - set (newMatch := ae_PrevLogIndex args + zlen (ae_Entries args)).
    destruct (zget_bound mi peer 0) as (m & Hmp & Hm0p); [lia|done|]. rewrite Hmp. simpl.
    destruct (zset_if_bound (m <? newMatch) mi peer newMatch 0)
      as (mi' & -> & Hml' & Hm0'); [lia|intros E3; bsimp; lia|done|].
    simpl. destruct (zget_bound mi' peer 0) as (m' & -> & Hm0p'); [lia|done|]. simpl.
    destruct (zset_bound ni peer (m' + 1) 1) as (ni' & -> & Hnl' & Hn1' & _); [lia..|done|].
    simpl. set (rf1 := set_nextIndex (Some ni') (set_matchIndex (Some mi') rf)).
    assert (leader_ok rf1) as Hlk.
    { exists ni', mi'. split_and!; try done; simpl; congruence. }
    destruct (tryAdvanceCommit_spec rf1 Hlk) as (c & -> & Hle & Hcm & Hmax); [simpl; lia|done|].
    simpl. eexists _, _, _. split; [done|]. split.
    { split; [split; simpl; try done|..]; try done. simpl in Hle. lia. }
    split; [apply quiet_same; auto|]. split; [split; [done|by apply role_kept_same]|].
    intros _ _ _ _. split.
    + apply Hcm.
    + apply Hmax.
  - destruct (zget_bound ni peer 1) as (x & -> & Hx); [lia|done|]. simpl.
    destruct (zset_if_bound (1 <? x) ni peer (x - 1) 1)
      as (ni' & -> & Hnl' & Hn1'); [lia|intros E3; bsimp; lia|done|].
    simpl. eexists _, _, _. split; [done|]. split.
    { split; [split; simpl; try done|..]; try done.
      intros _. exists ni', mi. split_and!; try done; simpl; congruence. }
    split; [apply quiet_same; auto|]. split; [split; [done|by apply role_kept_same]|]. by intros.
Qed.

Lemma restart_ok k rf :
  node_ok rf -> durable rf -> let rf' := (Make (peers rf) (me rf) (persister rf) k).1 in
  step_ok rf rf' /\ currentTerm rf' = currentTerm rf /\ votedFor rf' = votedFor rf /\
  log rf' = log rf.
Proof.
  intros [Hm Hl Hc Ha Hld] [_ Hd]. destruct (Hd (peers rf) (me rf) k) as (Ht & Hv & Hlog).
  simpl in *.
  assert (forall d rf, let rf' := readPersist d rf in
    peers rf' = peers rf /\ me rf' = me rf /\ persister rf' = persister rf /\
    commitIndex rf' = commitIndex rf /\ lastApplied rf' = lastApplied rf /\
    state rf' = state rf) as Hrest.
  { intros d rf0. unfold readPersist. simpl. repeat case_match; done. }
  split; [|done].
  match goal with |- step_ok _ (readPersist ?d ?rf0) =>
    destruct (Hrest d rf0) as (Hp' & Hm' & Hps & Hc' & Ha' & Hs') end.
  split; [split|..]; rewrite ?Hp', ?Hm', ?Hlog, ?Hc', ?Ha', ?Hs'; try done.
  intros _. split; [by rewrite Hlog|]. intros n m k'. rewrite Hps, Ht, Hv, Hlog.
  apply (Hd n m k').
Qed.

Lemma apply_cases rf rf' msg :
  applyCommittedEntries rf = Some (Some (rf', msg)) ->
  lastApplied rf < commitIndex rf /\ rf' = set_lastApplied (lastApplied rf + 1) rf /\
  exists e, zget (log rf) (lastApplied rf + 1) = Some e /\
    msg = mkApplyMsg true (e_Command e) (lastApplied rf + 1) false [] 0 0.
Proof.
  unfold applyCommittedEntries. destruct (_ <=? _) eqn:E; bsimp; [done|].
  destruct (zget _ _) as [e|] eqn:He; simpl; [|done]. intros [= <- <-]. eauto.
Qed.

Lemma becomeFollower_quiet term k rf :
  currentTerm rf < term -> quiet rf (becomeFollowerLocked term k rf).
Proof. intros Ht. apply quiet_newer. by destruct (becomeFollower_fields term k rf) as (_ & _ & -> & _). Qed.

Lemma quiet_step_spec rf rf' :
  quiet_step rf rf' -> node_ok rf -> durable rf -> step_ok rf rf' /\ quiet rf rf'.
Proof.
  intros Hst Hok Hdur. destruct Hst as
    [args k1 k2 rf|c rf rf' r sp H|st term clock k rf|reply k rf
    |peer term args reply k rf rf' sp more Hp H|rf rf' msg H|el rf|term k rf|rf|k rf].
  - split; [by apply RequestVote_ok|]. unfold RequestVote.
    destruct (_ <? currentTerm rf) eqn:E0; [by apply quiet_same; auto|].
    destruct (currentTerm rf <? rv_Term args) eqn:E; bsimp.
    + pose proof (becomeFollower_fields (rv_Term args) k1 rf) as (_ & _ & Ht & _).
      apply quiet_newer. repeat case_match; simpl; lia.
    + destruct (_ && _) eqn:E2; [by apply quiet_same; auto|].
      case_match; [by apply quiet_same; auto|].
      apply quiet_same; [done|]. simpl. apply andb_false_iff in E2 as [E2|E2];
        apply negb_false_iff, Z.eqb_eq in E2; auto.
  - destruct (Start_cases c rf Hok) as (rf1 & r1 & sp1 & H1 & ? & ? & ? & _).
    rewrite H in H1. injection H1 as <- <- <-. split; [done|]. apply quiet_same; auto.
  - split; [by apply ticker_ok|].
    destruct st; simpl; try destruct (_ <=? _); simpl;
      (apply quiet_same; auto; done) || (apply quiet_newer; simpl; lia).
  - unfold heartbeat_reply. destruct (_ <? _) eqn:E; bsimp.
    + split; [by apply becomeFollower_ok|by apply becomeFollower_quiet].
    + split; [by split|apply quiet_same; auto].
  - destruct (replicate_reply_cases peer term args reply k rf Hok Hp)
      as (rf1 & sp1 & more1 & H1 & ? & ? & _).
    rewrite H in H1. injection H1 as <- <- <-. done.
  - destruct (apply_cases _ _ _ H) as (Hlt & -> & _). destruct Hok as [Hm Hl Hc Ha Hld].
    split; [split; [split; try done; simpl; lia|done..]|apply quiet_same; auto].
  - unfold election_end. simpl. repeat case_match; simpl;
      try (split; [by split|apply quiet_same; auto]).
    split; [by apply becomeLeader_ok|apply quiet_same; auto].
  - unfold step_down. destruct (_ <? _) eqn:E; bsimp.
    + split; [by apply becomeFollower_ok|by apply becomeFollower_quiet].
    + split; [by split|apply quiet_same; auto].
  - destruct Hok as [Hm Hl Hc Ha Hld]. split; [by split|apply quiet_same; auto].
  - destruct (restart_ok k rf Hok Hdur) as (? & Ht & Hv & _).
    split; [done|]. apply quiet_same; auto.
Qed.

Lemma AppendEntries_term args k1 k2 rf rf' r sp :
  AppendEntries args k1 k2 rf = Some (rf', r, sp) -> 0 <= ae_PrevLogIndex args -> log rf <> [] ->
  currentTerm rf' = Z.max (currentTerm rf) (ae_Term args) /\
  (currentTerm rf <= ae_Term args -> votedFor rf' = -1).
Proof.
  intros Happ Hprev Hl. destruct (AppendEntries_cases args k1 k2 rf Hl Hprev)
    as (rf1 & r1 & sp1 & Heq & _ & _ & Hold & Hrej & Hacc).
  rewrite Happ in Heq. injection Heq as <- <- <-.
  destruct (decide (ae_Term args < currentTerm rf)).
  { destruct Hold as [-> _]; [done|]. lia. }
  destruct (prev_matches_spec args rf) as ([] & _ & Hiff).
  - destruct Hacc as (? & ? & [Ht Hv _ _ _ _ _ _] & _); [lia|by apply Hiff|]. split; [lia|done].
  - destruct Hrej as ([Ht Hv _ _ _ _ _ _] & _); [lia|by intros ?%Hiff|]. split; [lia|done].
Qed.

Lemma node_step_spec rf rf' :
  node_step rf rf' -> node_ok rf -> durable rf ->
  step_ok rf rf' /\ currentTerm rf <= currentTerm rf'.
Proof.
  intros [rf0 rf0' Hq|args k1 k2 rf0 rf0' r sp Hprev H] Hok Hd.
  - destruct (quiet_step_spec _ _ Hq Hok Hd) as [? [? ?|?]]; split; try done; lia.
  - split; [by eapply AppendEntries_ok|]. destruct Hok as [_ Hl _ _ _].
    destruct (AppendEntries_term _ _ _ _ _ _ _ H Hprev Hl) as [-> _]. lia.
Qed.

Lemma node_steps_spec rf rf' :
  rtc node_step rf rf' -> node_ok rf -> durable rf ->
  node_ok rf' /\ durable rf' /\ peers rf' = peers rf /\ me rf' = me rf /\
  currentTerm rf <= currentTerm rf'.
Proof.
  induction 1 as [rf|rf rf1 rf' Hst _ IH]; intros Hok Hd; [done|].
  destruct (node_step_spec _ _ Hst Hok Hd) as [[Hn Hdu Hp Hm] Ht].
  destruct IH as (? & ? & ? & ? & ?); [done|auto|]. split_and!; try done; congruence || lia.
Qed.

Lemma fresh_ok n m k :
  0 <= m < n -> let rf := (Make n m MakePersister k).1 in node_ok rf /\ durable rf.
Proof.
  intros Hm. simpl. split.
  - by split.
  - by split.
Qed.

(** The loop of a lone applier. *)
Lemma apply_loop_spec n fuel rf :
  commitIndex rf <= lastLogIndex rf -> 0 <= lastApplied rf ->
  n = Z.to_nat (commitIndex rf - lastApplied rf) -> (n < fuel)%nat ->
  exists msgs, apply_loop fuel rf =
      Ret (set_lastApplied (Z.max (lastApplied rf) (commitIndex rf)) rf, msgs) /\
    length msgs = n /\
    forall i msg, zget msgs i = Some msg -> exists e,
      zget (log rf) (lastApplied rf + 1 + i) = Some e /\
      msg = mkApplyMsg true (e_Command e) (lastApplied rf + 1 + i) false [] 0 0.
Proof.
  revert n rf. induction fuel as [|fuel IH]; intros n rf Hc Ha Hn Hf; [lia|]. simpl.
  unfold applyCommittedEntries. destruct (commitIndex rf <=? lastApplied rf) eqn:E; bsimp.
  - exists []. replace (Z.max _ _) with (lastApplied rf) by lia.
    split; [by destruct rf|]. split; [simpl; lia|]. intros i msg Hi%zget_Some_range.
    change (zlen []) with 0 in Hi. lia.
  - destruct (proj2 (zget_is_Some (log rf) (lastApplied rf + 1))) as [e He].
    { unfold lastLogIndex in Hc. lia. }
    rewrite He. simpl.
    destruct (IH (Z.to_nat (commitIndex rf - (lastApplied rf + 1)))
      (set_lastApplied (lastApplied rf + 1) rf)) as (msgs & -> & Hlen & Hmsgs);
      simpl; [done|lia|done|lia|].
    eexists. simpl. split; [|split].
    + rewrite !Z.max_r by lia. done.
    + simpl. lia.
    + intros i msg Hi. pose proof (zget_Some_range _ _ _ Hi) as Hr.
      destruct (decide (i = 0)) as [->|Hne].
      * injection Hi as <-. exists e. rewrite Z.add_0_r. done.
      * apply zget_Some_lookup in Hi as [_ Hi].
        replace (Z.to_nat i) with (S (Z.to_nat (i - 1))) in Hi by lia. simpl in Hi.
        destruct (Hmsgs (i - 1) msg) as (e' & He' & ->).
        { apply zget_Some_lookup. split; [lia|done]. }
        simpl in *. exists e'. by replace (lastApplied rf + 1 + i)
          with (lastApplied rf + 1 + 1 + (i - 1)) by lia.
Qed.
End facts.
End RaftFacts.
