(* ===== verification/RaftProps.v ===== *)
(** The theorems about one Raft peer: votes, crash recovery, log replication
    and commitment (src/raft/raft.go). *)
From S2P Require Import Prelude Persister RaftNode RaftFacts.
Import Persister Raft RaftFacts.

Module RaftProps.

Section props.
Context {Cmd : Type} `{!Gob Z, !Gob (list (LogEntry Cmd))}.
Implicit Types (rf : Raft Cmd) (k : tick) (l L es : list (LogEntry Cmd)).

(** ** Votes and terms *)

(** The candidate's log is at least as up to date: later last term, or the
    same last term and a log not shorter. *)
Definition up_to_date (args : RequestVoteArgs) rf : Prop :=
  lastLogTerm rf < rv_LastLogTerm args \/
  (lastLogTerm rf = rv_LastLogTerm args /\ lastLogIndex rf <= rv_LastLogIndex args).

Lemma candidateUpToDate_spec args rf :
  candidateUpToDateLocked rf args = true <-> up_to_date args rf.
Proof.
  unfold candidateUpToDateLocked, up_to_date.
  destruct (rv_LastLogTerm args =? lastLogTerm rf) eqn:E; bsimp; simpl.
  - rewrite Z.leb_le. lia.
  - rewrite Z.ltb_lt. lia.
Qed.

(** C32. On a server that has its entry 0 and whose state is saved, a vote is granted
    exactly when the candidate's term is not old, this peer
    has not voted for another candidate in that term, and the candidate's log
    is up to date; a granted vote is recorded, durably, and the reply carries
    the term the peer had before the call. *)
Theorem RequestVote_spec args k1 k2 rf :
  log rf <> [] -> durable rf ->
  let '(rf', reply) := RequestVote args k1 k2 rf in
  (rvr_VoteGranted reply = true <->
     currentTerm rf <= rv_Term args /\
     (currentTerm rf < rv_Term args \/ votedFor rf = -1 \/ votedFor rf = rv_CandidateId args) /\
     up_to_date args rf) /\
  (rvr_VoteGranted reply = true -> votedFor rf' = rv_CandidateId args) /\
  rvr_Term reply = currentTerm rf /\
  currentTerm rf' = Z.max (currentTerm rf) (rv_Term args) /\
  log rf' = log rf /\ durable rf'.
Proof.
  intros Hne Hd. unfold RequestVote.
  destruct (rv_Term args <? currentTerm rf) eqn:E0; bsimp.
  { simpl. split_and!; try done; lia. }
  set (rf1 := if currentTerm rf <? rv_Term args then _ else rf).
  assert (currentTerm rf1 = rv_Term args /\ log rf1 = log rf /\ durable rf1 /\
    votedFor rf1 = (if currentTerm rf <? rv_Term args then -1 else votedFor rf))
    as (Ht & Hl & Hd1 & Hv).
  { unfold rf1. destruct (currentTerm rf <? rv_Term args) eqn:E1; bsimp; [|split_and!; done || lia].
    pose proof (becomeFollower_fields (rv_Term args) k1 rf) as (_ & _ & ? & ? & ? & _).
    split_and!; try done. by apply becomeFollower_durable. }
  assert (up_to_date args rf1 <-> up_to_date args rf) as Hup.
  { unfold up_to_date, lastLogTerm, lastLogIndex. by rewrite Hl. }
  destruct (_ && _) eqn:E2; simpl.
  { apply andb_true_iff in E2 as [E2 E3]. apply negb_true_iff, Z.eqb_neq in E2, E3.
    destruct (currentTerm rf <? rv_Term args) eqn:E4; [by destruct E2|]. bsimp.
    split; [|split_and!; done || lia]. split; [done|].
    intros (_ & Hor & _). exfalso. destruct Hor as [|[|]]; congruence || lia. }
  assert (currentTerm rf < rv_Term args \/ votedFor rf = -1 \/
    votedFor rf = rv_CandidateId args) as Hfree.
  { destruct (currentTerm rf <? rv_Term args) eqn:E4; bsimp; [by left|right].
    rewrite Hv in E2. destruct E2 as [E2|E2];
      apply negb_false_iff, Z.eqb_eq in E2; auto. }
  destruct (candidateUpToDateLocked rf1 args) eqn:E3; simpl.
  - apply candidateUpToDate_spec in E3. split; [tauto|].
    split_and!; try done; [lia|].
    eapply durable_ext; [..|apply (persist_durable (set_votedFor (rv_CandidateId args) rf1))];
      try done. simpl. by rewrite Hl.
  - split; [|split_and!; done || lia]. split; [done|].
    intros (_ & _ & H%Hup%candidateUpToDate_spec). congruence.
Qed.

(** No step other than an AppendEntries call changes a vote within a term:
    the other handlers, the timers, replies and crashes all keep it. *)
Theorem vote_kept rf rf' :
  quiet_step rf rf' -> node_ok rf -> durable rf ->
  currentTerm rf' = currentTerm rf -> votedFor rf <> -1 -> votedFor rf' = votedFor rf.
Proof.
  intros Hst Hok Hd Ht Hv. destruct (quiet_step_spec _ _ Hst Hok Hd) as [_ [_ [?|?]|?]];
    done || lia.
Qed.

(** AppendEntries of the current term erases the vote: right after it, any
    other up-to-date candidate of the same term obtains this peer's vote,
    although the peer had voted for [votedFor rf]. *)
Theorem AppendEntries_forgets_vote args k1 k2 rf vargs k3 k4 :
  log rf <> [] -> 0 <= ae_PrevLogIndex args -> ae_Entries args = [] ->
  ae_Term args = currentTerm rf -> votedFor rf <> -1 ->
  rv_Term vargs = currentTerm rf -> rv_CandidateId vargs <> votedFor rf ->
  up_to_date vargs rf ->
  exists rf1 r sp, AppendEntries args k1 k2 rf = Some (rf1, r, sp) /\
    rvr_VoteGranted (RequestVote vargs k3 k4 rf1).2 = true.
Proof.
  intros Hne Hprev Hes Ht Hv Hvt Hc Hup.
  destruct (AppendEntries_cases args k1 k2 rf Hne Hprev)
    as (rf1 & r & sp & Heq & _ & _ & _ & Hrej & Hacc).
  exists rf1, r, sp. split; [done|].
  destruct (AppendEntries_term _ _ _ _ _ _ _ Heq Hprev Hne) as [Ht1 Hv1].
  assert (log rf1 = log rf) as Hl.
  { destruct (prev_matches_spec args rf) as ([] & _ & Hiff).
    - destruct Hacc as (l & rest & [_ _ _ Hlog _ _ _ _] & Hfc & _); [lia|by apply Hiff|].
      rewrite Hes in Hfc. simpl in Hfc. injection Hfc as <- <-. by rewrite app_nil_r in Hlog.
    - destruct Hrej as ([_ _ _ Hlog _ _ _ _] & _); [lia|by intros ?%Hiff|]. done. }
  assert (candidateUpToDateLocked rf1 vargs = true) as Hc1.
  { apply candidateUpToDate_spec. unfold up_to_date, lastLogTerm, lastLogIndex.
    by rewrite Hl. }
  unfold RequestVote. replace (currentTerm rf1) with (rv_Term vargs) by lia.
  rewrite Z.ltb_irrefl, Hv1 by lia. simpl. by rewrite Hc1.
Qed.

(** ** Crashes *)

(** C33. From any state a server reaches, a restart on its persister recovers the
    current term, the vote and the log. *)
Theorem crash_recovery n m k k' rf :
  0 <= m < n -> rtc node_step (Make n m MakePersister k).1 rf ->
  let rf' := (Make n m (persister rf) k').1 in
  currentTerm rf' = currentTerm rf /\ votedFor rf' = votedFor rf /\ log rf' = log rf /\
  state rf' = Follower.
Proof.
  intros Hm Hst. destruct (fresh_ok (Cmd:=Cmd) n m k Hm) as [Hok Hd].
  destruct (node_steps_spec _ _ Hst Hok Hd) as (_ & [_ Hd'] & _).
  destruct (Hd' n m k') as (? & ? & ?). split_and!; try done.
  simpl. unfold readPersist. simpl. by repeat case_match.
Qed.

(** The current term never decreases, not even across restarts. *)
Theorem term_monotone n m k rf rf' :
  0 <= m < n -> rtc node_step (Make n m MakePersister k).1 rf -> rtc node_step rf rf' ->
  currentTerm rf <= currentTerm rf'.
Proof.
  intros Hm Hst Hst'. destruct (fresh_ok (Cmd:=Cmd) n m k Hm) as [Hok Hd].
  destruct (node_steps_spec _ _ Hst Hok Hd) as (Hok' & Hd' & _).
  by destruct (node_steps_spec _ _ Hst' Hok' Hd') as (_ & _ & _ & _ & ?).
Qed.
End props.

(** ** Replication *)

Section replication.
Context {Cmd : Type} `{!Gob Z, !Gob (list (LogEntry Cmd))}.
Implicit Types (rf : Raft Cmd) (k : tick) (l L es : list (LogEntry Cmd)).

(** C23. AppendEntries, on a server whose log is not empty (entry 0 is always
    there), for a request whose previous index is not negative and whose entries
    match the log: where the log has an entry of the same index and term as one of
    the request, the two are the same entry.  (Log Matching gives this as long as no
    server votes twice in a term; after a double vote the code keeps its own entry.
    An index below -1 panics.)  Then the handler does not panic; it answers success
    exactly when the sender's term is not old and the log holds the previous entry;
    it then leaves the log of the reference [merge]: unchanged if it already holds
    the entries, otherwise cut after the previous entry and extended by them; a
    refusal leaves the log alone.  If the term is not old the server ends as a follower
    whose state is saved. *)
Theorem AppendEntries_merges args k1 k2 rf :
  log rf <> [] -> 0 <= ae_PrevLogIndex args ->
  log_matching (log rf) (ae_PrevLogIndex args + 1) (ae_Entries args) ->
  exists rf' r sp, AppendEntries args k1 k2 rf = Some (rf', r, sp) /\
    (aer_Success r = true <-> currentTerm rf <= ae_Term args /\ prev_ok args (log rf)) /\
    log rf' = (if aer_Success r then merge (log rf) (ae_PrevLogIndex args) (ae_Entries args)
               else log rf) /\
    (currentTerm rf <= ae_Term args -> state rf' = Follower /\ durable rf').
Proof.
  intros Hne Hprev Hlm.
  destruct (AppendEntries_cases args k1 k2 rf Hne Hprev)
    as (rf1 & r & sp & Heq & _ & Hsucc & Hold & Hrej & Hacc).
  exists rf1, r, sp. split; [done|]. split; [done|].
  destruct (decide (ae_Term args < currentTerm rf)) as [|Hge].
  { destruct Hold as [-> _]; [done|]. destruct (aer_Success r); [|split; [done|lia]].
    destruct (proj1 Hsucc eq_refl). lia. }
  destruct (aer_Success r).
  - destruct (proj1 Hsucc eq_refl) as [Ht Hpo].
    destruct (Hacc Ht Hpo) as (l & rest & [_ _ Hs Hl _ _ _ Hd] & Hfc & _).
    destruct (find_conflict_merge (log rf) (ae_PrevLogIndex args) (ae_Entries args))
      as (l' & rest' & Hfc' & Hm); [destruct Hpo; lia|done|].
    rewrite Hfc in Hfc'. injection Hfc' as <- <-. rewrite Hl.
    split; [done|]. intros _. split; [done|]. apply Hd; [done|].
    rewrite Hm. by apply merge_nonempty.
  - destruct Hrej as ([_ _ Hs Hl _ _ _ Hd] & _); [lia| |].
    + intros Hpo. assert (false = true) as H by (apply Hsucc; split; [lia|done]). done.
    + split; [done|]. intros _. split; [done|]. by apply Hd.
Qed.

(** Logs agree up to any index where their terms agree. *)
Definition LM L l : Prop :=
  forall i e1 e2, zget L i = Some e1 -> zget l i = Some e2 -> e_Term e1 = e_Term e2 ->
  take (Z.to_nat (i + 1)) L = take (Z.to_nat (i + 1)) l.

(** The arguments [replicateToPeer] builds: a slice of the log, after the
    entry it names. *)
Lemma replicate_send_slice peer term rf args :
  replicate_send peer term rf = Some (Some args) ->
  let p := ae_PrevLogIndex args in
  state rf = Leader /\ currentTerm rf = term /\ ae_Term args = term /\
  ae_LeaderCommit args = commitIndex rf /\
  0 <= p + 1 /\ 0 < zlen (ae_Entries args) <= 100 /\
  p + zlen (ae_Entries args) < zlen (log rf) /\
  ae_Entries args = take (Z.to_nat (zlen (ae_Entries args))) (drop (Z.to_nat (p + 1)) (log rf)) /\
  (0 < p -> exists e, zget (log rf) p = Some e /\ e_Term e = ae_PrevLogTerm args).
Proof.
  unfold replicate_send. destruct (killed rf); [done|].
  destruct (_ || _) eqn:E0; [done|]. apply orb_false_iff in E0 as [E0 E1].
  apply negb_false_iff, bool_decide_eq_true in E0. apply negb_false_iff, Z.eqb_eq in E1.
  destruct (peer =? me rf); [done|]. destruct (nextIndex rf) as [ni|]; [|done].
  destruct (matchIndex rf) as [mi|]; [|done]. destruct (zget ni peer) as [nx|]; [|done]. simpl.
  destruct (lastLogIndex rf <? nx) eqn:E2; [done|]. bsimp.
  destruct (if (0 <? nx - 1) && (nx - 1 <? zlen (log rf)) then _ else _) as [pt|] eqn:Ept;
    simpl; [|done].
  destruct (zslice _ _ _) as [es|] eqn:Esl; simpl; [|done]. intros [= <-]. simpl.
  apply zslice_Some in Esl as (Hlo & Hhi & Hes). rewrite min_spec in *.
  unfold lastLogIndex in *.
  assert (zlen es = Z.min 100 (zlen (log rf) - 1 - nx + 1)) as Hlen.
  { rewrite Hes. unfold zlen in *. rewrite length_take, length_drop. lia. }
  split_and!; try done; try lia.
  - rewrite Hlen. replace (nx - 1 + 1) with nx by lia. rewrite Hes at 1. f_equal. lia.
  - intros Hp. destruct (0 <? nx - 1) eqn:E3; bsimp; [|lia].
    destruct (nx - 1 <? zlen (log rf)) eqn:E4; bsimp; [|lia]. simpl in Ept.
    destruct (zget (log rf) (nx - 1)) as [e|]; [|done]. simpl in Ept. injection Ept as <-. eauto.
Qed.

Lemma slice_app L p n :
  take (p + n) L = take p L ++ take n (drop p L).
Proof.
  revert L. induction p as [|p IH]; intros [|e L]; simpl; try done.
  - by rewrite take_nil.
  - by rewrite IH.
Qed.

(** [args] carries the entries of [L] from [ae_PrevLogIndex args + 1] on. *)
Definition slice_of (args : AppendEntriesArgs Cmd) L : Prop :=
  let p := ae_PrevLogIndex args in
  0 <= p /\ p + zlen (ae_Entries args) < zlen L /\
  ae_Entries args = take (Z.to_nat (zlen (ae_Entries args))) (drop (Z.to_nat (p + 1)) L) /\
  (0 < p -> exists e, zget L p = Some e /\ e_Term e = ae_PrevLogTerm args).

Lemma slice_of_get args L j e :
  slice_of args L -> zget (ae_Entries args) j = Some e ->
  zget L (ae_PrevLogIndex args + 1 + j) = Some e.
Proof.
  intros (Hp & _ & Hes & _) He. pose proof (zget_Some_range _ _ _ He) as Hj. rewrite Hes in He.
  rewrite zget_take in He by lia. rewrite zget_drop in He by lia. rewrite <- He. f_equal. lia.
Qed.

(** The prefix that [args] stands for. *)
Lemma slice_of_take args L :
  slice_of args L ->
  let p := ae_PrevLogIndex args in
  take (Z.to_nat (p + zlen (ae_Entries args) + 1)) L =
    take (Z.to_nat (p + 1)) L ++ ae_Entries args.
Proof.
  intros (Hp & _ & Hes & _). cbv zeta. pose proof (zlen_nonneg (ae_Entries args)).
  replace (Z.to_nat (ae_PrevLogIndex args + zlen (ae_Entries args) + 1))
    with (Z.to_nat (ae_PrevLogIndex args + 1) + Z.to_nat (zlen (ae_Entries args)))%nat by lia.
  by rewrite slice_app, <- Hes.
Qed.

Lemma slice_of_prefix args L L' : L `prefix_of` L' -> slice_of args L -> slice_of args L'.
Proof.
  intros [x ->] (Hp & Hlt & Hes & Hprev). split; [done|].
  pose proof (zlen_nonneg x). pose proof (zlen_nonneg (ae_Entries args)).
  rewrite zlen_app. split; [lia|]. split.
  - rewrite Hes at 1. unfold zlen in *. rewrite drop_app_le by lia.
    rewrite take_app_le; [done|]. rewrite length_drop. lia.
  - intros Hp0. destruct (Hprev Hp0) as (e & He & Ht). exists e. split; [|done].
    rewrite zget_app_l; [done|lia].
Qed.

(** If the previous entry matches, the logs agree up to it. *)
Lemma slice_of_prev args L l :
  slice_of args L -> LM L l -> head L = head l -> prev_ok args l ->
  take (Z.to_nat (ae_PrevLogIndex args + 1)) L = take (Z.to_nat (ae_PrevLogIndex args + 1)) l.
Proof.
  intros (Hp & _ & _ & Hprev) HLM Hhead [_ Hpt].
  destruct (decide (ae_PrevLogIndex args = 0)) as [->|].
  - destruct L as [|x L'], l as [|y l']; simpl in *; try done. by injection Hhead as ->.
  - destruct Hprev as (e1 & He1 & Ht1); [lia|]. destruct Hpt as (e2 & He2 & Ht2); [lia|].
    apply (HLM _ e1 e2); congruence.
Qed.

Lemma terms_match_self pre es post :
  terms_match (pre ++ es ++ post) (zlen pre) es = true.
Proof.
  revert pre. induction es as [|e es IH]; intros pre; [done|]. simpl.
  rewrite zget_app_r, Z.sub_diag by lia. unfold zget. simpl. rewrite Z.eqb_refl. simpl.
  specialize (IH (pre ++ [e])). rewrite <- app_assoc, zlen_app in IH. exact IH.
Qed.

(** What a follower's log is after it accepted a slice of [L]: as it was if it
    agrees with [L] so far, otherwise a prefix of [L]. *)
Lemma accept_slice args L k1 k2 rfF rf' r sp :
  slice_of args L -> LM L (log rfF) -> head L = head (log rfF) -> log rfF <> [] ->
  AppendEntries args k1 k2 rfF = Some (rf', r, sp) -> aer_Success r = true ->
  let n := Z.to_nat (ae_PrevLogIndex args + zlen (ae_Entries args) + 1) in
  take n (log rf') = take n L /\
  (log rf' = log rfF \/ (log rf' = take n L /\ take n (log rfF) <> take n L)).
Proof.
  intros Hsl HLM Hhead Hne Happ Hs n. pose proof Hsl as (Hp0 & Hlast & _).
  pose proof (slice_of_take _ _ Hsl) as HtL. cbv zeta in HtL. fold n in HtL.
  destruct (AppendEntries_cases args k1 k2 rfF Hne Hp0)
    as (rf1 & r1 & sp1 & Heq & _ & Hsucc & _ & _ & Hacc).
  rewrite Happ in Heq. injection Heq as <- <- <-. destruct (proj1 Hsucc Hs) as [Ht Hpo].
  destruct (Hacc Ht Hpo) as (l1 & rest & [_ _ _ Hl _ _ _ _] & Hfc & _).
  pose proof (slice_of_prev _ _ _ Hsl HLM Hhead Hpo) as Hpre. destruct Hpo as [Hpl _].
  assert (log_matching (log rfF) (ae_PrevLogIndex args + 1) (ae_Entries args)) as Hlm.
  { intros j x e Hj Hx He Hte. eapply slice_of_get in He; [|done].
    pose proof (HLM _ _ _ He Hx (eq_sym Hte)) as Heq.
    rewrite <- (zget_take L (Z.to_nat (ae_PrevLogIndex args + 1 + j + 1))) in He by lia.
    rewrite Heq, zget_take in He by lia. congruence. }
  destruct (find_conflict_merge (log rfF) (ae_PrevLogIndex args) (ae_Entries args))
    as (l2 & rest2 & Hfc2 & Hm); [lia|done|].
  rewrite Hfc in Hfc2. injection Hfc2 as <- <-. rewrite Hl, Hm. unfold merge.
  destruct (terms_match _ _ _) eqn:Etm.
  - split; [|by left]. rewrite HtL, Hpre. unfold n.
    replace (ae_PrevLogIndex args + zlen (ae_Entries args) + 1)
      with (ae_PrevLogIndex args + 1 + zlen (ae_Entries args)) by lia.
    apply (terms_match_take _ _ _ []); [lia|done|by rewrite app_nil_r].
  - rewrite <- Hpre, <- HtL. split; [rewrite take_take; f_equal; lia|right]. split; [done|].
    intros Heq. rewrite HtL in Heq. rewrite <- (take_drop n (log rfF)), Heq, <- app_assoc in Etm.
    pose proof (terms_match_self (take (Z.to_nat (ae_PrevLogIndex args + 1)) L)
      (ae_Entries args) (drop n (log rfF))) as Hself.
    pose proof (zlen_nonneg (ae_Entries args)). rewrite zlen_take in Hself by lia.
    rewrite Z2Nat.id in Hself by lia. congruence.
Qed.

Lemma replicate_send_slice_of peer term rf args :
  replicate_send peer term rf = Some (Some args) -> 0 <= ae_PrevLogIndex args ->
  slice_of args (log rf).
Proof. by intros (_ & _ & _ & _ & _ & _ & ? & ? & ?)%replicate_send_slice ?. Qed.

Lemma LM_take L n : LM L (take n L).
Proof.
  intros i e1 e2 _ He2 _. apply zget_Some_range in He2. rewrite take_take. f_equal.
  unfold zlen in He2. rewrite length_take in He2. lia.
Qed.

(** Log Matching: a follower accepting what a leader sends ends up with the
    leader's log up to the last entry sent, and if their logs matched before
    they match after. *)
Theorem replication_log_matching peer term args k1 k2 rfL rfF rf' r sp :
  replicate_send peer term rfL = Some (Some args) ->
  LM (log rfL) (log rfF) -> head (log rfL) = head (log rfF) -> log rfF <> [] ->
  0 <= ae_PrevLogIndex args ->
  AppendEntries args k1 k2 rfF = Some (rf', r, sp) -> aer_Success r = true ->
  let n := Z.to_nat (ae_PrevLogIndex args + zlen (ae_Entries args) + 1) in
  take n (log rf') = take n (log rfL) /\ LM (log rfL) (log rf').
Proof.
  intros Hsend HLM Hhead Hne Hp0 Happ Hs n.
  pose proof (replicate_send_slice_of _ _ _ _ Hsend Hp0) as Hsl.
  destruct (accept_slice args (log rfL) k1 k2 rfF rf' r sp) as [Htake Hlog]; try done.
  split; [done|]. destruct Hlog as [->|[-> _]]; [done|apply LM_take].
Qed.
End replication.

(** ** Commitment *)

Section commitment.
Context {Cmd : Type} `{!Gob Z, !Gob (list (LogEntry Cmd))}.
Implicit Types (rf : Raft Cmd) (k : tick) (l L es : list (LogEntry Cmd)).

(** C24. A well-formed leader moves its commit index to the last entry of its own term that a
    majority of the servers is known to store, and nowhere else. *)
Theorem tryAdvanceCommitLocked_spec rf :
  node_ok rf -> state rf = Leader ->
  exists c, tryAdvanceCommitLocked rf = Some (set_commitIndex c rf) /\
    (c = commitIndex rf \/
     (commitIndex rf < c /\ c <= lastLogIndex rf /\ committable rf c)) /\
    forall M, c < M <= lastLogIndex rf -> ~ committable rf M.
Proof.
  intros [_ _ Hc _ Hld] Hs.
  destruct (tryAdvanceCommit_spec rf (Hld Hs)) as (c & Heq & Hle & Hcm & Hmax); [lia|done|].
  exists c. split; [done|]. split; [|done].
  destruct (decide (c = commitIndex rf)); [by left|right]. split; [lia|]. apply Hcm. lia.
Qed.

(** If the entries sent agree with the committed part of the log, a follower
    keeps that part, its commit index does not decrease and stays inside its
    log. *)
Theorem AppendEntries_keeps_committed args k1 k2 rf rf' r sp :
  node_ok rf -> 0 <= ae_PrevLogIndex args -> commitIndex rf <= lastLogIndex rf ->
  AppendEntries args k1 k2 rf = Some (rf', r, sp) ->
  (forall j x e, zget (log rf) (ae_PrevLogIndex args + 1 + j) = Some x ->
     zget (ae_Entries args) j = Some e -> ae_PrevLogIndex args + 1 + j <= commitIndex rf ->
     e_Term x = e_Term e) ->
  let n := Z.to_nat (commitIndex rf + 1) in
  take n (log rf') = take n (log rf) /\
  commitIndex rf <= commitIndex rf' <= lastLogIndex rf'.
Proof.
  intros [_ Hne Hc0 _ _] Hprev Hcl Happ Hagree.
  destruct (AppendEntries_cases args k1 k2 rf Hne Hprev)
    as (rf1 & r1 & sp1 & Heq & _ & _ & Hold & Hrej & Hacc).
  rewrite Happ in Heq. injection Heq as <- <- <-.
  destruct (decide (ae_Term args < currentTerm rf)).
  { destruct Hold as [-> _]; [done|]. split; [done|lia]. }
  destruct (prev_matches_spec args rf) as ([] & _ & Hiff).
  2: { destruct Hrej as ([_ _ _ Hl _ _ _ _] & -> & _); [lia|by intros ?%Hiff|].
    unfold lastLogIndex in *. rewrite Hl. split; [done|lia]. }
  pose proof (proj1 Hiff eq_refl) as Hpo.
  destruct Hacc as (l & rest & [_ _ _ Hl _ _ _ _] & Hfc & Hcm & _); [lia|done|].
  destruct (find_conflict_spec (log rf) (ae_PrevLogIndex args + 1) (ae_Entries args))
    as (l' & pre & rest' & Hfc' & Hes & Htm & Hr); [destruct Hpo; lia|].
  rewrite Hfc in Hfc'. injection Hfc' as <- <-.
  assert (take (Z.to_nat (commitIndex rf + 1)) (l ++ rest) =
      take (Z.to_nat (commitIndex rf + 1)) (log rf) /\ commitIndex rf < zlen (l ++ rest))
    as [Htake Hlen].
  { unfold lastLogIndex in Hcl. pose proof (zlen_nonneg pre). pose proof (zlen_nonneg rest).
    destruct Hr as [[-> ->]|(Hrne & -> & Hle & Hconf)].
    { rewrite app_nil_r. split; [done|lia]. }
    destruct rest as [|e rest]; [done|].
    assert (commitIndex rf < ae_PrevLogIndex args + 1 + zlen pre) as Hlt.
    { destruct (Z_lt_le_dec (commitIndex rf) (ae_PrevLogIndex args + 1 + zlen pre)) as [|Hcon];
        [done|exfalso].
      destruct (proj2 (zget_is_Some (log rf) (ae_PrevLogIndex args + 1 + zlen pre))) as [x Hx];
        [lia|].
      apply (Hconf x e Hx eq_refl), (Hagree (zlen pre)); [done| |done].
      rewrite Hes, zget_app_r by lia. by rewrite Z.sub_diag. }
    rewrite zlen_app, zlen_take by lia. split; [|lia].
    rewrite take_app_le, take_take, Nat.min_l; [done|lia|].
    rewrite length_take. unfold zlen in *. lia. }
  unfold lastLogIndex in *. rewrite Hl, Hcm. unfold new_commit, lastLogIndex. rewrite Hl.
  split; [done|]. destruct (_ <? _) eqn:E; bsimp; lia.
Qed.

(** One goroutine alone delivers exactly the committed entries that were not
    applied, each once and in the order of the log. *)
Theorem apply_in_order rf fuel :
  node_ok rf -> commitIndex rf <= lastLogIndex rf ->
  (Z.to_nat (commitIndex rf - lastApplied rf) < fuel)%nat ->
  exists msgs, apply_loop fuel rf =
      Ret (set_lastApplied (Z.max (lastApplied rf) (commitIndex rf)) rf, msgs) /\
    zlen msgs = Z.max 0 (commitIndex rf - lastApplied rf) /\
    forall i msg, zget msgs i = Some msg ->
      CommandIndex msg = lastApplied rf + 1 + i /\
      exists e, zget (log rf) (CommandIndex msg) = Some e /\ Command msg = e_Command e.
Proof.
  intros [_ _ _ Ha _] Hc Hf.
  destruct (apply_loop_spec _ fuel rf Hc Ha eq_refl Hf) as (msgs & Heq & Hlen & Hm).
  exists msgs. split; [done|]. split; [unfold zlen; lia|].
  intros i msg (e & He & ->)%Hm. simpl. eauto.
Qed.

(** C34. From a well-formed state no handler panics, provided indices received are
    not negative, peers are in range, a message is prepared by a leader, and, for
    the applier, the commit index is inside the log. *)
Theorem no_panic rf :
  node_ok rf ->
  (forall args k1 k2, 0 <= ae_PrevLogIndex args -> is_Some (AppendEntries args k1 k2 rf)) /\
  (forall c, is_Some (Start c rf)) /\
  (forall peer term args reply k, 0 <= peer < peers rf ->
     is_Some (replicate_reply peer term args reply k rf)) /\
  (forall peer term, 0 <= peer < peers rf -> state rf = Leader ->
     is_Some (replicate_send peer term rf)) /\
  is_Some (broadcastAppendEntries rf) /\
  (commitIndex rf <= lastLogIndex rf -> is_Some (applyCommittedEntries rf)).
Proof.
  intros Hok. pose proof Hok as [Hm Hne Hc Ha Hld].
  split; [|split; [|split; [|split; [|split]]]].
  - intros args k1 k2 Hprev. destruct (AppendEntries_cases args k1 k2 rf Hne Hprev)
      as (? & ? & ? & -> & _). by eexists.
  - intros c. destruct (Start_cases c rf Hok) as (? & ? & ? & -> & _). by eexists.
  - intros peer term args reply k Hp.
    destruct (replicate_reply_cases peer term args reply k rf Hok Hp) as (? & ? & ? & -> & _).
    by eexists.
  - intros peer term Hp Hs. destruct (Hld Hs) as (ni & mi & Hni & Hmi & Hnl & _ & Hn1 & _).
    unfold replicate_send. rewrite Hni, Hmi. repeat (case_match; [by eexists|]).
    destruct (zget_bound ni peer 1) as (x & -> & Hx); [lia|done|]. simpl.
    destruct (lastLogIndex rf <? x) eqn:E; [by eexists|]. bsimp. unfold lastLogIndex in *.
    assert (is_Some (if (0 <? x - 1) && (x - 1 <? zlen (log rf))
      then option_map e_Term (zget (log rf) (x - 1)) else Some 0)) as [pt ->].
    { destruct (_ && _) eqn:E2; [|by eexists]. apply andb_true_iff in E2 as [? ?]. bsimp.
      destruct (proj2 (zget_is_Some (log rf) (x - 1))) as [e ->]; [lia|]. by eexists. }
    simpl. rewrite min_spec.
    unfold zslice. destruct (_ && _ && _) eqn:E3; [by eexists|]. exfalso.
    apply andb_false_iff in E3 as [E3|E3]; [apply andb_false_iff in E3 as [E3|E3]|]; bsimp; lia.
  - unfold broadcastAppendEntries. case_match; [by eexists|].
    destruct (_ && _) eqn:E2; [|by eexists]. apply andb_true_iff in E2 as [E2 ?].
    apply andb_true_iff in E2 as [? ?]. bsimp.
    destruct (proj2 (zget_is_Some (log rf) (lastLogIndex rf))) as [e ->]; [lia|]. by eexists.
  - intros Hcl. unfold applyCommittedEntries. destruct (_ <=? _) eqn:E; [by eexists|]. bsimp.
    destruct (proj2 (zget_is_Some (log rf) (lastApplied rf + 1))) as [e ->];
      [unfold lastLogIndex in *; lia|]. by eexists.
Qed.
End commitment.

(** ** Concrete states *)

Section witnesses.
Definition k0 : tick := mkTick 0 0.
Definition sentinel : LogEntry Z := mkEntry 0 None.
Definition ent (t c : Z) : LogEntry Z := mkEntry t (Some c).

(** A new server [m] of a cluster of three. *)
Definition fresh (m : Z) : Raft Z := (Make 3 m MakePersister k0).1.

Definition with_log (l : list (LogEntry Z)) (rf : Raft Z) : Raft Z := persist (set_log l rf).

(** The leader of term [t] with a given log, next and match indices. *)
Definition leader (t : Z) (l : list (LogEntry Z)) (ni mi : list Z) (commit : Z) : Raft Z :=
  set_nextIndex (Some ni) (set_matchIndex (Some mi) (set_commitIndex commit
    (set_state Leader (with_log l (set_currentTerm t (fresh 0)))))).

(** Server 2 after voting for server 0 in term 1. *)
Definition voter : Raft Z := (RequestVote (mkRVArgs 1 0 0 0) k0 k0 (fresh 2)).1.

Definition beat (t : Z) : AppendEntriesArgs Z := mkAEArgs t 0 0 0 [] 0.

Lemma fresh_node_ok m : 0 <= m < 3 -> node_ok (fresh m) /\ durable (fresh m).
Proof. intros Hm. by apply fresh_ok. Qed.

Lemma voter_reached : rtc node_step (fresh 2) voter.
Proof. apply rtc_once, ns_quiet. apply (qs_RequestVote (mkRVArgs 1 0 0 0) k0 k0). Qed.

Lemma RequestVote_spec_witness :
  rvr_VoteGranted (RequestVote (mkRVArgs 1 0 0 0) k0 k0 (fresh 2)).2 = true /\
  durable (RequestVote (mkRVArgs 1 0 0 0) k0 k0 (fresh 2)).1.
Proof.
  destruct (fresh_node_ok 2) as [_ Hd]; [lia|].
  pose proof (RequestVote_spec (mkRVArgs 1 0 0 0) k0 k0 (fresh 2)) as Hspec.
  destruct (RequestVote (mkRVArgs 1 0 0 0) k0 k0 (fresh 2)) as [rf' reply].
  destruct Hspec as (Hg & _ & _ & _ & _ & Hd'); [done|done|]. split; [|done].
  apply Hg. split; [by vm_compute|]. split; [by left; vm_compute|]. right. by vm_compute.
Defined.

Lemma vote_kept_witness : votedFor (Kill voter) = 0.
Proof.
  destruct (fresh_node_ok 2) as [Hok Hd]; [lia|].
  destruct (node_steps_spec _ _ voter_reached Hok Hd) as (Hok' & Hd' & _).
  change 0 with (votedFor voter).
  apply (vote_kept voter (Kill voter)); [apply qs_Kill|done|done|done|by vm_compute].
Defined.

Lemma AppendEntries_forgets_vote_witness :
  exists rf1 r sp, AppendEntries (beat 1) k0 k0 voter = Some (rf1, r, sp) /\
    rvr_VoteGranted (RequestVote (mkRVArgs 1 1 0 0) k0 k0 rf1).2 = true.
Proof.
  apply (AppendEntries_forgets_vote (beat 1)); try done; try by vm_compute.
  right. by vm_compute.
Defined.

Lemma crash_recovery_witness :
  let rf' := (Make 3 2 (persister voter) k0).1 in
  currentTerm rf' = 1 /\ votedFor rf' = 0 /\ log rf' = [sentinel] /\ state rf' = Follower.
Proof.
  change (let rf' := (Make 3 2 (persister voter) k0).1 in
    currentTerm rf' = currentTerm voter /\ votedFor rf' = votedFor voter /\
    log rf' = log voter /\ state rf' = Follower).
  apply (crash_recovery 3 2 k0 k0 voter); [lia|apply voter_reached].
Defined.

Lemma term_monotone_witness : currentTerm (fresh 2) <= currentTerm voter.
Proof.
  apply (term_monotone 3 2 k0 (fresh 2) voter); [lia|apply rtc_refl|apply voter_reached].
Defined.

(** A leader two entries ahead of a follower with an empty log. *)
Definition ahead : Raft Z := leader 1 [sentinel; ent 1 7; ent 1 8] [3; 1; 3] [2; 0; 2] 0.
Definition ahead_args : AppendEntriesArgs Z := mkAEArgs 1 0 0 0 [ent 1 7; ent 1 8] 0.

Lemma no_entry (i : Z) (x : LogEntry Z) : 0 <= i -> zget [sentinel] (1 + i) = Some x -> False.
Proof. intros Hi H%zget_Some_range. unfold zlen in H. simpl in H. lia. Qed.

Lemma AppendEntries_merges_witness :
  exists rf' r sp, AppendEntries ahead_args k0 k0 (fresh 1) = Some (rf', r, sp) /\
    (aer_Success r = true <->
       currentTerm (fresh 1) <= 1 /\ prev_ok ahead_args (log (fresh 1))) /\
    log rf' = (if aer_Success r then merge [sentinel] 0 [ent 1 7; ent 1 8] else [sentinel]) /\
    (currentTerm (fresh 1) <= 1 -> state rf' = Follower /\ durable rf').
Proof.
  apply (AppendEntries_merges ahead_args k0 k0 (fresh 1)); [done|by vm_compute|].
  intros j x e Hj Hx. by apply no_entry in Hx.
Defined.

Lemma replication_log_matching_witness :
  exists rf' r sp, AppendEntries ahead_args k0 k0 (fresh 1) = Some (rf', r, sp) /\
    take 3 (log rf') = log ahead /\ LM (log ahead) (log rf').
Proof.
  destruct (AppendEntries ahead_args k0 k0 (fresh 1)) as [[[rf' r] sp]|] eqn:Heq;
    [|by vm_compute in Heq].
  exists rf', r, sp. split; [done|].
  apply (replication_log_matching 1 1 ahead_args k0 k0 ahead (fresh 1) rf' r sp).
  - by vm_compute.
  - intros i e1 e2 _ H2%zget_Some_range _. unfold zlen in H2. simpl in H2.
    by replace i with 0 by lia.
  - done.
  - done.
  - by vm_compute.
  - exact Heq.
  - assert (option_map (fun p => aer_Success p.1.2) (Some (rf', r, sp)) = Some true) as Ht
      by (rewrite <- Heq; by vm_compute).
    by injection Ht.
Defined.

(** Two of three servers store index 2. *)
Definition majority : Raft Z := leader 1 [sentinel; ent 1 7; ent 1 8] [3; 3; 1] [2; 2; 0] 0.

Lemma majority_ok : node_ok majority.
Proof.
  split; try done. intros _. exists [3; 3; 1], [2; 2; 0]. split_and!; try done;
    repeat constructor; lia.
Qed.

Lemma tryAdvanceCommitLocked_spec_witness :
  exists c, tryAdvanceCommitLocked majority = Some (set_commitIndex c majority) /\
    (c = 0 \/ (0 < c /\ c <= 2 /\ committable majority c)) /\
    forall M, c < M <= 2 -> ~ committable majority M.
Proof. apply (tryAdvanceCommitLocked_spec majority majority_ok). done. Defined.

Example majority_commits : option_map commitIndex (tryAdvanceCommitLocked majority) = Some 2.
Proof. by vm_compute. Qed.

(** A follower with one committed and one other entry. *)
Definition follower : Raft Z :=
  set_commitIndex 1 (with_log [sentinel; ent 1 7; ent 1 9] (fresh 1)).
Definition fix_args : AppendEntriesArgs Z := mkAEArgs 2 0 1 1 [ent 2 8] 2.

Lemma AppendEntries_keeps_committed_witness :
  exists rf' r sp, AppendEntries fix_args k0 k0 follower = Some (rf', r, sp) /\
    take 2 (log rf') = [sentinel; ent 1 7] /\
    1 <= commitIndex rf' <= lastLogIndex rf'.
Proof.
  destruct (AppendEntries fix_args k0 k0 follower) as [[[rf' r] sp]|] eqn:Heq;
    [|by vm_compute in Heq].
  exists rf', r, sp. split; [done|].
  apply (AppendEntries_keeps_committed fix_args k0 k0 follower rf' r sp);
    [by split|by vm_compute|by vm_compute|done|].
  intros j x e _ Hj%zget_Some_range Hle. simpl in Hle. lia.
Defined.

Lemma apply_in_order_witness :
  exists msgs, apply_loop 10 (set_commitIndex 2 follower) =
      Ret (set_lastApplied 2 (set_commitIndex 2 follower), msgs) /\ zlen msgs = 2 /\
    forall i msg, zget msgs i = Some msg ->
      CommandIndex msg = 0 + 1 + i /\
      exists e, zget [sentinel; ent 1 7; ent 1 9] (CommandIndex msg) = Some e /\
        Command msg = e_Command e.
Proof.
  apply (apply_in_order (set_commitIndex 2 follower) 10);
    [by split|by vm_compute|vm_compute; lia].
Defined.

Lemma no_panic_witness :
  is_Some (applyCommittedEntries follower) /\ is_Some (Start 5 majority).
Proof.
  split; [apply no_panic; [by split|by vm_compute]|apply no_panic, majority_ok].
Defined.

(** Rule 5 takes the end of the log for the last new entry: a follower that
    accepts the first hundred entries from the leader commits twenty stale
    entries that follow them. *)
Definition old_entries : list (LogEntry Z) := sentinel :: replicate 100 (ent 1 7).
Definition newer : Raft Z :=
  leader 3 (old_entries ++ replicate 50 (ent 3 8)) [151; 1; 151] [150; 0; 150] 150.
Definition behind : Raft Z := with_log (old_entries ++ replicate 20 (ent 2 9)) (fresh 1).

Theorem commit_past_verified :
  exists args rf' r sp, replicate_send 1 3 newer = Some (Some args) /\
    AppendEntries args k0 k0 behind = Some (rf', r, sp) /\ sp = [SpawnApply] /\
    ae_PrevLogIndex args + zlen (ae_Entries args) = 100 /\ commitIndex rf' = 120 /\
    zget (log rf') 120 = Some (ent 2 9) /\ zget (log newer) 120 = Some (ent 3 8).
Proof. eexists _, _, _, _. split; [by vm_compute|]. split; [by vm_compute|]. by vm_compute. Qed.
End witnesses.
End RaftProps.
