(* ===== verification/RaftSpec.v ===== *)
(** The Raft protocol in the abstract, the specification that src/raft/raft.go
    implements: servers with a term, a role and a log, and the history of what
    they sent.  Messages are not consumed, so that loss, duplication and
    reordering need no rule of their own.  The safety of the protocol is proved
    here, once; ClusterRefines.v shows that the code follows the protocol as
    long as no server votes twice in a term. *)
From S2P Require Import Prelude RaftNode.
Import Raft.

Module RaftSpec.

(** Voter, term, candidate. *)
Abbreviation vote := (Z * Z * Z)%type.

(** ** Majorities *)

Section majorities.
Context (N : Z).
Implicit Types (votes : list vote).

(** The votes of a majority for [i] in term [T]. *)
Definition quorum votes (i T : Z) : Prop :=
  exists Q, NoDup Q /\ N / 2 < zlen Q /\ Forall (fun v => 0 <= v < N /\ (v, T, i) ∈ votes) Q.

(** No server voted for two candidates of a term. *)
Definition single votes : Prop :=
  forall v T i j, (v, T, i) ∈ votes -> (v, T, j) ∈ votes -> i = j.

Lemma single_mono votes votes' : votes ⊆ votes' -> single votes' -> single votes.
Proof. intros Hsub Hs v T i j Hi Hj. apply (Hs v T); by apply Hsub. Qed.

Lemma quorum_mono votes votes' i T : votes ⊆ votes' -> quorum votes i T -> quorum votes' i T.
Proof.
  intros Hsub (Q & Hnd & Hlen & HQ). exists Q. split_and!; try done.
  eapply Forall_impl; [exact HQ|]. intros v [? ?]. split; [done|by apply Hsub].
Qed.
End majorities.

(** Two majorities of the same [n] servers meet. *)
Lemma majorities_meet (n : nat) (P Q : list Z) :
  NoDup P -> NoDup Q -> Z.of_nat n / 2 < zlen P -> Z.of_nat n / 2 < zlen Q ->
  Forall (fun v => 0 <= v < Z.of_nat n) P -> Forall (fun v => 0 <= v < Z.of_nat n) Q ->
  exists v, v ∈ P /\ v ∈ Q.
Proof.
  intros HP HQ HlP HlQ HrP HrQ.
  destruct (decide (Exists (fun v => v ∈ Q) P)) as [(v & ? & ?)%Exists_exists|Hno]; [eauto|].
  exfalso. rewrite <- Forall_Exists_neg, Forall_forall in Hno.
  assert (NoDup (P ++ Q)) as Hnd by (apply NoDup_app; split_and!; done).
  assert (P ++ Q ⊆+ map Z.of_nat (seq 0 n)) as Hsub%submseteq_length.
  { apply NoDup_submseteq; [done|]. intros v Hv.
    assert (0 <= v < Z.of_nat n) as Hr.
    { rewrite Forall_forall in HrP, HrQ. apply elem_of_app in Hv as [?|?]; auto. }
    apply list_elem_of_fmap. exists (Z.to_nat v). split; [lia|]. apply elem_of_seq. lia. }
  rewrite length_app, length_map, length_seq in Hsub. unfold zlen in *.
  pose proof (Z.mul_succ_div_gt (Z.of_nat n) 2). lia.
Qed.

(** Two candidates with a quorum of one term are the same server. *)
Lemma quorum_single (n : nat) votes T i j :
  single votes -> quorum (Z.of_nat n) votes i T -> quorum (Z.of_nat n) votes j T -> i = j.
Proof.
  intros Hs (P & HndP & HlP & HP) (Q & HndQ & HlQ & HQ).
  destruct (majorities_meet n P Q) as (v & HvP & HvQ); try done.
  { eapply Forall_impl; [exact HP|]. by intros ? [? _]. }
  { eapply Forall_impl; [exact HQ|]. by intros ? [? _]. }
  rewrite Forall_forall in HP, HQ. apply (Hs v T); [by apply HP|by apply HQ].
Qed.

(** ** Prefixes *)

Section prefixes.
Context {A : Type}.
Implicit Types (l k P x y : list A).

Lemma prefix_app_cases P l x :
  P `prefix_of` l ++ x -> P `prefix_of` l \/ exists y, y <> [] /\ P = l ++ y /\ y `prefix_of` x.
Proof.
  intros HP. destruct (prefix_weak_total P l (l ++ x)) as [?|[y ->]]; [done|by exists x|by left|].
  destruct y as [|e y]; [left; by rewrite app_nil_r|]. right. exists (e :: y).
  split; [done|]. split; [done|]. by apply prefix_app_inv in HP.
Qed.

Lemma prefix_snoc_cases P l a : P `prefix_of` l ++ [a] -> P `prefix_of` l \/ P = l ++ [a].
Proof.
  intros [?|(y & Hy & -> & Hp)]%prefix_app_cases; [by left|right].
  destruct y as [|b y]; [done|]. apply prefix_cons_inv_2 in Hp as Hp'.
  apply prefix_cons_inv_1 in Hp as ->. by apply prefix_nil_inv in Hp' as ->.
Qed.

(** Of two prefixes of a list the shorter is a prefix of the longer. *)
Lemma prefix_shorter P k l : P `prefix_of` l -> k `prefix_of` l -> zlen P <= zlen k ->
  P `prefix_of` k.
Proof.
  intros HP Hk Hlen. destruct (prefix_weak_total P k l) as [|Hkp]; try done.
  apply prefix_length_eq in Hkp as ->; [done|]. unfold zlen in Hlen. lia.
Qed.

Lemma zlen_prefix P l : P `prefix_of` l -> zlen P <= zlen l.
Proof. intros ?%prefix_length. unfold zlen. lia. Qed.

Lemma prefix_take n l : take n l `prefix_of` l.
Proof. exists (drop n l). by rewrite take_drop. Qed.

Lemma take_as_prefix P l : P `prefix_of` l -> P = take (length P) l.
Proof. intros [x ->]. by rewrite take_app_length. Qed.
End prefixes.

(** ** The protocol *)

Section spec.
Context {Cmd : Type}.
Abbreviation entries := (list (LogEntry Cmd)).
Implicit Types (l L P : entries) (e : LogEntry Cmd).

Record server := mkServer { sv_term : Z; sv_role : State; sv_log : entries }.

(** [given]: every vote.  [led]: the leader of each term that had one, with
    its log (while it leads, afterwards the last it had).  [stood]: the log a
    candidate of a term had when it stood.  [ballots]: the log a server had
    when it voted in a term, the term having no leader yet.  [stored]: server,
    term and index, for every acknowledgement to the leader of a term that its
    log is held up to the index. *)
Record system := mkSystem {
  servers : list server;
  given : list vote;
  led : gmap Z (Z * entries);
  stood : gmap (Z * Z) entries;
  ballots : gmap (Z * Z) entries;
  stored : list (Z * Z * Z) }.

Implicit Types (s : system) (sv : server).

Definition sentinel : LogEntry Cmd := mkEntry 0 None.

Definition last_term l : Z := match last l with None => 0 | Some e => e_Term e end.

(** A log [Lc] is at least as up to date as [l]. *)
Definition up_to_date Lc l : Prop :=
  last_term l < last_term Lc \/ (last_term l = last_term Lc /\ zlen l <= zlen Lc).

Definition with_server (i : Z) sv s : system :=
  mkSystem (<[Z.to_nat i := sv]> (servers s)) (given s) (led s) (stood s) (ballots s) (stored s).

Definition cast (v T i : Z) l s : system :=
  mkSystem (servers s) (given s ++ [(v, T, i)]) (led s) (stood s)
    (match led s !! T, ballots s !! (T, v) with
     | None, None => <[(T, v) := l]> (ballots s)
     | _, _ => ballots s
     end) (stored s).

Definition stand (i T : Z) l s : system :=
  mkSystem (servers s) (given s) (led s) (<[(T, i) := l]> (stood s)) (ballots s) (stored s).

Definition leads (i T : Z) l s : system :=
  mkSystem (servers s) (given s) (<[T := (i, l)]> (led s)) (stood s) (ballots s) (stored s).

Definition store (i T m : Z) s : system :=
  mkSystem (servers s) (given s) (led s) (stood s) (ballots s) (stored s ++ [(i, T, m)]).

(** [l'] is [l] if that holds the prefix [P] of the leader's log, else [P]. *)
Definition adopts P l l' : Prop :=
  (P `prefix_of` l /\ l' = l) \/ (~ P `prefix_of` l /\ l' = P).

(** The rules of the protocol, among [N] servers. *)
Inductive next (N : Z) s : system -> Prop :=
  (* a message or a crash: follower, of this term or a later one *)
  | next_observe i sv T :
      zget (servers s) i = Some sv -> sv_term sv <= T ->
      next N s (with_server i (mkServer T Follower (sv_log sv)) s)
  (* an election time-out *)
  | next_timeout i sv :
      zget (servers s) i = Some sv ->
      let T := sv_term sv + 1 in
      next N s (with_server i (mkServer T Candidate (sv_log sv))
        (cast i T i (sv_log sv) (stand i T (sv_log sv) s)))
  (* a vote for a candidate whose log is up to date, one per term *)
  | next_vote v sv i Lc :
      zget (servers s) v = Some sv ->
      let T := sv_term sv in
      stood s !! (T, i) = Some Lc -> up_to_date Lc (sv_log sv) ->
      (forall j, (v, T, j) ∈ given s -> j = i) ->
      next N s (cast v T i (sv_log sv) s)
  | next_elect i sv :
      zget (servers s) i = Some sv -> sv_role sv = Candidate ->
      let T := sv_term sv in
      quorum N (given s) i T ->
      next N s (with_server i (mkServer T Leader (sv_log sv)) (leads i T (sv_log sv) s))
  (* a leader accepts a command and stores it *)
  | next_append i sv cmd :
      zget (servers s) i = Some sv -> sv_role sv = Leader ->
      let T := sv_term sv in
      let l := sv_log sv ++ [mkEntry T (Some cmd)] in
      next N s (with_server i (mkServer T Leader l) (store i T (zlen (sv_log sv)) (leads i T l s)))
  (* a follower stores a prefix of the log of its leader, and says so *)
  | next_adopt v sv ldr L P l' :
      zget (servers s) v = Some sv -> sv_role sv = Follower ->
      let T := sv_term sv in
      led s !! T = Some (ldr, L) -> P <> [] -> P `prefix_of` L -> adopts P (sv_log sv) l' ->
      next N s (with_server v (mkServer T Follower l') (store v T (zlen P - 1) s)).

Definition initial (n : nat) : system :=
  mkSystem (replicate n (mkServer 0 Follower [sentinel])) [] ∅ ∅ ∅ [].

Definition reached (n : nat) s : Prop := rtc (next (Z.of_nat n)) (initial n) s.
End spec.

#[global] Arguments server : clear implicits.
#[global] Arguments system : clear implicits.
End RaftSpec.
