(* ===== verification/RaftSafety.v ===== *)
(** Safety of the abstract protocol: its invariant, log matching, leader
    completeness, and that committed prefixes are comparable. *)
From S2P Require Import Prelude RaftNode RaftSpec.
Import Raft RaftSpec.

Module RaftSafety.

Section logs.
Context {Cmd : Type}.
Abbreviation entries := (list (LogEntry Cmd)).
Abbreviation ghost := (gmap Z (Z * entries)).
Implicit Types (l L P : entries) (e : LogEntry Cmd) (G : ghost).

(** ** Logs *)

(** Every entry came, with all that precedes it, from the leader of its term. *)
Record good_log G l : Prop := {
  gl_head : head l = Some sentinel;
  gl_entry P e : P <> [] -> P ++ [e] `prefix_of` l ->
    exists ldr L, G !! e_Term e = Some (ldr, L) /\ P ++ [e] `prefix_of` L }.

Definition bounded (T : Z) l : Prop := Forall (fun e => e_Term e <= T) l.

(** Terms never decrease along a log. *)
Definition ordered l : Prop := forall P e, P ++ [e] `prefix_of` l -> bounded (e_Term e) P.

(** Leaders only append, entries of their own term. *)
Definition grows G G' : Prop :=
  forall T ldr L, G !! T = Some (ldr, L) ->
  exists x, G' !! T = Some (ldr, L ++ x) /\ Forall (fun e => e_Term e = T) x.

(** [P] is a prefix of the log of the leader of [T], and ends with an entry of
    that term. *)
Definition of_term G (T : Z) P : Prop :=
  exists ldr L, G !! T = Some (ldr, L) /\ P `prefix_of` L /\ last_term P = T /\ 1 < zlen P.

(** Every leader after [T], up to [hi], holds [P]. *)
Definition all_hold G (T : Z) P (hi : Z) : Prop :=
  forall T' ldr L, T < T' <= hi -> G !! T' = Some (ldr, L) -> P `prefix_of` L.

(** What an acknowledgement up to index [m] in term [T] promises of the log
    [l] of a server that has reached term [hi]: it is lost only through a later
    leader that did not hold it. *)
Definition ack_ok G (T m : Z) l (hi : Z) : Prop :=
  forall P, of_term G T P -> zlen P <= m + 1 -> all_hold G T P hi -> P `prefix_of` l.

Lemma last_term_snoc l e : last_term (l ++ [e]) = e_Term e.
Proof. unfold last_term. by rewrite last_snoc. Qed.

Lemma last_term_app l x : x <> [] -> last_term (l ++ x) = last_term x.
Proof.
  intros Hx. destruct (exists_last Hx) as (y & e & ->). by rewrite app_assoc, !last_term_snoc.
Qed.

Lemma last_term_cases l : l = [] \/ exists k e, l = k ++ [e] /\ last_term l = e_Term e.
Proof.
  destruct (decide (l = [])) as [->|Hl]; [by left|right].
  destruct (exists_last Hl) as (k & e & ->). exists k, e. by rewrite last_term_snoc.
Qed.

Lemma bounded_le T T' l : T <= T' -> bounded T l -> bounded T' l.
Proof. intros Hle Hb. eapply Forall_impl; [exact Hb|]. simpl. lia. Qed.

Lemma bounded_prefix T P l : P `prefix_of` l -> bounded T l -> bounded T P.
Proof. by intros [x ->] [? _]%Forall_app. Qed.

Lemma bounded_last T l : 0 <= T -> bounded T l -> last_term l <= T.
Proof.
  intros HT Hb. destruct (last_term_cases l) as [->|(k & e & -> & ->)]; [done|].
  by apply Forall_app in Hb as [_ [? _]%Forall_cons].
Qed.

Lemma ordered_prefix P l : P `prefix_of` l -> ordered l -> ordered P.
Proof. intros HP Ho Q e HQ. apply Ho. by etrans. Qed.

(** The last term of an ordered log bounds it. *)
Lemma ordered_last P l : P <> [] -> P `prefix_of` l -> ordered l -> last_term P <= last_term l.
Proof.
  intros HP Hpre Ho. destruct (last_term_cases l) as [->|(k & e & -> & ->)].
  { by apply prefix_nil_inv in Hpre. }
  apply prefix_snoc_cases in Hpre as [Hpre| ->]; [|by rewrite last_term_snoc].
  specialize (Ho k e (reflexivity _)).
  destruct (last_term_cases P) as [->|(k' & e' & -> & ->)]; [done|].
  apply (bounded_prefix _ _ _ Hpre) in Ho. by apply Forall_app in Ho as [_ [? _]%Forall_cons].
Qed.

Lemma ordered_snoc l e : ordered l -> bounded (e_Term e) l -> ordered (l ++ [e]).
Proof.
  intros Ho Hb P e' [Hp|Heq]%prefix_snoc_cases; [by apply Ho|].
  by apply app_inj_tail in Heq as [-> ->].
Qed.

(** ** Good logs *)

Lemma good_log_ne G l : good_log G l -> l <> [].
Proof. by intros [Hh _] ->. Qed.

Lemma good_log_prefix G P l : P <> [] -> P `prefix_of` l -> good_log G l -> good_log G P.
Proof.
  intros HP Hpre [Hh He]. split.
  - destruct Hpre as [x ->]. by destruct P.
  - intros Q e HQ Hp. apply He; [done|]. by etrans.
Qed.

Lemma good_log_mono G G' l : grows G G' -> good_log G l -> good_log G' l.
Proof.
  intros Hg [Hh He]. split; [done|]. intros P e HP Hpre.
  destruct (He P e HP Hpre) as (ldr & L & HL & HpL).
  destruct (Hg _ _ _ HL) as (x & HL' & _). exists ldr, (L ++ x). split; [done|].
  etrans; [done|]. by eexists.
Qed.

(** A non-empty good log with more than the sentinel is held by the leader of
    its last term. *)
Lemma good_log_last G l :
  good_log G l -> 1 < zlen l ->
  exists ldr L, G !! last_term l = Some (ldr, L) /\ l `prefix_of` L.
Proof.
  intros [_ He] Hlen. destruct (last_term_cases l) as [->|(k & e & -> & ->)]; [done|].
  apply He; [|done]. intros ->. done.
Qed.

Lemma good_log_ordered G l :
  (forall T ldr L, G !! T = Some (ldr, L) -> ordered L) -> good_log G l -> ordered l.
Proof.
  intros HG Hl P e HP. destruct (decide (P = [])) as [->|Hne]; [constructor|].
  destruct (gl_entry _ _ Hl P e Hne HP) as (ldr & L & HL & HpL). by eapply HG.
Qed.

Lemma good_log_snoc G G' l T i cmd :
  grows G G' -> good_log G l -> G' !! T = Some (i, l ++ [mkEntry T (Some cmd)]) ->
  good_log G' (l ++ [mkEntry T (Some cmd)]).
Proof.
  intros Hg Hl HT. pose proof (good_log_mono _ _ _ Hg Hl) as [Hh He]. split; [by destruct l|].
  intros P e HP [Hp|Heq]%prefix_snoc_cases; [by apply He|].
  apply app_inj_tail in Heq as [-> ->]. by exists i, (l ++ [mkEntry T (Some cmd)]).
Qed.

(** Log matching. *)
Lemma good_log_matching G l l' P P' e e' :
  good_log G l -> good_log G l' -> P ++ [e] `prefix_of` l -> P' ++ [e'] `prefix_of` l' ->
  e_Term e = e_Term e' -> length P = length P' -> P ++ [e] = P' ++ [e'].
Proof.
  intros Hl Hl' Hp Hp' Ht Hlen. destruct (decide (P = [])) as [->|HP].
  - destruct P'; [|done]. destruct Hl as [Hh _], Hl' as [Hh' _], Hp as [x ->], Hp' as [x' ->].
    simpl in *. congruence.
  - assert (P' <> []) as HP' by (by destruct P, P').
    destruct (gl_entry _ _ Hl P e HP Hp) as (ldr & L & HL & HpL).
    destruct (gl_entry _ _ Hl' P' e' HP' Hp') as (ldr' & L' & HL' & HpL').
    rewrite Ht, HL' in HL. injection HL as -> ->.
    rewrite (take_as_prefix _ _ HpL), (take_as_prefix _ _ HpL'). f_equal.
    rewrite !length_app. simpl. lia.
Qed.

(** ** Growing histories *)

Lemma grows_refl G : grows G G.
Proof. intros T ldr L HT. exists []. rewrite app_nil_r. split; [done|constructor]. Qed.

Lemma led_grows_trans G1 G2 G3 : grows G1 G2 -> grows G2 G3 -> grows G1 G3.
Proof.
  intros H12 H23 T ldr L HL. destruct (H12 _ _ _ HL) as (x & HL2 & Hx).
  destruct (H23 _ _ _ HL2) as (y & HL3 & Hy). exists (x ++ y). rewrite app_assoc.
  split; [done|]. by apply Forall_app.
Qed.

Lemma grows_new G T v : G !! T = None -> grows G (<[T := v]> G).
Proof.
  intros HT T' ldr L HL. exists []. rewrite app_nil_r, lookup_insert_ne by congruence.
  split; [done|constructor].
Qed.

Lemma grows_append G T i L e :
  G !! T = Some (i, L) -> e_Term e = T -> grows G (<[T := (i, L ++ [e])]> G).
Proof.
  intros HT He T' ldr L' HL'. destruct (decide (T' = T)) as [->|Hne].
  - rewrite HT in HL'. injection HL' as <- <-. exists [e]. rewrite lookup_insert_eq.
    split; [done|]. by constructor.
  - exists []. rewrite lookup_insert_ne, app_nil_r by done. split; [done|constructor].
Qed.

Lemma of_term_mono G G' T P : grows G G' -> of_term G T P -> of_term G' T P.
Proof.
  intros Hg (ldr & L & HL & HP & Hrest). destruct (Hg _ _ _ HL) as (x & HL' & _).
  exists ldr, (L ++ x). split; [done|]. split; [|done]. etrans; [done|]. by eexists.
Qed.

Lemma of_term_back G G' T P ldr L :
  grows G G' -> G !! T = Some (ldr, L) -> zlen P <= zlen L -> of_term G' T P -> of_term G T P.
Proof.
  intros Hg HL Hlen (ldr' & L' & HL' & HP & Hrest). destruct (Hg _ _ _ HL) as (x & HL1 & _).
  rewrite HL1 in HL'. injection HL' as <- <-. exists ldr, L. split; [done|]. split; [|done].
  eapply prefix_shorter; [done| |done]. by eexists.
Qed.

(** A leader that did not hold [P] never will. *)
Lemma all_hold_back G G' T P hi hi' :
  grows G G' -> hi <= hi' -> last_term P = T -> all_hold G' T P hi' -> all_hold G T P hi.
Proof.
  intros Hg Hhi Hlast Hall T' ldr L HT HL.
  destruct (Hg _ _ _ HL) as (x & HL' & Hx).
  assert (P `prefix_of` L ++ x) as HP by (apply (Hall T' ldr); [lia|done]).
  apply prefix_app_cases in HP as [?|(y & Hy & -> & Hyx)]; [done|]. exfalso.
  rewrite last_term_app in Hlast by done.
  destruct (last_term_cases y) as [->|(k & e & -> & Heq)]; [done|].
  destruct Hyx as [z ->]. rewrite !Forall_app, Forall_singleton in Hx. lia.
Qed.

Lemma of_term_last G T P : of_term G T P -> last_term P = T.
Proof. by intros (? & ? & _ & _ & ? & _). Qed.

Lemma ack_ok_mono G G' T m l l' hi hi' ldr L :
  grows G G' -> G !! T = Some (ldr, L) -> m < zlen L -> hi <= hi' -> l `prefix_of` l' ->
  ack_ok G T m l hi -> ack_ok G' T m l' hi'.
Proof.
  intros Hg HL Hm Hhi Hpre Hok P HP Hlen Hall. etrans; [|done]. apply Hok; [|done|].
  - eapply of_term_back; [done|done|lia|done].
  - eapply all_hold_back; [done|done|by eapply of_term_last|done].
Qed.

(** A log that adopts a prefix of the log of a later leader keeps what it
    acknowledged, unless that leader does not hold it. *)
Lemma ack_ok_adopt G T m l l' T' ldr L Q hi :
  G !! T' = Some (ldr, L) -> Q `prefix_of` L -> adopts Q l l' -> T < T' -> hi <= T' ->
  ack_ok G T m l hi -> ack_ok G T m l' T'.
Proof.
  intros HL HQ Had HT Hhi Hok P HP Hm Hall.
  assert (P `prefix_of` L) as HPL by (apply (Hall T' ldr); [lia|done]).
  assert (P `prefix_of` l) as Hpl.
  { apply Hok; [done|done|]. intros T1 ldr1 L1 HT1. apply Hall. lia. }
  destruct Had as [[_ ->]|[Hno ->]]; [done|].
  destruct (prefix_weak_total P Q L) as [|HQP]; try done. destruct Hno. by etrans.
Qed.

(** In the term of the leader itself. *)
Lemma ack_ok_adopt_same G T m l l' ldr L Q :
  G !! T = Some (ldr, L) -> Q `prefix_of` L -> adopts Q l l' ->
  ack_ok G T m l T -> ack_ok G T m l' T.
Proof.
  intros HL HQ Had Hok P HP Hm Hall. pose proof (Hok P HP Hm Hall) as Hpl.
  destruct HP as (ldr' & L' & HL' & HPL & _). rewrite HL in HL'. injection HL' as <- <-.
  destruct Had as [[_ ->]|[Hno ->]]; [done|].
  destruct (prefix_weak_total P Q L) as [|HQP]; try done. destruct Hno. by etrans.
Qed.

(** The acknowledgement given with it. *)
Lemma ack_ok_new G T l l' ldr L Q :
  G !! T = Some (ldr, L) -> Q `prefix_of` L -> adopts Q l l' -> ack_ok G T (zlen Q - 1) l' T.
Proof.
  intros HL HQ Had P (ldr' & L' & HL' & HPL & _) Hm _. rewrite HL in HL'.
  injection HL' as <- <-. etrans; [eapply (prefix_shorter P Q L); [done|done|lia]|].
  by destruct Had as [[? ->]|[_ ->]].
Qed.

(** Adopting keeps logs good. *)
Lemma good_log_adopts G l l' ldr L T Q :
  G !! T = Some (ldr, L) -> good_log G L -> good_log G l -> Q <> [] -> Q `prefix_of` L ->
  adopts Q l l' -> good_log G l'.
Proof. intros HL HgL Hl HQ HQL [[_ ->]|[_ ->]]; [done|]. by eapply good_log_prefix. Qed.

Lemma bounded_adopts T l l' L Q :
  bounded T L -> bounded T l -> Q `prefix_of` L -> adopts Q l l' -> bounded T l'.
Proof. intros HL Hl HQ [[_ ->]|[_ ->]]; [done|]. by eapply bounded_prefix. Qed.
End logs.

(** ** The invariant *)

Section invariant.
Context {Cmd : Type} (n : nat).
Abbreviation N := (Z.of_nat n).
Abbreviation entries := (list (LogEntry Cmd)).
Implicit Types (l L P : entries) (s : system Cmd) (sv : server Cmd).

Record server_inv s (i : Z) sv : Prop := {
  sn_term : 0 <= sv_term sv;
  sn_log : good_log (led s) (sv_log sv);
  sn_bound : bounded (sv_term sv) (sv_log sv);
  sn_leader : sv_role sv = Leader -> led s !! sv_term sv = Some (i, sv_log sv);
  sn_candidate : sv_role sv = Candidate -> stood s !! (sv_term sv, i) = Some (sv_log sv);
  sn_led L : led s !! sv_term sv = Some (i, L) -> sv_role sv <> Candidate;
  sn_given T c : (i, T, c) ∈ given s -> T <= sv_term sv;
  sn_stored T m : (i, T, m) ∈ stored s ->
    T <= sv_term sv /\ ack_ok (led s) T m (sv_log sv) (sv_term sv) }.

(** A leader [ldr] of term [T]: it stood with a log it only appended to, and
    was elected by a majority whose logs at the vote are known; it acknowledges
    its own entries. *)
Record led_inv s (T ldr : Z) L : Prop := {
  le_log : good_log (led s) L;
  le_bound : bounded T L;
  le_ordered : ordered L;
  le_stood : exists Lc, stood s !! (T, ldr) = Some Lc /\ Lc `prefix_of` L;
  le_quorum : exists Q, NoDup Q /\ N / 2 < zlen Q /\
    Forall (fun v => 0 <= v < N /\ (v, T, ldr) ∈ given s /\ is_Some (ballots s !! (T, v))) Q;
  le_stored P : P `prefix_of` L -> last_term P = T ->
    exists m, (ldr, T, m) ∈ stored s /\ zlen P <= m + 1 }.

Record stood_inv s (T i : Z) l : Prop := {
  st_term : 1 <= T;
  st_log : good_log (led s) l;
  st_bound : bounded (T - 1) l;
  st_given : (i, T, i) ∈ given s }.

(** The log at a vote was not ahead of the candidate's, and holds what the
    voter had acknowledged in earlier terms. *)
Record ballot_inv s (T v : Z) l : Prop := {
  ba_log : good_log (led s) l;
  ba_vote : exists i Lc, (v, T, i) ∈ given s /\ stood s !! (T, i) = Some Lc /\ up_to_date Lc l;
  ba_stored T0 m : (v, T0, m) ∈ stored s -> T0 < T -> ack_ok (led s) T0 m l (T - 1) }.

Record inv s : Prop := {
  in_len : zlen (servers s) = N;
  in_servers i sv : zget (servers s) i = Some sv -> server_inv s i sv;
  in_single : single (given s);
  in_led T ldr L : led s !! T = Some (ldr, L) -> led_inv s T ldr L;
  in_stood T i l : stood s !! (T, i) = Some l -> stood_inv s T i l;
  in_ballot T v l : ballots s !! (T, v) = Some l -> ballot_inv s T v l;
  in_given v T i : (v, T, i) ∈ given s ->
    (exists sv, zget (servers s) v = Some sv) /\
    (led s !! T = None -> is_Some (ballots s !! (T, v)));
  in_stored v T m : (v, T, m) ∈ stored s -> exists ldr L,
    led s !! T = Some (ldr, L) /\ 0 <= m < zlen L }.

(** ** How the history evolves when server [i], in term [t], takes a step *)

Record evolves s s' (i t : Z) : Prop := {
  ev_led : grows (led s) (led s');
  ev_led_other T j L : j <> i -> led s' !! T = Some (j, L) -> led s !! T = Some (j, L);
  ev_led_unled T : led s' !! T = None -> led s !! T = None;
  ev_given : given s ⊆ given s';
  ev_given_other v T c : (v, T, c) ∈ given s' -> (v, T, c) ∈ given s \/ v = i;
  ev_stood T c l : stood s !! (T, c) = Some l -> stood s' !! (T, c) = Some l;
  ev_ballots T v l : ballots s !! (T, v) = Some l -> ballots s' !! (T, v) = Some l;
  ev_stored : stored s ⊆ stored s';
  ev_stored_other v T m : (v, T, m) ∈ stored s' -> (v, T, m) ∈ stored s \/ (v = i /\ T = t) }.

Lemma stored_led s v T m : inv s -> (v, T, m) ∈ stored s ->
  exists ldr L, led s !! T = Some (ldr, L) /\ m < zlen L.
Proof. intros Hi (ldr & L & HL & ?)%(in_stored s Hi). exists ldr, L. split; [done|lia]. Qed.

Lemma server_inv_evolves s s' i t j sv :
  inv s -> evolves s s' i t -> j <> i -> server_inv s j sv -> server_inv s' j sv.
Proof.
  intros Hi Hev Hne [Ht Hl Hb Hld Hc Hgl Hg Hst]. split; try done.
  - eapply good_log_mono; [apply Hev|done].
  - intros Hr. specialize (Hld Hr). destruct (ev_led _ _ _ _ Hev _ _ _ Hld) as (x & HL & _).
    rewrite HL. f_equal. f_equal. apply (ev_led_other _ _ _ _ Hev) in HL; [|done].
    rewrite Hld in HL. by injection HL.
  - intros Hr. apply (ev_stood _ _ _ _ Hev). by apply Hc.
  - intros L HL. eapply Hgl. by eapply ev_led_other.
  - intros T c [?| ->]%(ev_given_other _ _ _ _ Hev); [by eapply Hg|done].
  - intros T m Hin. apply (ev_stored_other _ _ _ _ Hev) in Hin as [Hin|[-> _]]; [|done].
    destruct (Hst _ _ Hin) as [Hle Hok]. split; [done|].
    destruct (stored_led s j T m Hi Hin) as (ldr & L & HL & Hm).
    eapply (ack_ok_mono _ _ _ _ _ _ (sv_term sv)); [apply Hev|done|done|lia|reflexivity|done].
Qed.

Lemma led_inv_evolves s s' i t T ldr L :
  evolves s s' i t -> led_inv s T ldr L -> led_inv s' T ldr L.
Proof.
  intros Hev [Hl Hb Ho (Lc & HLc & Hpre) (Q & Hnd & Hlen & HQ) Hst]. split; try done.
  - eapply good_log_mono; [apply Hev|done].
  - exists Lc. split; [by eapply ev_stood|done].
  - exists Q. split; [done|]. split; [done|]. eapply Forall_impl; [exact HQ|].
    intros v (? & ? & lv & ?). split; [done|]. split; [by apply (ev_given _ _ _ _ Hev)|].
    exists lv. by eapply ev_ballots.
  - intros P HP Hlast. destruct (Hst P HP Hlast) as (m & Hin & ?). exists m.
    split; [|done]. by apply (ev_stored _ _ _ _ Hev).
Qed.

Lemma stood_inv_evolves s s' i t T c l :
  evolves s s' i t -> stood_inv s T c l -> stood_inv s' T c l.
Proof.
  intros Hev [Ht Hl Hb Hg]. split; [done| |done|by apply (ev_given _ _ _ _ Hev)].
  eapply good_log_mono; [apply Hev|done].
Qed.

Lemma ballot_inv_evolves s s' i sv T v l :
  inv s -> zget (servers s) i = Some sv -> evolves s s' i (sv_term sv) ->
  ballot_inv s T v l -> ballot_inv s' T v l.
Proof.
  intros Hi Hsv Hev [Hl (c & Lc & Hg & HLc & Hup) Hst]. split.
  - eapply good_log_mono; [apply Hev|done].
  - exists c, Lc. split; [by apply (ev_given _ _ _ _ Hev)|]. split; [by eapply ev_stood|done].
  - intros T0 m Hin Hlt. apply (ev_stored_other _ _ _ _ Hev) in Hin as [Hin|[-> ->]].
    + destruct (stored_led s v T0 m Hi Hin) as (ldr & L & HL & Hm).
      eapply (ack_ok_mono _ _ _ _ _ _ (T - 1)); [apply Hev|done|done|lia|reflexivity|by apply Hst].
    + pose proof (sn_given _ _ _ (in_servers s Hi i sv Hsv) T c Hg). lia.
Qed.

(** The parts of the invariant that a step of server [i] has to establish. *)
Lemma inv_evolves s s' i sv sv' :
  inv s -> zget (servers s) i = Some sv -> evolves s s' i (sv_term sv) ->
  servers s' = <[Z.to_nat i := sv']> (servers s) ->
  server_inv s' i sv' -> single (given s') ->
  (forall T ldr L, led s' !! T = Some (ldr, L) -> led s !! T = Some (ldr, L) \/
     led_inv s' T ldr L) ->
  (forall T c l, stood s' !! (T, c) = Some l -> stood s !! (T, c) = Some l \/
     stood_inv s' T c l) ->
  (forall T v l, ballots s' !! (T, v) = Some l -> ballots s !! (T, v) = Some l \/
     ballot_inv s' T v l) ->
  (forall v T c, (v, T, c) ∈ given s' -> (v, T, c) ∈ given s \/
     (v = i /\ (led s' !! T = None -> is_Some (ballots s' !! (T, v))))) ->
  (forall v T m, (v, T, m) ∈ stored s' -> (v, T, m) ∈ stored s \/
     exists ldr L, led s' !! T = Some (ldr, L) /\ 0 <= m < zlen L) ->
  inv s'.
Proof.
  intros Hi Hsv Hev Hsvs Hsv' Hs Hled Hstood Hbal Hgiv Hstored.
  pose proof (zget_Some_range _ _ _ Hsv) as Hr. split.
  - rewrite Hsvs, zlen_insert. apply Hi.
  - intros j svj Hj. rewrite Hsvs in Hj. destruct (decide (j = i)) as [->|Hne].
    + rewrite zget_insert_eq in Hj by lia. by injection Hj as <-.
    + rewrite zget_insert_ne in Hj by (done || lia). eapply server_inv_evolves; try done.
      by apply in_servers.
  - done.
  - intros T ldr L HL. destruct (Hled _ _ _ HL) as [HL0|]; [|done].
    eapply led_inv_evolves; [done|by apply in_led].
  - intros T c l Hl. destruct (Hstood _ _ _ Hl) as [Hl0|]; [|done].
    eapply stood_inv_evolves; [done|by apply in_stood].
  - intros T v l Hl. destruct (Hbal _ _ _ Hl) as [Hl0|]; [|done].
    eapply ballot_inv_evolves; [done|done|done|by apply in_ballot].
  - intros v T c Hin. split.
    + rewrite Hsvs. destruct (decide (v = i)) as [->|Hne].
      { exists sv'. apply zget_insert_eq. lia. }
      destruct (Hgiv _ _ _ Hin) as [Hin0|[? _]]; [|done].
      destruct (proj1 (in_given s Hi v T c Hin0)) as [svv Hv]. exists svv.
      by rewrite zget_insert_ne by (congruence || lia).
    + intros HT. destruct (Hgiv _ _ _ Hin) as [Hin0|[_ H]]; [|by apply H].
      destruct (proj2 (in_given s Hi v T c Hin0)) as [l Hl];
        [by eapply ev_led_unled|]. exists l. by eapply ev_ballots.
  - intros v T m Hin. destruct (Hstored _ _ _ Hin) as [Hin0|]; [|done].
    destruct (in_stored s Hi v T m Hin0) as (ldr & L & HL & Hm).
    destruct (ev_led _ _ _ _ Hev _ _ _ HL) as (x & HL' & _). exists ldr, (L ++ x).
    split; [done|]. rewrite zlen_app. pose proof (zlen_nonneg x). lia.
Qed.

(** ** The rules keep the invariant *)

Lemma ack_ok_unled G (T0 m T : Z) l :
  G !! T = None -> ack_ok G T0 m l T -> ack_ok G T0 m l (T - 1).
Proof.
  intros HT Hok P HP Hm Hall. apply Hok; [done|done|]. intros T' ldr L HT' HL.
  apply (Hall T' ldr); [|done]. destruct (decide (T' = T)) as [->|]; [congruence|lia].
Qed.

(** Nothing was sent. *)
Lemma evolves_refl s s' i t :
  given s' = given s -> led s' = led s -> stood s' = stood s -> ballots s' = ballots s ->
  stored s' = stored s -> evolves s s' i t.
Proof.
  intros Hg Hl Hs Hb Hst. split; rewrite ?Hg, ?Hl, ?Hs, ?Hb, ?Hst; auto using grows_refl.
Qed.

Lemma evolves_server s s' i t j sv : evolves s s' i t -> evolves s (with_server j sv s') i t.
Proof. by intros []. Qed.

Lemma observe_inv s i sv T :
  inv s -> zget (servers s) i = Some sv -> sv_term sv <= T ->
  inv (with_server i (mkServer T Follower (sv_log sv)) s).
Proof.
  intros Hi Hsv HT. pose proof (in_servers s Hi i sv Hsv) as [Ht Hl Hb _ _ _ Hg Hst].
  eapply inv_evolves; try done; simpl; [by apply evolves_refl| | |by left..].
  - split; try done; simpl; [lia|by eapply bounded_le| |].
    + intros T' c Hin. specialize (Hg _ _ Hin). lia.
    + intros T' m Hin. destruct (Hst _ _ Hin) as [? Hok]. split; [lia|].
      destruct (stored_led s i T' m Hi Hin) as (ldr & L & HL & Hm).
      by eapply (ack_ok_mono _ _ _ _ _ _ (sv_term sv)); [apply grows_refl|..].
  - apply Hi.
Qed.

(** A vote, the term of the voter being that of the vote. *)
Lemma cast_evolves s v T c l i t :
  v = i -> evolves s (cast v T c l s) i t.
Proof.
  intros <-. split; simpl; auto using grows_refl; [set_solver|set_solver|].
  intros T' v' l' Hl'. destruct (led s !! T); [done|].
  destruct (ballots s !! (T, v)) eqn:E; [done|].
  rewrite lookup_insert_ne; [done|]. congruence.
Qed.

Lemma cast_ballots s v T c l T' v' l' :
  ballots (cast v T c l s) !! (T', v') = Some l' ->
  ballots s !! (T', v') = Some l' \/ (T' = T /\ v' = v /\ l' = l /\ led s !! T = None).
Proof.
  simpl. destruct (led s !! T); [by left|]. destruct (ballots s !! (T, v)); [by left|].
  intros [[[= <- <-] ?]|[_ ?]]%lookup_insert_Some; auto.
Qed.

Lemma cast_given s v T c l :
  led s !! T = None -> is_Some (ballots (cast v T c l s) !! (T, v)).
Proof.
  intros HT. simpl. rewrite HT. destruct (ballots s !! (T, v)) eqn:E; [done|].
  by rewrite lookup_insert_eq.
Qed.

Lemma single_cast votes v T c :
  single votes -> (forall j, (v, T, j) ∈ votes -> j = c) -> single (votes ++ [(v, T, c)]).
Proof.
  intros Hs Hone w T' x y Hx Hy.
  apply elem_of_app in Hx as [Hx|Hx%list_elem_of_singleton];
    apply elem_of_app in Hy as [Hy|Hy%list_elem_of_singleton]; simplify_eq; eauto.
  by symmetry; apply Hone.
Qed.

Lemma vote_inv s v sv i Lc :
  inv s -> zget (servers s) v = Some sv -> stood s !! (sv_term sv, i) = Some Lc ->
  up_to_date Lc (sv_log sv) -> (forall j, (v, sv_term sv, j) ∈ given s -> j = i) ->
  inv (cast v (sv_term sv) i (sv_log sv) s).
Proof.
  intros Hi Hsv HLc Hup Hone. pose proof (in_servers s Hi v sv Hsv) as [Ht Hl Hb Hld Hc Hgl Hg Hst].
  pose proof (cast_evolves s v (sv_term sv) i (sv_log sv) v (sv_term sv) eq_refl) as Hev.
  eapply (inv_evolves s _ v sv sv); try done.
  - simpl. symmetry. apply list_insert_id. by apply zget_Some_lookup in Hsv as [_ ?].
  - split; try done. simpl. intros T c [Hin|[= <- <-]%list_elem_of_singleton]%elem_of_app;
      [by eapply Hg|done].
  - eapply single_cast; [apply Hi|].
    done.
  - by left.
  - by left.
  - intros T w l Hw. apply cast_ballots in Hw as [?|(-> & -> & -> & HT)]; [by left|right].
    split; [done| |].
    + exists i, Lc. split; [|done]. simpl. set_solver.
    + intros T0 m Hin _. apply ack_ok_unled; [done|]. by apply Hst.
  - simpl. intros w T c [?|[= -> -> ->]%list_elem_of_singleton]%elem_of_app; [by left|right].
    split; [done|]. intros HT. by apply (cast_given s v (sv_term sv) i (sv_log sv)).
  - by left.
Qed.

Lemma stood_given s T c l : inv s -> stood s !! (T, c) = Some l -> (c, T, c) ∈ given s.
Proof. intros Hi Hl. by destruct (in_stood s Hi T c l Hl). Qed.

Lemma timeout_inv s i sv :
  inv s -> zget (servers s) i = Some sv ->
  let T := sv_term sv + 1 in
  inv (with_server i (mkServer T Candidate (sv_log sv))
         (cast i T i (sv_log sv) (stand i T (sv_log sv) s))).
Proof.
  intros Hi Hsv T. assert (T = sv_term sv + 1) as HT by done. clearbody T.
  pose proof (in_servers s Hi i sv Hsv) as [Ht Hl Hb Hld Hc Hgl Hg Hst].
  set (s1 := stand i T (sv_log sv) s). set (s2 := cast i T i (sv_log sv) s1).
  assert (forall c, (i, T, c) ∉ given s) as Hnew by (intros c Hin%Hg; lia).
  assert (forall T' c l, stood s !! (T', c) = Some l -> (T', c) <> (T, i)) as Hfresh.
  { intros T' c l Hl' [= -> ->]. by apply stood_given, Hnew in Hl'. }
  assert (evolves s s2 i (sv_term sv)) as Hev.
  { destruct (cast_evolves s1 i T i (sv_log sv) i (sv_term sv) eq_refl). split; try done.
    intros T' c l Hl'. simpl. rewrite lookup_insert_ne; [done|].
    intros Heq. by eapply Hfresh. }
  eapply (inv_evolves s _ i sv); [done|done|by apply evolves_server|done|..].
  - split; simpl; try done; [lia| |by rewrite lookup_insert_eq| | |].
    + eapply bounded_le; [|done]. lia.
    + intros L HL. destruct (le_stood _ _ _ _ (in_led s Hi _ _ _ HL)) as (Lc & HLc & _).
      by apply stood_given, Hnew in HLc.
    + intros T' c [Hin%Hg|[= -> ->]%list_elem_of_singleton]%elem_of_app; [lia|done].
    + intros T' m Hin. destruct (Hst _ _ Hin) as [? Hok]. split; [lia|].
      destruct (stored_led s i T' m Hi Hin) as (ldr & L & HL & Hm).
      eapply (ack_ok_mono _ _ _ _ _ _ (sv_term sv)); [apply grows_refl|done|done|lia|done|done].
  - eapply single_cast; [apply Hi|].
    by intros j Hj%Hnew.
  - by left.
  - simpl. intros T' c l [[[= <- <-] <-]|[_ ?]]%lookup_insert_Some; [right|by left].
    split; simpl; [lia|done|by replace (T - 1) with (sv_term sv) by lia|set_solver].
  - intros T' w l Hw. apply (cast_ballots s1 i T i (sv_log sv)) in Hw as [?|(-> & -> & -> & HTn)]; [by left|right].
    split; [done| |].
    + exists i, (sv_log sv). split; [simpl; set_solver|]. simpl. rewrite lookup_insert_eq.
      split; [done|]. right. split; [done|lia].
    + intros T0 m Hin _. replace (T - 1) with (sv_term sv) by lia. by apply Hst.
  - simpl. intros w T' c [?|[= -> -> ->]%list_elem_of_singleton]%elem_of_app; [by left|right].
    split; [done|]. intros HTn. by apply (cast_given s1 i T i (sv_log sv)).
  - by left.
Qed.

Lemma led_quorum s T ldr L : led_inv s T ldr L -> quorum N (given s) ldr T.
Proof.
  intros [_ _ _ _ (Q & Hnd & Hlen & HQ) _]. exists Q. split; [done|]. split; [done|].
  eapply Forall_impl; [exact HQ|]. by intros v (? & ? & _).
Qed.

(** The winner of an election is the first leader of its term. *)
Lemma elect_unled s i sv :
  inv s -> zget (servers s) i = Some sv -> sv_role sv = Candidate ->
  quorum N (given s) i (sv_term sv) -> led s !! sv_term sv = None.
Proof.
  intros Hi Hsv Hr HQ. destruct (led s !! sv_term sv) as [[ldr L]|] eqn:E; [|done]. exfalso.
  pose proof (led_quorum _ _ _ _ (in_led s Hi _ _ _ E)) as HQ'.
  rewrite (quorum_single n (given s) (sv_term sv) ldr i (in_single s Hi) HQ' HQ) in E.
  by apply (sn_led _ _ _ (in_servers s Hi i sv Hsv) L E).
Qed.

Lemma led_ordered s T ldr L : inv s -> led s !! T = Some (ldr, L) -> ordered L.
Proof. intros Hi HL. by destruct (in_led s Hi _ _ _ HL). Qed.

Lemma elect_inv s i sv :
  inv s -> zget (servers s) i = Some sv -> sv_role sv = Candidate ->
  quorum N (given s) i (sv_term sv) ->
  inv (with_server i (mkServer (sv_term sv) Leader (sv_log sv))
         (leads i (sv_term sv) (sv_log sv) s)).
Proof.
  intros Hi Hsv Hr HQ. pose proof (elect_unled s i sv Hi Hsv Hr HQ) as HT.
  pose proof (in_servers s Hi i sv Hsv) as [Ht Hl Hb Hld Hc Hgl Hg Hst].
  pose proof (in_stood s Hi _ _ _ (Hc Hr)) as [Ht1 _ Hbs _].
  pose proof (grows_new (led s) (sv_term sv) (i, sv_log sv) HT) as Hgr.
  assert (evolves s (leads i (sv_term sv) (sv_log sv) s) i (sv_term sv)) as Hev.
  { split; simpl; auto; intros T.
    - intros j L Hne [[_ [= <- _]]|[_ ?]]%lookup_insert_Some; done.
    - by intros [? _]%lookup_insert_None. }
  eapply (inv_evolves s _ i sv); [done|done|by apply evolves_server|done|..]; try by left.
  - split; simpl; try done; [by eapply good_log_mono|by rewrite lookup_insert_eq|].
    intros T m Hin. destruct (Hst _ _ Hin) as [? Hok]. split; [done|].
    destruct (stored_led s i T m Hi Hin) as (ldr & L & HL & Hm).
    by eapply (ack_ok_mono _ _ _ _ _ _ (sv_term sv)).
  - apply Hi.
  - simpl. intros T ldr L [[<- [= <- <-]]|[_ ?]]%lookup_insert_Some; [right|by left].
    split; simpl; [by eapply good_log_mono|done| | | |].
    + eapply good_log_ordered; [|exact Hl]. intros. by eapply led_ordered.
    + exists (sv_log sv). split; [by apply Hc|done].
    + destruct HQ as (Q & Hnd & Hlen & HQ). exists Q. split; [done|]. split; [done|].
      eapply Forall_impl; [exact HQ|]. intros v [? Hv]. split; [done|]. split; [done|].
      by apply (in_given s Hi v _ _ Hv).
    + intros P HP Hlast. apply (bounded_prefix _ _ _ HP), bounded_last in Hbs; lia.
Qed.

Lemma append_inv s i sv cmd :
  inv s -> zget (servers s) i = Some sv -> sv_role sv = Leader ->
  let T := sv_term sv in
  let l := sv_log sv ++ [mkEntry T (Some cmd)] in
  inv (with_server i (mkServer T Leader l) (store i T (zlen (sv_log sv)) (leads i T l s))).
Proof.
  intros Hi Hsv Hr T l. pose proof (in_servers s Hi i sv Hsv) as [Ht Hl Hb Hld Hc Hgl Hg Hst].
  pose proof (Hld Hr) as HT. pose proof (in_led s Hi _ _ _ HT) as Hli.
  pose proof (grows_append (led s) T i (sv_log sv) (mkEntry T (Some cmd)) HT eq_refl) as Hgr.
  assert (sv_log sv `prefix_of` l) as Hpre by (by eexists).
  assert (good_log (<[T := (i, l)]> (led s)) l) as Hgood.
  { eapply good_log_snoc; [exact Hgr|done|by rewrite lookup_insert_eq]. }
  assert (bounded T l) as Hbl by (apply Forall_app; split; [done|]; by constructor).
  assert (evolves s (store i T (zlen (sv_log sv)) (leads i T l s)) i (sv_term sv)) as Hev.
  { split; simpl; auto; [intros T'..| |].
    - intros j L Hne [[_ [= <- _]]|[_ ?]]%lookup_insert_Some; done.
    - by intros [? _]%lookup_insert_None.
    - set_solver.
    - intros v T' m [?|[= -> -> _]%list_elem_of_singleton]%elem_of_app; auto. }
  eapply (inv_evolves s _ i sv); [done|done|by apply evolves_server|done|..]; try by left.
  - split; simpl; try done; [by rewrite lookup_insert_eq|].
    intros T' m [Hin|[= -> ->]%list_elem_of_singleton]%elem_of_app.
    + destruct (Hst _ _ Hin) as [? Hok]. split; [done|].
      destruct (stored_led s i T' m Hi Hin) as (ldr & L & HL & Hm).
      by eapply (ack_ok_mono _ _ _ _ _ _ (sv_term sv)).
    + split; [done|]. intros P (ldr & L & HL & HP & _) _ _.
      rewrite lookup_insert_eq in HL. by injection HL as <- <-.
  - apply Hi.
  - simpl. intros T' ldr L [[<- [= <- <-]]|[_ ?]]%lookup_insert_Some; [right|by left].
    destruct Hli as [_ _ Ho (Lc & HLc & HpLc) HQ Hown]. split; simpl; try done.
    + apply ordered_snoc; [by eapply led_ordered|done].
    + exists Lc. split; [done|by etrans].
    + intros P [HP| ->]%prefix_snoc_cases Hlast.
      * destruct (Hown P HP Hlast) as (m & Hin & ?). exists m. set_solver.
      * exists (zlen (sv_log sv)). split; [set_solver|]. by rewrite zlen_app.
  - simpl. intros v T' m [?|[= -> -> ->]%list_elem_of_singleton]%elem_of_app; [by left|right].
    exists i, l. rewrite lookup_insert_eq. split; [done|]. unfold l. rewrite zlen_app.
    pose proof (zlen_nonneg (sv_log sv)). change (zlen [_]) with 1. lia.
Qed.

Lemma adopt_inv s v sv ldr L P l' :
  inv s -> zget (servers s) v = Some sv -> sv_role sv = Follower ->
  let T := sv_term sv in
  led s !! T = Some (ldr, L) -> P <> [] -> P `prefix_of` L -> adopts P (sv_log sv) l' ->
  inv (with_server v (mkServer T Follower l') (store v T (zlen P - 1) s)).
Proof.
  intros Hi Hsv Hr T HL HP HPL Had.
  pose proof (in_servers s Hi v sv Hsv) as [Ht Hl Hb Hld Hc Hgl Hg Hst].
  pose proof (in_led s Hi _ _ _ HL) as [HgL HbL _ _ _ _].
  assert (evolves s (store v T (zlen P - 1) s) v (sv_term sv)) as Hev.
  { split; simpl; auto using grows_refl; [set_solver|].
    intros w T' m [?|[= -> -> _]%list_elem_of_singleton]%elem_of_app; auto. }
  eapply (inv_evolves s _ v sv); [done|done|by apply evolves_server|done|..]; try by left.
  - split; simpl; try done; [by eapply (good_log_adopts _ (sv_log sv))|by eapply (bounded_adopts _ (sv_log sv) _ L P)|].
    intros T' m [Hin|[= -> ->]%list_elem_of_singleton]%elem_of_app.
    + destruct (Hst _ _ Hin) as [? Hok]. split; [done|].
      destruct (decide (T' = T)) as [->|Hne]; [by eapply ack_ok_adopt_same|].
      eapply (ack_ok_adopt _ _ _ _ _ _ _ _ _ (sv_term sv)); try done. lia.
    + split; [done|]. by eapply ack_ok_new.
  - apply Hi.
  - simpl. intros w T' m [?|[= -> -> ->]%list_elem_of_singleton]%elem_of_app; [by left|right].
    exists ldr, L. split; [done|]. apply zlen_prefix in HPL.
    destruct P as [|e P]; [done|]. rewrite zlen_cons in *. pose proof (zlen_nonneg P). lia.
Qed.

Lemma next_inv s s' : inv s -> next N s s' -> inv s'.
Proof.
  intros Hi Hn. destruct Hn as [i sv T|i sv|v sv i Lc|i sv|i sv cmd|v sv ldr L P l'].
  - by eapply observe_inv.
  - by apply timeout_inv.
  - by eapply vote_inv.
  - by apply elect_inv.
  - by apply append_inv.
  - by eapply adopt_inv.
Qed.

Lemma initial_inv : inv (initial n).
Proof.
  assert (forall G, good_log G [sentinel (Cmd:=Cmd)]) as Hl.
  { intros G. split; [done|]. intros P e HP Hpre. apply prefix_length in Hpre.
    rewrite length_app in Hpre. destruct P; [done|]. simpl in Hpre. lia. }
  split; simpl; try (intros * Hin; by rewrite ?lookup_empty in Hin); try set_solver.
  - by rewrite zlen_replicate.
  - intros i sv Hsv. apply zget_Some_lookup in Hsv as [_ Hsv].
    apply lookup_replicate in Hsv as [-> _].
    split; simpl; try done; [by constructor|set_solver..].
  - intros v T i j Hv. by apply not_elem_of_nil in Hv.
Qed.

Lemma reached_inv s : reached n s -> inv s.
Proof.
  intros Hr. apply (rtc_ind_r (R := next N) inv (initial n)); [apply initial_inv| |exact Hr].
  intros s1 s2 _ Hn Hi. by eapply next_inv.
Qed.

(** ** Later states *)

(** A server reaches later terms only. *)
Definition term_reached s (i T : Z) : Prop :=
  exists sv, zget (servers s) i = Some sv /\ T <= sv_term sv.

(** What was sent stays sent. *)
Record later s s' : Prop := {
  la_term i T : term_reached s i T -> term_reached s' i T;
  la_led : grows (led s) (led s');
  la_given : given s ⊆ given s';
  la_stood T c l : stood s !! (T, c) = Some l -> stood s' !! (T, c) = Some l;
  la_stored : stored s ⊆ stored s' }.

Lemma later_refl s : later s s.
Proof. split; auto using grows_refl. Qed.

Lemma later_trans s1 s2 s3 : later s1 s2 -> later s2 s3 -> later s1 s3.
Proof.
  intros [Hr Hl Hg Hs Ht] [Hr' Hl' Hg' Hs' Ht'].
  split; [auto|by eapply led_grows_trans|by etrans|auto|by etrans].
Qed.

Lemma term_reached_with s s' i sv sv' :
  zget (servers s) i = Some sv -> sv_term sv <= sv_term sv' ->
  servers s' = <[Z.to_nat i := sv']> (servers s) ->
  forall j T, term_reached s j T -> term_reached s' j T.
Proof.
  intros Hi Hle Heq j T (sv0 & Hj & HT). unfold term_reached. rewrite Heq.
  pose proof (zget_Some_range _ _ _ Hi). destruct (decide (j = i)) as [->|Hne].
  - rewrite zget_insert_eq by lia. exists sv'. split; [done|]. rewrite Hi in Hj. injection Hj as ->. lia.
  - rewrite zget_insert_ne by (done || lia). by exists sv0.
Qed.

Lemma next_later s s' : inv s -> next N s s' -> later s s'.
Proof.
  intros Hi Hn. destruct Hn as [i sv T|i sv Hsv T|v sv i Lc|i sv Hsv Hr T HQ|i sv cmd Hsv Hr T l
    |v sv ldr L P l']; split; simpl; auto using grows_refl; try set_solver;
    try (by eapply term_reached_with; [eassumption| |reflexivity]; simpl; lia).
  - intros T' c l Hl. rewrite lookup_insert_ne; [done|]. intros [= <- <-].
    apply stood_given in Hl; [|done].
    apply (sn_given _ _ _ (in_servers s Hi i sv Hsv)) in Hl. unfold T in Hl. lia.
  - apply grows_new. by eapply elect_unled.
  - apply grows_append; [|done]. by apply (sn_leader _ _ _ (in_servers s Hi i sv Hsv)).
Qed.

Lemma nexts_later s s' : inv s -> rtc (next N) s s' -> inv s' /\ later s s'.
Proof.
  intros Hi Hst. induction Hst as [s|s1 s2 s3 Hn Hst IH].
  - split; [done|apply later_refl].
  - destruct (IH (next_inv _ _ Hi Hn)) as [? ?]. split; [done|].
    eapply later_trans; [by apply next_later|done].
Qed.

(** ** Leader completeness *)

(** A majority acknowledged to the leader of [T] that it holds [P], which ends
    with an entry of that term. *)
Definition committed s (T : Z) P : Prop :=
  of_term (led s) T P /\
  exists A, NoDup A /\ N / 2 < zlen A /\
    Forall (fun v => 0 <= v < N /\ exists m, (v, T, m) ∈ stored s /\ zlen P <= m + 1) A.

Lemma led_term s T ldr L : inv s -> led s !! T = Some (ldr, L) -> 1 <= T.
Proof.
  intros Hi HL. destruct (in_led s Hi _ _ _ HL) as [_ _ _ (Lc & HLc & _) _ _].
  by destruct (in_stood s Hi _ _ _ HLc).
Qed.

(** A candidate that is up to date with a log that holds [P], an entry of term
    [T], holds it, if all leaders since do. *)
Lemma up_to_date_holds s T T' P Lc lv :
  inv s -> of_term (led s) T P -> good_log (led s) Lc -> good_log (led s) lv ->
  bounded (T' - 1) Lc -> all_hold (led s) T P (T' - 1) -> T < T' ->
  up_to_date Lc lv -> P `prefix_of` lv -> P `prefix_of` Lc.
Proof.
  intros Hi (ldr & L & HL & HPL & Hlast & Hlen) HLc Hlv Hb Hall HT Hup HPlv.
  pose proof (led_term s T ldr L Hi HL) as HT1.
  assert (forall l, good_log (led s) l -> ordered l) as Hord.
  { intros l Hl. eapply good_log_ordered; [|done]. intros. by eapply led_ordered. }
  assert (P <> []) as HP by (intros ->; done).
  pose proof (ordered_last P lv HP HPlv (Hord _ Hlv)) as Hle. apply zlen_prefix in HPlv.
  assert (T <= last_term Lc) as HTc by (destruct Hup; lia).
  assert (1 < zlen Lc) as HlenC.
  { destruct HLc as [Hh _]. destruct Lc as [|x [|y Lc]]; [done| |].
    - injection Hh as ->. simpl in HTc. unfold last_term in HTc. simpl in HTc. lia.
    - rewrite !zlen_cons. pose proof (zlen_nonneg Lc). lia. }
  destruct (good_log_last _ _ HLc HlenC) as (ldr' & L' & HL' & HLcL').
  pose proof (bounded_last (T' - 1) Lc ltac:(lia) Hb) as Hmax.
  destruct (decide (last_term Lc = T)) as [Heq|Hne].
  - rewrite Heq, HL in HL'. injection HL' as <- <-.
    eapply prefix_shorter; [done|done|]. destruct Hup as [|[_ ?]]; lia.
  - assert (P `prefix_of` L') as HPL' by (eapply Hall; [|done]; lia).
    destruct (prefix_weak_total P Lc L') as [|HLcP]; try done. exfalso.
    assert (ordered P) as HoP by (eapply ordered_prefix; [done|by eapply led_ordered]).
    assert (Lc <> []) as HLcne by (by apply good_log_ne in HLc).
    pose proof (ordered_last Lc P HLcne HLcP HoP). lia.
Qed.

(** The leader of every later term holds what is committed. *)
Lemma leader_complete s T P T' ldr L :
  inv s -> committed s T P -> T < T' -> led s !! T' = Some (ldr, L) -> P `prefix_of` L.
Proof.
  intros Hi [HP (A & HndA & HlenA & HA)]. revert ldr L.
  induction (Z.lt_wf T T') as [T' _ IH]. intros ldr L HT HL.
  destruct (in_led s Hi _ _ _ HL) as [_ _ _ (Lc & HLc & HpLc) (Q & HndQ & HlenQ & HQ) _].
  destruct (in_stood s Hi _ _ _ HLc) as [_ HgLc HbLc _].
  destruct (majorities_meet n A Q) as (v & HvA & HvQ); try done.
  { eapply Forall_impl; [exact HA|]. by intros ? [? _]. }
  { eapply Forall_impl; [exact HQ|]. by intros ? [? _]. }
  rewrite Forall_forall in HA, HQ. destruct (HA v HvA) as (_ & m & Hin & Hm).
  destruct (HQ v HvQ) as (_ & Hgv & lv & Hlv).
  destruct (in_ballot s Hi _ _ _ Hlv) as [Hglv (c & Lc' & Hc & HLc' & Hup) Hst].
  rewrite (in_single s Hi v T' c ldr Hc Hgv), HLc in HLc'. injection HLc' as <-.
  assert (all_hold (led s) T P (T' - 1)) as Hall.
  { intros T1 ldr1 L1 HT1 HL1. apply (IH T1) with (ldr := ldr1); [lia|lia|done]. }
  etrans; [|exact HpLc]. eapply up_to_date_holds; try done. by eapply Hst.
Qed.

(** Committed prefixes never diverge. *)
Lemma committed_comparable s T P T' P' :
  inv s -> committed s T P -> committed s T' P' -> P `prefix_of` P' \/ P' `prefix_of` P.
Proof.
  intros Hi HP HP'. pose proof HP as [(ldr & L & HL & HPL & _) _].
  pose proof HP' as [(ldr' & L' & HL' & HPL' & _) _].
  destruct (Z.lt_trichotomy T T') as [Hlt|[->|Hgt]].
  - apply (prefix_weak_total _ _ L'); [|done]. by eapply leader_complete.
  - rewrite HL in HL'. injection HL' as <- <-. by apply (prefix_weak_total _ _ L).
  - apply (prefix_weak_total _ _ L); [done|]. by eapply leader_complete.
Qed.

(** What is committed stays committed. *)
Lemma committed_later s s' T P : later s s' -> committed s T P -> committed s' T P.
Proof.
  intros [_ Hg _ _ Hst] [HP (A & Hnd & Hlen & HA)]. split; [by eapply of_term_mono|].
  exists A. split; [done|]. split; [done|]. eapply Forall_impl; [exact HA|].
  intros v (? & m & Hin & ?). split; [done|]. exists m. split; [by apply Hst|done].
Qed.

(** [K] is nothing but the sentinel, or part of what was committed up to term
    [T]. *)
Definition safe s (T : Z) l : Prop :=
  zlen l <= 1 \/ exists T0 P, T0 <= T /\ committed s T0 P /\ l `prefix_of` P.

Lemma safe_later s s' T T' l : later s s' -> T <= T' -> safe s T l -> safe s' T' l.
Proof.
  intros Hla HT [?|(T0 & P & ? & ? & ?)]; [by left|right]. exists T0, P.
  split; [lia|]. split; [by eapply committed_later|done].
Qed.

(** The leader of [T] holds what was committed up to [T]. *)
Lemma committed_led s T0 P T ldr L :
  inv s -> committed s T0 P -> T0 <= T -> led s !! T = Some (ldr, L) -> P `prefix_of` L.
Proof.
  intros Hi HP HT HL. destruct (decide (T0 = T)) as [->|Hne].
  - destruct HP as [(ldr' & L' & HL' & HPL & _) _]. rewrite HL in HL'. by injection HL' as <- <-.
  - eapply leader_complete; [done|done| |done]. lia.
Qed.

(** A follower that adopts a prefix of its leader's log keeps its safe part. *)
Lemma safe_adopts s T T' ldr L Q K l l' :
  inv s -> led s !! T' = Some (ldr, L) -> T <= T' -> Q `prefix_of` L -> adopts Q l l' ->
  K `prefix_of` l -> 1 < zlen K -> safe s T K -> K `prefix_of` l'.
Proof.
  intros Hi HL HT HQ Had HK Hlen [?|(T0 & P & HT0 & HP & HKP)]; [lia|].
  assert (P `prefix_of` L) as HPL by (eapply committed_led; [done|done| |done]; lia).
  destruct Had as [[_ ->]|[Hno ->]]; [done|].
  destruct (prefix_weak_total K Q L) as [|HQK]; [by etrans|done|done|].
  destruct Hno. by etrans.
Qed.
End invariant.
End RaftSafety.
