(* ===== verification/RaftCluster.v ===== *)
(** A Raft cluster: the servers, their goroutines, and the messages between
    them, with one transition per locked section of src/raft/raft.go.  A run
    is a sequence of actions; the network may lose any request or reply, and
    the scheduler is free. *)
From S2P Require Import Prelude Persister RaftNode RaftFacts.
Import Persister Raft RaftFacts.

Module RaftCluster.

Section defs.
Context {Cmd : Type} `{!Gob Z, !Gob (list (LogEntry Cmd))}.

(** A goroutine and the point it is at.  [n] is its server, [e] the index of
    an election in the list of the cluster. *)
Inductive proc :=
  | PDone
  | PTicker (n : Z)
  | PTickerAct (n : Z) (st : State) (term : Z)
  | PBroadcast (n : Z)
  | PHeart (n peer : Z) (args : AppendEntriesArgs Cmd)
  | PHeartReply (n : Z) (reply : AppendEntriesReply)
  | PReplicate (n peer term : Z)
  | PReplCall (n peer term : Z) (args : AppendEntriesArgs Cmd)
  | PReplReply (n peer term : Z) (args : AppendEntriesArgs Cmd) (reply : AppendEntriesReply)
  | PElection (n term : Z)
  | PWait (n : Z) (e : nat)
  | PVote (n : Z) (e : nat) (peer : Z) (args : RequestVoteArgs)
  | PVoteReply (n : Z) (e : nat) (peer : Z) (reply : RequestVoteReply)
  | PVoteFailed (n : Z) (e : nat)
  | PStepDown (n term : Z)
  | PApply (n : Z)
  | PSend (n : Z) (msg : ApplyMsg Cmd).

(** [c_applied] is what the services received on their apply channels, in
    order; [c_votes] records every vote given: voter, term, candidate. *)
Record Cluster := mkCluster {
  c_nodes : list (Raft Cmd);
  c_procs : list proc;
  c_elections : list Election;
  c_applied : list (Z * ApplyMsg Cmd);
  c_votes : list (Z * Z * Z) }.

Definition set_nodes v c :=
  mkCluster v (c_procs c) (c_elections c) (c_applied c) (c_votes c).
Definition set_procs v c :=
  mkCluster (c_nodes c) v (c_elections c) (c_applied c) (c_votes c).
Definition set_elections v c :=
  mkCluster (c_nodes c) (c_procs c) v (c_applied c) (c_votes c).
Definition add_applied v c :=
  mkCluster (c_nodes c) (c_procs c) (c_elections c) (c_applied c ++ [v]) (c_votes c).
Definition add_vote v c :=
  mkCluster (c_nodes c) (c_procs c) (c_elections c) (c_applied c) (c_votes c ++ [v]).

Definition get_node (n : Z) (c : Cluster) : result (Raft Cmd) := of_option (zget (c_nodes c) n).

Definition set_node (n : Z) (rf : Raft Cmd) (c : Cluster) : Cluster :=
  set_nodes (<[Z.to_nat n := rf]> (c_nodes c)) c.

Definition set_election (e : nat) (el : Election) (c : Cluster) : Cluster :=
  set_elections (<[e := el]> (c_elections c)) c.

Definition proc_of (n : Z) (sp : spawn) : proc :=
  match sp with
  | SpawnTicker => PTicker n
  | SpawnBroadcast => PBroadcast n
  | SpawnElection term => PElection n term
  | SpawnReplicate peer term => PReplicate n peer term
  | SpawnApply => PApply n
  end.

Definition node_of (p : proc) : option Z :=
  match p with
  | PDone => None
  | PTicker n | PTickerAct n _ _ | PBroadcast n | PHeart n _ _ | PHeartReply n _
  | PReplicate n _ _ | PReplCall n _ _ _ | PReplReply n _ _ _ _ | PElection n _ | PWait n _
  | PVote n _ _ _ | PVoteReply n _ _ _ | PVoteFailed n _ | PStepDown n _ | PApply n
  | PSend n _ => Some n
  end.

(** The RPC server of [peer] runs the handler. *)
Definition serve_append (peer : Z) (args : AppendEntriesArgs Cmd) (k1 k2 : tick) (c : Cluster) :
    result (Cluster * AppendEntriesReply * list proc) :=
  rf ← get_node peer c;
  '(rf, reply, sp) ← of_option (AppendEntries args k1 k2 rf);
  Ret (set_node peer rf c, reply, map (proc_of peer) sp).

Definition serve_vote (peer : Z) (args : RequestVoteArgs) (k1 k2 : tick) (c : Cluster) :
    result (Cluster * RequestVoteReply) :=
  rf ← get_node peer c;
  let '(rf, reply) := RequestVote args k1 k2 rf in
  let c := set_node peer rf c in
  Ret (if rvr_VoteGranted reply
       then add_vote (peer, rv_Term args, rv_CandidateId args) c else c, reply).

(** One section of a goroutine: the cluster, where the goroutine is then, and
    the goroutines it started.  [arrives]: the message in flight is not lost. *)
Definition run (p : proc) (arrives : bool) (clock : Z) (k1 k2 : tick) (c : Cluster) :
    result (Cluster * proc * list proc) :=
  match p with
  | PDone => Ret (c, PDone, [])
  | PTicker n =>
      rf ← get_node n c;
      match ticker_read rf with
      | None => Ret (c, PDone, [])
      | Some (st, term) => Ret (c, PTickerAct n st term, [])
      end
  | PTickerAct n st term =>
      rf ← get_node n c;
      let '(rf', sp) := ticker_act st term clock k1 rf in
      let c := set_node n rf' c in
      let c := if currentTerm rf <? currentTerm rf' then add_vote (n, currentTerm rf', n) c
               else c in
      Ret (c, PTicker n, map (proc_of n) sp)
  | PBroadcast n =>
      rf ← get_node n c;
      a ← of_option (broadcastAppendEntries rf);
      match a with
      | None => Ret (c, PDone, [])
      | Some args => Ret (c, PDone, map (fun i => PHeart n i args) (other_peers rf))
      end
  | PHeart n peer args =>
      if arrives then
        '(c, reply, sp) ← serve_append peer args k1 k2 c;
        Ret (c, PHeartReply n reply, sp)
      else Ret (c, PDone, [])
  | PHeartReply n reply =>
      if arrives then
        rf ← get_node n c; Ret (set_node n (heartbeat_reply reply k1 rf) c, PDone, [])
      else Ret (c, PDone, [])
  | PReplicate n peer term =>
      rf ← get_node n c;
      a ← of_option (replicate_send peer term rf);
      match a with
      | None => Ret (c, PDone, [])
      | Some args => Ret (c, PReplCall n peer term args, [])
      end
  | PReplCall n peer term args =>
      if arrives then
        '(c, reply, sp) ← serve_append peer args k1 k2 c;
        Ret (c, PReplReply n peer term args reply, sp)
      else Ret (c, PReplicate n peer term, [])
  | PReplReply n peer term args reply =>
      if arrives then
        rf ← get_node n c;
        '(rf, sp, more) ← of_option (replicate_reply peer term args reply k1 rf);
        Ret (set_node n rf c, if (more : bool) then PReplicate n peer term else PDone,
             map (proc_of n) sp)
      else Ret (c, PReplicate n peer term, [])
  | PElection n term =>
      rf ← get_node n c;
      match startElection term rf with
      | None => Ret (c, PDone, [])
      | Some args =>
          let e := length (c_elections c) in
          Ret (set_elections (c_elections c ++ [newElection term rf]) c, PWait n e,
               map (fun i => PVote n e i args) (other_peers rf))
      end
  | PWait n e =>
      el ← of_option (c_elections c !! e);
      if election_waits el then Ret (c, PWait n e, [])
      else
        rf ← get_node n c;
        let '(el, rf, sp) := election_end el rf in
        Ret (set_node n rf (set_election e el c), PDone, map (proc_of n) sp)
  | PVote n e peer args =>
      if arrives then
        '(c, reply) ← serve_vote peer args k1 k2 c; Ret (c, PVoteReply n e peer reply, [])
      else Ret (c, PVoteFailed n e, [])
  | PVoteReply n e peer reply =>
      if arrives then
        el ← of_option (c_elections c !! e);
        let '(el, down) := vote_reply reply el in
        Ret (set_election e el c, PDone,
             match down with Some term => [PStepDown n term] | None => [] end)
      else Ret (c, PVoteFailed n e, [])
  | PVoteFailed n e =>
      el ← of_option (c_elections c !! e);
      Ret (set_election e (vote_failed el) c, PDone, [])
  | PStepDown n term =>
      rf ← get_node n c; Ret (set_node n (step_down term k1 rf) c, PDone, [])
  | PApply n =>
      rf ← get_node n c;
      a ← of_option (applyCommittedEntries rf);
      match a with
      | None => Ret (c, PDone, [])
      | Some (rf, msg) => Ret (set_node n rf c, PSend n msg, [])
      end
  | PSend n msg => Ret (add_applied (n, msg) c, PApply n, [])
  end.

(** [Run i]: goroutine [i] runs its next section.  [Client n v]: the service
    of server [n] calls [Start].  [Restart n]: server [n] crashes, with its
    goroutines, and starts again from its persister. *)
Inductive action :=
  | Run (i : nat) (arrives : bool) (clock : Z) (k1 k2 : tick)
  | Client (n : Z) (v : Cmd)
  | Restart (n : Z) (k : tick).

Definition step (c : Cluster) (a : action) : result Cluster :=
  match a with
  | Run i arrives clock k1 k2 =>
      match c_procs c !! i with
      | None => Ret c
      | Some p =>
          '(c', p', sp) ← run p arrives clock k1 k2 c;
          Ret (set_procs (<[i := p']> (c_procs c) ++ sp) c')
      end
  | Client n v =>
      rf ← get_node n c;
      '(rf, _, sp) ← of_option (Start v rf);
      Ret (set_procs (c_procs c ++ map (proc_of n) sp) (set_node n rf c))
  | Restart n k =>
      rf ← get_node n c;
      let '(rf, sp) := Make (peers rf) (me rf) (persister rf) k in
      let procs := map (fun p => if bool_decide (node_of p = Some n) then PDone else p)
                     (c_procs c) in
      Ret (set_procs (procs ++ map (proc_of n) sp) (set_node n rf c))
  end.

Fixpoint exec (c : Cluster) (acts : list action) : result Cluster :=
  match acts with
  | [] => Ret c
  | a :: acts => c ← step c a; exec c acts
  end.

(** [n] new servers. *)
Definition init (n : nat) (k : tick) : Cluster :=
  let made := map (fun m => Make (Z.of_nat n) (Z.of_nat m) MakePersister k) (seq 0 n) in
  mkCluster (map fst made) (map (fun m => PTicker (Z.of_nat m)) (seq 0 n)) [] [] [].

Definition reachable (n : nat) (c : Cluster) : Prop :=
  exists k acts, exec (init n k) acts = Ret c.

Definition is_leader (c : Cluster) (i T : Z) : Prop :=
  exists rf, zget (c_nodes c) i = Some rf /\ state rf = Leader /\ currentTerm rf = T.
End defs.

#[global] Arguments proc : clear implicits.
#[global] Arguments Cluster : clear implicits.
#[global] Arguments action : clear implicits.

(** ** Two leaders in one term *)

Section counterexamples.
Definition t0 : tick := mkTick 0 0.

(** A section run after the election time-out, nothing lost. *)
Definition go (i : nat) : action Z := Run i true (10 ^ 9) t0 t0.
Definition lose (i : nat) : action Z := Run i false (10 ^ 9) t0 t0.

Definition start3 : Cluster Z := init 3 t0.

(** Goroutines 0, 1 and 2 are the tickers of the three servers. *)
Definition both_candidates : list (action Z) :=
  [go 0; go 1; go 0; go 1;   (* both time out in term 0: 3, 4 = elections *)
   go 3; go 4].              (* 5, 6: votes for 0; 7, 8: votes for 1 *)

(** Server 2 votes for 0, which becomes leader and sends it a heartbeat. *)
Definition first_leader : list (action Z) :=
  both_candidates ++ [go 6; go 6; go 3;   (* 9: broadcast of 0 *)
                      go 9].              (* 10, 11: heartbeats to 1 and 2 *)

(** The heartbeat makes server 2 forget its vote; it then votes for 1. *)
Definition second_leader : list (action Z) :=
  first_leader ++ [go 11; go 8; go 8; go 4].

(** Both leaders replicate a command to server 2: 14 and 16, which keeps the
    first; both count it and apply their own. *)
Definition split_brain : list (action Z) :=
  second_leader ++ [Client 0 7; Client 1 8; go 14; go 14; go 14; go 16; go 16; go 16;
                    go 17; go 17; go 18; go 18].

(** One leader commits two entries, a goroutine started for each; the one
    that took the first entry is slower to send it. *)
Definition overtaking : list (action Z) :=
  [go 0; go 0; go 3; go 4; go 4; go 3; Client 0 7; go 7; go 7; go 7; Client 0 8;
   go 7; go 7; go 7; go 9; go 13; go 13; go 9].

Definition msg (i v : Z) : ApplyMsg Z := mkApplyMsg true (Some v) i false [] 0 0.

(** Two servers are leaders of the same term: a heartbeat of the current term
    resets the vote of server 2 ([AppendEntries] calls [becomeFollowerLocked],
    which clears [votedFor]), so it votes twice. *)
Theorem two_leaders_one_term :
  exists c : Cluster Z, reachable 3 c /\ is_leader c 0 1 /\ is_leader c 1 1 /\
    (2, 1, 0) ∈ c_votes c /\ (2, 1, 1) ∈ c_votes c.
Proof.
  destruct (exec start3 second_leader) as [c| |] eqn:Heq; [|by vm_compute in Heq..].
  exists c. split; [by exists t0, second_leader|].
  vm_compute in Heq. injection Heq as <-. split; [by eexists|]. split; [by eexists|].
  split; apply (bool_decide_unpack _); by vm_compute.
Qed.

(** State machine safety fails: two servers apply different commands at the
    same index. *)
Theorem diverging_apply :
  exists c : Cluster Z, reachable 3 c /\ c_applied c = [(0, msg 1 7); (1, msg 1 8)].
Proof.
  destruct (exec start3 split_brain) as [c| |] eqn:Heq; [|by vm_compute in Heq..].
  exists c. split; [by exists t0, split_brain|]. vm_compute in Heq. by injection Heq as <-.
Qed.

(** A server sends committed entries out of order on its apply channel: the
    index is taken under the lock, the message is sent without it. *)
Theorem apply_out_of_order :
  exists c : Cluster Z, reachable 3 c /\ c_applied c = [(0, msg 2 8); (0, msg 1 7)].
Proof.
  destruct (exec start3 overtaking) as [c| |] eqn:Heq; [|by vm_compute in Heq..].
  exists c. split; [by exists t0, overtaking|]. vm_compute in Heq. by injection Heq as <-.
Qed.
End counterexamples.
End RaftCluster.
