(* ===== verification/ClusterSections.v ===== *)
(** The sections of the goroutines of a cluster, as a relation with one rule per
    outcome: what a section does to its server, where its goroutine is then,
    and what it starts.  The invariants of the cluster are proved rule by rule.
    The last part is what every section keeps of its server. *)
From S2P Require Import Prelude Persister RaftNode RaftFacts RaftCluster.
Import Persister Raft RaftFacts RaftCluster.

Module ClusterSections.

Section sections.
Context {Cmd : Type} `{!Gob Z, !Gob (list (LogEntry Cmd))}.
Implicit Types (rf : Raft Cmd) (c : Cluster Cmd) (p : proc Cmd) (sp : list (proc Cmd)).
Implicit Types (k : tick) (l : list spawn) (el : Election).

(** A goroutine goes on and touches nothing: it ends, a message of its is lost,
    or it reads its server. *)
Inductive moves_on c : proc Cmd -> proc Cmd -> Prop :=
  | mo_done : moves_on c PDone PDone
  | mo_killed m rf : zget (c_nodes c) m = Some rf -> ticker_read rf = None ->
      moves_on c (PTicker m) PDone
  | mo_ticker m rf st term : zget (c_nodes c) m = Some rf -> ticker_read rf = Some (st, term) ->
      moves_on c (PTicker m) (PTickerAct m st term)
  | mo_no_broadcast m : moves_on c (PBroadcast m) PDone
  | mo_heart_lost m peer args : moves_on c (PHeart m peer args) PDone
  | mo_heart_reply_lost m (reply : AppendEntriesReply) : moves_on c (PHeartReply m reply) PDone
  | mo_no_send m peer term : moves_on c (PReplicate m peer term) PDone
  | mo_send m peer term rf args : zget (c_nodes c) m = Some rf ->
      replicate_send peer term rf = Some (Some args) ->
      moves_on c (PReplicate m peer term) (PReplCall m peer term args)
  | mo_call_lost m peer term args :
      moves_on c (PReplCall m peer term args) (PReplicate m peer term)
  | mo_reply_lost m peer term args reply :
      moves_on c (PReplReply m peer term args reply) (PReplicate m peer term)
  | mo_no_election m term : moves_on c (PElection m term) PDone
  | mo_wait m e : moves_on c (PWait m e) (PWait m e)
  | mo_vote_lost m e peer args : moves_on c (PVote m e peer args) (PVoteFailed m e)
  | mo_vote_reply_lost m e peer reply : moves_on c (PVoteReply m e peer reply) (PVoteFailed m e)
  | mo_no_apply m : moves_on c (PApply m) PDone.

Definition voted (m term cand : Z) (b : bool) c : Cluster Cmd :=
  if b then add_vote (m, term, cand) c else c.

Inductive ran c : proc Cmd -> Cluster Cmd -> proc Cmd -> list (proc Cmd) -> Prop :=
  | ran_on p p' : moves_on c p p' -> ran c p c p' []
  | ran_tick m st term clock k rf rf' l :
      zget (c_nodes c) m = Some rf -> ticker_act st term clock k rf = (rf', l) ->
      ran c (PTickerAct m st term)
        (voted m (currentTerm rf') m (currentTerm rf <? currentTerm rf') (set_node m rf' c))
        (PTicker m) (map (proc_of m) l)
  | ran_broadcast m rf args :
      zget (c_nodes c) m = Some rf -> broadcastAppendEntries rf = Some (Some args) ->
      ran c (PBroadcast m) c PDone (map (fun i => PHeart m i args) (other_peers rf))
  | ran_heart m peer args k1 k2 rf rf' reply l :
      zget (c_nodes c) peer = Some rf -> AppendEntries args k1 k2 rf = Some (rf', reply, l) ->
      ran c (PHeart m peer args) (set_node peer rf' c) (PHeartReply m reply) (map (proc_of peer) l)
  | ran_heart_reply m reply k rf :
      zget (c_nodes c) m = Some rf ->
      ran c (PHeartReply m reply) (set_node m (heartbeat_reply reply k rf) c) PDone []
  | ran_call m peer term args k1 k2 rf rf' reply l :
      zget (c_nodes c) peer = Some rf -> AppendEntries args k1 k2 rf = Some (rf', reply, l) ->
      ran c (PReplCall m peer term args) (set_node peer rf' c)
        (PReplReply m peer term args reply) (map (proc_of peer) l)
  | ran_reply m peer term args reply k rf rf' l more :
      zget (c_nodes c) m = Some rf ->
      replicate_reply peer term args reply k rf = Some (rf', l, more) ->
      ran c (PReplReply m peer term args reply) (set_node m rf' c)
        (if (more : bool) then PReplicate m peer term else PDone) (map (proc_of m) l)
  | ran_election m term rf args :
      zget (c_nodes c) m = Some rf -> startElection term rf = Some args ->
      ran c (PElection m term) (set_elections (c_elections c ++ [newElection term rf]) c)
        (PWait m (length (c_elections c)))
        (map (fun i => PVote m (length (c_elections c)) i args) (other_peers rf))
  | ran_elected m e el rf el' rf' l :
      c_elections c !! e = Some el -> election_waits el = false ->
      zget (c_nodes c) m = Some rf -> election_end el rf = (el', rf', l) ->
      ran c (PWait m e) (set_node m rf' (set_election e el' c)) PDone (map (proc_of m) l)
  | ran_vote m e peer (args : RequestVoteArgs) k1 k2 rf rf' reply :
      zget (c_nodes c) peer = Some rf -> RequestVote args k1 k2 rf = (rf', reply) ->
      ran c (PVote m e peer args)
        (voted peer (rv_Term args) (rv_CandidateId args) (rvr_VoteGranted reply) (set_node peer rf' c))
        (PVoteReply m e peer reply) []
  | ran_vote_reply m e peer reply el el' down :
      c_elections c !! e = Some el -> vote_reply reply el = (el', down) ->
      ran c (PVoteReply m e peer reply) (set_election e el' c) PDone
        (match down with Some term => [PStepDown m term] | None => [] end)
  | ran_vote_failed m e el :
      c_elections c !! e = Some el ->
      ran c (PVoteFailed m e) (set_election e (vote_failed el) c) PDone []
  | ran_down m term k rf :
      zget (c_nodes c) m = Some rf ->
      ran c (PStepDown m term) (set_node m (step_down term k rf) c) PDone []
  | ran_apply m rf rf' msg :
      zget (c_nodes c) m = Some rf -> applyCommittedEntries rf = Some (Some (rf', msg)) ->
      ran c (PApply m) (set_node m rf' c) (PSend m msg) []
  | ran_send m msg : ran c (PSend m msg) (add_applied (m, msg) c) (PApply m) [].

#[local] Hint Constructors ran moves_on : core.

Lemma serve_append_ret peer args k1 k2 c c' reply sp :
  serve_append peer args k1 k2 c = Ret (c', reply, sp) ->
  exists rf rf' l, zget (c_nodes c) peer = Some rf /\
    AppendEntries args k1 k2 rf = Some (rf', reply, l) /\
    c' = set_node peer rf' c /\ sp = map (proc_of peer) l.
Proof.
  unfold serve_append, get_node. destruct (zget (c_nodes c) peer) as [rf|]; simpl; [|done].
  destruct (AppendEntries args k1 k2 rf) as [[[rf' r] l]|] eqn:Ha; simpl; [|done].
  intros [= <- <- <-]. by exists rf, rf', l.
Qed.

Lemma serve_vote_ret peer (args : RequestVoteArgs) k1 k2 c c' reply :
  serve_vote peer args k1 k2 c = Ret (c', reply) ->
  exists rf rf', zget (c_nodes c) peer = Some rf /\ RequestVote args k1 k2 rf = (rf', reply) /\
    c' = voted peer (rv_Term args) (rv_CandidateId args) (rvr_VoteGranted reply) (set_node peer rf' c).
Proof.
  unfold serve_vote, get_node. destruct (zget (c_nodes c) peer) as [rf|]; simpl; [|done].
  destruct (RequestVote args k1 k2 rf) as [rf' r] eqn:Hv. intros [= <- <-]. by exists rf, rf'.
Qed.

(** Every section is one of the rules. *)
Lemma run_ran p arrives clock k1 k2 c c' p' sp :
  run p arrives clock k1 k2 c = Ret (c', p', sp) -> ran c p c' p' sp.
Proof.
  intros Hr. destruct p as [|m|m st term|m|m peer args|m reply|m peer term|m peer term args
    |m peer term args reply|m term|m e|m e peer args|m e peer reply|m e|m term|m|m ms];
    simpl in Hr; unfold get_node in Hr;
    try (destruct arrives; [|injection Hr as <- <- <-; by eauto]);
    try (destruct (zget (c_nodes c) m) as [rf|] eqn:Hi; simpl in Hr; [|done]);
    try (destruct (c_elections c !! e) as [el|] eqn:He; simpl in Hr; [|done]);
    try (injection Hr as <- <- <-; by eauto).
  - destruct (ticker_read rf) as [[st term]|] eqn:Ht; injection Hr as <- <- <-; eauto.
  - destruct (ticker_act st term clock k1 rf) as [rf' l] eqn:Ha. injection Hr as <- <- <-. by eapply ran_tick.
  - destruct (broadcastAppendEntries rf) as [[args|]|] eqn:Hb; simpl in Hr; [| |done];
      injection Hr as <- <- <-; eauto.
  - destruct (serve_append _ _ _ _ _) as [[[c1 r] l]| |] eqn:Hs; simpl in Hr; try done.
    injection Hr as <- <- <-. apply serve_append_ret in Hs as (rf & rf' & l' & ? & ? & -> & ->). eauto.
  - destruct (replicate_send peer term rf) as [[args|]|] eqn:Hb; simpl in Hr; [| |done];
      injection Hr as <- <- <-; eauto.
  - destruct (serve_append _ _ _ _ _) as [[[c1 r] l]| |] eqn:Hs; simpl in Hr; try done.
    injection Hr as <- <- <-. apply serve_append_ret in Hs as (rf & rf' & l' & ? & ? & -> & ->). eauto.
  - destruct (replicate_reply peer term args reply k1 rf) as [[[rf' l] more]|] eqn:Hrr; simpl in Hr; [|done].
    injection Hr as <- <- <-. eauto.
  - destruct (startElection term rf) as [args|] eqn:Hs; injection Hr as <- <- <-; eauto.
  - destruct (election_waits el) eqn:Hw; [injection Hr as <- <- <-; eauto|].
    destruct (zget (c_nodes c) m) as [rf|] eqn:Hi; simpl in Hr; [|done].
    destruct (election_end el rf) as [[el' rf'] l] eqn:Hee. injection Hr as <- <- <-. eauto.
  - destruct (serve_vote _ _ _ _ _) as [[c1 r]| |] eqn:Hs; simpl in Hr; try done.
    injection Hr as <- <- <-. apply serve_vote_ret in Hs as (rf & rf' & ? & ? & ->). eauto.
  - destruct (vote_reply reply el) as [el' down] eqn:Hv. injection Hr as <- <- <-. eauto.
  - destruct (applyCommittedEntries rf) as [[[rf' ms]|]|] eqn:Ha; simpl in Hr; [| |done];
      injection Hr as <- <- <-; eauto.
Qed.
(** ** What a section keeps of its server *)

(** Whether it was killed, and what it applied; and it forgets no commit. *)
Record held rf rf' : Prop := {
  hd_dead : dead rf' = dead rf;
  hd_applied : lastApplied rf' = lastApplied rf;
  hd_commit : commitIndex rf <= commitIndex rf' }.

Lemma held_refl rf : held rf rf.
Proof. done. Qed.

#[local] Hint Resolve held_refl : core.

Lemma held_follower term k rf : held rf (becomeFollowerLocked term k rf).
Proof. unfold becomeFollowerLocked. by case_bool_decide. Qed.

Lemma held_RequestVote (args : RequestVoteArgs) k1 k2 rf : held rf (RequestVote args k1 k2 rf).1.
Proof.
  unfold RequestVote. destruct (_ <? currentTerm rf); [done|].
  set (rf1 := if _ <? _ then _ else rf). assert (held rf rf1) as [Hd Ha Hc].
  { unfold rf1. case_match; [apply held_follower|done]. }
  by repeat case_match.
Qed.

(** A follower's commit index can go down, with its log. *)
Lemma AppendEntries_served args k1 k2 rf rf' r l :
  AppendEntries args k1 k2 rf = Some (rf', r, l) ->
  dead rf' = dead rf /\ lastApplied rf' = lastApplied rf.
Proof.
  unfold AppendEntries. destruct (_ <? currentTerm rf); [by intros [= <- _ _]|].
  set (rf1 := if _ <=? _ then _ else rf). assert (held rf rf1) as [Hd Ha _].
  { unfold rf1. case_match; [apply held_follower|done]. }
  destruct (prev_matches _ _) as [[]|]; simpl; [|by intros [= <- _ _]|done].
  unfold append_entries. destruct (0 <? _); simpl.
  - destruct (find_conflict _ _ _) as [[l1 rest]|]; simpl; [|done].
    unfold follow_commit. destruct (commitIndex _ <? _); by intros [= <- _ _].
  - unfold follow_commit. destruct (commitIndex _ <? _); by intros [= <- _ _].
Qed.

Lemma held_ticker st term clock k rf : held rf (ticker_act st term clock k rf).1.
Proof. unfold ticker_act. by repeat case_match. Qed.

Lemma held_heartbeat (reply : AppendEntriesReply) k rf : held rf (heartbeat_reply reply k rf).
Proof. unfold heartbeat_reply. case_match; [apply held_follower|done]. Qed.

Lemma held_step_down term k rf : held rf (step_down term k rf).
Proof. unfold step_down. case_match; [apply held_follower|done]. Qed.

Lemma held_election_end el rf : held rf (election_end el rf).1.2.
Proof. unfold election_end. cbn zeta. destruct (_ <? _); [|done]. by destruct (_ && _). Qed.

(** Committing changes the commit index only, and raises it. *)
Lemma advance_from_commit rf x f rf' :
  advance_from rf x f = Some rf' -> exists y, rf' = set_commitIndex y rf /\ commitIndex rf <= y.
Proof.
  assert (exists y, rf = set_commitIndex y rf /\ commitIndex rf <= y) as Hid
    by (exists (commitIndex rf); by destruct rf).
  revert x. induction f as [|f IH]; intros x; simpl; [by intros [= <-]|].
  destruct (x <=? _) eqn:E; bsimp; [by intros [= <-]|].
  destruct (zget (log rf) x) as [e|]; simpl; [|done]. destruct (negb _); [apply IH|].
  destruct (count_match _ _ _ _ _) as [cnt|]; simpl; [|done].
  destruct (_ <? cnt); [|apply IH]. intros [= <-]. exists x. split; [done|lia].
Qed.

Lemma held_advance rf rf' : tryAdvanceCommitLocked rf = Some rf' -> held rf rf'.
Proof.
  unfold tryAdvanceCommitLocked. destruct (negb _); [by intros [= <-]|].
  by intros (y & -> & Hy)%advance_from_commit.
Qed.

Lemma held_reply peer term args reply k rf rf' l more :
  replicate_reply peer term args reply k rf = Some (rf', l, more) -> held rf rf'.
Proof.
  unfold replicate_reply. destruct (_ || _); [by intros [= <- _ _]|].
  destruct (_ <? aer_Term reply); [intros [= <- _ _]; apply held_follower|].
  destruct (aer_Success reply); intros H; opt_inv; subst; [|done].
  by destruct (held_advance _ _ E3).
Qed.

Lemma held_Start (v : Cmd) rf rf' r l : Start v rf = Some (rf', r, l) -> held rf rf'.
Proof.
  unfold Start. destruct (negb _); [by intros [= <- _ _]|]. intros Hs. opt_inv. by simplify_eq/=.
Qed.

Lemma Make_fresh n m ps k :
  dead ((Make n m ps k).1 : Raft Cmd) = 0 /\ lastApplied ((Make n m ps k).1 : Raft Cmd) = 0.
Proof.
  unfold Make. cbn [fst]. generalize (ReadRaftState ps). intros d. unfold readPersist.
  destruct (_ =? 0); [done|]. by repeat case_match.
Qed.

(** The AppendEntries calls in flight. *)
Definition carries p : option (Z * AppendEntriesArgs Cmd) :=
  match p with
  | PHeart _ peer args | PReplCall _ peer _ args => Some (peer, args)
  | _ => None
  end.

(** The sections change at most their server, and what it applied only when
    they take a message for the service. *)
Inductive touched c p p' : Cluster Cmd -> Prop :=
  | to_none c' : c_nodes c' = c_nodes c -> touched c p p' c'
  | to_held c' m rf rf' : zget (c_nodes c) m = Some rf ->
      c_nodes c' = <[Z.to_nat m := rf']> (c_nodes c) -> held rf rf' -> touched c p p' c'
  | to_append c' m args k1 k2 rf rf' r l : zget (c_nodes c) m = Some rf ->
      c_nodes c' = <[Z.to_nat m := rf']> (c_nodes c) -> carries p = Some (m, args) ->
      AppendEntries args k1 k2 rf = Some (rf', r, l) -> touched c p p' c'
  | to_apply c' m rf rf' msg : zget (c_nodes c) m = Some rf ->
      c_nodes c' = <[Z.to_nat m := rf']> (c_nodes c) ->
      applyCommittedEntries rf = Some (Some (rf', msg)) ->
      p = PApply m -> p' = PSend m msg -> touched c p p' c'.

Lemma voted_nodes m term cand b c : c_nodes (voted m term cand b c) = c_nodes c.
Proof. by destruct b. Qed.

Lemma ran_touched c p c' p' sp : ran c p c' p' sp -> touched c p p' c'.
Proof.
  intros Hr. destruct Hr; try (by apply to_none); try (by eapply to_apply); try (by eapply to_append);
    (eapply to_held; [eassumption|rewrite ?voted_nodes; done|]).
  - pose proof (held_ticker st term clock k rf) as Hh. by rewrite H0 in Hh.
  - apply held_heartbeat.
  - by eapply held_reply.
  - pose proof (held_election_end el rf) as Hh. by rewrite H2 in Hh.
  - pose proof (held_RequestVote args k1 k2 rf) as Hh. by rewrite H0 in Hh.
  - apply held_step_down.
Qed.
End sections.
End ClusterSections.
