(* ===== verification/ClusterSafety.v ===== *)
(** Elections across the cluster: every leader holds the votes of a majority of
    the servers for its term, whatever the interleaving, the losses and the
    crashes; hence at most one leader per term as long as no server votes twice
    in a term. *)
From S2P Require Import Prelude Persister RaftNode RaftFacts RaftSpec RaftCluster ClusterSections.
Import Persister Raft RaftFacts RaftSpec RaftCluster ClusterSections.

Module ClusterSafety.

Section safety.
Context {Cmd : Type} `{!Gob Z, !Gob (list (LogEntry Cmd))}.
Context (N : Z).
Implicit Types (rf : Raft Cmd) (k : tick) (votes : list vote) (c : Cluster Cmd).
Implicit Types (p : proc Cmd) (procs a b sp : list (proc Cmd)) (el : Election).

(** ** The operations and the roles *)

Lemma becomeFollower_role term k rf : role_kept rf (becomeFollowerLocked term k rf).
Proof.
  apply role_kept_follower. by destruct (becomeFollower_fields term k rf)
    as (_ & _ & _ & _ & _ & _ & _ & -> & _).
Qed.

Lemma RequestVote_role args k1 k2 rf : role_kept rf (RequestVote args k1 k2 rf).1.
Proof.
  unfold RequestVote. destruct (_ <? currentTerm rf); [by apply role_kept_same|].
  set (rf1 := if _ <? _ then _ else rf).
  assert (role_kept rf rf1) as Hr.
  { unfold rf1. case_match; [apply becomeFollower_role|by apply role_kept_same]. }
  repeat case_match; done.
Qed.

Lemma AppendEntries_role args k1 k2 rf rf' r l :
  node_ok rf -> 0 <= ae_PrevLogIndex args ->
  AppendEntries args k1 k2 rf = Some (rf', r, l) -> role_kept rf rf'.
Proof.
  intros [_ Hl _ _ _] Hp Heq. destruct (AppendEntries_cases args k1 k2 rf Hl Hp)
    as (rf1 & r1 & l1 & Heq1 & _ & _ & Hold & Hrej & Hacc).
  rewrite Heq in Heq1. injection Heq1 as <- <- <-.
  destruct (decide (ae_Term args < currentTerm rf)).
  { destruct Hold as [-> _]; [done|]. by apply role_kept_same. }
  apply role_kept_follower. destruct (prev_matches_spec args rf) as ([] & _ & Hiff).
  - destruct Hacc as (? & ? & [] & _); [lia|by apply Hiff|]. done.
  - destruct Hrej as ([] & _); [lia|by intros ?%Hiff|]. done.
Qed.

(** ** The invariant *)

Abbreviation quorum := (RaftSpec.quorum N).

Record node_inv votes (i : Z) rf : Prop := {
  ni_ok : node_ok rf;
  ni_durable : durable rf;
  ni_peers : peers rf = N;
  ni_me : me rf = i;
  ni_candidate : state rf = Candidate -> (i, currentTerm rf, i) ∈ votes;
  ni_leader : state rf = Leader -> quorum votes i (currentTerm rf) }.

(** The peers election [e] waits for. *)
Definition pend (e : nat) p : list Z :=
  match p with
  | PVote _ e' peer _ | PVoteReply _ e' peer _ => if bool_decide (e' = e) then [peer] else []
  | _ => []
  end.

Definition pending (e : nat) procs : list Z := concat (map (pend e) procs).

(** The votes counted come from distinct servers, not waited for any more. *)
Definition el_inv votes (waited : list Z) el : Prop :=
  el_peersCount el = N /\
  exists Q, NoDup (Q ++ waited) /\ zlen Q = Raft.votes el /\
    Forall (fun v => 0 <= v < N /\ (v, el_term el, el_node el) ∈ votes) Q.

Definition proc_inv votes (els : list Election) p : Prop :=
  match p with
  | PHeart _ _ args => 0 <= ae_PrevLogIndex args
  | PReplicate _ peer _ | PReplReply _ peer _ _ _ => 0 <= peer < N
  | PReplCall _ peer _ args => 0 <= peer < N /\ 0 <= ae_PrevLogIndex args
  | PWait n e => exists el, els !! e = Some el /\ el_node el = n
  | PVote n e peer args => 0 <= peer < N /\ exists el, els !! e = Some el /\
      rv_Term args = el_term el /\ rv_CandidateId args = el_node el
  | PVoteReply n e peer reply => 0 <= peer < N /\ exists el, els !! e = Some el /\
      (rvr_VoteGranted reply = true -> (peer, el_term el, el_node el) ∈ votes)
  | _ => True
  end.

Record cinv (nodes : list (Raft Cmd)) (els : list Election) votes procs : Prop := {
  ci_len : zlen nodes = N;
  ci_nodes : forall i rf, zget nodes i = Some rf -> node_inv votes i rf;
  ci_els : forall e el, els !! e = Some el -> el_inv votes (pending e procs) el;
  ci_procs : Forall (proc_inv votes els) procs }.

(** ** Monotonicity *)

Lemma node_inv_mono votes votes' i rf :
  votes ⊆ votes' -> node_inv votes i rf -> node_inv votes' i rf.
Proof.
  intros Hsub [? ? ? ? Hc Hl]. split; try done.
  - intros Hs. by apply Hsub, Hc.
  - intros Hs. eapply quorum_mono; [done|by apply Hl].
Qed.

Lemma el_inv_mono votes votes' w w' el :
  votes ⊆ votes' -> sublist w' w -> el_inv votes w el -> el_inv votes' w' el.
Proof.
  intros Hsub Hw (Hp & Q & Hnd & Hlen & HQ). split; [done|]. exists Q. split_and!; try done.
  - apply (sublist_NoDup _ (Q ++ w)); [done|by apply sublist_app].
  - eapply Forall_impl; [exact HQ|]. intros v [? ?]. split; [done|by apply Hsub].
Qed.

(** Elections keep their term and candidate. *)
Definition els_le (els els' : list Election) : Prop :=
  forall e el, els !! e = Some el -> exists el', els' !! e = Some el' /\
    el_term el' = el_term el /\ el_node el' = el_node el.

Lemma els_le_refl els : els_le els els.
Proof. intros e el He. eauto. Qed.

Lemma proc_inv_mono votes votes' els els' p :
  votes ⊆ votes' -> els_le els els' -> proc_inv votes els p -> proc_inv votes' els' p.
Proof.
  intros Hsub Hle. destruct p; simpl; try done.
  - intros (el & He & <-). destruct (Hle _ _ He) as (el' & ? & ? & ?). eauto.
  - intros (? & el & He & -> & ->). destruct (Hle _ _ He) as (el' & ? & ? & ?).
    split; [done|]. exists el'. done.
  - intros (? & el & He & Hg). destruct (Hle _ _ He) as (el' & ? & Ht & Hn).
    split; [done|]. exists el'. split; [done|]. rewrite Ht, Hn. intros H'. by apply Hsub, Hg.
Qed.

(** ** Changes of the goroutines *)

Lemma pending_app e a b : pending e (a ++ b) = pending e a ++ pending e b.
Proof. unfold pending. by rewrite map_app, concat_app. Qed.

Lemma pending_cons e p b : pending e (p :: b) = pend e p ++ pending e b.
Proof. done. Qed.

(** Nobody in [sp] waits for a vote. *)
Definition calm sp : Prop := Forall (fun p => forall e, pend e p = []) sp.

Lemma calm_pending e sp : calm sp -> pending e sp = [].
Proof.
  induction 1 as [|p sp Hp _ IH]; [done|]. by rewrite pending_cons, Hp, IH.
Qed.

Lemma pending_replace e a p p' b sp :
  sublist (pend e p') (pend e p) -> calm sp ->
  sublist (pending e (a ++ p' :: b ++ sp)) (pending e (a ++ p :: b)).
Proof.
  intros Hp Hsp. rewrite !pending_app, !pending_cons, pending_app, (calm_pending e sp Hsp),
    app_nil_r. by apply sublist_app, sublist_app.
Qed.

(** One goroutine moved on, one server changed. *)
Lemma cinv_step nodes els votes a p b n rf' votes' p' sp :
  cinv nodes els votes (a ++ p :: b) -> votes ⊆ votes' ->
  0 <= n < N -> node_inv votes' n rf' ->
  (forall e, sublist (pend e p') (pend e p)) -> calm sp ->
  Forall (proc_inv votes' els) (p' :: sp) ->
  cinv (<[Z.to_nat n := rf']> nodes) els votes' (a ++ p' :: b ++ sp).
Proof.
  intros [Hlen Hn He Hp] Hsub Hr Hn' Hpend Hcalm Hps. split.
  - by rewrite zlen_insert.
  - intros i rf Hi. destruct (decide (i = n)) as [->|Hne].
    + rewrite zget_insert_eq in Hi by lia. by injection Hi as <-.
    + rewrite zget_insert_ne in Hi by (done || lia). eapply node_inv_mono; [done|by apply Hn].
  - intros e el Hel. eapply el_inv_mono; [done| |by apply He]. by apply pending_replace.
  - apply Forall_cons in Hps as [Hp' Hsp].
    apply Forall_app in Hp as [Ha [_ Hb]%Forall_cons].
    assert (forall l, Forall (proc_inv votes els) l -> Forall (proc_inv votes' els) l) as Hmono.
    { intros l Hl. eapply Forall_impl; [exact Hl|]. intros x.
      apply proc_inv_mono; [done|apply els_le_refl]. }
    apply Forall_app. split; [by apply Hmono|]. constructor; [done|].
    apply Forall_app. split; [by apply Hmono|done].
Qed.

(** The same, with no server changed. *)
Lemma cinv_move nodes els votes a p b p' sp :
  cinv nodes els votes (a ++ p :: b) ->
  (forall e, sublist (pend e p') (pend e p)) -> calm sp ->
  Forall (proc_inv votes els) (p' :: sp) ->
  cinv nodes els votes (a ++ p' :: b ++ sp).
Proof.
  intros [Hlen Hn He Hp] Hpend Hcalm Hps. split; [done..| |].
  - intros e el Hel. eapply el_inv_mono; [done| |by apply He]. by apply pending_replace.
  - apply Forall_cons in Hps as [Hp' Hsp].
    apply Forall_app in Hp as [Ha [_ Hb]%Forall_cons].
    apply Forall_app. split; [done|]. constructor; [done|]. by apply Forall_app.
Qed.

(** A step of a server that keeps the roles keeps the invariant. *)
Lemma node_inv_kept votes votes' i rf rf' :
  votes ⊆ votes' -> node_inv votes i rf -> step_ok rf rf' -> role_kept rf rf' ->
  node_inv votes' i rf'.
Proof.
  intros Hsub [Hok Hd Hp Hm Hc Hl] [Hok' Hd' Hp' Hm'] [Hrc Hrl]. split; try done.
  - by apply Hd'.
  - congruence.
  - congruence.
  - intros Hs. destruct (Hrc Hs) as [Hs' ->]. by apply Hsub, Hc.
  - intros Hs. destruct (Hrl Hs) as [Hs' ->]. eapply quorum_mono; [done|by apply Hl].
Qed.

(** ** The sections of the goroutines *)

Lemma calm_proc_of n l : calm (map (proc_of n) l).
Proof. apply Forall_forall. intros p (sp & -> & _)%list_elem_of_fmap e. by destruct sp. Qed.

Lemma proc_of_inv votes els n l :
  (forall peer term, SpawnReplicate peer term ∈ l -> 0 <= peer < N) ->
  Forall (proc_inv votes els) (map (proc_of n) l).
Proof.
  intros Hl. apply Forall_forall. intros p (sp & -> & Hsp)%list_elem_of_fmap.
  destruct sp; simpl; try done. by eapply Hl.
Qed.

Lemma get_node_inv nodes els votes procs n rf :
  cinv nodes els votes procs -> zget nodes n = Some rf -> node_inv votes n rf /\ 0 <= n < N.
Proof.
  intros Hc Hg. split; [by eapply ci_nodes|]. apply zget_Some_range in Hg.
  by rewrite (ci_len _ _ _ _ Hc) in Hg.
Qed.

(** Writing a server back. *)
Lemma set_node_id m rf c : zget (c_nodes c) m = Some rf -> set_node m rf c = c.
Proof.
  intros [_ Hm]%zget_Some_lookup. unfold set_node, set_nodes.
  rewrite list_insert_id by done. by destruct c.
Qed.

(** [Start] and the elections address the other servers of the cluster. *)
Lemma other_peers_range votes i rf peer :
  node_inv votes i rf -> peer ∈ other_peers rf -> 0 <= peer < N /\ peer <> i.
Proof.
  intros Hi [Hne Hin]%list_elem_of_filter. apply range_peers_lt in Hin.
  by rewrite (ni_peers _ _ _ Hi) in Hin; rewrite (ni_me _ _ _ Hi) in Hne.
Qed.

Lemma replicate_reply_spawns peer term args reply k rf rf' l more :
  replicate_reply peer term args reply k rf = Some (rf', l, more) ->
  forall q t, SpawnReplicate q t ∉ l.
Proof.
  unfold replicate_reply. intros H q t.
  repeat (case_match; simplify_eq/=; try set_solver).
  all: opt_inv; simplify_eq/=; repeat case_match; set_solver.
Qed.

Lemma AppendEntries_spawns args k1 k2 rf rf' r l :
  AppendEntries args k1 k2 rf = Some (rf', r, l) -> forall q t, SpawnReplicate q t ∉ l.
Proof.
  unfold AppendEntries. intros H q t. destruct (ae_Term args <? _); [simplify_eq; set_solver|].
  opt_inv. destruct (negb _); [simplify_eq; set_solver|]. opt_inv.
  match type of H with context [follow_commit ?c ?x] =>
    destruct (follow_commit_spec c x) as (sp & Heq & _ & [->| ->]); rewrite Heq in H end;
    simplify_eq/=; set_solver.
Qed.

Lemma ticker_spawns st term clock k rf q t : SpawnReplicate q t ∉ (ticker_act st term clock k rf).2.
Proof. unfold ticker_act. repeat case_match; set_solver. Qed.

(** An operation of one server, by a goroutine that does not wait for votes. *)
Lemma cinv_op nodes els votes a p b n rf rf' p' n' l :
  cinv nodes els votes (a ++ p :: b) -> zget nodes n = Some rf ->
  (node_inv votes n rf -> step_ok rf rf' /\ role_kept rf rf') ->
  (forall e, sublist (pend e p') (pend e p)) -> proc_inv votes els p' ->
  (forall q t, SpawnReplicate q t ∈ l -> 0 <= q < N) ->
  cinv (<[Z.to_nat n := rf']> nodes) els votes (a ++ p' :: b ++ map (proc_of n') l).
Proof.
  intros Hc Hg Hop Hpend Hp' Hl. destruct (get_node_inv _ _ _ _ _ _ Hc Hg) as [Hn Hr].
  destruct (Hop Hn) as [Hst Hro].
  eapply cinv_step; [exact Hc|done|done| |done|apply calm_proc_of|].
  - by eapply node_inv_kept.
  - constructor; [done|]. by apply proc_of_inv.
Qed.

Lemma cinv_append nodes els votes a p b peer args k1 k2 rf rf' r l p' :
  cinv nodes els votes (a ++ p :: b) -> 0 <= ae_PrevLogIndex args -> zget nodes peer = Some rf ->
  AppendEntries args k1 k2 rf = Some (rf', r, l) ->
  (forall e, sublist (pend e p') (pend e p)) -> proc_inv votes els p' ->
  cinv (<[Z.to_nat peer := rf']> nodes) els votes (a ++ p' :: b ++ map (proc_of peer) l).
Proof.
  intros Hc Hprev Hg Ha Hpend Hp'. eapply cinv_op; try done.
  - intros [Hok _ _ _ _ _]. split; [by eapply AppendEntries_ok|by eapply AppendEntries_role].
  - intros q t Hin. by eapply AppendEntries_spawns in Hin.
Qed.

(** A vote is recorded when it is given. *)
Lemma cinv_vote nodes els votes a b n e peer args k1 k2 rf rf' r :
  cinv nodes els votes (a ++ PVote n e peer args :: b) -> zget nodes peer = Some rf ->
  RequestVote args k1 k2 rf = (rf', r) ->
  cinv (<[Z.to_nat peer := rf']> nodes) els
    (if rvr_VoteGranted r then votes ++ [(peer, rv_Term args, rv_CandidateId args)] else votes)
    (a ++ PVoteReply n e peer r :: b ++ []).
Proof.
  intros Hc Hg Hv. destruct (get_node_inv _ _ _ _ _ _ Hc Hg) as [Hn Hr].
  assert (proc_inv votes els (PVote n e peer args)) as (_ & el & Hel & Ht & Hcd).
  { destruct Hc as [_ _ _ Hp]. by apply Forall_app in Hp as [_ [? _]%Forall_cons]. }
  eapply cinv_step; [exact Hc| |done| |done|constructor|].
  - destruct (rvr_VoteGranted r); set_solver.
  - eapply node_inv_kept; [|exact Hn|..].
    + destruct (rvr_VoteGranted r); set_solver.
    + pose proof (RequestVote_ok args k1 k2 rf (ni_ok _ _ _ Hn)) as H. by rewrite Hv in H.
    + pose proof (RequestVote_role args k1 k2 rf) as H. by rewrite Hv in H.
  - constructor; [|constructor]. simpl. split; [done|]. exists el. split; [done|].
    rewrite <- Ht, <- Hcd. intros ->. set_solver.
Qed.

(** No goroutine waits for an election that does not exist yet. *)
Lemma fresh_pending els votes l :
  Forall (proc_inv votes els) l -> pending (length els) l = [].
Proof.
  induction 1 as [|p l Hp _ IH]; [done|]. rewrite pending_cons, IH, app_nil_r.
  destruct p; try done; simpl; (rewrite bool_decide_eq_false_2; [done|]); intros ->;
    destruct Hp as (_ & el & Hel & _); by apply lookup_lt_Some in Hel; lia.
Qed.

Lemma pending_votes n (e' e : nat) args l :
  pending e (map (fun i => PVote n e' i args) l) = if bool_decide (e' = e) then l else [].
Proof.
  unfold pending. induction l as [|i l IH]; simpl; [by destruct (bool_decide _)|].
  rewrite IH. by destruct (bool_decide _).
Qed.

(** An election starts. *)
Lemma cinv_election nodes els votes a b n term rf args :
  cinv nodes els votes (a ++ PElection n term :: b) -> zget nodes n = Some rf ->
  startElection term rf = Some args ->
  cinv nodes (els ++ [newElection term rf]) votes
    (a ++ PWait n (length els) :: b ++
       map (fun i => PVote n (length els) i args) (other_peers rf)).
Proof.
  intros Hc Hg Hs. destruct (get_node_inv _ _ _ _ _ _ Hc Hg) as [Hn Hr].
  unfold startElection in Hs. destruct (_ || _) eqn:E; [done|]. injection Hs as <-.
  apply orb_false_iff in E as [Et Es]. apply negb_false_iff in Et, Es.
  apply Z.eqb_eq in Et. apply bool_decide_eq_true in Es.
  destruct Hc as [Hlen Hnodes Hels Hprocs].
  pose proof (fresh_pending els votes) as Hfresh.
  assert (els_le els (els ++ [newElection term rf])) as Hle.
  { intros e el He. exists el. split; [|done]. by apply lookup_app_l_Some. }
  apply Forall_app in Hprocs as [Ha [_ Hb]%Forall_cons].
  assert (forall l, Forall (proc_inv votes els) l ->
    Forall (proc_inv votes (els ++ [newElection term rf])) l) as Hmono.
  { intros l Hl. eapply Forall_impl; [exact Hl|]. intros x. by apply proc_inv_mono. }
  assert ((els ++ [newElection term rf]) !! length els = Some (newElection term rf)) as Hlast.
  { by rewrite lookup_app_r, Nat.sub_diag. }
  split; [done|done| |].
  - intros e el He.
    rewrite !pending_app, pending_cons, pending_app, pending_votes. simpl.
    apply lookup_app_Some in He as [He|[Hlt He]].
    + pose proof (lookup_lt_Some _ _ _ He). rewrite bool_decide_eq_false_2 by lia.
      rewrite app_nil_r. specialize (Hels e el He). by rewrite pending_app, pending_cons in Hels.
    + assert (e = length els) as ->.
      { apply lookup_lt_Some in He. simpl in He. lia. }
      rewrite Nat.sub_diag in He. injection He as <-.
      rewrite bool_decide_eq_true_2, (Hfresh a), (Hfresh b) by done. simpl.
      split; [apply (ni_peers _ _ _ Hn)|]. exists [n]. split; [|split; [done|]].
      * simpl. constructor.
        { intros Hin. by destruct (other_peers_range _ _ _ _ Hn Hin). }
        apply NoDup_filter, NoDup_fmap_2; [apply _|apply NoDup_seq].
      * constructor; [|constructor]. split; [done|]. simpl.
        rewrite (ni_me _ _ _ Hn), <- Et. by apply (ni_candidate _ _ _ Hn).
  - apply Forall_app. split; [by apply Hmono|]. constructor.
    { exists (newElection term rf). split; [done|]. apply (ni_me _ _ _ Hn). }
    apply Forall_app. split; [by apply Hmono|].
    apply Forall_forall. intros p (i & -> & Hi)%list_elem_of_fmap.
    split; [by eapply other_peers_range|]. exists (newElection term rf). done.
Qed.

Lemma set_election_le els e el el' :
  els !! e = Some el -> el_term el' = el_term el -> el_node el' = el_node el ->
  els_le els (<[e := el']> els).
Proof.
  intros He Ht Hn e' x Hx. destruct (decide (e' = e)) as [->|Hne].
  - exists el'. rewrite list_lookup_insert_eq by (by eapply lookup_lt_Some).
    by simplify_eq.
  - exists x. by rewrite list_lookup_insert_ne.
Qed.

(** One election changed, and its goroutine ended. *)
Lemma cinv_set_election nodes els votes a p b e el el' sp :
  cinv nodes els votes (a ++ p :: b) -> els !! e = Some el ->
  el_term el' = el_term el -> el_node el' = el_node el -> calm sp ->
  (el_inv votes (pending e a ++ pend e p ++ pending e b) el ->
   el_inv votes (pending e a ++ pending e b) el') ->
  Forall (proc_inv votes els) sp ->
  cinv nodes (<[e := el']> els) votes (a ++ PDone :: b ++ sp).
Proof.
  intros [Hlen Hnodes Hels Hprocs] He Ht Hn Hsp Hinv Hps.
  pose proof (set_election_le els e el el' He Ht Hn) as Hle.
  split; [done|done| |].
  - intros e' x Hx. destruct (decide (e' = e)) as [->|Hne].
    + rewrite list_lookup_insert_eq in Hx by (by eapply lookup_lt_Some). injection Hx as <-.
      rewrite !pending_app, pending_cons, pending_app, (calm_pending e sp Hsp), app_nil_r.
      apply Hinv. specialize (Hels e el He). by rewrite pending_app, pending_cons in Hels.
    + rewrite list_lookup_insert_ne in Hx by done. eapply el_inv_mono; [done| |by apply Hels].
      apply pending_replace; [|done]. simpl. apply sublist_nil_l.
  - apply Forall_app in Hprocs as [Ha [_ Hb]%Forall_cons].
    assert (forall l, Forall (proc_inv votes els) l ->
      Forall (proc_inv votes (<[e := el']> els)) l) as Hmono.
    { intros l Hl. eapply Forall_impl; [exact Hl|]. intros x. by apply proc_inv_mono. }
    apply Forall_app. split; [by apply Hmono|]. constructor; [done|].
    apply Forall_app. split; by apply Hmono.
Qed.

(** A reply is counted once, for the server that sent it. *)
Lemma cinv_vote_reply nodes els votes a b n e peer reply el :
  cinv nodes els votes (a ++ PVoteReply n e peer reply :: b) -> els !! e = Some el ->
  let '(el', down) := vote_reply reply el in
  cinv nodes (<[e := el']> els) votes
    (a ++ PDone :: b ++ match down with Some term => [PStepDown n term] | None => [] end).
Proof.
  intros Hc He. destruct (vote_reply reply el) as [el' down] eqn:Hv.
  assert (proc_inv votes els (PVoteReply n e peer reply)) as (Hr & el1 & Hel1 & Hg).
  { destruct Hc as [_ _ _ Hp]. by apply Forall_app in Hp as [_ [? _]%Forall_cons]. }
  rewrite He in Hel1. injection Hel1 as <-.
  assert (el_term el' = el_term el /\ el_node el' = el_node el /\
    el_peersCount el' = el_peersCount el /\
    (Raft.votes el' = Raft.votes el \/
     (rvr_VoteGranted reply = true /\ Raft.votes el' = Raft.votes el + 1)))
    as (Ht & Hn & Hp & Hvotes).
  { unfold vote_reply in Hv. destruct (electionDone el); [by simplify_eq; auto|].
    destruct (rvr_VoteGranted reply); simplify_eq/=; auto 10. }
  eapply cinv_set_election; try done.
  - destruct down; repeat constructor.
  - simpl. rewrite bool_decide_eq_true_2 by done.
    intros (Hpc & Q & Hnd & Hlen & HQ). split; [congruence|]. destruct Hvotes as [Hsame|[Hgr Hmore]].
    + exists Q. split; [|split; [congruence|by rewrite Ht, Hn]].
      eapply sublist_NoDup; [exact Hnd|]. apply sublist_app; [done|].
      apply sublist_app; [done|]. by apply sublist_cons.
    + exists (peer :: Q). split; [|split; [rewrite zlen_cons; lia|]].
      * simpl in *. assert (peer :: Q ++ pending e a ++ pending e b ≡ₚ
          Q ++ pending e a ++ peer :: pending e b) as -> by solve_Permutation. done.
      * rewrite Ht, Hn. constructor; [by auto|done].
  - destruct down; repeat constructor.
Qed.

Lemma cinv_vote_failed nodes els votes a b n e el :
  cinv nodes els votes (a ++ PVoteFailed n e :: b) -> els !! e = Some el ->
  cinv nodes (<[e := vote_failed el]> els) votes (a ++ PDone :: b ++ []).
Proof.
  intros Hc He. eapply cinv_set_election; [exact Hc|exact He|done|done|constructor| |constructor].
  simpl. intros (Hpc & Q & HQ). split; [done|]. by exists Q.
Qed.

(** The end of an election: with a majority, the candidate becomes leader. *)
Lemma cinv_election_end nodes els votes a b n e el rf :
  cinv nodes els votes (a ++ PWait n e :: b) -> els !! e = Some el -> zget nodes n = Some rf ->
  let '(el', rf', l) := election_end el rf in
  cinv (<[Z.to_nat n := rf']> nodes) (<[e := el']> els) votes
    (a ++ PDone :: b ++ map (proc_of n) l).
Proof.
  intros Hc He Hg. destruct (get_node_inv _ _ _ _ _ _ Hc Hg) as [Hn Hr].
  assert (proc_inv votes els (PWait n e)) as (el1 & Hel1 & Hnode).
  { destruct Hc as [_ _ _ Hp]. by apply Forall_app in Hp as [_ [? _]%Forall_cons]. }
  rewrite He in Hel1. injection Hel1 as <-.
  assert (node_inv votes n (election_end el rf).1.2) as Hn'.
  { unfold election_end. simpl. destruct (el_peersCount el / 2 <? Raft.votes el) eqn:Ev;
      [|done]. destruct (_ && _) eqn:Es; [|done]. simpl.
    apply andb_true_iff in Es as [Et Es]. apply Z.eqb_eq in Et. apply bool_decide_eq_true in Es.
    destruct (becomeLeader_ok rf (ni_ok _ _ _ Hn)) as [Hok Hd Hp Hm]. destruct Hn as [? ? ? ? ? ?].
    split; try done. intros _. simpl in *. bsimp.
    destruct (ci_els _ _ _ _ Hc e el He) as (Hpc & Q & Hnd & Hlen & HQ).
    exists Q. split; [by apply NoDup_app in Hnd as [? _]|]. split; [rewrite Hpc in Ev; lia|].
    by rewrite Et, <- Hnode. }
  assert (forall q t, SpawnReplicate q t ∉ (election_end el rf).2) as Hsp.
  { intros q t. unfold election_end, becomeLeaderLocked. repeat case_match; set_solver. }
  assert (cinv (<[Z.to_nat n := (election_end el rf).1.2]> nodes) els votes
    (a ++ PWait n e :: b ++ map (proc_of n) (election_end el rf).2)) as Hc1.
  { eapply cinv_step; [exact Hc|done|done|done|done|apply calm_proc_of|].
    constructor; [by exists el|]. apply proc_of_inv. intros q t Hin. by apply Hsp in Hin. }
  destruct (election_end el rf) as [[el' rf'] l] eqn:Hend. simpl in *.
  assert (el' = mkElection (el_term el) (el_node el) (el_peersCount el) (Raft.votes el)
    (finished el) true) as ->.
  { unfold election_end in Hend. repeat case_match; by simplify_eq/=. }
  rewrite <- (app_nil_r (map (proc_of n) l)), app_assoc.
  eapply cinv_set_election; try done; constructor.
Qed.

(** A candidate votes for itself. *)
Lemma cinv_ticker nodes els votes a b n st term clock k rf :
  cinv nodes els votes (a ++ PTickerAct n st term :: b) -> zget nodes n = Some rf ->
  let '(rf', l) := ticker_act st term clock k rf in
  cinv (<[Z.to_nat n := rf']> nodes) els
    (if currentTerm rf <? currentTerm rf' then votes ++ [(n, currentTerm rf', n)] else votes)
    (a ++ PTicker n :: b ++ map (proc_of n) l).
Proof.
  intros Hc Hg. destruct (get_node_inv _ _ _ _ _ _ Hc Hg) as [Hn Hr].
  pose proof (ticker_ok st term clock k rf (ni_ok _ _ _ Hn)) as Hst.
  pose proof (ticker_spawns st term clock k rf) as Hsp.
  assert ((ticker_act st term clock k rf).1 = rf \/
    (ticker_act st term clock k rf).1 = becomeCandidateLocked k rf) as Heq.
  { unfold ticker_act. repeat case_match; auto. }
  destruct (ticker_act st term clock k rf) as [rf' l]. simpl in *.
  eapply cinv_step; [exact Hc| |done| |done|apply calm_proc_of|].
  - case_match; set_solver.
  - destruct Heq as [->| ->].
    + rewrite Z.ltb_irrefl. done.
    + assert ((currentTerm rf <? currentTerm (becomeCandidateLocked k rf)) = true) as ->
        by (apply Z.ltb_lt; simpl; lia).
      destruct Hst as [Hok Hd Hp Hm], Hn as [? ? ? ? ? ?].
      split; try done; [by apply Hd|]. intros _. simpl. set_solver.
  - constructor; [done|]. apply proc_of_inv. intros q t Hin. by apply Hsp in Hin.
Qed.

Lemma heartbeat_reply_kept reply k rf :
  node_ok rf -> step_ok rf (heartbeat_reply reply k rf) /\ role_kept rf (heartbeat_reply reply k rf).
Proof.
  intros Hok. unfold heartbeat_reply. case_match.
  - split; [by apply becomeFollower_ok|apply becomeFollower_role].
  - split; [by split|by apply role_kept_same].
Qed.

Lemma step_down_kept term k rf :
  node_ok rf -> step_ok rf (step_down term k rf) /\ role_kept rf (step_down term k rf).
Proof.
  intros Hok. unfold step_down. case_match.
  - split; [by apply becomeFollower_ok|apply becomeFollower_role].
  - split; [by split|by apply role_kept_same].
Qed.

Lemma apply_kept rf rf' msg :
  node_ok rf -> applyCommittedEntries rf = Some (Some (rf', msg)) ->
  step_ok rf rf' /\ role_kept rf rf'.
Proof.
  intros [Hm Hl Hc Ha Hld] (Hlt & -> & _)%apply_cases.
  split; [split; [split; try done; simpl; lia|done..]|by apply role_kept_same].
Qed.

Lemma broadcast_prev rf args :
  node_ok rf -> broadcastAppendEntries rf = Some (Some args) -> 0 <= ae_PrevLogIndex args.
Proof.
  intros [_ Hl _ _ _] H. unfold broadcastAppendEntries in H. case_match; [done|]. opt_inv.
  subst args. simpl. unfold lastLogIndex. destruct (log rf) as [|x l]; [done|].
  rewrite zlen_cons. pose proof (zlen_nonneg l). lia.
Qed.

Lemma replicate_send_prev peer term rf args :
  node_ok rf -> 0 <= peer < peers rf -> replicate_send peer term rf = Some (Some args) ->
  0 <= ae_PrevLogIndex args.
Proof.
  intros [_ _ _ _ Hld] Hp H. unfold replicate_send in H. destruct (killed rf); [done|].
  destruct (_ || _) eqn:E0; [done|]. apply orb_false_iff in E0 as [E0 _].
  apply negb_false_iff, bool_decide_eq_true in E0.
  destruct (Hld E0) as (ni & mi & Hni & Hmi & Hnl & _ & Hn1 & _). rewrite Hni, Hmi in H.
  destruct (peer =? me rf); [done|].
  destruct (zget_bound ni peer 1) as (x & Hx & Hx1); [lia|done|]. rewrite Hx in H. simpl in H.
  destruct (lastLogIndex rf <? x); [done|]. opt_inv. subst args. simpl. lia.
Qed.

Lemma cinv_broadcast nodes els votes a b n args rf :
  cinv nodes els votes (a ++ PBroadcast n :: b) -> node_ok rf ->
  broadcastAppendEntries rf = Some (Some args) ->
  cinv nodes els votes (a ++ PDone :: b ++ map (fun i => PHeart n i args) (other_peers rf)).
Proof.
  intros Hc Hok Hb. eapply cinv_move; [exact Hc|intros; apply sublist_nil_l|..].
  - apply Forall_forall. intros q (i & -> & _)%list_elem_of_fmap e. done.
  - constructor; [done|]. apply Forall_forall. intros q (i & -> & _)%list_elem_of_fmap.
    by eapply broadcast_prev.
Qed.

Lemma cinv_replicate_reply nodes els votes a b n peer term args reply k rf rf' l more :
  cinv nodes els votes (a ++ PReplReply n peer term args reply :: b) -> zget nodes n = Some rf ->
  replicate_reply peer term args reply k rf = Some (rf', l, more) ->
  cinv (<[Z.to_nat n := rf']> nodes) els votes
    (a ++ (if (more : bool) then PReplicate n peer term else PDone) :: b ++ map (proc_of n) l).
Proof.
  intros Hc Hg Hrr. destruct (get_node_inv _ _ _ _ _ _ Hc Hg) as [Hn Hr].
  assert (proc_inv votes els (PReplReply n peer term args reply)) as Hp.
  { destruct Hc as [_ _ _ Hp]. by apply Forall_app in Hp as [_ [? _]%Forall_cons]. }
  pose proof (ni_ok _ _ _ Hn) as Hok. pose proof (ni_peers _ _ _ Hn) as HN. simpl in Hp.
  destruct (replicate_reply_cases peer term args reply k rf Hok) as
    (rf1 & l1 & more1 & Heq & Hst & _ & [_ Hro] & _); [lia|].
  rewrite Hrr in Heq. injection Heq as <- <- <-.
  apply (cinv_op _ _ _ _ _ _ _ _ _ _ n l Hc Hg); try done; try (by destruct more).
  intros q t Hin. by eapply replicate_reply_spawns in Hin.
Qed.

(** A goroutine that moves on without touching a peer. *)
Lemma cinv_moves_on c a b p p' :
  cinv (c_nodes c) (c_elections c) (c_votes c) (a ++ p :: b) -> moves_on c p p' ->
  cinv (c_nodes c) (c_elections c) (c_votes c) (a ++ p' :: b ++ []).
Proof.
  intros Hc Hmo. assert (proc_inv (c_votes c) (c_elections c) p) as Hp.
  { destruct Hc as [_ _ _ Hp]. by apply Forall_app in Hp as [_ [? _]%Forall_cons]. }
  eapply cinv_move; [exact Hc| |constructor|constructor; [|constructor]].
  - intros e. destruct Hmo; try done; apply sublist_nil_l.
  - destruct Hmo as [| | | | | | |m peer term rf args Hg Hs| | | | | | |]; try done; [|apply Hp].
    destruct (get_node_inv _ _ _ _ _ _ Hc Hg) as [Hn _]. split; [done|].
    eapply replicate_send_prev; [apply Hn| |exact Hs]. by rewrite (ni_peers _ _ _ Hn).
Qed.

(** An operation of one server by a goroutine that is then done. *)
Lemma cinv_own c a b p p' m rf rf' :
  cinv (c_nodes c) (c_elections c) (c_votes c) (a ++ p :: b) -> zget (c_nodes c) m = Some rf ->
  (node_ok rf -> step_ok rf rf' /\ role_kept rf rf') ->
  (forall e, pend e p' = []) -> (forall votes els, proc_inv votes els p') ->
  cinv (<[Z.to_nat m := rf']> (c_nodes c)) (c_elections c) (c_votes c) (a ++ p' :: b ++ []).
Proof.
  intros Hc Hg Hop Hpend Hp'.
  apply (cinv_op _ _ _ _ _ _ _ _ _ _ m [] Hc Hg); [| |done|by intros ?? ?%elem_of_nil].
  - intros Hn. apply Hop, Hn.
  - intros e. rewrite Hpend. apply sublist_nil_l.
Qed.

(** Every section preserves the invariant. *)
Lemma ran_inv c a p b c' p' sp :
  cinv (c_nodes c) (c_elections c) (c_votes c) (a ++ p :: b) -> ran c p c' p' sp ->
  cinv (c_nodes c') (c_elections c') (c_votes c') (a ++ p' :: b ++ sp).
Proof.
  intros Hc Hran.
  assert (proc_inv (c_votes c) (c_elections c) p) as Hp.
  { destruct Hc as [_ _ _ Hp]. by apply Forall_app in Hp as [_ [? _]%Forall_cons]. }
  destruct Hran as [p p' Hmo|m st term clock k rf rf' l Hg Ha|m rf args Hg Hb
    |m peer args k1 k2 rf rf' r l Hg Ha|m r k rf Hg|m peer term args k1 k2 rf rf' r l Hg Ha
    |m peer term args r k rf rf' l more Hg Hrr|m term rf args Hg Hs|m e el rf el' rf' l He Hw Hg Hee
    |m e peer args k1 k2 rf rf' r Hg Hv|m e peer r el el' down He Hv|m e el He|m term k rf Hg
    |m rf rf' msg Hg Ha|m msg].
  - by eapply cinv_moves_on.
  - pose proof (cinv_ticker _ _ _ _ _ _ _ _ clock k _ Hc Hg) as H. rewrite Ha in H.
    by destruct (currentTerm rf <? currentTerm rf').
  - destruct (get_node_inv _ _ _ _ _ _ Hc Hg) as [Hn _]. eapply cinv_broadcast; [done|apply Hn|done].
  - eapply cinv_append; [exact Hc|exact Hp|exact Hg|exact Ha| |done]. intros; apply sublist_nil_l.
  - eapply (cinv_own c); try done. intros Hok. by apply heartbeat_reply_kept.
  - eapply cinv_append; [exact Hc|apply Hp|exact Hg|exact Ha| |apply Hp]. intros; apply sublist_nil_l.
  - by eapply cinv_replicate_reply.
  - by eapply cinv_election.
  - pose proof (cinv_election_end _ _ _ _ _ _ _ _ _ Hc He Hg) as H. by rewrite Hee in H.
  - pose proof (cinv_vote _ _ _ _ _ _ _ _ _ _ _ _ _ _ Hc Hg Hv) as H. by destruct (rvr_VoteGranted r).
  - pose proof (cinv_vote_reply _ _ _ _ _ _ _ _ _ _ Hc He) as H. by rewrite Hv in H.
  - by eapply cinv_vote_failed.
  - eapply (cinv_own c); try done. intros Hok. by apply step_down_kept.
  - eapply (cinv_own c); try done. intros Hok. by eapply apply_kept.
  - eapply cinv_move; [exact Hc|intros; apply sublist_nil_l|constructor|by repeat constructor].
Qed.

Lemma cinv_procs_sublist nodes els votes procs procs' :
  cinv nodes els votes procs -> (forall e, sublist (pending e procs') (pending e procs)) ->
  Forall (proc_inv votes els) procs' -> cinv nodes els votes procs'.
Proof.
  intros [Hlen Hnodes Hels _] Hsub Hp. split; [done|done| |done].
  intros e el He. eapply el_inv_mono; [done|apply Hsub|by apply Hels].
Qed.

(** A section that no goroutine of the list runs: a call of the service, a
    restart. *)
Lemma cinv_outside nodes els votes procs n rf rf' l :
  cinv nodes els votes procs -> zget nodes n = Some rf ->
  (node_inv votes n rf -> step_ok rf rf' /\ role_kept rf rf') ->
  (forall q t, SpawnReplicate q t ∈ l -> 0 <= q < N) ->
  cinv (<[Z.to_nat n := rf']> nodes) els votes (procs ++ map (proc_of n) l).
Proof.
  intros Hc Hg Hop Hl.
  assert (cinv nodes els votes (PDone :: procs)) as Hc1.
  { destruct Hc as [? ? ? ?]. split; try done. by constructor. }
  destruct (cinv_op _ _ _ [] PDone procs n rf rf' PDone n l Hc1 Hg Hop) as [? ? ? Hp]; try done.
  split; try done. by apply Forall_cons in Hp as [_ ?].
Qed.

Lemma cinv_client nodes els votes procs n v rf rf' r l :
  cinv nodes els votes procs -> zget nodes n = Some rf ->
  Start v rf = Some (rf', r, l) ->
  cinv (<[Z.to_nat n := rf']> nodes) els votes (procs ++ map (proc_of n) l).
Proof.
  intros Hc Hg HS. destruct (get_node_inv _ _ _ _ _ _ Hc Hg) as [Hn Hr].
  destruct (Start_cases v rf (ni_ok _ _ _ Hn)) as (rf1 & r1 & l1 & Heq & Hok & Ht & Hv & Hs & _ & Hl).
  rewrite HS in Heq. injection Heq as <- <- <-. eapply cinv_outside; [exact Hc|exact Hg|..].
  - intros _. split; [done|by apply role_kept_same].
  - intros q t Hin. destruct Hl as [(_ & _ & _ & ->)|(_ & _ & _ & ->)].
    + by apply elem_of_nil in Hin.
    + apply list_elem_of_fmap in Hin as (j & Heqj & Hj). injection Heqj as -> _.
      by destruct (other_peers_range _ _ _ _ Hn Hj).
Qed.

(** The goroutines of a server end with it. *)
Lemma cinv_ended nodes els votes procs (dies : proc Cmd -> bool) :
  cinv nodes els votes procs ->
  cinv nodes els votes (map (fun p => if dies p then PDone else p) procs).
Proof.
  intros Hc. eapply cinv_procs_sublist; [exact Hc| |].
  - intros e. clear Hc. induction procs as [|p ps IH]; [done|]. simpl. rewrite !pending_cons.
    apply sublist_app; [|done]. destruct (dies p); [apply sublist_nil_l|done].
  - apply Forall_forall. intros p (q & -> & Hq)%list_elem_of_fmap. destruct (dies q); [done|].
    pose proof (ci_procs _ _ _ _ Hc) as Hp. rewrite Forall_forall in Hp. by apply Hp.
Qed.

Lemma cinv_restart nodes els votes procs n k rf :
  cinv nodes els votes procs -> zget nodes n = Some rf ->
  cinv (<[Z.to_nat n := (Make (peers rf) (me rf) (persister rf) k).1]> nodes) els votes
    (procs ++ map (proc_of n) [SpawnTicker]).
Proof.
  intros Hc Hg. eapply cinv_outside; [exact Hc|exact Hg|..].
  - intros Hn. destruct (restart_ok k rf (ni_ok _ _ _ Hn) (ni_durable _ _ _ Hn)) as (Hok & _).
    split; [done|]. apply role_kept_follower. simpl. unfold readPersist. simpl. by repeat case_match.
  - by intros q t ?%list_elem_of_singleton.
Qed.

Lemma step_inv c act c' :
  cinv (c_nodes c) (c_elections c) (c_votes c) (c_procs c) -> step c act = Ret c' ->
  cinv (c_nodes c') (c_elections c') (c_votes c') (c_procs c').
Proof.
  intros Hc Hst. destruct act as [i arrives clock k1 k2|n v|n k]; simpl in Hst; unfold get_node in Hst;
    try (destruct (zget (c_nodes c) n) as [rf|] eqn:Hg; simpl in Hst; [|done]).
  - destruct (c_procs c !! i) as [p|] eqn:Hi; [|by injection Hst as <-].
    destruct (run p arrives clock k1 k2 c) as [[[c1 p'] sp]| |] eqn:Hrun; simpl in Hst; try done.
    injection Hst as <-. simpl. pose proof (lookup_lt_Some _ _ _ Hi) as Hlt.
    rewrite <- (take_drop_middle _ _ _ Hi) in Hc.
    rewrite insert_take_drop by done. rewrite <- app_assoc. simpl.
    by eapply ran_inv, run_ran.
  - destruct (Start v rf) as [[[rf' r] l]|] eqn:HS; simpl in Hst; [|done].
    injection Hst as <-. by eapply cinv_client.
  - injection Hst as <-. apply cinv_restart; [|done].
    by apply (cinv_ended _ _ _ _ (fun p => bool_decide (node_of p = Some n))).
Qed.
End safety.

(** ** Reachable clusters *)

Section reach.
Context {Cmd : Type} `{!Gob Z, !Gob (list (LogEntry Cmd))}.
Implicit Types (c : Cluster Cmd).

Definition good (N : Z) c : Prop :=
  cinv N (c_nodes c) (c_elections c) (c_votes c) (c_procs c).

Lemma exec_inv N c acts c' : good N c -> exec c acts = Ret c' -> good N c'.
Proof.
  revert c. induction acts as [|act acts IH]; intros c Hc Hex; simpl in Hex.
  - by injection Hex as <-.
  - destruct (step c act) as [c1| |] eqn:Hst; simpl in Hex; try done.
    eapply IH; [|done]. by eapply step_inv.
Qed.

Lemma init_good n k : good (Z.of_nat n) (init n k).
Proof.
  split; simpl.
  - unfold zlen. by rewrite !length_map, length_seq.
  - intros i rf Hi. pose proof (zget_Some_range _ _ _ Hi) as Hr.
    unfold zlen in Hr. rewrite !length_map, length_seq in Hr.
    apply zget_Some_lookup in Hi as [_ Hi]. rewrite map_map in Hi.
    change (map ?f ?l) with (f <$> l) in Hi. rewrite list_lookup_fmap in Hi.
    rewrite lookup_seq_lt in Hi by lia. simpl in Hi. injection Hi as <-.
    replace (Z.of_nat (Z.to_nat i)) with i by lia.
    destruct (fresh_ok (Cmd:=Cmd) (Z.of_nat n) i k) as [Hok Hd]; [done|].
    by split.
  - intros e el He. by rewrite lookup_nil in He.
  - apply Forall_forall. by intros p (m & -> & _)%list_elem_of_fmap.
Qed.

Lemma reachable_good n c : reachable n c -> good (Z.of_nat n) c.
Proof. intros (k & acts & Hex). eapply exec_inv; [apply init_good|done]. Qed.

(** C31. A leader was elected by a majority: whatever the losses, the crashes and
    the interleaving, the servers that gave it their votes in its term are more
    than half of the cluster. *)
Theorem leader_has_majority n c i T :
  reachable n c -> is_leader c i T ->
  exists Q, NoDup Q /\ Z.of_nat n / 2 < zlen Q /\
    Forall (fun v => 0 <= v < Z.of_nat n /\ (v, T, i) ∈ c_votes c) Q.
Proof.
  intros Hr (rf & Hi & Hs & <-). apply reachable_good in Hr.
  apply (ni_leader _ _ _ _ (ci_nodes _ _ _ _ _ Hr i rf Hi)), Hs.
Qed.

(** C5. As long as no server gave votes to two candidates of the same term, there
    is at most one leader per term. *)
Theorem election_safety n c i j T :
  reachable n c ->
  (forall v a b, (v, T, a) ∈ c_votes c -> (v, T, b) ∈ c_votes c -> a = b) ->
  is_leader c i T -> is_leader c j T -> i = j.
Proof.
  intros Hr Hone (rf & Hi & Hs & HT) (rf' & Hj & Hs' & HT'). apply reachable_good in Hr.
  destruct (ni_leader _ _ _ _ (ci_nodes _ _ _ _ _ Hr i rf Hi) Hs) as (P & HndP & HlP & HP).
  destruct (ni_leader _ _ _ _ (ci_nodes _ _ _ _ _ Hr j rf' Hj) Hs') as (Q & HndQ & HlQ & HQ).
  rewrite HT in HP. rewrite HT' in HQ.
  destruct (majorities_meet n P Q) as (v & HvP & HvQ); try done.
  { eapply Forall_impl; [exact HP|]. by intros ? [? _]. }
  { eapply Forall_impl; [exact HQ|]. by intros ? [? _]. }
  rewrite Forall_forall in HP, HQ. apply (Hone v); [by apply HP|by apply HQ].
Qed.

(** C29. In every reachable cluster every server's persister holds its term, vote
    and log, and its bookkeeping is well formed: the invariants of one server
    hold under every interleaving. *)
Theorem cluster_nodes_ok n c i rf :
  reachable n c -> zget (c_nodes c) i = Some rf ->
  node_ok rf /\ durable rf /\ peers rf = Z.of_nat n /\ me rf = i.
Proof.
  intros Hr Hi. apply reachable_good in Hr.
  destruct (ci_nodes _ _ _ _ _ Hr i rf Hi). done.
Qed.
End reach.

Section witnesses.
Definition one_leader : Cluster Z :=
  match exec start3 [go 0; go 0; go 3; go 4; go 4; go 3] with Ret c => c | _ => start3 end.

Lemma one_leader_reachable : reachable 3 one_leader.
Proof. exists t0, [go 0; go 0; go 3; go 4; go 4; go 3]. by vm_compute. Qed.

Lemma one_leader_leads : is_leader one_leader 0 1.
Proof. eexists. split; [by vm_compute|]. by vm_compute. Qed.

Lemma leader_has_majority_witness :
  exists Q, NoDup Q /\ 1 < zlen Q /\
    Forall (fun v => 0 <= v < 3 /\ (v, 1, 0) ∈ c_votes one_leader) Q.
Proof. apply (leader_has_majority 3); [apply one_leader_reachable|apply one_leader_leads]. Defined.

Lemma election_safety_witness :
  Forall (fun j => is_leader one_leader j 1 -> 0 = j) [0; 1; 2].
Proof.
  apply Forall_forall. intros j _ Hj. apply (election_safety 3 one_leader 0 j 1);
    [apply one_leader_reachable| |apply one_leader_leads|done].
  intros v a b Ha Hb. vm_compute in Ha, Hb. set_solver.
Defined.

Lemma cluster_nodes_ok_witness :
  exists rf, zget (c_nodes one_leader) 0 = Some rf /\
    node_ok rf /\ durable rf /\ peers rf = 3 /\ me rf = 0.
Proof.
  eexists. split; [by vm_compute|].
  apply (cluster_nodes_ok 3 one_leader 0); [apply one_leader_reachable|by vm_compute].
Defined.
End witnesses.
End ClusterSafety.
