(* ===== verification/ClusterRefines.v ===== *)
(** The code follows the abstract protocol: the relation between a cluster and a
    state of RaftSpec.v, and how each operation of a server is matched by rules
    of the protocol, as long as no server votes twice in a term.  The relation
    also carries what a server may call committed; that part holds for logs of
    at most [capacity] entries, the ones a single AppendEntries call can
    complete. *)
From S2P Require Import Prelude Persister RaftNode RaftFacts RaftProps RaftSpec RaftSafety RaftCluster ClusterSections ClusterSafety.
Import Persister Raft RaftFacts RaftProps RaftSpec RaftSafety RaftCluster ClusterSections ClusterSafety.

Module ClusterRefines.

Section refinement.
Context {Cmd : Type} `{!Gob Z, !Gob (list (LogEntry Cmd))}.
Context (n : nat).
Abbreviation N := (Z.of_nat n).
Implicit Types (rf : Raft Cmd) (l L P : list (LogEntry Cmd)) (e : LogEntry Cmd).
Implicit Types (k : tick) (votes : list vote) (c : Cluster Cmd) (p : proc Cmd).
Implicit Types (procs a b sp : list (proc Cmd)) (s : system Cmd) (B : Z).
Implicit Types (nodes : list (Raft Cmd)) (applied : list (Z * ApplyMsg Cmd)).

(** ** The relation *)

(** What the protocol sees of a server. *)
Definition view rf : server Cmd := mkServer (currentTerm rf) (state rf) (log rf).

(** The sentinel and the entries of one AppendEntries call. *)
Definition capacity : Z := 101.

(** The log up to an index. *)
Definition upto (x : Z) l : list (LogEntry Cmd) := take (Z.to_nat (x + 1)) l.

(** What [matchIndex] claims of the other servers was acknowledged. *)
Definition match_ref s (i : Z) rf : Prop :=
  forall q m, q <> i -> zget (default [] (matchIndex rf)) q = Some m -> 0 < m ->
  exists m', (q, currentTerm rf, m') ∈ stored s /\ m <= m'.

Record node_ref s B (i : Z) rf : Prop := {
  nr_match : state rf = Leader -> match_ref s i rf;
  nr_len : zlen (log rf) <= B;
  nr_commit : B <= capacity -> commitIndex rf <= lastLogIndex rf /\
    safe n s (currentTerm rf) (upto (commitIndex rf) (log rf)) }.

(** A call carries a slice of the log of the leader of its term, and a commit
    index that the slice covers. *)
Definition args_ref s B (args : AppendEntriesArgs Cmd) : Prop :=
  exists ldr L, led s !! ae_Term args = Some (ldr, L) /\ slice_of args L /\
    (B <= capacity ->
       ae_LeaderCommit args <= ae_PrevLogIndex args + zlen (ae_Entries args) /\
       safe n s (ae_Term args) (upto (ae_LeaderCommit args) L)).

(** A message to the service of server [i] carries an entry committed in a term
    that the server has reached. *)
Definition msg_ref s (i : Z) (msg : ApplyMsg Cmd) : Prop :=
  exists T P e, committed n s T P /\ term_reached s i T /\ 0 < CommandIndex msg /\
    CommandValid msg = true /\ zget P (CommandIndex msg) = Some e /\ Command msg = e_Command e.

Definition proc_ref s B p : Prop :=
  match p with
  | PHeart _ _ args => args_ref s B args
  | PReplCall _ _ term args => ae_Term args = term /\ args_ref s B args
  | PReplReply _ peer term args reply => ae_Term args = term /\
      (aer_Success reply = true ->
       (peer, term, ae_PrevLogIndex args + zlen (ae_Entries args)) ∈ stored s)
  | PVote _ _ _ args => exists Lc, stood s !! (rv_Term args, rv_CandidateId args) = Some Lc /\
      rv_LastLogIndex args = zlen Lc - 1 /\ rv_LastLogTerm args = last_term Lc
  | PSend i msg => 0 <= i < N /\ (B <= capacity -> msg_ref s i msg)
  | _ => True
  end.

Record refines s B nodes votes procs applied : Prop := {
  re_servers : servers s = map view nodes;
  re_given : given s = votes;
  re_nodes i rf : zget nodes i = Some rf -> node_ref s B i rf;
  re_led T ldr L : led s !! T = Some (ldr, L) -> zlen L <= B;
  re_procs : Forall (proc_ref s B) procs;
  re_applied : Forall (fun m => 0 <= m.1 < N /\ (B <= capacity -> msg_ref s m.1 m.2)) applied }.

(** ** Monotonicity *)

Lemma zget_map {A A'} (f : A -> A') (l : list A) i : zget (map f l) i = f <$> zget l i.
Proof. unfold zget. destruct (i <? 0); [done|]. apply list_lookup_fmap. Qed.

Lemma view_node s B nodes votes procs applied i rf :
  refines s B nodes votes procs applied -> zget nodes i = Some rf ->
  zget (servers s) i = Some (view rf).
Proof. intros Hr Hi. rewrite (re_servers _ _ _ _ _ _ Hr), zget_map, Hi. done. Qed.

Lemma upto_app x l l' : x < zlen l -> upto x (l ++ l') = upto x l.
Proof. intros Hx. unfold upto, zlen in *. rewrite take_app_le; [done|lia]. Qed.

Lemma node_ref_mono s s' B B' i rf :
  later s s' -> B <= B' -> node_ref s B i rf -> node_ref s' B' i rf.
Proof.
  intros Hla HB [Hm Hl Hc]. split; [|lia|].
  - intros Hs q m Hq Hg H0. destruct (Hm Hs q m Hq Hg H0) as (m' & ? & ?).
    exists m'. split; [by apply (la_stored _ _ Hla)|done].
  - intros Hcap. destruct Hc as [? Hsafe]; [lia|]. split; [done|]. by eapply safe_later.
Qed.

Lemma args_ref_mono s s' B B' args :
  later s s' -> B <= B' -> args_ref s B args -> args_ref s' B' args.
Proof.
  intros Hla HB (ldr & L & HL & Hsl & Hc). destruct (la_led _ _ Hla _ _ _ HL) as (x & HL' & _).
  exists ldr, (L ++ x). split; [done|]. split.
  - by eapply slice_of_prefix; [eexists|].
  - intros Hcap. destruct Hc as [Hlc Hsafe]; [lia|]. split; [done|].
    destruct Hsl as (_ & Hlt & _). rewrite upto_app by lia. by eapply safe_later.
Qed.

Lemma msg_ref_later s s' i msg : later s s' -> msg_ref s i msg -> msg_ref s' i msg.
Proof.
  intros Hla (T & P & e & HP & HT & Hrest). exists T, P, e. split; [by eapply committed_later|].
  split; [by apply (la_term _ _ Hla)|done].
Qed.

Lemma proc_ref_mono s s' B B' p : later s s' -> B <= B' -> proc_ref s B p -> proc_ref s' B' p.
Proof.
  intros Hla HB. destruct p; simpl; try done.
  - by apply args_ref_mono.
  - intros [? ?]. split; [done|by eapply args_ref_mono].
  - intros [? Hs]. split; [done|]. intros Hok. by apply (la_stored _ _ Hla), Hs.
  - intros (Lc & HLc & ? & ?). exists Lc. split; [by eapply la_stood|done].
  - intros [? Hm]. split; [done|]. intros Hcap. eapply msg_ref_later; [done|]. apply Hm. lia.
Qed.

Lemma procs_ref_mono s s' B B' procs :
  later s s' -> B <= B' -> Forall (proc_ref s B) procs -> Forall (proc_ref s' B') procs.
Proof. intros Hla HB Hp. eapply Forall_impl; [exact Hp|]. intros p. by apply proc_ref_mono. Qed.

Lemma proc_of_ref s B i (spawns : list spawn) : Forall (proc_ref s B) (map (proc_of i) spawns).
Proof. apply Forall_forall. intros p (sp & -> & _)%list_elem_of_fmap. by destruct sp. Qed.

(** One server changed; the goroutines are given. *)
Lemma refines_node s s' B B' nodes votes votes' procs procs' applied m rf' :
  inv n s -> refines s B nodes votes procs applied -> rtc (next N) s s' -> B <= B' ->
  servers s' = <[Z.to_nat m := view rf']> (servers s) -> given s' = votes' ->
  (forall T ldr L, led s' !! T = Some (ldr, L) -> zlen L <= B') ->
  0 <= m < zlen nodes -> node_ref s' B' m rf' -> Forall (proc_ref s' B') procs' ->
  refines s' B' (<[Z.to_nat m := rf']> nodes) votes' procs' applied.
Proof.
  intros Hi Hr Hst HB Hsv Hg Hled Hm Hrf Hps. destruct (nexts_later n _ _ Hi Hst) as [_ Hla].
  destruct Hr as [Hs _ Hn _ _ Happ]. split; try done.
  - rewrite Hsv, Hs. symmetry. apply list_fmap_insert.
  - intros i rf Hgi. destruct (decide (i = m)) as [->|Hne].
    + rewrite zget_insert_eq in Hgi by lia. by injection Hgi as <-.
    + rewrite zget_insert_ne in Hgi by (done || lia). eapply node_ref_mono; [done|done|by apply Hn].
  - eapply Forall_impl; [exact Happ|]. intros x [? Hx]. split; [done|]. intros Hcap.
    eapply msg_ref_later; [done|]. apply Hx. lia.
Qed.

Lemma procs_ref_replace s s' B a p b p' sp :
  later s s' -> Forall (proc_ref s B) (a ++ p :: b) -> proc_ref s' B p' ->
  Forall (proc_ref s' B) sp -> Forall (proc_ref s' B) (a ++ p' :: b ++ sp).
Proof.
  intros Hla Hps Hp' Hsp. apply (procs_ref_mono s s' B B _ Hla (Z.le_refl B)) in Hps.
  apply Forall_app in Hps as [Ha [_ Hb]%Forall_cons].
  apply Forall_app. split; [done|]. constructor; [done|]. by apply Forall_app.
Qed.

(** ** Operations that leave the log alone *)

Record kept rf rf' : Prop := {
  k_log : log rf' = log rf;
  k_term : currentTerm rf <= currentTerm rf';
  k_role : role_kept rf rf';
  k_commit : commitIndex rf' = commitIndex rf \/ commitIndex rf' = 0;
  k_match : state rf' = Leader -> matchIndex rf' = matchIndex rf }.

Lemma kept_refl rf : kept rf rf.
Proof. split; [done|lia|by apply role_kept_same|by left|done]. Qed.

Lemma kept_becomeFollower term k rf :
  currentTerm rf <= term -> kept rf (becomeFollowerLocked term k rf).
Proof.
  intros Hle. destruct (becomeFollower_fields term k rf) as (_ & _ & Ht & _ & Hl & Hc & _ & _ & _ & Hm).
  split; [done|lia|apply becomeFollower_role|by left|done].
Qed.

Lemma kept_heartbeat reply k rf : kept rf (heartbeat_reply reply k rf).
Proof.
  unfold heartbeat_reply. destruct (_ <? _) eqn:E; bsimp; [|apply kept_refl].
  apply kept_becomeFollower. lia.
Qed.

Lemma kept_step_down term k rf : kept rf (step_down term k rf).
Proof.
  unfold step_down. destruct (_ <? _) eqn:E; bsimp; [|apply kept_refl].
  apply kept_becomeFollower. lia.
Qed.

Lemma kept_apply rf rf' msg : applyCommittedEntries rf = Some (Some (rf', msg)) -> kept rf rf'.
Proof.
  intros (_ & -> & _)%apply_cases. split; simpl; [done|lia|by apply role_kept_same|by left|done].
Qed.

Lemma kept_restart k rf :
  node_ok rf -> durable rf -> kept rf (Make (peers rf) (me rf) (persister rf) k).1.
Proof.
  intros Hok Hd. destruct (restart_ok k rf Hok Hd) as (_ & Ht & _ & Hl).
  assert (state (Make (peers rf) (me rf) (persister rf) k).1 = Follower /\
    commitIndex (Make (peers rf) (me rf) (persister rf) k).1 = 0) as [Hs Hc].
  { simpl. unfold readPersist. by repeat case_match. }
  split; [done|lia|by apply role_kept_follower|by right|by rewrite Hs].
Qed.

Lemma upto_zero l : zlen (upto 0 l) <= 1.
Proof. unfold upto, zlen. rewrite length_take. lia. Qed.

Lemma node_ref_kept s B i rf rf' :
  log rf <> [] -> kept rf rf' -> node_ref s B i rf -> node_ref s B i rf'.
Proof.
  intros Hne [Hl Ht [_ Hrl] Hc Hm] [Hma Hle Hco]. split.
  - intros Hs. unfold match_ref. destruct (Hrl Hs) as [Hs' ->]. rewrite (Hm Hs). by apply Hma.
  - by rewrite Hl.
  - intros Hcap. specialize (Hco Hcap) as [? Hsafe]. unfold lastLogIndex in *. rewrite Hl.
    destruct Hc as [->| ->].
    + split; [done|]. eapply safe_later; [apply later_refl|done|done].
    + apply zlen_pos in Hne. split; [lia|]. left. apply upto_zero.
Qed.

(** The protocol matches it by a server that observes a term, or not at all. *)
Lemma kept_next s i rf rf' :
  zget (servers s) i = Some (view rf) -> kept rf rf' ->
  exists s', rtc (next N) s s' /\ servers s' = <[Z.to_nat i := view rf']> (servers s) /\
    given s' = given s /\ led s' = led s.
Proof.
  intros Hi [Hl Ht [Hrc Hrl] _ _].
  assert (view rf' = view rf \/ state rf' = Follower) as [Hv|Hf].
  { destruct (state rf') eqn:E; [by right|left|left]; unfold view; rewrite E, Hl.
    - by destruct (Hrc eq_refl) as [-> ->].
    - by destruct (Hrl eq_refl) as [-> ->]. }
  - exists s. split; [apply rtc_refl|]. split; [|done]. rewrite Hv. symmetry.
    apply list_insert_id. by apply zget_Some_lookup in Hi as [_ ?].
  - exists (with_server i (view rf') s). split; [|done]. apply rtc_once.
    unfold view. rewrite Hf, Hl. by apply (next_observe N s i (view rf)).
Qed.

Lemma refines_kept s B nodes votes a p b applied m rf rf' p' sp :
  inv n s -> refines s B nodes votes (a ++ p :: b) applied -> zget nodes m = Some rf ->
  log rf <> [] -> kept rf rf' ->
  (forall s', later s s' -> proc_ref s' B p' /\ Forall (proc_ref s' B) sp) ->
  exists s', rtc (next N) s s' /\
    refines s' B (<[Z.to_nat m := rf']> nodes) votes (a ++ p' :: b ++ sp) applied.
Proof.
  intros Hi Hr Hm Hne Hk Hps. pose proof (view_node _ _ _ _ _ _ _ _ Hr Hm) as Hv.
  destruct (kept_next s m rf rf' Hv Hk) as (s' & Hst & Hsv & Hg & Hled).
  destruct (nexts_later n _ _ Hi Hst) as [_ Hla]. destruct (Hps s' Hla) as [Hp' Hsp].
  exists s'. split; [done|]. eapply refines_node; try done.
  - by rewrite Hg, (re_given _ _ _ _ _ _ Hr).
  - rewrite Hled. apply (re_led _ _ _ _ _ _ Hr).
  - by eapply zget_Some_range.
  - eapply node_ref_kept; [exact Hne|done|]. eapply node_ref_mono; [done|done|].
    by apply (re_nodes _ _ _ _ _ _ Hr).
  - eapply procs_ref_replace; [done|apply (re_procs _ _ _ _ _ _ Hr)|done|done].
Qed.

(** Nothing but the goroutines changed. *)
Lemma refines_move s B nodes votes a p b applied p' sp :
  refines s B nodes votes (a ++ p :: b) applied -> proc_ref s B p' ->
  Forall (proc_ref s B) sp ->
  exists s', rtc (next N) s s' /\ refines s' B nodes votes (a ++ p' :: b ++ sp) applied.
Proof.
  intros [Hs Hg Hn Hl Hp Ha] Hp' Hsp. exists s. split; [apply rtc_refl|]. split; try done.
  eapply procs_ref_replace; [apply later_refl|done..].
Qed.

(** ** Elections *)

(** A server times out and stands. *)
Lemma refines_candidate s B nodes votes a p b applied m rf k p' sp :
  inv n s -> refines s B nodes votes (a ++ p :: b) applied -> zget nodes m = Some rf ->
  (forall s', proc_ref s' B p' /\ Forall (proc_ref s' B) sp) ->
  exists s', rtc (next N) s s' /\
    refines s' B (<[Z.to_nat m := becomeCandidateLocked k rf]> nodes)
      (votes ++ [(m, currentTerm rf + 1, m)]) (a ++ p' :: b ++ sp) applied.
Proof.
  intros Hi Hr Hm Hps. pose proof (view_node _ _ _ _ _ _ _ _ Hr Hm) as Hv.
  assert (rtc (next N) s (with_server m (view (becomeCandidateLocked k rf))
    (cast m (currentTerm rf + 1) m (log rf) (stand m (currentTerm rf + 1) (log rf) s)))) as Hst.
  { apply rtc_once. by apply (next_timeout N s m (view rf)). }
  destruct (nexts_later n _ _ Hi Hst) as [_ Hla].
  destruct (Hps (with_server m (view (becomeCandidateLocked k rf))
    (cast m (currentTerm rf + 1) m (log rf) (stand m (currentTerm rf + 1) (log rf) s)))) as [Hp' Hsp].
  eexists. split; [exact Hst|]. eapply refines_node; try done.
  - simpl. by rewrite (re_given _ _ _ _ _ _ Hr).
  - apply (re_led _ _ _ _ _ _ Hr).
  - by eapply zget_Some_range.
  - destruct (re_nodes _ _ _ _ _ _ Hr m rf Hm) as [_ Hlen Hc]. split; [done|done|].
    intros Hcap. destruct (Hc Hcap) as [? Hs]. split; [done|].
    eapply safe_later; [done| |done]. simpl. lia.
  - eapply procs_ref_replace; [done|apply (re_procs _ _ _ _ _ _ Hr)|done|done].
Qed.

(** What a vote request does to the receiver: it may observe the term, and it
    grants its vote only to a log that is up to date. *)
Lemma RequestVote_cases args k1 k2 rf :
  let '(rf', reply) := RequestVote args k1 k2 rf in
  exists rf1, kept rf rf1 /\ view rf' = view rf1 /\ kept rf rf' /\
    (rvr_VoteGranted reply = true ->
     currentTerm rf1 = rv_Term args /\ RaftProps.up_to_date args rf1).
Proof.
  unfold RequestVote. destruct (_ <? currentTerm rf) eqn:E0; bsimp.
  { exists rf. split_and!; [apply kept_refl|done|apply kept_refl|done]. }
  set (rf1 := if currentTerm rf <? rv_Term args then _ else rf).
  assert (kept rf rf1 /\ currentTerm rf1 = rv_Term args) as [Hk Ht].
  { unfold rf1. destruct (currentTerm rf <? rv_Term args) eqn:E; bsimp.
    - split; [apply kept_becomeFollower; lia|].
      by destruct (becomeFollower_fields (rv_Term args) k1 rf) as (_ & _ & ? & _).
    - split; [apply kept_refl|lia]. }
  clearbody rf1. destruct (_ && _); [by exists rf1|].
  destruct (candidateUpToDateLocked rf1 args) eqn:Eu; simpl; [|by exists rf1].
  exists rf1. split; [done|]. split; [done|]. split.
  - by destruct Hk.
  - intros _. split; [done|]. by apply candidateUpToDate_spec.
Qed.

Lemma refines_vote s B c a p b peer args k1 k2 rf rf' r p' :
  inv n s -> refines s B (c_nodes c) (c_votes c) (a ++ p :: b) (c_applied c) ->
  log rf <> [] ->
  (exists Lc, stood s !! (rv_Term args, rv_CandidateId args) = Some Lc /\
     rv_LastLogIndex args = zlen Lc - 1 /\ rv_LastLogTerm args = last_term Lc) ->
  zget (c_nodes c) peer = Some rf -> RequestVote args k1 k2 rf = (rf', r) ->
  let c' := voted peer (rv_Term args) (rv_CandidateId args) (rvr_VoteGranted r) (set_node peer rf' c) in
  single (c_votes c') -> (forall s', proc_ref s' B p') ->
  exists s', rtc (next N) s s' /\
    refines s' B (c_nodes c') (c_votes c') (a ++ p' :: b ++ []) (c_applied c').
Proof.
  intros Hi Hr Hne (Lc & HLc & Hlx & Hlt) Hg Hrv c' Hsg Hp'. unfold c' in *.
  pose proof (RequestVote_cases args k1 k2 rf) as Hcases. rewrite Hrv in Hcases.
  destruct Hcases as (rf1 & Hk1 & Hv & Hk & Hgr). clear Hrv.
  destruct (rvr_VoteGranted r) eqn:Er; simpl in *.
  2: { eapply refines_kept; [done|done|done|done|done|]. intros s' _. split; [apply Hp'|constructor]. }
  destruct (Hgr eq_refl) as [Ht Hup]. pose proof (view_node _ _ _ _ _ _ _ _ Hr Hg) as Hvw.
  destruct (kept_next s peer rf rf1 Hvw Hk1) as (s1 & Hst & Hsv & Hgiv & Hled).
  destruct (nexts_later n _ _ Hi Hst) as [Hi1 Hla].
  pose proof (zget_Some_range _ _ _ Hvw) as Hran.
  assert (zget (servers s1) peer = Some (view rf1)) as Hv1.
  { rewrite Hsv. apply zget_insert_eq. lia. }
  set (s2 := cast peer (currentTerm rf1) (rv_CandidateId args) (log rf1) s1).
  assert (rtc (next N) s s2) as Hst2.
  { eapply rtc_r; [exact Hst|].
    apply (next_vote N s1 peer (view rf1) (rv_CandidateId args) Lc); [done| | |].
    - rewrite <- Ht in HLc. by apply (la_stood _ _ Hla).
    - unfold RaftProps.up_to_date, lastLogIndex in Hup. unfold up_to_date.
      change (last_term (sv_log (view rf1))) with (lastLogTerm rf1). simpl. lia.
    - intros j Hj. simpl in Hj. rewrite Hgiv, (re_given _ _ _ _ _ _ Hr), Ht in Hj.
      apply (Hsg peer (rv_Term args)); set_solver. }
  destruct (nexts_later n _ _ Hi Hst2) as [_ Hla2].
  exists s2. split; [done|]. eapply (refines_node s s2); try done.
  - simpl. by rewrite Hsv, Hv.
  - simpl. by rewrite Hgiv, (re_given _ _ _ _ _ _ Hr), Ht.
  - simpl. rewrite Hled. apply (re_led _ _ _ _ _ _ Hr).
  - by eapply zget_Some_range.
  - eapply node_ref_kept; [exact Hne|exact Hk|]. eapply node_ref_mono; [done|done|].
    by apply (re_nodes _ _ _ _ _ _ Hr).
  - eapply procs_ref_replace; [done|apply (re_procs _ _ _ _ _ _ Hr)|done|done].
Qed.

(** The election that ends with a majority gives a quorum. *)
Lemma election_quorum nodes els votes procs m (e : nat) el :
  cinv N nodes els votes procs -> PWait m e ∈ procs -> els !! e = Some el ->
  el_peersCount el / 2 < Raft.votes el -> quorum N votes m (el_term el).
Proof.
  intros Hc Hin He Hv. pose proof (ci_procs _ _ _ _ _ Hc) as Hp. rewrite Forall_forall in Hp.
  destruct (Hp _ Hin) as (el1 & Hel1 & Hnode). rewrite He in Hel1. injection Hel1 as <-.
  destruct (ci_els _ _ _ _ _ Hc e el He) as (Hpc & Q & Hnd & Hlen & HQ).
  exists Q. split; [by apply NoDup_app in Hnd as [? _]|]. split; [rewrite Hpc in Hv; lia|].
  by rewrite <- Hnode.
Qed.

Lemma refines_election_end s B nodes els votes a b applied m (e : nat) el rf :
  inv n s -> cinv N nodes els votes (a ++ PWait m e :: b) ->
  refines s B nodes votes (a ++ PWait m e :: b) applied ->
  els !! e = Some el -> zget nodes m = Some rf -> log rf <> [] ->
  let '(el', rf', l) := election_end el rf in
  exists s', rtc (next N) s s' /\
    refines s' B (<[Z.to_nat m := rf']> nodes) votes (a ++ PDone :: b ++ map (proc_of m) l) applied.
Proof.
  intros Hi Hc Hr He Hg Hne. unfold election_end. simpl.
  assert (exists s', rtc (next N) s s' /\
    refines s' B (<[Z.to_nat m := rf]> nodes) votes (a ++ PDone :: b ++ []) applied) as Hsame.
  { eapply refines_kept; [done|done|done|done|apply kept_refl|]. intros s' _. by split. }
  destruct (el_peersCount el / 2 <? Raft.votes el) eqn:Ev; [|done].
  destruct ((currentTerm rf =? el_term el) && bool_decide (state rf = Candidate)) eqn:Es; [|done].
  clear Hsame. bsimp. simpl.
  assert (quorum N votes m (el_term el)) as HQ.
  { eapply election_quorum; try done. set_solver. }
  pose proof (view_node _ _ _ _ _ _ _ _ Hr Hg) as Hv.
  set (s' := with_server m (mkServer (currentTerm rf) Leader (log rf))
    (leads m (currentTerm rf) (log rf) s)).
  assert (rtc (next N) s s') as Hst.
  { apply rtc_once. apply (next_elect N s m (view rf)); [done|done|].
    rewrite (re_given _ _ _ _ _ _ Hr). simpl. congruence. }
  destruct (nexts_later n _ _ Hi Hst) as [_ Hla].
  pose proof (re_nodes _ _ _ _ _ _ Hr m rf Hg) as [_ Hlen Hco].
  exists s'. split; [exact Hst|]. eapply refines_node; try done.
  - apply (re_given _ _ _ _ _ _ Hr).
  - simpl. intros T ldr L [[_ [= _ <-]]|[_ HL]]%lookup_insert_Some; [done|].
    by eapply re_led.
  - by eapply zget_Some_range.
  - split; [|done|].
    + intros _ q x _ Hq Hx. simpl in Hq. apply zget_Some_lookup in Hq as [_ Hq].
      apply lookup_replicate in Hq as [-> _]. lia.
    + intros Hcap. destruct (Hco Hcap) as [? Hs]. split; [done|]. by eapply safe_later.
  - eapply procs_ref_replace; [done|apply (re_procs _ _ _ _ _ _ Hr)|done|].
    apply (proc_of_ref s' B m [SpawnBroadcast]).
Qed.

(** ** Replication *)

Lemma upto_snoc x l e : zget l x = Some e -> upto x l = take (Z.to_nat x) l ++ [e].
Proof.
  intros He. pose proof (zget_Some_range _ _ _ He). apply zget_Some_lookup in He as [_ He].
  unfold upto. replace (Z.to_nat (x + 1)) with (S (Z.to_nat x)) by lia. by apply take_S_r.
Qed.

Lemma upto_prefix x l : upto x l `prefix_of` l.
Proof. apply prefix_take. Qed.

Lemma zlen_upto x l : 0 <= x < zlen l -> zlen (upto x l) = x + 1.
Proof. intros Hx. unfold upto. rewrite zlen_take; lia. Qed.

Lemma good_log_LM G l l' : good_log G l -> good_log G l' -> LM l l'.
Proof.
  intros Hl Hl' x e e' He He' Ht. pose proof (zget_Some_range _ _ _ He).
  pose proof (zget_Some_range _ _ _ He').
  pose proof (upto_prefix x l) as Hp. pose proof (upto_prefix x l') as Hp'.
  change (take (Z.to_nat (x + 1)) l) with (upto x l).
  change (take (Z.to_nat (x + 1)) l') with (upto x l').
  rewrite (upto_snoc _ _ _ He) in *. rewrite (upto_snoc _ _ _ He') in *.
  apply (good_log_matching G l l' _ _ e e' Hl Hl' Hp Hp' Ht).
  rewrite !length_take. unfold zlen in *. lia.
Qed.

(** Accepting a slice of [L] is adopting a prefix of it. *)
Lemma accept_adopts args L k1 k2 rf rf' r spawns :
  slice_of args L -> LM L (log rf) -> head L = head (log rf) -> log rf <> [] ->
  AppendEntries args k1 k2 rf = Some (rf', r, spawns) -> aer_Success r = true ->
  adopts (upto (ae_PrevLogIndex args + zlen (ae_Entries args)) L) (log rf) (log rf').
Proof.
  intros Hsl HLM Hh Hne Happ Hs.
  destruct (accept_slice args L k1 k2 rf rf' r spawns) as [Ht Hor]; try done.
  destruct Hsl as (Hp & Hlt & _). pose proof (zlen_nonneg (ae_Entries args)).
  unfold upto. destruct Hor as [Heq|[Heq Hno]].
  - left. split; [|done]. rewrite <- Ht, Heq. apply prefix_take.
  - right. split; [|done]. intros Hpre. apply Hno. apply take_as_prefix in Hpre.
    rewrite length_take in Hpre. rewrite Hpre. f_equal. unfold zlen in *. lia.
Qed.

(** The safe part of a follower's log after it accepted a call, and what it
    then calls committed. *)
Lemma safe_accept s T ldr L q x x' l l' lc T0 :
  inv n s -> led s !! T = Some (ldr, L) -> T0 <= T -> 0 <= q < zlen L ->
  adopts (upto q L) l l' -> l' <> [] ->
  0 <= x < zlen l -> safe n s T0 (upto x l) -> lc <= q -> safe n s T (upto lc L) ->
  x' = new_commit lc (zlen l' - 1) x ->
  x' < zlen l' /\ safe n s T (upto x' l').
Proof.
  intros Hi HL HT Hq Had Hne Hx Hsafe Hlc HsL ->.
  pose proof (upto_prefix q L) as HqL. pose proof (zlen_upto q L Hq) as HlenQ.
  assert (upto q L `prefix_of` l') as HQl'.
  { by destruct Had as [[? ->]|[_ ->]]. }
  pose proof (zlen_prefix _ _ HQl') as HlenQl'.
  unfold new_commit. destruct (x <? lc) eqn:E; bsimp.
  - rewrite Z.min_l by lia. split; [lia|].
    destruct HQl' as [y ->]. rewrite upto_app by lia.
    assert (upto lc (upto q L) = upto lc L) as ->; [|done].
    unfold upto. rewrite take_take. f_equal. lia.
  - assert (x < zlen l' /\ (upto x l' = upto x l \/ zlen (upto x l') <= 1)) as [? Heq].
    { destruct (decide (x = 0)) as [->|Hx0].
      { apply zlen_pos in Hne. split; [lia|]. right. apply upto_zero. }
      assert (upto x l `prefix_of` l') as Hpre.
      { eapply safe_adopts; try done; [apply upto_prefix|]. rewrite zlen_upto; lia. }
      pose proof (zlen_prefix _ _ Hpre) as Hle. rewrite zlen_upto in Hle by lia.
      split; [lia|left]. rewrite (take_as_prefix _ _ Hpre) at 1. unfold upto.
      rewrite length_take. f_equal. unfold zlen in *. lia. }
    split; [done|]. destruct Heq as [->|?]; [|by left].
    eapply safe_later; [apply later_refl|exact HT|done].
Qed.

(** A refused call. *)
Lemma refused_kept args k1 k2 rf rf' r spawns :
  log rf <> [] -> 0 <= ae_PrevLogIndex args ->
  AppendEntries args k1 k2 rf = Some (rf', r, spawns) -> aer_Success r = false -> kept rf rf'.
Proof.
  intros Hne Hp Happ Hr. destruct (AppendEntries_cases args k1 k2 rf Hne Hp)
    as (rf1 & r1 & l1 & Heq & _ & Hsucc & Hold & Hrej & _).
  rewrite Happ in Heq. injection Heq as <- <- <-.
  destruct (decide (ae_Term args < currentTerm rf)); [destruct Hold as [-> _]; [done|apply kept_refl]|].
  destruct Hrej as ([Ht _ Hs Hl _ _ _ _] & Hc & _); [lia| |].
  { intros Hpo. rewrite (proj2 Hsucc) in Hr; [done|]. split; [lia|done]. }
  split; [done|lia|by apply role_kept_follower|by left|by rewrite Hs].
Qed.

(** An accepted call: a follower of the sender's term adopts the slice. *)
Lemma accept_next s B i args k1 k2 rf rf' r spawns :
  inv n s -> zget (servers s) i = Some (view rf) -> node_ref s B i rf -> 0 <= commitIndex rf ->
  (forall T ldr L, led s !! T = Some (ldr, L) -> zlen L <= B) ->
  args_ref s B args -> AppendEntries args k1 k2 rf = Some (rf', r, spawns) ->
  aer_Success r = true ->
  exists s', rtc (next N) s s' /\ servers s' = <[Z.to_nat i := view rf']> (servers s) /\
    given s' = given s /\ led s' = led s /\ node_ref s' B i rf' /\
    (i, ae_Term args, ae_PrevLogIndex args + zlen (ae_Entries args)) ∈ stored s'.
Proof.
  intros Hi Hv [_ Hlen Hco] Hci Hled (ldr & L & HL & Hsl & Hargs) Happ Hr.
  pose proof (sn_log _ _ _ (in_servers n s Hi i _ Hv)) as Hgl. simpl in Hgl.
  pose proof (le_log _ _ _ _ _ (in_led n s Hi _ _ _ HL)) as HgL.
  pose proof (good_log_ne _ _ Hgl) as Hne. pose proof (good_log_LM _ _ _ HgL Hgl) as HLM.
  assert (head L = head (log rf)) as Hh by (by destruct HgL as [-> _], Hgl as [-> _]).
  pose proof (accept_adopts args L k1 k2 rf rf' r spawns Hsl HLM Hh Hne Happ Hr) as Had.
  set (q := ae_PrevLogIndex args + zlen (ae_Entries args)) in *.
  pose proof (zlen_nonneg (ae_Entries args)) as Hes.
  destruct Hsl as (Hp & Hlt & _). assert (0 <= q < zlen L) as Hq by lia.
  destruct (AppendEntries_cases args k1 k2 rf Hne Hp)
    as (rf1 & r1 & l1 & Heq & _ & Hsucc & _ & _ & Hacc).
  rewrite Happ in Heq. injection Heq as <- <- <-. destruct (proj1 Hsucc Hr) as [Ht Hpo].
  destruct (Hacc Ht Hpo) as (l2 & rest & [Ht' _ Hs' _ _ _ _ _] & _ & Hc' & _). clear Hacc.
  pose proof (zget_Some_range _ _ _ Hv) as Hran.
  set (s1 := with_server i (mkServer (ae_Term args) Follower (log rf)) s).
  set (s2 := with_server i (mkServer (ae_Term args) Follower (log rf'))
    (store i (ae_Term args) (zlen (upto q L) - 1) s1)).
  assert (rtc (next N) s s2) as Hst.
  { eapply rtc_l; [by apply (next_observe N s i (view rf))|]. apply rtc_once.
    apply (next_adopt N s1 i (mkServer (ae_Term args) Follower (log rf)) ldr L (upto q L));
      try done; [by apply zget_insert_eq; lia| |apply upto_prefix].
    intros H. assert (zlen (upto q L) = q + 1) as Hz by (by apply zlen_upto).
    rewrite H, zlen_nil in Hz. lia. }
  destruct (nexts_later n _ _ Hi Hst) as [Hi2 Hla].
  assert (servers s2 = <[Z.to_nat i := view rf']> (servers s)) as Hsv2.
  { simpl. unfold view. rewrite Hs', Ht'. by rewrite list_insert_insert_eq. }
  exists s2. split; [done|]. split; [done|]. split; [done|]. split; [done|]. split.
  - split; [by rewrite Hs'| |].
    + destruct Had as [[_ ->]|[_ ->]]; [done|].
      etrans; [apply zlen_prefix, upto_prefix|]. by eapply Hled.
    + intros Hcap. destruct (Hco Hcap) as [Hcl Hsafe]. destruct (Hargs Hcap) as [Hlc HsL].
      assert (log rf' <> []) as Hne'.
      { apply (good_log_ne (led s2)).
        apply (sn_log _ _ _ (in_servers n s2 Hi2 i (view rf') ltac:(rewrite Hsv2; apply zget_insert_eq; lia))). }
      unfold lastLogIndex in *.
      destruct (safe_accept s (ae_Term args) ldr L q (commitIndex rf) (commitIndex rf') (log rf)
        (log rf') (ae_LeaderCommit args) (currentTerm rf)) as [Hlt' Hs2]; try done; [lia|].
      split; [lia|]. rewrite Ht'. eapply safe_later; [exact Hla|reflexivity|done].
  - simpl. rewrite zlen_upto by done. replace (q + 1 - 1) with q by lia. set_solver.
Qed.

Lemma refines_append s B c a p b peer args k1 k2 rf rf' r (l : list spawn) p' :
  inv n s -> refines s B (c_nodes c) (c_votes c) (a ++ p :: b) (c_applied c) -> node_ok rf ->
  args_ref s B args -> zget (c_nodes c) peer = Some rf ->
  AppendEntries args k1 k2 rf = Some (rf', r, l) ->
  (forall s', later s s' -> (aer_Success r = true -> (peer, ae_Term args,
       ae_PrevLogIndex args + zlen (ae_Entries args)) ∈ stored s') -> proc_ref s' B p') ->
  exists s', rtc (next N) s s' /\
    refines s' B (<[Z.to_nat peer := rf']> (c_nodes c)) (c_votes c)
      (a ++ p' :: b ++ map (proc_of peer) l) (c_applied c).
Proof.
  intros Hi Hr [_ Hne Hci _ _] Hargs Hg Ha Hp'.
  destruct (aer_Success r) eqn:Er.
  - pose proof (view_node _ _ _ _ _ _ _ _ Hr Hg) as Hv.
    destruct (accept_next s B peer args k1 k2 rf rf' r l) as (s' & Hst & Hsv & Hgv & Hld & Hnr & Hin);
      try done; [by apply (re_nodes _ _ _ _ _ _ Hr)|apply (re_led _ _ _ _ _ _ Hr)|].
    destruct (nexts_later n _ _ Hi Hst) as [_ Hla].
    exists s'. split; [done|]. eapply (refines_node s s'); try done.
    + by rewrite Hgv, (re_given _ _ _ _ _ _ Hr).
    + rewrite Hld. apply (re_led _ _ _ _ _ _ Hr).
    + by eapply zget_Some_range.
    + eapply procs_ref_replace; [done|apply (re_procs _ _ _ _ _ _ Hr)| |apply proc_of_ref].
      by apply Hp'.
  - eapply refines_kept; [done|done|done|done| |].
    + eapply refused_kept; [done| |done|done]. by destruct Hargs as (? & ? & _ & (? & _) & _).
    + intros s' Hla. split; [|apply proc_of_ref]. by apply Hp'.
Qed.

(** ** What leaders send *)

Lemma broadcast_args s B i rf args :
  inv n s -> zget (servers s) i = Some (view rf) -> node_ref s B i rf ->
  broadcastAppendEntries rf = Some (Some args) -> args_ref s B args.
Proof.
  intros Hi Hv [_ _ Hco] Hb. destruct (in_servers n s Hi i _ Hv) as [_ Hl _ Hld _ _ _ _].
  simpl in Hl, Hld. apply good_log_ne, zlen_pos in Hl. unfold broadcastAppendEntries in Hb.
  destruct (negb _) eqn:E; [done|]. apply negb_false_iff, bool_decide_eq_true in E.
  destruct (if _ && _ && _ then _ else _) as [pt|] eqn:Ept; simpl in Hb; [|done].
  injection Hb as <-. exists i, (log rf). unfold slice_of, lastLogIndex in *. simpl.
  split; [by apply Hld|]. change (zlen []) with 0. split.
  - split; [lia|]. split; [lia|]. split; [done|]. intros Hp.
    destruct (0 <=? zlen (log rf) - 1) eqn:E1; bsimp; [|lia].
    destruct (zlen (log rf) - 1 <? zlen (log rf)) eqn:E2; bsimp; [|lia].
    destruct (0 <? zlen (log rf) - 1) eqn:E3; bsimp; [|lia]. simpl in Ept.
    destruct (zget (log rf) (zlen (log rf) - 1)) as [e|]; [|done]. injection Ept as <-. by exists e.
  - intros Hcap. destruct (Hco Hcap). split; [lia|done].
Qed.

(** With few entries, everything outstanding fits in one call. *)
Lemma replicate_send_all peer term rf args :
  node_ok rf -> 0 <= peer < peers rf -> zlen (log rf) <= capacity ->
  replicate_send peer term rf = Some (Some args) ->
  ae_PrevLogIndex args + zlen (ae_Entries args) = lastLogIndex rf.
Proof.
  intros Hok Hp Hcap Hb. pose proof (replicate_send_prev _ _ _ _ Hok Hp Hb) as Hprev.
  unfold replicate_send in Hb. destruct (killed rf); [done|].
  destruct (_ || _); [done|]. destruct (peer =? me rf); [done|].
  destruct (nextIndex rf) as [ni|]; [|done]. destruct (matchIndex rf); [|done].
  destruct (zget ni peer) as [nx|]; [|done]. simpl in Hb.
  destruct (lastLogIndex rf <? nx) eqn:E2; [done|]. bsimp.
  destruct (if (0 <? nx - 1) && _ then _ else _) as [pt|]; simpl in Hb; [|done].
  destruct (zslice _ _ _) as [es|] eqn:Esl; simpl in Hb; [|done]. injection Hb as <-. simpl in *.
  apply zslice_Some in Esl as (Hlo & Hhi & Hes). rewrite min_spec in *.
  unfold capacity, lastLogIndex in *.
  rewrite Hes. unfold zlen in *. rewrite length_take, length_drop. lia.
Qed.

Lemma replicate_args s B i peer term rf args :
  inv n s -> zget (servers s) i = Some (view rf) -> node_ref s B i rf -> node_ok rf ->
  0 <= peer < peers rf -> replicate_send peer term rf = Some (Some args) ->
  ae_Term args = term /\ args_ref s B args.
Proof.
  intros Hi Hv [_ Hlen Hco] Hok Hp Hb.
  pose proof (replicate_send_prev _ _ _ _ Hok Hp Hb) as Hp0.
  pose proof (replicate_send_slice_of _ _ _ _ Hb Hp0) as Hsl.
  destruct (replicate_send_slice _ _ _ _ Hb) as (Hs & Ht & Hta & Hlc & _).
  split; [done|]. exists i, (log rf). split.
  - rewrite Hta, <- Ht. by apply (sn_leader _ _ _ (in_servers n s Hi i _ Hv)).
  - split; [done|]. intros Hcap. destruct (Hco Hcap) as [Hc Hsafe]. rewrite Hlc, Hta, <- Ht.
    split; [|done]. erewrite replicate_send_all; [done|done|done|lia|done].
Qed.

(** The entry the service receives is committed. *)
Lemma apply_ref s B i rf rf' msg :
  zget (servers s) i = Some (view rf) -> node_ref s B i rf -> node_ok rf ->
  applyCommittedEntries rf = Some (Some (rf', msg)) -> B <= capacity -> msg_ref s i msg.
Proof.
  intros Hv [_ _ Hco] [_ _ _ Hla _] (Hlt & _ & e & He & ->)%apply_cases Hcap.
  destruct (Hco Hcap) as [Hc Hsafe]. unfold lastLogIndex in Hc.
  destruct Hsafe as [Hlen|(T & P & HT & HP & Hpre)].
  { rewrite zlen_upto in Hlen by lia. lia. }
  exists T, P, e. split; [done|]. split; [by exists (view rf)|]. simpl.
  split; [lia|]. split; [done|]. split; [|done].
  destruct Hpre as [y ->]. rewrite zget_app_l by (rewrite zlen_upto; lia).
  unfold upto. by rewrite zget_take by lia.
Qed.

(** ** Commands *)

Lemma bump_other o i v o' q m :
  bump o i v = Some o' -> q <> i -> zget (default [] o') q = Some m ->
  zget (default [] o) q = Some m.
Proof.
  intros Hb Hq. unfold bump in Hb. destruct o as [l|]; [|by injection Hb as <-].
  destruct (i <? zlen l); [|by injection Hb as <-].
  destruct (zget l i) as [x|]; simpl in Hb; [|done]. destruct (x <? v); [|by injection Hb as <-].
  destruct (zset l i v) as [l'|] eqn:Es; simpl in Hb; [|done]. injection Hb as <-. simpl.
  apply zset_Some in Es as [Hr ->]. by rewrite zget_insert_ne by (lia || done).
Qed.

Lemma Start_match cmd rf rf' r (sp : list spawn) q m :
  Start cmd rf = Some (rf', r, sp) -> q <> me rf ->
  zget (default [] (matchIndex rf')) q = Some m -> zget (default [] (matchIndex rf)) q = Some m.
Proof.
  unfold Start. destruct (negb _); [by intros [= <- _ _]|]. intros Hs Hq. simpl in Hs.
  destruct (bump (matchIndex rf) _ _) as [mi|] eqn:Em; simpl in Hs; [|done].
  destruct (bump (nextIndex rf) _ _) as [ni|] eqn:En; simpl in Hs; [|done].
  injection Hs as <- _ _. simpl. by eapply bump_other.
Qed.

(** A leader accepts a command. *)
Lemma refines_start s B nodes votes procs applied m rf rf' r (l : list spawn) cmd :
  inv n s -> refines s B nodes votes procs applied -> zget nodes m = Some rf -> node_ok rf ->
  me rf = m -> Start cmd rf = Some (rf', r, l) ->
  exists s', rtc (next N) s s' /\
    refines s' (B + 1) (<[Z.to_nat m := rf']> nodes) votes (procs ++ map (proc_of m) l) applied.
Proof.
  intros Hi Hr Hg Hok Hme Heq. pose proof (view_node _ _ _ _ _ _ _ _ Hr Hg) as Hv.
  pose proof (re_nodes _ _ _ _ _ _ Hr m rf Hg) as Hnr.
  destruct (Start_cases cmd rf Hok) as (rf1 & r1 & l1 & Heq1 & _ & Ht & _ & Hs & Hc & Hcase).
  rewrite Heq in Heq1. injection Heq1 as <- <- <-.
  assert (forall s', later s s' ->
    Forall (proc_ref s' (B + 1)) (procs ++ map (proc_of m) l)) as Hps.
  { intros s' Hla. apply Forall_app. split; [|apply proc_of_ref].
    eapply procs_ref_mono; [exact Hla| |apply (re_procs _ _ _ _ _ _ Hr)]. lia. }
  destruct Hcase as [(_ & -> & _ & ->)|(Hld & _ & Hl & _)].
  { exists s. split; [apply rtc_refl|]. eapply refines_node; try done.
    - lia.
    - symmetry. apply list_insert_id. by apply zget_Some_lookup in Hv as [_ ?].
    - apply (re_given _ _ _ _ _ _ Hr).
    - intros T ldr L HL. apply (re_led _ _ _ _ _ _ Hr) in HL. lia.
    - by eapply zget_Some_range.
    - eapply node_ref_mono; [apply later_refl| |done]. lia.
    - apply Hps, later_refl. }
  set (T := currentTerm rf) in *. set (l' := log rf ++ [mkEntry T (Some cmd)]) in *.
  set (s' := with_server m (mkServer T Leader l')
    (store m T (zlen (log rf)) (leads m T l' s))).
  assert (rtc (next N) s s') as Hst.
  { apply rtc_once. by apply (next_append N s m (view rf) cmd). }
  destruct (nexts_later n _ _ Hi Hst) as [_ Hla].
  assert (zlen l' = zlen (log rf) + 1) as Hlen' by (unfold l'; by rewrite zlen_app).
  destruct Hnr as [Hma Hlen Hco].
  exists s'. split; [done|]. eapply (refines_node s s'); try done.
  - lia.
  - simpl. unfold view. by rewrite Ht, Hs, Hld, Hl.
  - apply (re_given _ _ _ _ _ _ Hr).
  - simpl. intros T' ldr L [[_ [= _ <-]]|[_ HL]]%lookup_insert_Some; [lia|].
    apply (re_led _ _ _ _ _ _ Hr) in HL. lia.
  - by eapply zget_Some_range.
  - split.
    + intros _ q x Hq Hx H0. rewrite Ht. eapply Start_match in Hx; [|done|by rewrite Hme].
      destruct (Hma Hld q x Hq Hx H0) as (m' & ? & ?). exists m'.
      split; [by apply (la_stored _ _ Hla)|done].
    + rewrite Hl. lia.
    + intros Hcap. destruct Hco as [Hcl Hsafe]; [lia|]. unfold lastLogIndex in *.
      rewrite Hc, Hl, Ht, Hlen'. split; [lia|]. unfold l'. rewrite upto_app by lia.
      eapply safe_later; [exact Hla|reflexivity|done].
  - by apply Hps.
Qed.

(** ** Acknowledgements *)

(** What a leader concludes from the acknowledgements it counted. *)
Lemma committable_committed s i rf x :
  inv n s -> zget (servers s) i = Some (view rf) -> match_ref s i rf -> me rf = i ->
  peers rf = N -> state rf = Leader -> 0 < x -> committable rf x ->
  committed n s (currentTerm rf) (upto x (log rf)).
Proof.
  intros Hi Hv Hma Hme Hpe Hs Hx [(e & He & Ht) Hacks].
  pose proof (sn_leader _ _ _ (in_servers n s Hi i _ Hv) Hs) as HL. simpl in HL.
  pose proof (zget_Some_range _ _ _ He) as Hr.
  assert (last_term (upto x (log rf)) = currentTerm rf) as Hlast.
  { by rewrite (upto_snoc _ _ _ He), last_term_snoc. }
  assert (zlen (upto x (log rf)) = x + 1) as Hlen by (apply zlen_upto; lia).
  split.
  { exists i, (log rf). split; [done|]. split; [apply upto_prefix|]. split; [done|lia]. }
  set (A := filter (fun q => stores (default [] (matchIndex rf)) x q = true) (other_peers rf)).
  assert (forall q, q ∈ A -> q <> i /\ 0 <= q < N /\
    exists m, zget (default [] (matchIndex rf)) q = Some m /\ x <= m) as HA.
  { intros q [Hst Hq]%list_elem_of_filter. apply list_elem_of_filter in Hq as [Hne Hq].
    apply range_peers_lt in Hq. rewrite Hpe in Hq. rewrite Hme in Hne. split; [done|].
    split; [done|]. unfold stores in Hst. destruct (zget _ q) as [m|]; [|done].
    apply Z.leb_le in Hst. by exists m. }
  exists (i :: A). split; [|split].
  - constructor; [by intros [? _]%HA|]. apply NoDup_filter, NoDup_filter, NoDup_fmap_2.
    + intros ? ? ?. lia.
    + apply NoDup_seq.
  - rewrite zlen_cons. unfold acks in Hacks. rewrite Hpe in Hacks. fold A in Hacks. lia.
  - constructor.
    + pose proof (in_len n s Hi). apply zget_Some_range in Hv. split; [lia|].
      destruct (le_stored _ _ _ _ _ (in_led n s Hi _ _ _ HL) (upto x (log rf))) as (m & Hm & Hle);
        [apply upto_prefix|done|]. by exists m.
    + apply Forall_forall. intros q (Hne & Hq & m & Hm & Hle)%HA. split; [done|].
      destruct (Hma q m Hne Hm) as (m' & Hin & ?); [lia|]. exists m'. split; [done|lia].
Qed.

(** Recording an acknowledgement. *)
Lemma match_update (mi : list Z) peer m v :
  zget mi peer = Some m -> Forall (fun x => 0 <= x) mi ->
  exists mi' m', (if m <? v then zset mi peer v else Some mi) = Some mi' /\
    zlen mi' = zlen mi /\ Forall (fun x => 0 <= x) mi' /\ zget mi' peer = Some m' /\ 0 <= m' /\
    forall q x, zget mi' q = Some x -> zget mi q = Some x \/ (q = peer /\ x = v).
Proof.
  intros Hm HF. pose proof (zget_Some_range _ _ _ Hm) as Hr.
  destruct (zget_bound mi peer 0 Hr HF) as (m0 & Hm0 & Hge).
  rewrite Hm in Hm0. injection Hm0 as <-. destruct (m <? v) eqn:E; bsimp.
  - destruct (zset_bound mi peer v 0) as (mi' & Hset & Hlen & HF' & Hget); [lia|lia|done|].
    exists mi', v. split_and!; try done; [lia|]. intros q x Hq.
    apply zset_Some in Hset as [_ ->]. destruct (decide (q = peer)) as [->|Hne].
    + right. rewrite zget_insert_eq in Hq by lia. by injection Hq as <-.
    + left. by rewrite zget_insert_ne in Hq by (lia || done).
  - exists mi, m. split_and!; try done. by left.
Qed.

(** What a reply does to a leader: it records the acknowledgement, and commits
    what a majority stores. *)
Lemma replicate_reply_match peer term args reply k rf rf' (l : list spawn) more :
  node_ok rf -> 0 <= peer < peers rf ->
  replicate_reply peer term args reply k rf = Some (rf', l, more) ->
  kept rf rf' \/
  (state rf = Leader /\ currentTerm rf = term /\ aer_Success reply = true /\
   view rf' = view rf /\ peers rf' = peers rf /\ me rf' = me rf /\
   (forall q m, zget (default [] (matchIndex rf')) q = Some m ->
      zget (default [] (matchIndex rf)) q = Some m \/
      (q = peer /\ m = ae_PrevLogIndex args + zlen (ae_Entries args))) /\
   (commitIndex rf' = commitIndex rf \/
    (commitIndex rf < commitIndex rf' <= lastLogIndex rf /\ committable rf' (commitIndex rf')))).
Proof.
  intros Hok Hp Heq. unfold replicate_reply in Heq.
  destruct (negb _ || _) eqn:E0; [injection Heq as <- _ _; left; apply kept_refl|].
  apply orb_false_iff in E0 as [E0 E1]. apply negb_false_iff, bool_decide_eq_true in E0.
  apply negb_false_iff, Z.eqb_eq in E1.
  destruct (currentTerm rf <? aer_Term reply) eqn:E2; bsimp.
  { injection Heq as <- _ _. left. apply kept_becomeFollower. lia. }
  destruct (ok_leader _ Hok E0) as (ni & mi & Hni & Hmi & Hlni & Hlmi & HFn & HFm).
  rewrite Hni, Hmi in Heq. simpl in Heq.
  destruct (aer_Success reply) eqn:Es.
  - right. set (v := ae_PrevLogIndex args + _) in *.
    destruct (zget_bound mi peer 0) as (m & Hm & _); [lia|done|]. rewrite Hm in Heq. simpl in Heq.
    destruct (match_update mi peer m v Hm HFm) as (mi' & m' & Hup & Hlen' & HF' & Hm' & Hge & Hq).
    rewrite Hup in Heq. simpl in Heq. rewrite Hm' in Heq. simpl in Heq.
    destruct (zset_bound ni peer (m' + 1) 1) as (ni' & Hni' & Hlni' & HFn' & _); [lia|lia|done|].
    rewrite Hni' in Heq. simpl in Heq.
    set (rf2 := set_nextIndex (Some ni') (set_matchIndex (Some mi') rf)) in *.
    destruct (tryAdvanceCommit_spec rf2) as (x & Hadv & Hmono & Hx & _).
    + exists ni', mi'. split_and!; try done; simpl; lia.
    + pose proof (ok_commit _ Hok). simpl. lia.
    + done.
    + rewrite Hadv in Heq. simpl in Heq. injection Heq as <- _ _. split_and!; try done.
      * intros q y Hy. rewrite Hmi. by apply Hq.
      * simpl in *. destruct (decide (commitIndex rf < x)) as [Hlt|Hge'].
        -- right. destruct (Hx Hlt) as [Hle Hcm]. split; [done|].
           by apply (committable_commitIndex x x rf2).
        -- left. lia.
  - left. destruct (zget ni peer) as [x|]; simpl in Heq; [|done].
    destruct (if 1 <? x then _ else _) as [ni'|]; simpl in Heq; [|done]. injection Heq as <- _ _.
    split; simpl; [done|lia|by apply role_kept_same|by left|done].
Qed.

Lemma refines_reply s B nodes votes a p b applied m peer term args reply k rf rf' (l : list spawn) more p' :
  inv n s -> refines s B nodes votes (a ++ p :: b) applied -> zget nodes m = Some rf ->
  node_ok rf -> me rf = m -> peers rf = N -> 0 <= peer < N ->
  proc_ref s B (PReplReply m peer term args reply) ->
  replicate_reply peer term args reply k rf = Some (rf', l, more) ->
  (forall s', proc_ref s' B p') ->
  exists s', rtc (next N) s s' /\
    refines s' B (<[Z.to_nat m := rf']> nodes) votes (a ++ p' :: b ++ map (proc_of m) l) applied.
Proof.
  intros Hi Hr Hg Hok Hme Hpe Hp [Hta Hack] Heq Hp'.
  destruct (replicate_reply_match peer term args reply k rf rf' l more)
    as [Hk|(Hs & Ht & Hsu & Hv & Hpe' & Hme' & Hmat & Hcom)]; [done|lia|done| |].
  { eapply refines_kept; [done|done|done|by apply ok_log|done|]. intros s' _.
    split; [done|apply proc_of_ref]. }
  pose proof (view_node _ _ _ _ _ _ _ _ Hr Hg) as Hvw.
  destruct (re_nodes _ _ _ _ _ _ Hr m rf Hg) as [Hma Hlen Hco].
  pose proof Hv as Hv2. unfold view in Hv2. injection Hv2 as Ht' Hs' Hl'.
  assert (match_ref s m rf') as Hma'.
  { intros q x Hq Hx H0. rewrite Ht'. destruct (Hmat q x Hx) as [Hx'|[-> ->]].
    - by apply Hma.
    - exists (ae_PrevLogIndex args + zlen (ae_Entries args)). rewrite Ht. split; [|done].
      by apply Hack. }
  exists s. split; [apply rtc_refl|]. eapply refines_node; try done.
  - rewrite Hv. symmetry. apply list_insert_id. by apply zget_Some_lookup in Hvw as [_ ?].
  - apply (re_given _ _ _ _ _ _ Hr).
  - apply (re_led _ _ _ _ _ _ Hr).
  - by eapply zget_Some_range.
  - split; [done|by rewrite Hl'|]. intros Hcap. destruct (Hco Hcap) as [Hcl Hsafe].
    unfold lastLogIndex in *. destruct Hcom as [Hceq|[Hclt Hcm]].
    { by rewrite Hceq, Hl', Ht'. }
    rewrite Hl'. split; [lia|]. right. exists (currentTerm rf'), (upto (commitIndex rf') (log rf')).
    split; [done|]. rewrite <- Hl'. split; [|done].
    pose proof (ok_commit _ Hok). apply (committable_committed s m rf');
      solve [done|by rewrite Hv|congruence|lia].
  - eapply procs_ref_replace; [apply later_refl|apply (re_procs _ _ _ _ _ _ Hr)|done|].
    apply proc_of_ref.
Qed.
End refinement.
End ClusterRefines.
