(* ===== verification/ClusterRuns.v ===== *)
(** Runs of the cluster are runs of the abstract protocol: the sections of the
    goroutines, the steps and the runs of RaftCluster.v, matched by rules of
    RaftSpec.v with the relation of ClusterRefines.v, under losses, reordering
    and crashes. *)
From S2P Require Import Prelude Persister RaftNode RaftFacts RaftSpec RaftSafety RaftCluster ClusterSections ClusterSafety ClusterRefines.
Import Persister Raft RaftFacts RaftSpec RaftSafety RaftCluster ClusterSections ClusterSafety ClusterRefines.

Module ClusterRuns.

Section runs.
Context {Cmd : Type} `{!Gob Z, !Gob (list (LogEntry Cmd))}.
Context (n : nat).
Abbreviation N := (Z.of_nat n).
Abbreviation refines := (ClusterRefines.refines n).
Abbreviation node_ref := (ClusterRefines.node_ref n).
Abbreviation proc_ref := (ClusterRefines.proc_ref n).
Implicit Types (rf : Raft Cmd) (k : tick) (votes : list vote) (c : Cluster Cmd) (p : proc Cmd).
Implicit Types (a b : list (proc Cmd)) (s : system Cmd) (B : Z).

(** ** The sections of the goroutines *)

(** Votes are never withdrawn. *)
Lemma ran_votes c p c' p' sp : ran c p c' p' sp -> c_votes c ⊆ c_votes c'.
Proof.
  intros Hr. destruct Hr; simpl; try done; unfold voted; case_match; simpl; set_solver.
Qed.

(** The run of a goroutine is matched by the protocol. *)
Definition matched s B c procs : Prop :=
  exists s', rtc (next N) s s' /\ refines s' B (c_nodes c) (c_votes c) procs (c_applied c).

(** The ticker: nothing, or a candidacy. *)
Lemma run_ticker s B c a p b m st term clock k rf :
  inv n s -> refines s B (c_nodes c) (c_votes c) (a ++ p :: b) (c_applied c) ->
  zget (c_nodes c) m = Some rf -> log rf <> [] ->
  let '(rf', sp) := ticker_act st term clock k rf in
  exists s', rtc (next N) s s' /\
    refines s' B (<[Z.to_nat m := rf']> (c_nodes c))
      (if currentTerm rf <? currentTerm rf' then c_votes c ++ [(m, currentTerm rf', m)]
       else c_votes c) (a ++ PTicker m :: b ++ map (proc_of m) sp) (c_applied c).
Proof.
  intros Hi Hr Hg Hne.
  assert (forall sp : list spawn, exists s', rtc (next N) s s' /\
    refines s' B (<[Z.to_nat m := rf]> (c_nodes c))
      (if currentTerm rf <? currentTerm rf then c_votes c ++ [(m, currentTerm rf, m)]
       else c_votes c) (a ++ PTicker m :: b ++ map (proc_of m) sp) (c_applied c)) as Hsame.
  { intros sp. rewrite Z.ltb_irrefl.
    eapply refines_kept; [done|done|done|done|apply kept_refl|].
    intros s' _. split; [done|apply proc_of_ref]. }
  assert (forall sp : list spawn, exists s', rtc (next N) s s' /\
    refines s' B (<[Z.to_nat m := becomeCandidateLocked k rf]> (c_nodes c))
      (if currentTerm rf <? currentTerm rf + 1 then c_votes c ++ [(m, currentTerm rf + 1, m)]
       else c_votes c) (a ++ PTicker m :: b ++ map (proc_of m) sp) (c_applied c)) as Hcand.
  { intros sp. destruct (currentTerm rf <? currentTerm rf + 1) eqn:E; bsimp; [|lia].
    eapply refines_candidate; [done|done|done|]. intros s'. split; [done|apply proc_of_ref]. }
  unfold ticker_act. destruct st; [destruct (_ <=? _)..|]; first [apply Hsame|apply Hcand].
Qed.

(** A new election sends the log of the candidate. *)
Lemma election_ref s B i (e : nat) (peer : Z) term rf args :
  inv n s -> zget (servers s) i = Some (view rf) -> me rf = i ->
  startElection term rf = Some args -> proc_ref s B (PVote i e peer args).
Proof.
  intros Hi Hv Hme Hs. unfold startElection in Hs. destruct (_ || _) eqn:E; [done|].
  injection Hs as <-. apply orb_false_iff in E as [Et Es].
  apply negb_false_iff in Et, Es. apply Z.eqb_eq in Et. apply bool_decide_eq_true in Es.
  exists (log rf). simpl. rewrite Hme, <- Et.
  split; [|done]. by apply (sn_candidate _ _ _ (in_servers n s Hi i _ Hv)).
Qed.

(** One goroutine of a cluster runs. *)
Section one_section.
Context (s : system Cmd) (B : Z) (c : Cluster Cmd) (a b : list (proc Cmd)) (p : proc Cmd).
Context (Hi : inv n s).
Context (Hc : cinv N (c_nodes c) (c_elections c) (c_votes c) (a ++ p :: b)).
Context (Hr : refines s B (c_nodes c) (c_votes c) (a ++ p :: b) (c_applied c)).

Lemma section_ref : proc_ref s B p /\ proc_inv N (c_votes c) (c_elections c) p.
Proof.
  pose proof (re_procs _ _ _ _ _ _ _ Hr) as Hq. pose proof (ci_procs _ _ _ _ _ Hc) as Hq'.
  apply Forall_app in Hq as [_ [? _]%Forall_cons]. by apply Forall_app in Hq' as [_ [? _]%Forall_cons].
Qed.

Lemma section_node i rf :
  zget (c_nodes c) i = Some rf ->
  node_inv N (c_votes c) i rf /\ zget (servers s) i = Some (view rf) /\ node_ref s B i rf /\
  node_ok rf /\ 0 <= i < N.
Proof.
  intros Hg. destruct (get_node_inv _ _ _ _ _ _ _ Hc Hg) as [Hn Hran].
  split; [done|]. split; [by eapply view_node|]. split; [by apply (re_nodes _ _ _ _ _ _ _ Hr)|].
  split; [apply Hn|done].
Qed.

Lemma section_kept m rf rf' q (l : list spawn) m' :
  zget (c_nodes c) m = Some rf -> kept rf rf' -> (forall s', proc_ref s' B q) ->
  exists s', rtc (next N) s s' /\ refines s' B (<[Z.to_nat m := rf']> (c_nodes c)) (c_votes c)
    (a ++ q :: b ++ map (proc_of m') l) (c_applied c).
Proof.
  intros Hg Hk Hq. destruct (section_node m rf Hg) as (_ & _ & _ & Hok & _).
  eapply refines_kept; try done; [apply (ok_log _ Hok)|]. intros s' _.
  split; [done|apply proc_of_ref].
Qed.

(** The peer hands the message it will send on its channel to the applier. *)
Lemma section_apply m rf rf' msg :
  zget (c_nodes c) m = Some rf -> applyCommittedEntries rf = Some (Some (rf', msg)) ->
  exists s', rtc (next N) s s' /\ refines s' B (<[Z.to_nat m := rf']> (c_nodes c)) (c_votes c)
    (a ++ PSend m msg :: b ++ []) (c_applied c).
Proof.
  intros Hg Ha. destruct (section_node m rf Hg) as (_ & Hv & Hn & Hok & Hran).
  eapply refines_kept; try done; [apply (ok_log _ Hok)|by eapply kept_apply|]. intros s' Hla.
  split; [|done]. split; [done|]. intros Hcap. eapply msg_ref_later; [done|].
  by eapply apply_ref.
Qed.
End one_section.

Lemma section_send s B c a b m msg :
  inv n s -> refines s B (c_nodes c) (c_votes c) (a ++ PSend m msg :: b) (c_applied c) ->
  exists s', rtc (next N) s s' /\
    refines s' B (c_nodes c) (c_votes c) (a ++ PApply m :: b ++ []) (c_applied c ++ [(m, msg)]).
Proof.
  intros Hi Hr. pose proof (re_procs _ _ _ _ _ _ _ Hr) as Hp.
  apply Forall_app in Hp as [_ [[Hran Hp] _]%Forall_cons].
  destruct (refines_move _ _ _ _ _ _ _ _ _ (PApply m) [] Hr) as (s' & Hst & Hr'); [done|done|].
  exists s'. split; [done|]. destruct (nexts_later n _ _ Hi Hst) as [_ Hla].
  destruct Hr' as [? ? ? ? ? Happ]. split; try done. apply Forall_app. split; [done|].
  constructor; [|done]. split; [done|]. intros Hcap.
  eapply msg_ref_later; [done|]. by apply Hp.
Qed.

Lemma section_moves s B c a b p p' :
  inv n s -> cinv N (c_nodes c) (c_elections c) (c_votes c) (a ++ p :: b) ->
  refines s B (c_nodes c) (c_votes c) (a ++ p :: b) (c_applied c) -> moves_on c p p' ->
  matched s B c (a ++ p' :: b ++ []).
Proof.
  intros Hi Hc Hr Hmo. eapply refines_move; [done| |done].
  destruct (section_ref _ _ _ _ _ _ Hc Hr) as [Hp Hpi].
  destruct Hmo as [| | | | | | |m peer term rf args Hg Hs| | | | | | |]; try done.
  destruct (section_node _ _ _ _ _ _ Hc Hr m rf Hg) as (Hn & Hv & Hnr & Hok & Hran).
  eapply replicate_args; try done. by rewrite (ni_peers _ _ _ _ Hn).
Qed.

(** Every section of the code is steps of the abstract protocol. *)
Lemma ran_refines s B c a p b c' p' sp :
  inv n s -> cinv N (c_nodes c) (c_elections c) (c_votes c) (a ++ p :: b) ->
  refines s B (c_nodes c) (c_votes c) (a ++ p :: b) (c_applied c) ->
  ran c p c' p' sp -> single (c_votes c') -> matched s B c' (a ++ p' :: b ++ sp).
Proof.
  intros Hi Hc Hr Hran Hsg. unfold matched.
  destruct (section_ref _ _ _ _ _ _ Hc Hr) as [Hp Hpi].
  pose proof (section_node _ _ _ _ _ _ Hc Hr) as Hnode.
  pose proof (section_kept _ _ _ _ _ _ Hi Hc Hr) as Hkept.
  destruct Hran as [p p' Hmo|m st term clock k rf rf' l Hg Ha|m rf args Hg Hb
    |m peer args k1 k2 rf rf' r l Hg Ha|m r k rf Hg|m peer term args k1 k2 rf rf' r l Hg Ha
    |m peer term args r k rf rf' l more Hg Hrr|m term rf args Hg Hs|m e el rf el' rf' l He Hw Hg Hee
    |m e peer args k1 k2 rf rf' r Hg Hrv|m e peer r el el' down He Hv|m e el He|m term k rf Hg
    |m rf rf' msg Hg Ha|m msg];
    try (destruct (Hnode _ rf Hg) as (Hn & Hv & Hnr & Hok & Hran); pose proof (ok_log _ Hok) as Hne).
  - by eapply section_moves.
  - pose proof (run_ticker s B c a _ b m st term clock k rf Hi Hr Hg Hne) as H. rewrite Ha in H.
    by destruct (currentTerm rf <? currentTerm rf').
  - eapply refines_move; [done|done|].
    apply Forall_forall. intros q (i & -> & _)%list_elem_of_fmap. by eapply broadcast_args.
  - by eapply (refines_append n s B c).
  - by eapply (Hkept m rf _ _ [] m); [|apply kept_heartbeat|].
  - destruct Hp as [Hta Hargs]. eapply (refines_append n s B c); try done. intros s' _ Hin.
    split; [done|]. intros Hsc. rewrite <- Hta. by apply Hin.
  - eapply (refines_reply _ _ _ _ _ _ _ _ _ m peer term args r k rf); try done; [apply Hn..|].
    intros s'. by destruct more.
  - eapply refines_move; [done|done|].
    apply Forall_forall. intros q (i & -> & _)%list_elem_of_fmap. eapply election_ref; try done. apply Hn.
  - pose proof (refines_election_end _ _ _ _ _ _ _ _ _ _ _ _ _ Hi Hc Hr He Hg Hne) as H. by rewrite Hee in H.
  - by eapply (refines_vote n s B c).
  - eapply refines_move; [done|done|]. destruct down; by repeat constructor.
  - by eapply refines_move.
  - by eapply (Hkept m rf _ _ [] m); [|apply kept_step_down|].
  - exact (section_apply _ _ _ _ _ _ Hi Hc Hr _ _ _ _ Hg Ha).
  - exact (section_send _ _ _ _ _ _ _ Hi Hr).
Qed.

(** ** Runs *)

(** The commands the services submit in a run. *)
Fixpoint commands (acts : list (action Cmd)) : Z :=
  match acts with
  | [] => 0
  | Client _ _ :: acts => 1 + commands acts
  | _ :: acts => commands acts
  end.

Definition cluster_ref s B c : Prop :=
  refines s B (c_nodes c) (c_votes c) (c_procs c) (c_applied c).

Lemma step_refines s B c act c' :
  inv n s -> good N c -> cluster_ref s B c -> step c act = Ret c' -> single (c_votes c') ->
  exists s', rtc (next N) s s' /\ cluster_ref s' (B + commands [act]) c'.
Proof.
  unfold good, cluster_ref. intros Hi Hc Hr Hst Hsg.
  destruct act as [i arrives clock k1 k2|m v|m k]; simpl in Hst |- *; rewrite ?Z.add_0_r.
  - destruct (c_procs c !! i) as [p|] eqn:Hp;
      [|injection Hst as <-; exists s; split; [apply rtc_refl|done]].
    destruct (run p arrives clock k1 k2 c) as [[[c1 p'] sp]| |] eqn:Hrun; simpl in Hst; try done.
    injection Hst as <-. simpl in *. pose proof (lookup_lt_Some _ _ _ Hp) as Hlt.
    rewrite <- (take_drop_middle _ _ _ Hp) in Hc, Hr.
    rewrite insert_take_drop by done. rewrite <- app_assoc. simpl. eapply ran_refines; try done. by eapply run_ran.
  - unfold get_node in Hst. destruct (zget (c_nodes c) m) as [rf|] eqn:Hg; simpl in Hst; [|done].
    destruct (get_node_inv _ _ _ _ _ _ _ Hc Hg) as [Hn _].
    destruct (Start v rf) as [[[rf' r] l]|] eqn:Heq; simpl in Hst; [|done].
    injection Hst as <-. simpl. eapply refines_start; try done; apply Hn.
  - unfold get_node in Hst. destruct (zget (c_nodes c) m) as [rf|] eqn:Hg; simpl in Hst; [|done].
    destruct (get_node_inv _ _ _ _ _ _ _ Hc Hg) as [Hn _].
    pose proof (kept_restart k rf (ni_ok _ _ _ _ Hn) (ni_durable _ _ _ _ Hn)) as Hk.
    set (rf' := (Make (peers rf) (me rf) (persister rf) k).1) in *.
    injection Hst as <-. simpl. pose proof (view_node _ _ _ _ _ _ _ _ _ Hr Hg) as Hv.
    destruct (kept_next n s m rf rf' Hv Hk) as (s' & Hst' & Hsv & Hgv & Hld).
    destruct (nexts_later n _ _ Hi Hst') as [_ Hla]. exists s'. split; [done|].
    eapply (refines_node n s s'); try done.
    + by rewrite Hgv, (re_given _ _ _ _ _ _ _ Hr).
    + rewrite Hld. apply (re_led _ _ _ _ _ _ _ Hr).
    + by eapply zget_Some_range.
    + eapply node_ref_kept; [apply (ok_log _ (ni_ok _ _ _ _ Hn))|done|].
      eapply node_ref_mono; [done|reflexivity|]. by apply (re_nodes _ _ _ _ _ _ _ Hr).
    + apply Forall_app. split; [|by repeat constructor].
      pose proof (procs_ref_mono _ _ _ _ _ _ Hla (Z.le_refl B) (re_procs _ _ _ _ _ _ _ Hr)) as Hps.
      rewrite Forall_forall in Hps. apply Forall_forall.
      intros p (q & -> & Hq)%list_elem_of_fmap. destruct (bool_decide _); [done|by apply Hps].
Qed.

Lemma step_votes c act c' : step c act = Ret c' -> c_votes c ⊆ c_votes c'.
Proof.
  destruct act as [i arrives clock k1 k2|m v|m k]; simpl; intros Hst.
  - destruct (c_procs c !! i) as [p|]; [|by injection Hst as <-].
    destruct (run p arrives clock k1 k2 c) as [[[c1 p'] sp]| |] eqn:Hrun; simpl in Hst; try done.
    injection Hst as <-. exact (ran_votes _ _ _ _ _ (run_ran _ _ _ _ _ _ _ _ _ Hrun)).
  - destruct (get_node m c) as [rf| |]; simpl in Hst; [|done..].
    destruct (Start v rf) as [[[rf' r] l]|]; simpl in Hst; [|done]. by injection Hst as <-.
  - destruct (get_node m c) as [rf| |]; simpl in Hst; [|done..]. by injection Hst as <-.
Qed.

Lemma exec_votes c acts c' : exec c acts = Ret c' -> c_votes c ⊆ c_votes c'.
Proof.
  revert c. induction acts as [|act acts IH]; intros c Hex; simpl in Hex; [by injection Hex as <-|].
  destruct (step c act) as [c1| |] eqn:Hst; simpl in Hex; try done.
  etrans; [by eapply step_votes|by apply IH].
Qed.

Lemma exec_refines s B c acts c' :
  inv n s -> good N c -> cluster_ref s B c -> exec c acts = Ret c' -> single (c_votes c') ->
  exists s', rtc (next N) s s' /\ inv n s' /\ later s s' /\ cluster_ref s' (B + commands acts) c'.
Proof.
  revert s B c. induction acts as [|act acts IH]; intros s B c Hi Hc Hr Hex Hs; simpl in Hex.
  { injection Hex as <-. exists s. rewrite Z.add_0_r. split_and!; try done; apply later_refl. }
  destruct (step c act) as [c1| |] eqn:Hst; simpl in Hex; try done.
  assert (single (c_votes c1)) as Hs1 by (eapply single_mono; [by eapply exec_votes|done]).
  destruct (step_refines s B c act c1 Hi Hc Hr Hst Hs1) as (s1 & Hst1 & Hr1).
  destruct (nexts_later n _ _ Hi Hst1) as [Hi1 Hla1].
  destruct (IH s1 (B + commands [act]) c1) as (s2 & Hst2 & Hi2 & Hla2 & Hr2);
    [done|by eapply step_inv|done|done|done|].
  exists s2. split; [by etrans|]. split; [done|]. split; [by eapply later_trans|].
  replace (B + commands (act :: acts)) with (B + commands [act] + commands acts); [done|].
  destruct act; simpl; lia.
Qed.

Lemma init_refines k : cluster_ref (initial n) 1 (init n k).
Proof.
  split; simpl; try done; try (by intros _; constructor).
  - rewrite !map_map. clear. generalize (Z.of_nat n) as np. intros np. generalize 0%nat as j.
    induction n as [|x IH]; intros j; [done|]. simpl. f_equal. apply IH.
  - intros i rf Hi. apply zget_Some_lookup in Hi as [_ Hi]. rewrite map_map in Hi.
    change (map ?f ?l) with (f <$> l) in Hi. rewrite list_lookup_fmap in Hi.
    destruct (seq 0 n !! Z.to_nat i) as [j|] eqn:Ej; simpl in Hi; [|done]. injection Hi as <-.
    split; [done|done|]. intros _. split; [done|]. left. apply upto_zero.
  - apply Forall_forall. by intros p (m & -> & _)%list_elem_of_fmap.
Qed.

(** Every run of the cluster is a run of the protocol. *)
Lemma run_reached k acts c :
  exec (init n k) acts = Ret c -> single (c_votes c) ->
  exists s, reached n s /\ inv n s /\ cluster_ref s (1 + commands acts) c.
Proof.
  intros Hex Hs.
  destruct (exec_refines (initial n) 1 (init n k) acts c) as (s & Hst & Hi & _ & Hr); try done.
  - apply initial_inv.
  - apply init_good.
  - apply init_refines.
  - by exists s.
Qed.

Lemma reachable_refines c :
  reachable n c -> single (c_votes c) ->
  exists s B, reached n s /\ inv n s /\ cluster_ref s B c.
Proof.
  intros (k & acts & Hex) Hs. destruct (run_reached k acts c Hex Hs) as (s & ? & ? & ?).
  by exists s, (1 + commands acts).
Qed.
End runs.
End ClusterRuns.
