(* ===== verification/ClusterLogs.v ===== *)
(** What the protocol guarantees to the code: log matching, the origin of
    entries, leader completeness and state machine safety, in every reachable
    cluster, as long as no server votes twice in a term. *)
From S2P Require Import Prelude Persister RaftNode RaftFacts RaftSpec RaftSafety RaftCluster ClusterSections ClusterSafety ClusterRefines ClusterRuns.
Import Persister Raft RaftFacts RaftSpec RaftSafety RaftCluster ClusterSections ClusterSafety ClusterRefines ClusterRuns.

Module ClusterLogs.

Section logs.
Context {Cmd : Type} `{!Gob Z, !Gob (list (LogEntry Cmd))}.
Context (n : nat).
Abbreviation N := (Z.of_nat n).
Implicit Types (rf : Raft Cmd) (c : Cluster Cmd) (k : tick) (acts : list (action Cmd)).

(** The server a cluster and a protocol state share. *)
Lemma cluster_server s B c i rf :
  inv n s -> cluster_ref n s B c -> zget (c_nodes c) i = Some rf ->
  zget (servers s) i = Some (view rf) /\ server_inv s i (view rf).
Proof.
  intros Hi Hr Hg. pose proof (view_node _ _ _ _ _ _ _ _ _ Hr Hg) as Hv.
  split; [done|]. by apply (in_servers n).
Qed.

(** C8. Every run of the cluster is a run of the abstract protocol, as long as no
    server voted for two candidates of a term: its servers are the peers seen
    through their term, role and log, and its votes are the votes. *)
Theorem cluster_refines_raft k acts c :
  exec (init n k) acts = Ret c -> single (c_votes c) ->
  exists s, rtc (next N) (initial n) s /\ servers s = map view (c_nodes c) /\
    given s = c_votes c.
Proof.
  intros Hex Hs. destruct (run_reached n k acts c Hex Hs) as (s & Hst & _ & [Hsv Hg _ _ _ _]).
  by exists s.
Qed.

(** C9. Log Matching in every reachable cluster, as long as no server voted for two
    candidates of a term: if two servers have an entry of the same term at the
    same index, their logs are identical up to it. *)
Theorem cluster_log_matching c i j rf rf' x e e' :
  reachable n c -> single (c_votes c) ->
  zget (c_nodes c) i = Some rf -> zget (c_nodes c) j = Some rf' ->
  zget (log rf) x = Some e -> zget (log rf') x = Some e' -> e_Term e = e_Term e' ->
  take (Z.to_nat (x + 1)) (log rf) = take (Z.to_nat (x + 1)) (log rf').
Proof.
  intros Hr Hs Hi Hj He He' Ht. destruct (reachable_refines n c Hr Hs) as (s & B & _ & Hinv & Href).
  destruct (cluster_server s B c i rf Hinv Href Hi) as [_ [_ Hl _ _ _ _ _ _]].
  destruct (cluster_server s B c j rf' Hinv Href Hj) as [_ [_ Hl' _ _ _ _ _ _]].
  by apply (good_log_LM (led s) (log rf) (log rf') Hl Hl' x e e').
Qed.

(** Every entry came from the leader of its term: a server of that term had a
    majority, and while it leads it holds the entry and all that precedes it. *)
Theorem cluster_entry_origin c i rf x e :
  reachable n c -> single (c_votes c) ->
  zget (c_nodes c) i = Some rf -> zget (log rf) x = Some e -> 0 < x ->
  exists ldr, quorum N (c_votes c) ldr (e_Term e) /\
    forall j rfj, zget (c_nodes c) j = Some rfj -> state rfj = Leader ->
      currentTerm rfj = e_Term e ->
      j = ldr /\ take (Z.to_nat (x + 1)) (log rfj) = take (Z.to_nat (x + 1)) (log rf).
Proof.
  intros Hr Hs Hi He Hx. destruct (reachable_refines n c Hr Hs) as (s & B & _ & Hinv & Href).
  destruct (cluster_server s B c i rf Hinv Href Hi) as [_ [_ Hl _ _ _ _ _ _]]. simpl in Hl.
  pose proof (upto_prefix x (log rf)) as Hpre. rewrite (upto_snoc _ _ _ He) in Hpre.
  assert (take (Z.to_nat x) (log rf) <> []) as Hne.
  { apply good_log_ne in Hl. destruct (log rf); [done|]. by destruct (Z.to_nat x) eqn:E; [lia|]. }
  destruct (gl_entry _ _ Hl _ _ Hne Hpre) as (ldr & L & HL & HpL).
  rewrite <- (upto_snoc _ _ _ He) in HpL. exists ldr. split.
  - rewrite <- (re_given _ _ _ _ _ _ _ Href). eapply led_quorum. by apply (in_led n).
  - intros j rfj Hj Hsj Htj. destruct (cluster_server s B c j rfj Hinv Href Hj) as [_ Hij].
    pose proof (sn_leader _ _ _ Hij Hsj) as HG. simpl in HG.
    rewrite Htj, HL in HG. injection HG as -> ->. split; [done|].
    apply take_as_prefix in HpL. apply zget_Some_range in He. unfold upto, zlen in *.
    rewrite HpL, length_take. f_equal. lia.
Qed.

(** C6. Leader Completeness, as long as no server voted for two candidates of one
    term: in a reachable cluster, once a leader knows that a majority stores an
    entry of its term, every leader of its term or a later one, in any later state
    of the cluster up to which there was no such double vote, holds that entry and
    the same log up to it.  (The code lets a heartbeat erase a vote; after a double
    vote the claim can fail.) *)
Theorem leader_completeness c acts c' i rf x j rfj :
  reachable n c -> exec c acts = Ret c' -> single (c_votes c') ->
  zget (c_nodes c) i = Some rf -> state rf = Leader -> 0 < x -> committable rf x ->
  zget (c_nodes c') j = Some rfj -> state rfj = Leader -> currentTerm rf <= currentTerm rfj ->
  take (Z.to_nat (x + 1)) (log rfj) = take (Z.to_nat (x + 1)) (log rf).
Proof.
  intros Hr Hex Hs Hi Hld Hx Hcm Hj Hldj Ht.
  assert (single (c_votes c)) as Hs0 by (eapply single_mono; [by eapply exec_votes|done]).
  pose proof (reachable_good n c Hr) as Hgood.
  destruct (reachable_refines n c Hr Hs0) as (s & B & _ & Hinv & Href).
  destruct (exec_refines n s B c acts c' Hinv Hgood Href Hex Hs) as (s' & _ & Hinv' & Hla & Href').
  destruct (cluster_server s B c i rf Hinv Href Hi) as [Hv _].
  destruct (cluster_server s' _ c' j rfj Hinv' Href' Hj) as [_ Hij].
  destruct (get_node_inv _ _ _ _ _ _ _ Hgood Hi) as [[_ _ Hpe Hme _ _] _].
  pose proof (nr_match _ _ _ _ _ (re_nodes _ _ _ _ _ _ _ Href i rf Hi) Hld) as Hma.
  pose proof (committable_committed n s i rf x Hinv Hv Hma Hme Hpe Hld Hx Hcm) as Hco.
  apply (committed_later n s s') in Hco; [|done].
  pose proof (committed_led n s' _ _ _ j (log rfj) Hinv' Hco Ht (sn_leader _ _ _ Hij Hldj)) as Hpre.
  destruct Hcm as [(e & He & _) _]. apply zget_Some_range in He.
  apply take_as_prefix in Hpre. unfold upto, zlen in *. rewrite Hpre, length_take. f_equal. lia.
Qed.

(** Two messages about one index carry one command. *)
Lemma msgs_agree (s : system Cmd) i j (m m' : ApplyMsg Cmd) :
  inv n s -> msg_ref n s i m -> msg_ref n s j m' -> CommandIndex m = CommandIndex m' ->
  Command m = Command m'.
Proof.
  intros Hinv (T & P & e & HP & _ & _ & _ & He & Hc)
    (T' & P' & e' & HP' & _ & _ & _ & He' & Hc') Hx.
  assert (forall Q Q' : list (LogEntry Cmd), Q `prefix_of` Q' -> forall y z,
    zget Q (CommandIndex m) = Some y -> zget Q' (CommandIndex m) = Some z -> y = z) as Hagree.
  { intros Q Q' [w ->] y z Hy Hz. pose proof (zget_Some_range _ _ _ Hy).
    rewrite zget_app_l in Hz by lia. congruence. }
  rewrite <- Hx in He'. rewrite Hc, Hc'. f_equal.
  destruct (committed_comparable n s T P T' P' Hinv HP HP') as [Hpre|Hpre].
  - by eapply Hagree.
  - symmetry. by eapply Hagree.
Qed.

(** What the services received in a run of at most 100 commands. *)
Lemma run_messages k acts c :
  exec (init n k) acts = Ret c -> single (c_votes c) -> commands acts <= 100 ->
  exists s, inv n s /\ forall im, im ∈ c_applied c -> 0 <= im.1 < N /\ msg_ref n s im.1 im.2.
Proof.
  intros Hex Hs Hcap.
  destruct (run_reached n k acts c Hex Hs) as (s & _ & Hinv & [_ _ _ _ _ Happ]).
  assert (1 + commands acts <= capacity) as Hle by (unfold capacity; lia).
  exists s. split; [done|]. rewrite Forall_forall in Happ. intros im Him.
  destruct (Happ _ Him) as [? Href]. split; [done|]. by apply Href.
Qed.

(** C7. State Machine Safety, for runs of at most 100 commands in which no server
    votes for two candidates of one term: two messages the services received, on
    any servers, at one index carry the same command.
    (Beyond that a follower may commit entries its leader did not verify; and
    with a double vote two leaders may diverge.) *)
Theorem state_machine_safety k acts c i j m m' :
  exec (init n k) acts = Ret c -> single (c_votes c) -> commands acts <= 100 ->
  (i, m) ∈ c_applied c -> (j, m') ∈ c_applied c -> CommandIndex m = CommandIndex m' ->
  Command m = Command m'.
Proof.
  intros Hex Hs Hcap Hm Hm' Hx.
  destruct (run_messages k acts c Hex Hs Hcap) as (s & Hinv & Happ).
  destruct (Happ _ Hm) as [_ Href], (Happ _ Hm') as [_ Href']. by apply (msgs_agree s i j).
Qed.
End logs.

Section witnesses.
(** Server 0 leads, appends 7 and 8, and server 1 has stored the first. *)
Definition replication : list (action Z) :=
  [go 0; go 0; go 3; go 4; go 4; go 3; Client 0 7; go 7; go 7; Client 0 8].

Definition replicating : Cluster Z :=
  match exec start3 replication with Ret c => c | _ => start3 end.

Lemma replicating_runs : exec start3 replication = Ret replicating.
Proof. by vm_compute. Qed.

Lemma replicating_reachable : reachable 3 replicating.
Proof. exists t0, replication. exact replicating_runs. Qed.

Lemma replicating_single : single (c_votes replicating).
Proof. intros v T i j Hi Hj. vm_compute in Hi, Hj. set_solver. Qed.

Lemma cluster_refines_raft_witness :
  exists s, rtc (next 3) (initial 3) s /\ servers s = map view (c_nodes replicating).
Proof.
  destruct (cluster_refines_raft 3 t0 replication replicating replicating_runs replicating_single)
    as (s & Hst & Hsv & _).
  exists s. split; [exact Hst|exact Hsv].
Defined.

Lemma cluster_log_matching_witness :
  exists rf rf', zget (c_nodes replicating) 0 = Some rf /\ zget (c_nodes replicating) 1 = Some rf' /\
    zlen (log rf) = 3 /\ zlen (log rf') = 2 /\ take 2 (log rf) = take 2 (log rf').
Proof.
  destruct (zget (c_nodes replicating) 0) as [rf|] eqn:Hi; [|by vm_compute in Hi].
  destruct (zget (c_nodes replicating) 1) as [rf'|] eqn:Hj; [|by vm_compute in Hj].
  exists rf, rf'. split; [done|]. split; [done|].
  pose proof (cluster_log_matching 3 replicating 0 1 rf rf' 1 (mkEntry 1 (Some 7))
    (mkEntry 1 (Some 7)) replicating_reachable replicating_single Hi Hj) as H.
  vm_compute in Hi, Hj. injection Hi as <-. injection Hj as <-.
  split; [done|]. split; [done|]. by apply H.
Defined.

Lemma cluster_entry_origin_witness :
  exists rf', zget (c_nodes replicating) 1 = Some rf' /\
    exists ldr, quorum 3 (c_votes replicating) ldr 1.
Proof.
  destruct (zget (c_nodes replicating) 1) as [rf'|] eqn:Hj; [|by vm_compute in Hj].
  exists rf'. split; [done|].
  destruct (cluster_entry_origin 3 replicating 1 rf' 1 (mkEntry 1 (Some 7))
    replicating_reachable replicating_single Hj) as (ldr & HQ & _); [|done|by exists ldr].
  vm_compute in Hj. by injection Hj as <-.
Defined.

(** The first entry is acknowledged and applied; then server 1 is elected,
    appends 9 and replicates its log to server 2, and applies in turn. *)
Definition acknowledge : list (action Z) := replication ++ [go 7].
Definition takeover : list (action Z) := 
  [go 11; go 11; go 1; go 1; go 12; go 14; go 14; go 12; Client 1 9].
Definition second_apply : list (action Z) :=
  [go 17; go 17; go 17; go 17; go 17; go 17; go 18; go 18].

Definition acknowledged : Cluster Z :=
  match exec start3 acknowledge with Ret c => c | _ => start3 end.

Definition taken_over : Cluster Z :=
  match exec acknowledged takeover with Ret c => c | _ => start3 end.

Definition applied_twice : Cluster Z :=
  match exec start3 (acknowledge ++ takeover ++ second_apply) with Ret c => c | _ => start3 end.

Lemma acknowledged_runs : exec start3 acknowledge = Ret acknowledged.
Proof. by vm_compute. Qed.

Lemma taken_over_runs : exec acknowledged takeover = Ret taken_over.
Proof. by vm_compute. Qed.

Lemma taken_over_single : single (c_votes taken_over).
Proof. intros v T i j Hi Hj. vm_compute in Hi, Hj. set_solver. Qed.

Lemma leader_completeness_witness :
  exists rf rfj, zget (c_nodes acknowledged) 0 = Some rf /\
    zget (c_nodes taken_over) 1 = Some rfj /\ state rfj = Leader /\
    currentTerm rf = 1 /\ currentTerm rfj = 2 /\ take 2 (log rfj) = take 2 (log rf).
Proof.
  destruct (zget (c_nodes acknowledged) 0) as [rf|] eqn:Hi; [|by vm_compute in Hi].
  destruct (zget (c_nodes taken_over) 1) as [rfj|] eqn:Hj; [|by vm_compute in Hj].
  exists rf, rfj. split; [done|]. split; [done|].
  assert (reachable 3 acknowledged) as Hr by (exists t0, acknowledge; exact acknowledged_runs).
  pose proof (leader_completeness 3 acknowledged takeover taken_over 0 rf 1 1 rfj Hr
    taken_over_runs taken_over_single Hi) as H.
  vm_compute in Hi. injection Hi as <-. vm_compute in Hj. injection Hj as <-.
  split; [done|]. split; [done|]. split; [done|].
  apply H; try done. split; [by eexists|]. by vm_compute.
Defined.

Lemma applied_twice_runs : exec start3 (acknowledge ++ takeover ++ second_apply) = Ret applied_twice.
Proof. by vm_compute. Qed.

Lemma applied_twice_single : single (c_votes applied_twice).
Proof. intros v T i j Hi Hj. vm_compute in Hi, Hj. set_solver. Qed.

(** Servers 0 and 1 both apply at index 1. *)
Lemma state_machine_safety_witness :
  (0, msg 1 7) ∈ c_applied applied_twice /\ (1, msg 1 7) ∈ c_applied applied_twice /\
  Command (msg 1 7) = Command (msg 1 7).
Proof.
  assert ((0, msg 1 7) ∈ c_applied applied_twice) as H0 by (apply (list_elem_of_lookup_2 _ 0); by vm_compute).
  assert ((1, msg 1 7) ∈ c_applied applied_twice) as H1 by (apply (list_elem_of_lookup_2 _ 1); by vm_compute).
  split; [exact H0|]. split; [exact H1|].
  apply (state_machine_safety 3 t0 (acknowledge ++ takeover ++ second_apply) applied_twice 0 1
    (msg 1 7) (msg 1 7) applied_twice_runs applied_twice_single); [by vm_compute|done..].
Defined.

(** ** More commands than one call carries *)

Definition every (m : nat) (f : nat -> action Z) : list (action Z) := map f (seq 0 m).

Definition again (m i : nat) : list (action Z) := repeat (go i) m.

(** Server 1 leads term 1: the others store its first 100 commands, and it
    alone a 101st. *)
Definition shared_then_stale : list (action Z) :=
  [go 1; go 1; go 3; go 4; go 4; go 3] ++ every 100 (fun i => Client 1 (Z.of_nat i)) ++
  [go 7; go 7; go 8; go 8; Client 1 1001].

(** Server 0 leads term 2, appends its own 101st command, crashes, and leads
    term 3 with 101 more. *)
Definition two_terms : list (action Z) :=
  [go 0; go 0; go 209; go 211; go 211; go 209; Client 0 2001;
   Restart 0 t0; go 215; go 215; go 216; go 218; go 218; go 216] ++
  every 101 (fun i => Client 0 (3000 + Z.of_nat i)).

(** The goroutines of the 101 commands all probe server 1 at the same index
    before any of them hears that it does not match. *)
Definition probes : list (action Z) :=
  every 101 (fun i => go (220 + 2 * i)) ++ every 101 (fun i => go (220 + 2 * i)) ++
  every 101 (fun i => go (220 + 2 * i)).

(** Server 2 stores what server 0 sends, which commits it; server 1 receives
    the first 100 entries, with that commit index.  Both apply. *)
Definition commit_and_apply : list (action Z) :=
  again 6 221 ++ again 2 220 ++ again 202 422 ++ again 202 423.

Definition beyond_capacity : list (action Z) :=
  shared_then_stale ++ two_terms ++ probes ++ commit_and_apply.

Definition applied_at (x : Z) (c : Cluster Z) : list (Z * option Z) :=
  map (fun a => (a.1, Command a.2)) (filter (fun a => CommandIndex a.2 = x) (c_applied c)).

(** C38. Without the bound state machine safety fails, although no server votes
    twice: the commit index of a follower is the leader's, cut at its own last
    entry and not at the last entry the call verified, so it applies an entry
    of a deposed leader. *)
Theorem unverified_commit_diverges :
  exists c : Cluster Z, reachable 3 c /\ single (c_votes c) /\
    applied_at 101 c = [(0, Some 2001); (1, Some 1001)].
Proof.
  assert (match exec start3 beyond_capacity with
    | Ret c => bool_decide (c_votes c =
        [(1, 1, 1); (0, 1, 1); (0, 2, 0); (2, 2, 0); (0, 3, 0); (2, 3, 0)]) &&
        bool_decide (applied_at 101 c = [(0, Some 2001); (1, Some 1001)])
    | _ => false end = true) as Hrun by (vm_compute; reflexivity).
  destruct (exec start3 beyond_capacity) as [c| |] eqn:Hex; [|done..].
  apply andb_true_iff in Hrun as [Hv%bool_decide_eq_true Ha%bool_decide_eq_true].
  exists c. split; [by exists t0, beyond_capacity|]. split; [|done].
  rewrite Hv. intros v T i j Hi%list_elem_of_In Hj%list_elem_of_In.
  simpl in Hi, Hj. intuition congruence.
Qed.
End witnesses.
End ClusterLogs.
