(* ===== verification/ClusterValidity.v ===== *)
(** Where the entries of the logs come from: every command in a log, in a call
    or on an apply channel was submitted to [Start], whatever the interleaving,
    the losses and the crashes. *)
From S2P Require Import Prelude Persister RaftNode RaftFacts RaftSpec RaftCluster ClusterSections ClusterSafety ClusterRefines ClusterRuns.
Import Persister Raft RaftFacts RaftSpec RaftCluster ClusterSections ClusterSafety ClusterRefines ClusterRuns.

Module ClusterValidity.

Section validity.
Context {Cmd : Type} `{!Gob Z, !Gob (list (LogEntry Cmd))}.
Context (n : nat).
Abbreviation N := (Z.of_nat n).
Implicit Types (rf : Raft Cmd) (l : list (LogEntry Cmd)) (c : Cluster Cmd) (p : proc Cmd).
Implicit Types (k : tick) (args : AppendEntriesArgs Cmd) (ok : Cmd -> Prop).

(** ** The commands that satisfy [ok] *)

Definition cmd_sound ok (o : option Cmd) : Prop := from_option ok True o.

Definition log_sound ok l : Prop := Forall (fun e => cmd_sound ok (e_Command e)) l.

Definition node_sound ok rf : Prop := log_sound ok (log rf).

Definition proc_sound ok p : Prop :=
  match p with
  | PHeart _ _ args | PReplCall _ _ _ args => log_sound ok (ae_Entries args)
  | PSend _ msg => cmd_sound ok (Command msg)
  | _ => True
  end.

Record sound ok c : Prop := {
  so_nodes : Forall (node_sound ok) (c_nodes c);
  so_procs : Forall (proc_sound ok) (c_procs c);
  so_sent : Forall (fun m => cmd_sound ok (Command m.2)) (c_applied c) }.

Lemma cmd_sound_mono ok ok' o : (forall v, ok v -> ok' v) -> cmd_sound ok o -> cmd_sound ok' o.
Proof. intros Hle. destruct o; [apply Hle|done]. Qed.

Lemma log_sound_mono ok ok' l : (forall v, ok v -> ok' v) -> log_sound ok l -> log_sound ok' l.
Proof. intros Hle Hl. eapply Forall_impl; [exact Hl|]. intros e. by apply cmd_sound_mono. Qed.

Lemma sound_mono ok ok' c : (forall v, ok v -> ok' v) -> sound ok c -> sound ok' c.
Proof.
  intros Hle [Hn Hp Hs]. split.
  - eapply Forall_impl; [exact Hn|]. intros rf. by apply log_sound_mono.
  - eapply Forall_impl; [exact Hp|]. intros [] H; try done; simpl in *;
      solve [by eapply log_sound_mono|by eapply cmd_sound_mono].
  - eapply Forall_impl; [exact Hs|]. intros m. by apply cmd_sound_mono.
Qed.

Lemma proc_of_sound ok i (sp : list spawn) : Forall (proc_sound ok) (map (proc_of i) sp).
Proof. apply Forall_forall. intros p (x & -> & _)%list_elem_of_fmap. by destruct x. Qed.

(** ** The operations *)

(** A follower keeps a prefix of its log and appends entries of the call. *)
Lemma append_sound ok args k1 k2 rf rf' r (sp : list spawn) :
  node_ok rf -> 0 <= ae_PrevLogIndex args -> node_sound ok rf ->
  log_sound ok (ae_Entries args) -> AppendEntries args k1 k2 rf = Some (rf', r, sp) ->
  node_sound ok rf'.
Proof.
  intros [_ Hne _ _ _] Hp Hrf Hes Heq. unfold node_sound.
  destruct (AppendEntries_cases args k1 k2 rf Hne Hp)
    as (rf1 & r1 & sp1 & Heq1 & _ & _ & Hold & Hrej & Hacc).
  rewrite Heq in Heq1. injection Heq1 as <- <- <-.
  destruct (decide (ae_Term args < currentTerm rf)); [by destruct Hold as [-> _]|].
  destruct (prev_matches_spec args rf) as (b & _ & Hiff). destruct b.
  - destruct (Hacc ltac:(lia) (proj1 Hiff eq_refl)) as (l & rest & [_ _ _ -> _ _ _ _] & Hfc & _).
    destruct (proj1 Hiff eq_refl) as [Hlt _].
    destruct (find_conflict_spec (log rf) (ae_PrevLogIndex args + 1) (ae_Entries args))
      as (l' & pre & rest' & Hfc' & Hes' & _ & Hl); [lia|].
    rewrite Hfc in Hfc'. injection Hfc' as <- <-. unfold log_sound in *. rewrite Hes' in Hes.
    apply Forall_app in Hes as [_ Hrest]. apply Forall_app. split; [|done].
    destruct Hl as [[_ ->]|(_ & -> & _)]; [done|by apply Forall_take].
  - destruct Hrej as ([_ _ _ -> _ _ _ _] & _); [lia|by intros ?%Hiff|done].
Qed.

Lemma replicate_reply_log peer term args reply k rf rf' (sp : list spawn) more :
  node_ok rf -> 0 <= peer < peers rf ->
  replicate_reply peer term args reply k rf = Some (rf', sp, more) -> log rf' = log rf.
Proof.
  intros Hok Hp Heq. destruct (replicate_reply_match _ _ _ _ _ _ _ _ _ Hok Hp Heq)
    as [[Hl _ _ _ _]|(_ & _ & _ & Hv & _)]; [done|]. by injection Hv.
Qed.

Lemma ticker_log st term clock k rf : log (ticker_act st term clock k rf).1 = log rf.
Proof. unfold ticker_act. by repeat case_match. Qed.

Lemma election_end_log el rf : log (election_end el rf).1.2 = log rf.
Proof. unfold election_end. simpl. by repeat case_match. Qed.

(** A leader sends a slice of its log. *)
Lemma broadcast_sound ok rf args :
  broadcastAppendEntries rf = Some (Some args) -> log_sound ok (ae_Entries args).
Proof.
  intros Hb. unfold broadcastAppendEntries in Hb. destruct (negb _); [done|].
  destruct (if _ && _ && _ then _ else _) as [pt|]; simpl in Hb; [|done].
  injection Hb as <-. constructor.
Qed.

Lemma send_sound ok peer term rf args :
  node_sound ok rf -> replicate_send peer term rf = Some (Some args) ->
  log_sound ok (ae_Entries args).
Proof.
  intros Hrf Hb. unfold replicate_send in Hb. destruct (killed rf); [done|].
  destruct (_ || _); [done|]. destruct (peer =? me rf); [done|].
  destruct (nextIndex rf) as [ni|]; [|done]. destruct (matchIndex rf); [|done].
  destruct (zget ni peer) as [nx|]; [|done]. simpl in Hb. destruct (lastLogIndex rf <? nx); [done|].
  destruct (if (0 <? nx - 1) && _ then _ else _) as [pt|]; simpl in Hb; [|done].
  destruct (zslice _ _ _) as [es|] eqn:Esl; simpl in Hb; [|done]. injection Hb as <-. simpl.
  apply zslice_Some in Esl as (_ & _ & ->). by apply Forall_take, Forall_drop.
Qed.

Lemma apply_sound ok rf rf' msg :
  node_sound ok rf -> applyCommittedEntries rf = Some (Some (rf', msg)) ->
  node_sound ok rf' /\ cmd_sound ok (Command msg).
Proof.
  intros Hrf (_ & -> & e & He & ->)%apply_cases. split; [done|]. simpl.
  apply zget_Some_lookup in He as [_ He].
  exact (Forall_lookup_1 _ _ _ _ Hrf He).
Qed.

(** ** Steps *)

Section one_step.
Context (ok : Cmd -> Prop) (c : Cluster Cmd).
Context (Hg : good N c) (Hc : sound ok c).

Lemma sound_node i rf :
  zget (c_nodes c) i = Some rf ->
  node_sound ok rf /\ node_ok rf /\ durable rf /\ peers rf = N /\ me rf = i.
Proof.
  intros Hi. destruct (get_node_inv _ _ _ _ _ _ _ Hg Hi) as [[] _].
  split; [|done]. apply zget_Some_lookup in Hi as [_ Hi].
  exact (Forall_lookup_1 _ _ _ _ (so_nodes _ _ Hc) Hi).
Qed.

(** What a section must leave. *)
Definition sound_after c' (ps : list (proc Cmd)) : Prop :=
  Forall (node_sound ok) (c_nodes c') /\
  Forall (fun m => cmd_sound ok (Command m.2)) (c_applied c') /\ Forall (proc_sound ok) ps.

Lemma sound_move ps : Forall (proc_sound ok) ps -> sound_after c ps.
Proof. intros Hps. by destruct Hc. Qed.

(** One server changed. *)
Lemma sound_set c' i rf ps :
  c_nodes c' = <[Z.to_nat i := rf]> (c_nodes c) -> c_applied c' = c_applied c ->
  node_sound ok rf -> Forall (proc_sound ok) ps -> sound_after c' ps.
Proof.
  intros Hn' Ha' Hrf Hps. unfold sound_after. rewrite Hn', Ha'.
  destruct Hc as [Hn _ Hs]. split; [by apply Forall_insert|done].
Qed.

Lemma sound_kept c' i rf rf' ps :
  zget (c_nodes c) i = Some rf -> log rf' = log rf ->
  c_nodes c' = <[Z.to_nat i := rf']> (c_nodes c) -> c_applied c' = c_applied c ->
  Forall (proc_sound ok) ps -> sound_after c' ps.
Proof.
  intros Hi Hl Hn Ha Hps. destruct (sound_node i rf Hi) as [Hrf _].
  eapply sound_set; [exact Hn|exact Ha| |done]. unfold node_sound. by rewrite Hl.
Qed.

Lemma sound_append peer args k1 k2 rf rf' r (l : list spawn) p' :
  0 <= ae_PrevLogIndex args -> log_sound ok (ae_Entries args) -> proc_sound ok p' ->
  zget (c_nodes c) peer = Some rf -> AppendEntries args k1 k2 rf = Some (rf', r, l) ->
  sound_after (set_node peer rf' c) (p' :: map (proc_of peer) l).
Proof.
  intros Hp Hes Hp' Hi Ha. destruct (sound_node peer rf Hi) as (Hrf & Hok & _).
  eapply sound_set; [done|done|by eapply append_sound|]. constructor; [done|apply proc_of_sound].
Qed.

Lemma sound_moves p p' : moves_on c p p' -> proc_sound ok p -> sound_after c [p'].
Proof.
  intros Hmo Hp. apply sound_move. constructor; [|constructor].
  destruct Hmo as [| | | | | | |m peer term rf args Hi Hs| | | | | | |]; try done.
  eapply send_sound; [|exact Hs]. by apply (sound_node m rf).
Qed.

Lemma RequestVote_log (args : RequestVoteArgs) k1 k2 rf : log (RequestVote args k1 k2 rf).1 = log rf.
Proof.
  pose proof (RequestVote_cases args k1 k2 rf) as Hcases.
  destruct (RequestVote args k1 k2 rf) as [rf' r]. by destruct Hcases as (rf1 & _ & _ & [Hl _ _ _ _] & _).
Qed.

Lemma ran_sound p c' p' sp :
  proc_inv N (c_votes c) (c_elections c) p -> proc_sound ok p ->
  ran c p c' p' sp -> sound_after c' (p' :: sp).
Proof.
  intros Hpi Hp Hran.
  destruct Hran as [p p' Hmo|m st term clock k rf rf' l Hi Ha|m rf args Hi Hb
    |m peer args k1 k2 rf rf' r l Hi Ha|m r k rf Hi|m peer term args k1 k2 rf rf' r l Hi Ha
    |m peer term args r k rf rf' l more Hi Hrr|m term rf args Hi Hs|m e el rf el' rf' l He Hw Hi Hee
    |m e peer args k1 k2 rf rf' r Hi Hv|m e peer r el el' down He Hv|m e el He|m term k rf Hi
    |m rf rf' msg Hi Ha|m msg];
    try (destruct (sound_node _ rf Hi) as (Hrf & Hok & _ & Hpe & Hme)).
  - by eapply sound_moves.
  - pose proof (ticker_log st term clock k rf) as Hl. rewrite Ha in Hl.
    eapply sound_kept; [exact Hi|done|by unfold voted; case_match..|]. constructor; [done|apply proc_of_sound].
  - apply sound_move. constructor; [done|].
    apply Forall_forall. intros q (i & -> & _)%list_elem_of_fmap. by eapply broadcast_sound.
  - by eapply sound_append.
  - eapply sound_kept; [exact Hi| |done..|by repeat constructor]. apply kept_heartbeat.
  - destruct Hpi as [_ Hpi]. by eapply sound_append.
  - eapply sound_kept; [exact Hi| |done..|].
    + eapply replicate_reply_log; [done| |exact Hrr]. by rewrite Hpe.
    + constructor; [by destruct more|apply proc_of_sound].
  - apply (sound_move (_ :: _)). constructor; [done|].
    apply Forall_forall. by intros q (i & -> & _)%list_elem_of_fmap.
  - pose proof (election_end_log el rf) as Hl. rewrite Hee in Hl.
    eapply sound_kept; [exact Hi|done..|]. constructor; [done|apply proc_of_sound].
  - pose proof (RequestVote_log args k1 k2 rf) as Hl. rewrite Hv in Hl.
    eapply sound_kept; [exact Hi|exact Hl|by unfold voted; case_match..|by repeat constructor].
  - apply (sound_move (_ :: _)). constructor; [done|]. destruct down; by repeat constructor.
  - by apply (sound_move [PDone]); repeat constructor.
  - eapply sound_kept; [exact Hi| |done..|by repeat constructor]. apply kept_step_down.
  - destruct (apply_sound ok rf rf' msg Hrf Ha). eapply sound_set; [done..|by repeat constructor].
  - destruct Hc as [Hn _ Hs]. split; [done|].
    split; [|by repeat constructor]. apply Forall_app. split; [done|]. by constructor.
Qed.
End one_step.

Lemma step_sound ok c act c' :
  good N c -> sound ok c -> (forall m v, act = Client m v -> ok v) -> step c act = Ret c' ->
  sound ok c'.
Proof.
  intros Hg Hc Hact Hst. destruct act as [i arrives clock k1 k2|m v|m k]; simpl in Hst.
  - destruct (c_procs c !! i) as [p|] eqn:Hp; [|by injection Hst as <-].
    destruct (run p arrives clock k1 k2 c) as [[[c1 p'] sp]| |] eqn:Hrun; simpl in Hst; try done.
    injection Hst as <-.
    pose proof (Forall_lookup_1 _ _ _ _ (so_procs _ _ Hc) Hp) as Hps.
    pose proof (Forall_lookup_1 _ _ _ _ (ci_procs _ _ _ _ _ Hg) Hp) as Hpi.
    destruct (ran_sound ok c Hg Hc p c1 p' sp Hpi Hps (run_ran _ _ _ _ _ _ _ _ _ Hrun))
      as (Hn & Ha & [Hp' Hsp]%Forall_cons).
    split; [done| |done]. simpl. apply Forall_app. split; [|done].
    apply Forall_insert; [apply (so_procs _ _ Hc)|done].
  - unfold get_node in Hst. destruct (zget (c_nodes c) m) as [rf|] eqn:Hi; simpl in Hst; [|done].
    destruct (sound_node ok c Hg Hc m rf Hi) as (Hrf & Hok & _).
    destruct (Start_cases v rf Hok) as (rf' & r & sp & Heq & _ & _ & _ & _ & _ & Hcase).
    rewrite Heq in Hst. simpl in Hst. injection Hst as <-. destruct Hc as [Hn Hp Hs]. split; simpl.
    + apply Forall_insert; [done|]. unfold node_sound.
      destruct Hcase as [(_ & -> & _)|(_ & _ & -> & _)]; [done|].
      apply Forall_app. split; [done|]. constructor; [|done]. by apply (Hact m v).
    + apply Forall_app. split; [done|apply proc_of_sound].
    + done.
  - unfold get_node in Hst. destruct (zget (c_nodes c) m) as [rf|] eqn:Hi; simpl in Hst; [|done].
    destruct (sound_node ok c Hg Hc m rf Hi) as (Hrf & Hok & Hd & _).
    destruct (restart_ok k rf Hok Hd) as (_ & _ & _ & Hl).
    assert (node_sound ok (Make (peers rf) (me rf) (persister rf) k).1) as Hrf'.
    { unfold node_sound. by rewrite Hl. }
    injection Hst as <-. destruct Hc as [Hn Hp Hs]. split; simpl.
    + by apply Forall_insert.
    + apply Forall_app. split; [|by repeat constructor].
      apply Forall_fmap, (Forall_impl _ _ _ Hp). intros q Hq. simpl. by destruct (bool_decide _).
    + done.
Qed.

(** ** Runs *)

(** The commands the services submitted. *)
Definition submitted (acts : list (action Cmd)) (v : Cmd) : Prop := exists m, Client m v ∈ acts.

Lemma exec_sound ok c acts c' :
  good N c -> sound ok c -> (forall v, submitted acts v -> ok v) -> exec c acts = Ret c' ->
  sound ok c'.
Proof.
  revert c. induction acts as [|act acts IH]; intros c Hg Hc Hacts; simpl.
  { by intros [= <-]. }
  destruct (step c act) as [c1| |] eqn:Hst; simpl; try done. apply IH.
  - by eapply step_inv.
  - eapply step_sound; [exact Hg|exact Hc| |exact Hst]. intros m v ->. apply Hacts. exists m. set_solver.
  - intros v (m & Hm). apply Hacts. exists m. set_solver.
Qed.

Lemma init_sound ok k : sound ok (init n k : Cluster Cmd).
Proof.
  split; [| |constructor].
  - apply Forall_forall. intros rf (sp & -> & (m & -> & _)%list_elem_of_fmap)%list_elem_of_fmap.
    by repeat constructor.
  - apply Forall_forall. by intros p (m & -> & _)%list_elem_of_fmap.
Qed.

(** C14. Validity: whatever the interleaving, the losses and the crashes, and even if
    servers vote twice, every command in the log of a server, and every command
    a service receives, was submitted to [Start] earlier in the run. *)
Theorem cluster_validity k acts c :
  exec (init n k) acts = Ret c ->
  (forall i rf x e v, zget (c_nodes c) i = Some rf -> zget (log rf) x = Some e ->
     e_Command e = Some v -> submitted acts v) /\
  (forall i msg v, (i, msg) ∈ c_applied c -> Command msg = Some v -> submitted acts v).
Proof.
  intros Hex.
  assert (sound (submitted acts) c) as [Hn _ Hs].
  { eapply exec_sound; [|apply init_sound| |exact Hex]; [|done]. apply init_good. }
  rewrite Forall_forall in Hn. rewrite Forall_forall in Hs. split.
  - intros i rf x e v [_ Hi]%zget_Some_lookup [_ He]%zget_Some_lookup Hv.
    apply list_elem_of_lookup_2 in Hi, He. specialize (Hn _ Hi). unfold node_sound, log_sound in Hn.
    rewrite Forall_forall in Hn. specialize (Hn _ He). by rewrite Hv in Hn.
  - intros i msg v Hin Hv. specialize (Hs _ Hin). simpl in Hs. by rewrite Hv in Hs.
Qed.
End validity.

Section witnesses.
Definition diverged : Cluster Z :=
  match exec start3 split_brain with Ret c => c | _ => start3 end.

Lemma diverged_runs : exec start3 split_brain = Ret diverged.
Proof. by vm_compute. Qed.

Lemma diverged_applied : (1, msg 1 8) ∈ c_applied diverged.
Proof. apply (list_elem_of_lookup_2 _ 1). by vm_compute. Qed.

(** The commands of two leaders of one term were all submitted. *)
Lemma cluster_validity_witness :
  (1, msg 1 8) ∈ c_applied diverged /\ submitted split_brain 8.
Proof.
  split; [exact diverged_applied|].
  exact (proj2 (cluster_validity 3 t0 split_brain diverged diverged_runs) 1 (msg 1 8) 8
    diverged_applied eq_refl).
Defined.
End witnesses.
End ClusterValidity.
