(* ===== verification/ClusterProgress.v ===== *)
(** The cluster never gets stuck: from every state it can reach there is a way
    on, without a crash and without a loss, to a state with a leader.  The
    schedule is built section by section: a server whose log is at least as
    up to date as every other one times out until its term is the highest, asks
    for votes, gets all of them, and leads. *)
From S2P Require Import Prelude Persister RaftNode RaftFacts RaftSpec RaftCluster ClusterSections ClusterSafety.
Import Persister Raft RaftFacts RaftSpec RaftCluster ClusterSections ClusterSafety.

Module ClusterProgress.

Section progress.
Context {Cmd : Type} `{!Gob Z, !Gob (list (LogEntry Cmd))}.
Implicit Types (rf : Raft Cmd) (c : Cluster Cmd) (p : proc Cmd) (sp : list (proc Cmd)).
Implicit Types (k : tick) (args : AppendEntriesArgs Cmd) (N : Z).

(** ** Awake clusters: no server is killed, and each has its ticker *)

Definition ticking (m : Z) p : Prop :=
  match p with PTicker i | PTickerAct i _ _ => i = m | _ => False end.

Record awake c : Prop := {
  aw_alive : Forall (fun rf => dead rf = 0) (c_nodes c);
  aw_ticker m : 0 <= m < zlen (c_nodes c) ->
    exists j p, c_procs c !! j = Some p /\ ticking m p }.

(** What a section leaves: as many servers, all of them alive, and a ticker a
    ticker. *)
Definition awake_after c p (c' : Cluster Cmd) p' : Prop :=
  Forall (fun rf => dead rf = 0) (c_nodes c') /\ zlen (c_nodes c') = zlen (c_nodes c) /\
  (forall m, ticking m p -> ticking m p').

Lemma alive_node c m rf : awake c -> zget (c_nodes c) m = Some rf -> dead rf = 0.
Proof. intros [Ha _] [_ Hm]%zget_Some_lookup. exact (Forall_lookup_1 _ _ _ _ Ha Hm). Qed.

Lemma alive_set c m rf rf' :
  awake c -> zget (c_nodes c) m = Some rf -> dead rf' = dead rf ->
  Forall (fun rf => dead rf = 0) (<[Z.to_nat m := rf']> (c_nodes c)).
Proof.
  intros Hc Hm Hd. apply Forall_insert; [apply Hc|]. rewrite Hd. by eapply alive_node.
Qed.

Lemma ran_awake c p c' p' sp : awake c -> ran c p c' p' sp -> awake_after c p c' p'.
Proof.
  intros Hc Hr. enough (Forall (fun rf => dead rf = 0) (c_nodes c') /\ zlen (c_nodes c') = zlen (c_nodes c))
    as [? ?].
  { split; [done|]. split; [done|]. destruct Hr as [p p' Hmo| | | | | | | | | | | | | |]; try done.
    destruct Hmo as [|m rf Hm Hk| | | | | | | | | | | | |]; try done.
    unfold ticker_read, killed in Hk. by rewrite (alive_node _ _ _ Hc Hm) in Hk. }
  destruct (ran_touched _ _ _ _ _ Hr) as [c' ->|c' m rf rf' Hm -> [Hd _ _]
    |c' m args k1 k2 rf rf' r l Hm -> _ Ha|c' m rf rf' msg Hm -> Ha _ _].
  - split; [apply Hc|done].
  - split; [by eapply alive_set|by rewrite zlen_insert].
  - apply AppendEntries_served in Ha as [Hd _]. split; [by eapply alive_set|by rewrite zlen_insert].
  - split; [|by rewrite zlen_insert]. eapply alive_set; [done|exact Hm|].
    by destruct (apply_cases _ _ _ Ha) as (_ & -> & _).
Qed.

(** A ticker is found again after its section. *)
Lemma ticker_insert (procs : list (proc Cmd)) j p p' m sp :
  procs !! j = Some p -> (ticking m p -> ticking m p') ->
  (exists i q, procs !! i = Some q /\ ticking m q) ->
  exists i q, (<[j := p']> procs ++ sp) !! i = Some q /\ ticking m q.
Proof.
  intros Hj Hp (i & q & Hi & Hq). pose proof (lookup_lt_Some _ _ _ Hj).
  destruct (decide (i = j)) as [->|Hne].
  - exists j, p'. split; [|apply Hp; congruence].
    rewrite lookup_app_l by (by rewrite length_insert). by apply list_lookup_insert_eq.
  - exists i, q. split; [|done]. apply lookup_app_l_Some. by rewrite list_lookup_insert_ne.
Qed.

Lemma step_awake c act c' : awake c -> step c act = Ret c' -> awake c'.
Proof.
  intros Hc Hst. destruct act as [j arrives clock k1 k2|m v|m k]; simpl in Hst.
  - destruct (c_procs c !! j) as [p|] eqn:Hp; [|by injection Hst as <-].
    destruct (run p arrives clock k1 k2 c) as [[[c1 p'] sp]| |] eqn:Hrun; simpl in Hst; try done.
    injection Hst as <-. destruct (ran_awake _ _ _ _ _ Hc (run_ran _ _ _ _ _ _ _ _ _ Hrun)) as (Ha & Hlen & Ht).
    split; simpl; [done|]. intros m Hm. eapply ticker_insert; [done|apply Ht|].
    apply Hc. by rewrite <- Hlen.
  - unfold get_node in Hst. destruct (zget (c_nodes c) m) as [rf|] eqn:Hi; simpl in Hst; [|done].
    destruct (Start v rf) as [[[rf' r] sp]|] eqn:Hs; simpl in Hst; [|done]. injection Hst as <-.
    destruct (held_Start _ _ _ _ _ Hs) as [Hd _ _].
    split; simpl.
    + by eapply alive_set.
    + intros i. rewrite zlen_insert. intros Hr. destruct (aw_ticker _ Hc i Hr) as (j & p & Hj & Hp).
      exists j, p. split; [by apply lookup_app_l_Some|done].
  - unfold get_node in Hst. destruct (zget (c_nodes c) m) as [rf|] eqn:Hi; simpl in Hst; [|done].
    destruct (Make_fresh (peers rf) (me rf) (persister rf) k) as [Hd _].
    injection Hst as <-. split; cbn [c_nodes c_procs set_procs set_node set_nodes].
    + eapply alive_set; [done|exact Hi|]. etrans; [exact Hd|]. by rewrite (alive_node _ _ _ Hc Hi).
    + intros i. rewrite zlen_insert. intros Hr. destruct (decide (i = m)) as [->|Hne].
      * eexists _, (PTicker m). split; [|done]. rewrite lookup_app_r, length_fmap, Nat.sub_diag; [done|].
        by rewrite length_fmap.
      * destruct (aw_ticker _ Hc i Hr) as (j & p & Hj & Hp). exists j, p. split; [|done].
        apply lookup_app_l_Some. rewrite list_lookup_fmap, Hj. simpl.
        rewrite bool_decide_eq_false_2; [done|]. destruct p; simpl in *; congruence.
Qed.

Lemma init_awake n k : awake (init n k : Cluster Cmd).
Proof.
  split.
  - apply Forall_forall. by intros rf (sp & -> & (m & -> & _)%list_elem_of_fmap)%list_elem_of_fmap.
  - intros m. simpl. unfold zlen. rewrite !length_map, length_seq. intros Hm.
    exists (Z.to_nat m), (PTicker m). split; [|done].
    rewrite list_lookup_fmap, lookup_seq_lt by lia. simpl. do 2 f_equal. lia.
Qed.

(** What every reachable cluster satisfies. *)
Definition live N c : Prop := good N c /\ awake c.

Lemma exec_live N c acts c' : live N c -> exec c acts = Ret c' -> live N c'.
Proof.
  revert c. induction acts as [|act acts IH]; intros c Hc; simpl; [by intros [= <-]|].
  destruct (step c act) as [c1| |] eqn:Hst; simpl; try done. apply IH. destruct Hc as [Hg Ha].
  split; [by eapply step_inv|by eapply step_awake].
Qed.

Lemma reachable_live n c : reachable n c -> live (Z.of_nat n) c.
Proof.
  intros (k & acts & Hex). eapply exec_live; [|exact Hex].
  split; [apply init_good|apply init_awake].
Qed.

(** ** Schedules without crashes and losses *)

Definition smooth (act : action Cmd) : Prop :=
  match act with Run _ arrives _ _ _ => arrives = true | _ => False end.

Definition goes c c' : Prop := exists acts, Forall smooth acts /\ exec c acts = Ret c'.

Lemma exec_app c acts acts' c' :
  exec c acts = Ret c' -> exec c (acts ++ acts') = exec c' acts'.
Proof.
  revert c. induction acts as [|act acts IH]; intros c; simpl; [by intros [= ->]|].
  destruct (step c act); simpl; try done. apply IH.
Qed.

#[export] Instance goes_preorder : PreOrder goes.
Proof.
  split.
  - intros c. by exists [].
  - intros c1 c2 c3 (acts & Ha & Hx) (acts' & Ha' & Hx'). exists (acts ++ acts').
    split; [by apply Forall_app|]. by rewrite (exec_app _ _ _ _ Hx).
Qed.

Lemma goes_live N c c' : live N c -> goes c c' -> live N c'.
Proof. intros Hc (acts & _ & Hx). by eapply exec_live. Qed.

(** One section of goroutine [j]. *)
Lemma goes_run c j p clock k1 k2 c1 p' sp :
  c_procs c !! j = Some p -> run p true clock k1 k2 c = Ret (c1, p', sp) ->
  goes c (set_procs (<[j := p']> (c_procs c) ++ sp) c1).
Proof.
  intros Hj Hr. exists [Run j true clock k1 k2]. split; [by repeat constructor|].
  simpl. rewrite Hj. by rewrite Hr.
Qed.

(** The new goroutines and the one that ran. *)
Lemma ran_lookup (procs : list (proc Cmd)) j p p' sp :
  procs !! j = Some p -> (<[j := p']> procs ++ sp) !! j = Some p'.
Proof.
  intros Hj. apply lookup_app_l_Some, list_lookup_insert_eq. by eapply lookup_lt_Some.
Qed.

Lemma ran_new (procs : list (proc Cmd)) j p' sp i :
  (<[j := p']> procs ++ sp) !! (length procs + i)%nat = sp !! i.
Proof.
  rewrite lookup_app_r; rewrite length_insert; [|lia]. f_equal. lia.
Qed.

Lemma ran_other (procs : list (proc Cmd)) j p' sp i q :
  i <> j -> procs !! i = Some q -> (<[j := p']> procs ++ sp) !! i = Some q.
Proof. intros Hne Hi. apply lookup_app_l_Some. by rewrite list_lookup_insert_ne. Qed.

(** What a section does, seen from the outside. *)
Record moved c c1 j p' sp c' : Prop := {
  mv_goes : goes c c';
  mv_nodes : c_nodes c' = c_nodes c1;
  mv_applied : c_applied c' = c_applied c1;
  mv_self : c_procs c' !! j = Some p';
  mv_new i q : sp !! i = Some q -> c_procs c' !! (length (c_procs c) + i)%nat = Some q;
  mv_other i q : i <> j -> c_procs c !! i = Some q -> c_procs c' !! i = Some q }.

Lemma moves c j p clock k1 k2 c1 p' sp :
  c_procs c !! j = Some p -> run p true clock k1 k2 c = Ret (c1, p', sp) ->
  exists c', moved c c1 j p' sp c'.
Proof.
  intros Hj Hr. eexists. split; [by eapply goes_run|done|done|by eapply ran_lookup| |].
  - intros i q Hi. simpl. by rewrite ran_new.
  - intros i q. apply ran_other.
Qed.

Lemma get_node_some c m rf : zget (c_nodes c) m = Some rf -> get_node m c = Ret rf.
Proof. unfold get_node. by intros ->. Qed.

Lemma live_node N c m rf :
  live N c -> zget (c_nodes c) m = Some rf ->
  node_ok rf /\ peers rf = N /\ me rf = m /\ 0 <= m < N /\ dead rf = 0.
Proof.
  intros [Hg Ha] Hm. destruct (get_node_inv _ _ _ _ _ _ _ Hg Hm) as [[Hok _ Hp Hme _ _] Hr].
  split_and!; try done; try lia. apply zget_Some_lookup in Hm as [_ Hm].
  exact (Forall_lookup_1 _ _ _ _ (aw_alive _ Ha) Hm).
Qed.

Lemma live_len N c : live N c -> zlen (c_nodes c) = N.
Proof. intros [Hg _]. by destruct Hg. Qed.

(** Section by section nothing but the goroutines moves. *)
Record idle c c' : Prop := {
  id_nodes : c_nodes c' = c_nodes c;
  id_elections : c_elections c' = c_elections c }.

(** The ticker of server [m] gets to its loop's head. *)
Lemma to_loop_head N c m :
  live N c -> 0 <= m < N ->
  exists c' j, goes c c' /\ idle c c' /\ c_procs c' !! j = Some (PTicker m).
Proof.
  intros Hc Hm. destruct (aw_ticker _ (proj2 Hc) m) as (j & p & Hj & Hp);
    [by rewrite (live_len N)|].
  destruct p as [|i|i st term| | | | | | | | | | | | | |]; try done; simpl in Hp; subst i;
    [by exists c, j|].
  destruct (proj2 (zget_is_Some (c_nodes c) m)) as [rf Hi]; [by rewrite (live_len N)|].
  set (clock := lastElectionReset rf + electionTimeout rf - 1).
  assert (exists sp : list spawn, ticker_act st term clock (mkTick 0 0) rf = (rf, sp)) as [sp Hact].
  { unfold ticker_act, clock. destruct st; [destruct (_ <=? _) eqn:E; bsimp; [lia|eauto]..|eauto]. }
  eexists _, j. split.
  - eapply (goes_run _ _ _ clock (mkTick 0 0) (mkTick 0 0)); [exact Hj|]. simpl.
    rewrite (get_node_some _ _ _ Hi). cbn [mbind result_bind]. rewrite Hact, Z.ltb_irrefl, set_node_id by done.
    done.
  - split; [done|]. by eapply ran_lookup.
Qed.

(** The same server: only its role, term, vote and timer may differ. *)
Record same_log rf rf' : Prop := {
  sl_peers : peers rf' = peers rf;
  sl_me : me rf' = me rf;
  sl_log : log rf' = log rf;
  sl_commit : commitIndex rf' = commitIndex rf;
  sl_applied : lastApplied rf' = lastApplied rf }.

#[export] Instance same_log_preorder : PreOrder same_log.
Proof. split; [by split|]. intros x y z [] []. split; congruence. Qed.

(** A server that does not lead times out: it is a candidate, and its election
    is about to start. *)
Lemma times_out N c m rf :
  live N c -> zget (c_nodes c) m = Some rf -> state rf <> Leader ->
  exists c' rf' j, goes c c' /\ c_nodes c' = <[Z.to_nat m := rf']> (c_nodes c) /\
    same_log rf rf' /\ state rf' = Candidate /\ currentTerm rf' = currentTerm rf + 1 /\
    c_procs c' !! j = Some (PElection m (currentTerm rf')).
Proof.
  intros Hc Hm Hs. destruct (live_node _ _ _ _ Hc Hm) as (_ & _ & _ & Hr & Hd).
  destruct (to_loop_head N c m Hc Hr) as (c1 & j & Hgo1 & [Hn1 _] & Hj1).
  set (k := mkTick 0 0).
  assert (run (PTicker m) true 0 k k c1 = Ret (c1, PTickerAct m (state rf) (currentTerm rf), [])) as Hrun.
  { simpl. rewrite (get_node_some _ _ rf) by congruence. cbn [mbind result_bind].
    unfold ticker_read, killed. by rewrite Hd. }
  pose proof (goes_run _ _ _ _ _ _ _ _ _ Hj1 Hrun) as Hgo2.
  set (c2 := set_procs _ c1) in Hgo2.
  set (clock := lastElectionReset rf + electionTimeout rf).
  assert (ticker_act (state rf) (currentTerm rf) clock k rf =
    (becomeCandidateLocked k rf, [SpawnElection (currentTerm rf + 1)])) as Hact.
  { unfold ticker_act, clock. destruct (state rf); try done;
      (destruct (_ <=? _) eqn:E; bsimp; [done|lia]). }
  assert (c_procs c2 !! j = Some (PTickerAct m (state rf) (currentTerm rf))) as Hj2
    by (by eapply ran_lookup).
  eexists _, (becomeCandidateLocked k rf), (length (c_procs c2) + 0)%nat. split; [|split; [|split; [|split; [|split]]]].
  - rewrite Hgo1, Hgo2. eapply (goes_run _ _ _ clock k k); [exact Hj2|].
    simpl. rewrite (get_node_some _ _ rf) by (by rewrite <- Hm, <- Hn1).
    cbn [mbind result_bind]. rewrite Hact. done.
  - simpl. case_match; simpl; by rewrite <- Hn1.
  - done.
  - done.
  - done.
  - apply ran_new.
Qed.

(** Timing out again and again takes its term past any other. *)
Lemma raises_term N c m rf T :
  live N c -> zget (c_nodes c) m = Some rf -> state rf <> Leader ->
  exists c' rf' j, goes c c' /\ c_nodes c' = <[Z.to_nat m := rf']> (c_nodes c) /\
    same_log rf rf' /\ state rf' = Candidate /\ T < currentTerm rf' /\
    c_procs c' !! j = Some (PElection m (currentTerm rf')).
Proof.
  intros Hc Hm Hs. remember (Z.to_nat (T - currentTerm rf)) as d eqn:Hd.
  revert c rf Hc Hm Hs Hd. induction d as [|d IH]; intros c rf Hc Hm Hs Hd;
    destruct (times_out N c m rf Hc Hm Hs) as (c1 & rf1 & j1 & Hgo1 & Hn1 & Hsl1 & Hs1 & Ht1 & Hj1).
  - exists c1, rf1, j1. split_and!; try done. lia.
  - assert (zget (c_nodes c1) m = Some rf1) as Hm1.
    { rewrite Hn1. apply zget_insert_eq. by eapply zget_Some_range. }
    destruct (IH c1 rf1) as (c2 & rf2 & j2 & Hgo2 & Hn2 & Hsl2 & Hs2 & Ht2 & Hj2);
      [by eapply goes_live|done|by rewrite Hs1|lia|].
    exists c2, rf2, j2. split; [by etrans|]. split; [by rewrite Hn2, Hn1, list_insert_insert_eq|].
    split; [by etrans|done].
Qed.

(** ** Votes *)

(** A server heard of a higher term: it follows, its log untouched. *)
Record heard (T : Z) rf rf' : Prop := {
  he_same : same_log rf rf';
  he_state : state rf' = Follower;
  he_term : currentTerm rf' = T }.

Lemma becomeFollower_heard T k rf : heard T rf (becomeFollowerLocked T k rf).
Proof.
  destruct (becomeFollower_fields T k rf) as (? & ? & ? & _ & ? & ? & ? & ? & _). by split.
Qed.

(** A request of a higher term: the vote depends on the logs only. *)
Lemma RequestVote_newer (args : RequestVoteArgs) k1 k2 rf :
  currentTerm rf < rv_Term args ->
  heard (rv_Term args) rf (RequestVote args k1 k2 rf).1 /\
  rvr_VoteGranted (RequestVote args k1 k2 rf).2 = candidateUpToDateLocked rf args.
Proof.
  intros Ht. unfold RequestVote.
  destruct (rv_Term args <? currentTerm rf) eqn:E1; bsimp; [lia|].
  assert ((currentTerm rf <? rv_Term args) = true) as -> by (apply Z.ltb_lt; lia).
  destruct (becomeFollower_heard (rv_Term args) k1 rf) as [Hsl Hs Hte].
  assert (votedFor (becomeFollowerLocked (rv_Term args) k1 rf) = -1) as Hv
    by (by destruct (becomeFollower_fields (rv_Term args) k1 rf) as (_ & _ & _ & ? & _)).
  set (rf1 := becomeFollowerLocked (rv_Term args) k1 rf) in *. rewrite Hv. simpl.
  assert (candidateUpToDateLocked rf1 args = candidateUpToDateLocked rf args) as ->.
  { unfold candidateUpToDateLocked, lastLogTerm, lastLogIndex. by rewrite (sl_log _ _ Hsl). }
  clearbody rf1. destruct Hsl. destruct (candidateUpToDateLocked rf args); by repeat split.
Qed.

(** The arguments of the requests of server [m]. *)
Definition vote_args rf : RequestVoteArgs :=
  mkRVArgs (currentTerm rf) (me rf) (lastLogIndex rf) (lastLogTerm rf).

(** The election starts: requests to the others. *)
Lemma starts_election c m rf j :
  zget (c_nodes c) m = Some rf -> state rf = Candidate ->
  c_procs c !! j = Some (PElection m (currentTerm rf)) ->
  exists c', goes c c' /\ c_nodes c' = c_nodes c /\
    c_elections c' = c_elections c ++ [newElection (currentTerm rf) rf] /\
    c_procs c' = <[j := PWait m (length (c_elections c))]> (c_procs c) ++
      map (fun i => PVote m (length (c_elections c)) i (vote_args rf)) (other_peers rf).
Proof.
  intros Hm Hs Hj. set (k := mkTick 0 0). eexists. split; [|split; [|split]].
  - eapply (goes_run _ _ _ 0 k k); [exact Hj|]. simpl. rewrite (get_node_some _ _ _ Hm). simpl.
    unfold startElection. rewrite Z.eqb_refl, bool_decide_eq_true_2 by done. simpl. done.
  - done.
  - done.
  - done.
Qed.

(** One vote more. *)
Definition counted (el : Election) : Election :=
  mkElection (el_term el) (el_node el) (el_peersCount el) (votes el + 1) (finished el + 1) false.

(** One request is answered: the voter hears of the term, and the election has
    one vote more if the candidate is up to date. *)
Lemma asks_vote c m e q (args : RequestVoteArgs) rf el j :
  c_procs c !! j = Some (PVote m e q args) -> zget (c_nodes c) q = Some rf ->
  c_elections c !! e = Some el -> electionDone el = false ->
  currentTerm rf < rv_Term args -> candidateUpToDateLocked rf args = true ->
  exists c' rf', goes c c' /\ heard (rv_Term args) rf rf' /\
    c_nodes c' = <[Z.to_nat q := rf']> (c_nodes c) /\
    c_elections c' = <[e := counted el]> (c_elections c) /\
    c_procs c' = <[j := PDone]> (c_procs c).
Proof.
  intros Hj Hq He Hdone Ht Hup. set (k := mkTick 0 0).
  destruct (RequestVote_newer args k k rf Ht) as [Hh Hg]. rewrite Hup in Hg.
  destruct (RequestVote args k k rf) as [rf' r] eqn:Hrv. simpl in Hh, Hg.
  assert (run (PVote m e q args) true 0 k k c =
    Ret (add_vote (q, rv_Term args, rv_CandidateId args) (set_node q rf' c),
         PVoteReply m e q r, [])) as Hrun.
  { simpl. unfold serve_vote. rewrite (get_node_some _ _ _ Hq). simpl. rewrite Hrv, Hg. done. }
  pose proof (goes_run _ _ _ _ _ _ _ _ _ Hj Hrun) as Hgo.
  eexists _, rf'. split; [|split; [exact Hh|split; [|split]]].
  - rewrite Hgo. eapply (goes_run _ _ _ 0 k k); [by eapply ran_lookup|]. simpl.
    rewrite He. simpl. unfold vote_reply. rewrite Hdone, Hg. simpl. done.
  - done.
  - done.
  - simpl. rewrite !app_nil_r. by rewrite list_insert_insert_eq.
Qed.

(** All of them answer. *)
Lemma collects_votes m e (args : RequestVoteArgs) rest : forall c pre el,
  c_procs c = pre ++ map (fun i => PVote m e i args) rest ->
  c_elections c !! e = Some el -> electionDone el = false -> NoDup rest ->
  (forall q, q ∈ rest -> exists rf, zget (c_nodes c) q = Some rf /\
     currentTerm rf < rv_Term args /\ candidateUpToDateLocked rf args = true) ->
  exists c' el', goes c c' /\
    (forall q, q ∉ rest -> zget (c_nodes c') q = zget (c_nodes c) q) /\
    (forall q rf, q ∈ rest -> zget (c_nodes c) q = Some rf ->
       exists rf', zget (c_nodes c') q = Some rf' /\ heard (rv_Term args) rf rf') /\
    c_elections c' !! e = Some el' /\ el_term el' = el_term el /\
    el_peersCount el' = el_peersCount el /\ votes el' = votes el + zlen rest /\
    electionDone el' = false /\
    (forall j p, pre !! j = Some p -> c_procs c' !! j = Some p).
Proof.
  induction rest as [|q rest IH]; intros c pre el Hp He Hd Hnd Hq.
  { exists c, el. rewrite Hp, app_nil_r, zlen_nil, Z.add_0_r. split; [done|].
    split_and!; try done. intros q rf Hin. by apply elem_of_nil in Hin. }
  apply NoDup_cons in Hnd as [Hnin Hnd].
  destruct (Hq q) as (rf & Hrf & Ht & Hup); [set_solver|].
  assert (c_procs c !! length pre = Some (PVote m e q args)) as Hj.
  { rewrite Hp. by apply list_lookup_middle. }
  destruct (asks_vote _ _ _ _ _ _ _ _ Hj Hrf He Hd Ht Hup) as (c1 & rf1 & Hgo1 & Hh1 & Hn1 & He1 & Hp1).
  assert (forall q', q' <> q -> zget (c_nodes c1) q' = zget (c_nodes c) q') as Hne.
  { intros q' Hne. rewrite Hn1. apply zget_Some_range in Hrf. by apply zget_insert_ne; [lia|]. }
  destruct (IH c1 (pre ++ [PDone]) (counted el)) as (c2 & el2 & Hgo2 & Ho2 & Hh2 & He2 & Ht2 & Hpc2 & Hv2 & Hd2 & Hp2).
  { rewrite Hp1, Hp, insert_app_r_alt, Nat.sub_diag by lia. simpl. by rewrite <- app_assoc. }
  { rewrite He1. apply list_lookup_insert_eq. by eapply lookup_lt_Some. }
  { done. }
  { done. }
  { intros q' Hin. rewrite Hne by (intros ->; done). apply Hq. set_solver. }
  exists c2, el2. split; [by etrans|]. split; [|split; [|split_and!; try done]].
  - intros q' Hnot. rewrite Ho2 by set_solver. apply Hne. set_solver.
  - intros q' rf' [->|Hin]%elem_of_cons Hq'.
    + exists rf1. rewrite Ho2 by done. rewrite Hq' in Hrf. injection Hrf as ->.
      split; [|done]. rewrite Hn1. apply zget_insert_eq. by apply zget_Some_range in Hq'.
    + apply Hh2; [done|]. rewrite Hne; [done|]. by intros ->.
  - rewrite Hv2, zlen_cons. simpl. lia.
  - intros j p Hjp. apply Hp2. by apply lookup_app_l_Some.
Qed.

Lemma range_peers_NoDup rf : NoDup (range_peers rf).
Proof. unfold range_peers. apply NoDup_fmap; [apply _|apply NoDup_seq]. Qed.

Lemma other_peers_NoDup rf : NoDup (other_peers rf).
Proof. apply NoDup_filter, range_peers_NoDup. Qed.

Lemma elem_of_other_peers rf q : q ∈ other_peers rf <-> q <> me rf /\ 0 <= q < peers rf.
Proof. unfold other_peers. by rewrite list_elem_of_filter, range_peers_lt. Qed.

Lemma zlen_other_peers rf : 0 <= me rf < peers rf -> zlen (other_peers rf) = peers rf - 1.
Proof.
  intros Hm. assert (range_peers rf ≡ₚ me rf :: other_peers rf) as Hp.
  { apply NoDup_Permutation; [apply range_peers_NoDup| |].
    - apply NoDup_cons. split; [rewrite elem_of_other_peers; tauto|apply other_peers_NoDup].
    - intros q. rewrite elem_of_cons, elem_of_other_peers, range_peers_lt.
      split; [|intros [->|?]; lia]. intros Hq. destruct (decide (q = me rf)); tauto. }
  apply Permutation_length in Hp. unfold range_peers in Hp.
  rewrite length_map, length_seq in Hp. simpl in Hp. unfold zlen. lia.
Qed.

(** A candidate past the terms of the others, and as up to date as they are, is
    elected. *)
Lemma wins N c m rf j :
  live N c -> zget (c_nodes c) m = Some rf -> state rf = Candidate ->
  c_procs c !! j = Some (PElection m (currentTerm rf)) ->
  (forall q x, q <> m -> zget (c_nodes c) q = Some x ->
     currentTerm x < currentTerm rf /\ candidateUpToDateLocked x (vote_args rf) = true) ->
  exists c', goes c c' /\ zget (c_nodes c') m = Some (becomeLeaderLocked rf).1 /\
    forall q x, q <> m -> zget (c_nodes c) q = Some x ->
      exists x', zget (c_nodes c') q = Some x' /\ heard (currentTerm rf) x x'.
Proof.
  intros Hc Hm Hs Hj Hq. destruct (live_node _ _ _ _ Hc Hm) as (Hok & Hp & Hme & Hr & _).
  destruct (starts_election _ _ _ _ Hm Hs Hj) as (c1 & Hgo1 & Hn1 & He1 & Hp1).
  set (e := length (c_elections c)) in *.
  destruct (collects_votes m e (vote_args rf) (other_peers rf) c1 (<[j := PWait m e]> (c_procs c))
    (newElection (currentTerm rf) rf))
    as (c2 & el & Hgo2 & Ho2 & Hh2 & He2 & Ht2 & Hpc2 & Hv2 & Hd2 & Hp2).
  { done. }
  { rewrite He1. by apply list_lookup_middle. }
  { done. }
  { apply other_peers_NoDup. }
  { intros q [Hne Hrq]%elem_of_other_peers. rewrite Hn1, Hme in *. rewrite Hp in Hrq.
    destruct (proj2 (zget_is_Some (c_nodes c) q)) as [x Hx]; [by rewrite (live_len N)|].
    exists x. split; [done|by apply (Hq q)]. }
  assert (c_procs c2 !! j = Some (PWait m e)) as Hj2.
  { apply Hp2, list_lookup_insert_eq. by eapply lookup_lt_Some. }
  assert (zget (c_nodes c2) m = Some rf) as Hm2.
  { rewrite Ho2, Hn1; [done|]. rewrite elem_of_other_peers, Hme. tauto. }
  assert (votes el = N) as Hv.
  { rewrite Hv2, zlen_other_peers by apply Hok. simpl. lia. }
  assert (el_peersCount el = N) as Hpc by (rewrite Hpc2; exact Hp).
  assert (N / 2 < N) as Hhalf by (apply Z.div_lt; lia).
  set (k := mkTick 0 0). eexists. split; [|split].
  - rewrite Hgo1, Hgo2. eapply (goes_run _ _ _ 0 k k); [exact Hj2|]. simpl. rewrite He2. simpl.
    assert (election_waits el = false) as ->.
    { unfold election_waits. rewrite Hv, Hpc. destruct (N <=? N / 2) eqn:E; bsimp; [lia|done]. }
    rewrite (get_node_some _ _ _ Hm2). simpl. unfold election_end. rewrite Hpc, Hv, Ht2. simpl.
    assert ((N / 2 <? N) = true) as -> by (by apply Z.ltb_lt).
    rewrite Z.eqb_refl, bool_decide_eq_true_2 by done. simpl. done.
  - simpl. apply zget_insert_eq. by apply zget_Some_range in Hm2.
  - intros q x Hne Hx. simpl. rewrite zget_insert_ne by (done || lia). rewrite <- Hn1 in Hx.
    apply (Hh2 q x); [|done]. apply elem_of_other_peers. split; [congruence|].
    apply zget_Some_range in Hx. rewrite Hn1, (live_len N) in Hx by done. lia.
Qed.

(** ** The most up-to-date server *)

Lemma up_to_date_lex (x : Raft Cmd) rf :
  candidateUpToDateLocked x (vote_args rf) = true <->
  lastLogTerm x < lastLogTerm rf \/
  lastLogTerm x = lastLogTerm rf /\ lastLogIndex x <= lastLogIndex rf.
Proof.
  unfold candidateUpToDateLocked, vote_args. simpl.
  destruct (Z.eqb_spec (lastLogTerm rf) (lastLogTerm x)) as [He|He]; simpl.
  - rewrite Z.leb_le. lia.
  - rewrite Z.ltb_lt. lia.
Qed.

Lemma up_to_date_log (x x' rf rf' : Raft Cmd) :
  log x' = log x -> log rf' = log rf ->
  candidateUpToDateLocked x' (vote_args rf') = candidateUpToDateLocked x (vote_args rf).
Proof. unfold candidateUpToDateLocked, vote_args, lastLogTerm, lastLogIndex. simpl. by intros -> ->. Qed.

Lemma freshest (l : list (Raft Cmd)) :
  l <> [] -> exists i rf, zget l i = Some rf /\
    forall j x, zget l j = Some x -> candidateUpToDateLocked x (vote_args rf) = true.
Proof.
  intros Hne. enough (exists rf, rf ∈ l /\ forall x, x ∈ l ->
    candidateUpToDateLocked x (vote_args rf) = true) as (rf & Hrf & Hmax).
  { apply list_elem_of_lookup in Hrf as [i Hi]. exists (Z.of_nat i), rf. split.
    - apply zget_Some_lookup. split; [lia|by rewrite Nat2Z.id].
    - intros j x [_ Hj]%zget_Some_lookup. apply Hmax. by eapply list_elem_of_lookup_2. }
  induction l as [|a [|b l] IH]; [done| |].
  - exists a. split; [set_solver|]. intros x ->%list_elem_of_singleton. apply up_to_date_lex. lia.
  - destruct IH as (rf & Hrf & Hmax); [done|].
    destruct (candidateUpToDateLocked a (vote_args rf)) eqn:E.
    + exists rf. split; [set_solver|]. intros x [->|Hx]%elem_of_cons; [done|by apply Hmax].
    + exists a. split; [set_solver|]. apply not_true_iff_false in E. rewrite up_to_date_lex in E.
      intros x [->|Hx]%elem_of_cons; apply up_to_date_lex; [lia|].
      specialize (Hmax x Hx). rewrite up_to_date_lex in Hmax. lia.
Qed.

Definition highest_term (l : list (Raft Cmd)) : Z := foldr (fun rf T => Z.max (currentTerm rf) T) 0 l.

Lemma highest_term_le l i rf : zget l i = Some rf -> currentTerm rf <= highest_term l.
Proof.
  intros [_ Hi]%zget_Some_lookup. apply list_elem_of_lookup_2 in Hi. revert Hi.
  induction l as [|a l IH]; [by intros ?%elem_of_nil|]. simpl.
  intros [->|Hi]%elem_of_cons; [lia|]. specialize (IH Hi). lia.
Qed.

(** A server that does not lead and is as up to date as the others comes to
    lead, in a term that the others are in too. *)
Lemma comes_to_lead N c m rf :
  live N c -> zget (c_nodes c) m = Some rf -> state rf <> Leader ->
  (forall q x, zget (c_nodes c) q = Some x -> candidateUpToDateLocked x (vote_args rf) = true) ->
  exists c' rf', goes c c' /\ zget (c_nodes c') m = Some (becomeLeaderLocked rf').1 /\
    same_log rf rf' /\
    forall q x, q <> m -> zget (c_nodes c) q = Some x ->
      exists x', zget (c_nodes c') q = Some x' /\ heard (currentTerm rf') x x'.
Proof.
  intros Hc Hm Hs Hmax.
  destruct (raises_term N c m rf (highest_term (c_nodes c)) Hc Hm Hs)
    as (c1 & rf1 & j & Hgo1 & Hn1 & Hsl1 & Hs1 & Ht1 & Hj1).
  pose proof (zget_Some_range _ _ _ Hm) as Hr.
  assert (forall q, q <> m -> zget (c_nodes c1) q = zget (c_nodes c) q) as Hne.
  { intros q Hq. rewrite Hn1. by apply zget_insert_ne; [lia|]. }
  destruct (wins N c1 m rf1 j) as (c2 & Hgo2 & Hm2 & Hq2); try done.
  - by eapply goes_live.
  - rewrite Hn1. by apply zget_insert_eq.
  - intros q x Hq Hx. rewrite Hne in Hx by done. split.
    + apply highest_term_le in Hx. lia.
    + rewrite (up_to_date_log x x rf rf1); [by eapply Hmax|done|apply Hsl1].
  - exists c2, rf1. split; [by etrans|]. split; [done|]. split; [done|].
    intros q x Hq Hx. apply Hq2; [done|]. by rewrite Hne.
Qed.

(** C11. No deadlock in the elections: from every state a cluster can reach there is
    a continuation, without crashes and without losses, to a state with a
    leader; even if servers voted twice on the way there. *)
Theorem cluster_can_elect n c :
  reachable n c -> (0 < n)%nat ->
  exists acts c' i T, Forall smooth acts /\ exec c acts = Ret c' /\ is_leader c' i T.
Proof.
  intros Hre Hn. pose proof (reachable_live n c Hre) as Hc.
  destruct (decide (Exists (fun rf => state rf = Leader) (c_nodes c))) as [Hex|Hno].
  - apply Exists_exists in Hex as (rf & [i Hi]%list_elem_of_lookup & Hs).
    exists [], c, (Z.of_nat i), (currentTerm rf). split; [done|]. split; [done|].
    exists rf. split; [|done]. apply zget_Some_lookup. split; [lia|by rewrite Nat2Z.id].
  - destruct (freshest (c_nodes c)) as (m & rf & Hm & Hmax).
    { intros Hnil. pose proof (live_len _ _ Hc) as Hl. rewrite Hnil, zlen_nil in Hl. lia. }
    assert (state rf <> Leader) as Hs.
    { intros Hl. apply Hno, Exists_exists. exists rf. split; [|done].
      apply zget_Some_lookup in Hm as [_ Hm]. by eapply list_elem_of_lookup_2. }
    destruct (comes_to_lead _ _ _ _ Hc Hm Hs Hmax) as (c' & rf' & (acts & Ha & Hx) & Hm' & _).
    exists acts, c', m, (currentTerm rf'). split; [done|]. split; [done|].
    by eexists.
Qed.
End progress.

Section witnesses.
(** Three servers that have not run yet. *)
Lemma cluster_can_elect_witness :
  exists acts c' i T, Forall smooth acts /\ exec start3 acts = Ret c' /\ is_leader c' i T.
Proof. apply (cluster_can_elect 3 start3); [by exists t0, []|lia]. Defined.
End witnesses.
End ClusterProgress.
