(* ===== verification/ClusterCommit.v ===== *)
(** The cluster can always make progress: from every reachable state of two or
    more servers in which no server has lost entries it committed, and for every
    command, there is a way on, without a crash and without a loss, in which a
    leader takes the command, replicates it to the others, commits it and hands
    it to its service.  A single server, in contrast, never commits. *)
From S2P Require Import Prelude Persister RaftNode RaftFacts RaftProps RaftSpec RaftCluster ClusterSections ClusterSafety ClusterProgress.
Import Persister Raft RaftFacts RaftProps RaftSpec RaftCluster ClusterSections ClusterSafety ClusterProgress.

Module ClusterCommit.

Section commit.
Context {Cmd : Type} `{!Gob Z, !Gob (list (LogEntry Cmd))}.
Implicit Types (rf x y : Raft Cmd) (c : Cluster Cmd) (l : list (LogEntry Cmd)).
Implicit Types (args : AppendEntriesArgs Cmd) (N : Z).

(** What a server applied it knows to be committed, and still has. *)
Definition settled rf : Prop :=
  lastApplied rf <= commitIndex rf /\ commitIndex rf <= lastLogIndex rf.

Lemma same_log_settled x y : same_log x y -> settled x -> settled y.
Proof. intros [_ _ Hl Hc Ha]. unfold settled, lastLogIndex. by rewrite Hl, Hc, Ha. Qed.

(** The servers keep their logs, and stay settled. *)
Definition same_logs c c' : Prop :=
  forall q x, zget (c_nodes c) q = Some x ->
    exists x', zget (c_nodes c') q = Some x' /\ log x' = log x /\ (settled x -> settled x').

#[export] Instance same_logs_preorder : PreOrder same_logs.
Proof.
  split.
  - intros c q x Hx. by exists x.
  - intros c1 c2 c3 H1 H2 q x Hx. destruct (H1 q x Hx) as (x1 & Hx1 & Hl1 & Hs1).
    destruct (H2 q x1 Hx1) as (x2 & Hx2 & Hl2 & Hs2). exists x2. split; [done|].
    split; [congruence|auto].
Qed.

Lemma same_logs_insert c c' m x x' :
  c_nodes c' = <[Z.to_nat m := x']> (c_nodes c) -> zget (c_nodes c) m = Some x ->
  log x' = log x -> (settled x -> settled x') -> same_logs c c'.
Proof.
  intros Hn Hm Hl Hs q z Hz. pose proof (zget_Some_range _ _ _ Hm) as Hr. rewrite Hn.
  destruct (decide (q = m)) as [->|Hne].
  - exists x'. rewrite zget_insert_eq by done. split; [done|]. by simplify_eq.
  - exists z. rewrite zget_insert_ne by (done || lia). done.
Qed.

(** ** A leader steps down *)

Lemma broadcast_total rf :
  node_ok rf -> state rf = Leader -> exists args,
    broadcastAppendEntries rf = Some (Some args) /\ ae_Term args = currentTerm rf /\
    ae_Entries args = [] /\ 0 <= ae_PrevLogIndex args.
Proof.
  intros [_ Hl _ _ _] Hs. pose proof (zlen_pos _ Hl) as Hpos. unfold broadcastAppendEntries.
  rewrite bool_decide_eq_true_2 by done. simpl. unfold lastLogIndex in *.
  destruct (_ && _); simpl.
  - destruct (proj2 (zget_is_Some (log rf) (zlen (log rf) - 1))) as [e ->]; [lia|]. simpl.
    eexists. split; [done|]. simpl. split_and!; try done. lia.
  - eexists. split; [done|]. simpl. split_and!; try done. lia.
Qed.

(** A call without entries makes its receiver a follower. *)
Lemma heartbeat_received args k1 k2 rf :
  log rf <> [] -> 0 <= ae_PrevLogIndex args -> ae_Entries args = [] ->
  currentTerm rf <= ae_Term args -> exists rf' r sp,
    AppendEntries args k1 k2 rf = Some (rf', r, sp) /\ state rf' = Follower /\
    currentTerm rf' = ae_Term args /\ log rf' = log rf /\ (settled rf -> settled rf').
Proof.
  intros Hl Hp Hes Ht. destruct (AppendEntries_cases args k1 k2 rf Hl Hp)
    as (rf' & r & sp & Heq & _ & _ & _ & Hrej & Hacc).
  exists rf', r, sp. split; [done|].
  destruct (prev_matches_spec args rf) as ([] & _ & Hiff).
  - destruct (Hacc Ht (proj1 Hiff eq_refl)) as (l & rest & [H1 _ H3 H4 _ _ H7 _] & Hfc & Hcm & _).
    rewrite Hes in Hfc. simpl in Hfc. injection Hfc as <- <-. rewrite app_nil_r in H4.
    split; [done|]. split; [done|]. split; [done|]. intros [Ha Hc]. unfold settled.
    rewrite Hcm, H7. unfold lastLogIndex in *. rewrite H4 in *. unfold new_commit.
    destruct (_ <? _) eqn:E; bsimp; lia.
  - destruct (Hrej Ht) as ([H1 _ H3 H4 _ _ H7 _] & Hcm & _); [by intros ?%Hiff|].
    split; [done|]. split; [done|]. split; [done|]. unfold settled, lastLogIndex.
    by rewrite Hcm, H4, H7.
Qed.

(** A leader's heartbeat reaches server [q], whose term is not higher. *)
Lemma sends_heartbeat N c m q rf x :
  live N c -> zget (c_nodes c) m = Some rf -> state rf = Leader -> q <> m ->
  zget (c_nodes c) q = Some x -> currentTerm x <= currentTerm rf ->
  exists c' x', goes c c' /\ c_nodes c' = <[Z.to_nat q := x']> (c_nodes c) /\
    state x' = Follower /\ log x' = log x /\ (settled x -> settled x').
Proof.
  intros Hc Hm Hs Hne Hq Ht. destruct (live_node _ _ _ _ Hc Hm) as (Hok & Hp & Hme & Hr & Hd).
  destruct (live_node _ _ _ _ Hc Hq) as (Hokx & _ & _ & Hrq & _).
  destruct (to_loop_head N c m Hc Hr) as (c1 & j1 & Hgo1 & [Hn1 _] & Hj1). set (k := mkTick 0 0).
  rewrite <- Hn1 in Hm, Hq.
  assert (run (PTicker m) true 0 k k c1 = Ret (c1, PTickerAct m Leader (currentTerm rf), [])) as Hrun.
  { simpl. rewrite (get_node_some _ _ rf) by done. simpl. unfold ticker_read, killed. by rewrite Hd, Hs. }
  pose proof (goes_run _ _ _ _ _ _ _ _ _ Hj1 Hrun) as Hgo2. set (c2 := set_procs _ c1) in Hgo2.
  assert (c_procs c2 !! j1 = Some (PTickerAct m Leader (currentTerm rf))) as Hj2 by (by eapply ran_lookup).
  assert (run (PTickerAct m Leader (currentTerm rf)) true 0 k k c2 = Ret (c2, PTicker m, [PBroadcast m])) as Hrun2.
  { simpl. rewrite (get_node_some _ _ rf) by done. simpl. by rewrite Z.ltb_irrefl, set_node_id. }
  pose proof (goes_run _ _ _ _ _ _ _ _ _ Hj2 Hrun2) as Hgo3. set (c3 := set_procs _ c2) in Hgo3.
  assert (c_procs c3 !! (length (c_procs c2) + 0)%nat = Some (PBroadcast m)) as Hj3 by (etrans; [apply ran_new|done]).
  destruct (broadcast_total rf Hok Hs) as (args & Hb & Hta & Hes & Hprev).
  assert (run (PBroadcast m) true 0 k k c3 =
    Ret (c3, PDone, map (fun i => PHeart m i args) (other_peers rf))) as Hrun3.
  { simpl. rewrite (get_node_some _ _ rf) by done. simpl. by rewrite Hb. }
  pose proof (goes_run _ _ _ _ _ _ _ _ _ Hj3 Hrun3) as Hgo4. set (c4 := set_procs _ c3) in Hgo4.
  assert (q ∈ other_peers rf) as [i Hi]%list_elem_of_lookup by (apply elem_of_other_peers; lia).
  assert (c_procs c4 !! (length (c_procs c3) + i)%nat = Some (PHeart m q args)) as Hj4.
  { etrans; [apply ran_new|]. by rewrite list_lookup_fmap, Hi. }
  destruct (heartbeat_received args k k x) as (x' & r & sp & Happ & Hsx & _ & Hlx & Hset);
    [apply Hokx|done|done|lia|].
  eexists _, x'. split; [|split; [|done]].
  - rewrite Hgo1, Hgo2, Hgo3, Hgo4. eapply (goes_run _ _ _ 0 k k); [exact Hj4|]. simpl.
    unfold serve_append. rewrite (get_node_some _ _ x) by done. simpl. rewrite Happ. done.
  - simpl. by rewrite Hn1.
Qed.

(** A server that does not lead deposes server [m] with an election. *)
Lemma stands_against N c p m rfp rf :
  live N c -> zget (c_nodes c) p = Some rfp -> state rfp <> Leader -> p <> m ->
  zget (c_nodes c) m = Some rf ->
  exists c' rf', goes c c' /\ same_logs c c' /\ zget (c_nodes c') m = Some rf' /\ state rf' <> Leader.
Proof.
  intros Hc Hp Hs Hne Hm.
  destruct (raises_term N c p rfp (currentTerm rf) Hc Hp Hs)
    as (c1 & rf1 & j & Hgo1 & Hn1 & Hsl1 & Hs1 & Ht1 & Hj1).
  destruct (live_node _ _ _ _ Hc Hp) as (Hok & Hpp & Hme & Hr & _).
  destruct (live_node _ _ _ _ Hc Hm) as (_ & _ & _ & Hrm & _).
  assert (zget (c_nodes c1) p = Some rf1) as Hp1.
  { rewrite Hn1. apply zget_insert_eq. by apply zget_Some_range in Hp. }
  assert (zget (c_nodes c1) m = Some rf) as Hm1.
  { rewrite Hn1, zget_insert_ne; [done|lia|done]. }
  destruct (starts_election _ _ _ _ Hp1 Hs1 Hj1) as (c2 & Hgo2 & Hn2 & He2 & Hpr2).
  assert (m ∈ other_peers rf1) as [i Hi]%list_elem_of_lookup.
  { apply elem_of_other_peers. destruct Hsl1 as [-> -> _ _ _]. lia. }
  assert (c_procs c2 !! (length (c_procs c1) + i)%nat =
    Some (PVote p (length (c_elections c1)) m (vote_args rf1))) as Hj2.
  { rewrite Hpr2. etrans; [apply ran_new|]. by rewrite list_lookup_fmap, Hi. }
  set (k := mkTick 0 0). destruct (RequestVote_newer (vote_args rf1) k k rf Ht1) as [[Hsl Hst _] _].
  destruct (RequestVote (vote_args rf1) k k rf) as [rf2 r] eqn:Hrv. simpl in Hsl, Hst.
  rewrite <- Hn2 in Hm1.
  assert (exists c3, goes c2 c3 /\ c_nodes c3 = <[Z.to_nat m := rf2]> (c_nodes c2)) as (c3 & Hgo3 & Hn3).
  { eexists. split.
    - eapply (goes_run _ _ _ 0 k k); [exact Hj2|]. simpl. unfold serve_vote.
      rewrite (get_node_some _ _ rf) by done. simpl. by rewrite Hrv.
    - simpl. by destruct (rvr_VoteGranted r). }
  exists c3, rf2. split; [by etrans; [|etrans]|]. split; [|split].
  - etrans; [eapply (same_logs_insert c c2); [by rewrite Hn2|exact Hp|apply Hsl1|by eapply same_log_settled]|].
    eapply same_logs_insert; [done|exact Hm1|apply Hsl|by eapply same_log_settled].
  - rewrite Hn3. apply zget_insert_eq. by apply zget_Some_range in Hm1.
  - by rewrite Hst.
Qed.

(** Whoever leads can be deposed, if there is another server. *)
Lemma steps_down N c m rf :
  live N c -> 2 <= N -> zget (c_nodes c) m = Some rf ->
  exists c' rf', goes c c' /\ same_logs c c' /\ zget (c_nodes c') m = Some rf' /\ state rf' <> Leader.
Proof.
  intros Hc HN Hm. destruct (decide (state rf = Leader)) as [Hs|Hs]; [|by exists c, rf].
  destruct (live_node _ _ _ _ Hc Hm) as (_ & _ & _ & Hr & _).
  assert (exists p, p <> m /\ 0 <= p < N) as (p & Hne & Hrp).
  { destruct (decide (m = 0)); [exists 1|exists 0]; lia. }
  destruct (proj2 (zget_is_Some (c_nodes c) p)) as [x Hp]; [by rewrite (live_len N)|].
  destruct (decide (state x = Leader)) as [Hsx|Hsx]; [|by eapply stands_against].
  destruct (decide (currentTerm rf <= currentTerm x)) as [Ht|Ht].
  - destruct (sends_heartbeat N c p m x rf) as (c1 & rf1 & Hgo1 & Hn1 & Hs1 & Hl1 & Hset1); try done.
    exists c1, rf1. split; [done|]. split; [by eapply same_logs_insert|].
    split; [|by rewrite Hs1]. rewrite Hn1. apply zget_insert_eq. by apply zget_Some_range in Hm.
  - destruct (sends_heartbeat N c m p rf x) as (c1 & x1 & Hgo1 & Hn1 & Hs1 & Hl1 & Hset1); try done; [lia|].
    destruct (stands_against N c1 p m x1 rf) as (c2 & rf2 & Hgo2 & Hsl2 & Hm2 & Hs2).
    + by eapply goes_live.
    + rewrite Hn1. apply zget_insert_eq. by apply zget_Some_range in Hp.
    + by rewrite Hs1.
    + done.
    + rewrite Hn1, zget_insert_ne; [done|lia|done].
    + exists c2, rf2. split; [by etrans|]. split; [|done].
      etrans; [|exact Hsl2]. by eapply same_logs_insert.
Qed.

(** ** One call of the replication *)

Definition nx rf (q : Z) : option Z := zget (default [] (nextIndex rf)) q.
Definition mx rf (q : Z) : option Z := zget (default [] (matchIndex rf)) q.

Lemma send_total rf q i :
  node_ok rf -> state rf = Leader -> dead rf = 0 -> q <> me rf -> 0 <= q < peers rf ->
  nx rf q = Some i -> 1 <= i <= lastLogIndex rf ->
  exists args, replicate_send q (currentTerm rf) rf = Some (Some args) /\
    ae_Term args = currentTerm rf /\ ae_PrevLogIndex args = i - 1 /\
    zlen (ae_Entries args) = Z.min 100 (lastLogIndex rf - i + 1).
Proof.
  intros [_ _ _ _ Hld] Hs Hd Hne Hq Hi Hr. destruct (Hld Hs) as (ni & mi & Hni & Hmi & _).
  unfold nx in Hi. rewrite Hni in Hi. simpl in Hi. unfold replicate_send, killed.
  rewrite Hd, bool_decide_eq_true_2, Z.eqb_refl, Hni, Hmi by done. simpl.
  destruct (Z.eqb_spec q (me rf)); [done|]. rewrite Hi. simpl.
  destruct (lastLogIndex rf <? i) eqn:E; bsimp; [lia|]. unfold lastLogIndex in *.
  assert (exists pt, (if (0 <? i - 1) && (i - 1 <? zlen (log rf))
                      then option_map e_Term (zget (log rf) (i - 1)) else Some 0) = Some pt) as [pt Hpt].
  { destruct (_ && _); [|eauto].
    destruct (proj2 (zget_is_Some (log rf) (i - 1))) as [e ->]; [lia|]. by eexists. }
  rewrite Hpt. simpl.
  assert (zslice (log rf) i (i + min 100 (zlen (log rf) - 1 - i + 1)) =
    Some (take (Z.to_nat (min 100 (zlen (log rf) - 1 - i + 1))) (drop (Z.to_nat i) (log rf)))) as Hsl.
  { apply zslice_Some. rewrite min_spec. split; [lia|]. split; [lia|]. f_equal. lia. }
  rewrite Hsl. simpl. eexists. split; [done|]. simpl. split; [done|]. split; [done|].
  rewrite min_spec. unfold zlen in *. rewrite length_take, length_drop. lia.
Qed.

(** Server [y] has, at index [k], an entry of the same term as [l]. *)
Definition agrees l y (k : Z) : Prop :=
  k < zlen (log y) /\
  (0 < k -> exists e e', zget (log y) k = Some e /\ zget l k = Some e' /\ e_Term e = e_Term e').

Lemma prev_ok_agrees args l y :
  slice_of args l -> prev_ok args (log y) <-> agrees l y (ae_PrevLogIndex args).
Proof.
  intros (_ & _ & _ & Hprev). unfold prev_ok, agrees. split; intros [Hlt Hp]; (split; [done|]);
    intros H0; destruct (Hprev H0) as (e' & He' & Ht').
  - destruct (Hp H0) as (e & He & Ht). exists e, e'. split_and!; congruence.
  - destruct (Hp H0) as (e & e2 & He & He2 & Ht). exists e. split; [done|]. congruence.
Qed.

Lemma terms_match_get l i es j e :
  terms_match l i es = true -> zget es j = Some e ->
  exists e', zget l (i + j) = Some e' /\ e_Term e' = e_Term e.
Proof.
  revert i j. induction es as [|a es IH]; intros i j; simpl.
  { intros _ [_ ?]%zget_Some_lookup. by rewrite lookup_nil in *. }
  destruct (zget l i) as [b|] eqn:Hb; [|done]. intros [Ht Hm]%andb_true_iff Hj. bsimp.
  pose proof (zget_Some_range _ _ _ Hj) as Hr. destruct (decide (j = 0)) as [->|Hne].
  - rewrite zget_head in Hj. injection Hj as <-. rewrite Z.add_0_r. eauto.
  - destruct (IH (i + 1) (j - 1) Hm) as (e' & He' & Ht'); [|exists e'; split; [|done]].
    + apply zget_Some_lookup in Hj as [_ Hj]. apply zget_Some_lookup. split; [lia|].
      by replace (Z.to_nat j) with (S (Z.to_nat (j - 1))) in Hj by lia.
    + rewrite <- He'. f_equal. lia.
Qed.

(** After an accepted call the logs agree at the last entry of the call. *)
Lemma conflict_agrees l i es l' rest e :
  0 <= i <= zlen l -> find_conflict l i es = Some (l', rest) ->
  zget es (zlen es - 1) = Some e ->
  exists e', zget (l' ++ rest) (i + zlen es - 1) = Some e' /\ e_Term e' = e_Term e.
Proof.
  intros Hi Hf He. pose proof (zget_Some_range _ _ _ He) as Hr.
  destruct (find_conflict_spec l i es Hi) as (l1 & pre & rest1 & Hf1 & Hes & Hm & Hc).
  rewrite Hf in Hf1. injection Hf1 as <- <-.
  destruct Hc as [[-> ->]|(Hne & -> & Hle & _)].
  - rewrite app_nil_r in *. subst pre. destruct (terms_match_get l i es _ e Hm He) as (e' & He' & Ht).
    exists e'. split; [|done]. rewrite <- He'. f_equal. lia.
  - exists e. split; [|done]. pose proof (zlen_nonneg pre).
    assert (zlen (take (Z.to_nat (i + zlen pre)) l) = i + zlen pre) as Hlt.
    { rewrite zlen_take; lia. }
    pose proof (zlen_pos _ Hne). rewrite Hes, zlen_app in He |- *.
    rewrite zget_app_r in He by lia. rewrite zget_app_r by lia. rewrite Hlt, <- He. f_equal. lia.
Qed.

Lemma follower_merges args k1 k2 l y :
  log y <> [] -> slice_of args l -> 0 < zlen (ae_Entries args) ->
  currentTerm y <= ae_Term args -> exists y' r sp,
    AppendEntries args k1 k2 y = Some (y', r, sp) /\ currentTerm y' = ae_Term args /\
    log y' <> [] /\ aer_Term r <= ae_Term args /\
    if aer_Success r then agrees l y' (ae_PrevLogIndex args + zlen (ae_Entries args))
    else ~ agrees l y (ae_PrevLogIndex args) /\ log y' = log y.
Proof.
  intros Hl Hsl Hlen Ht. pose proof (prev_ok_agrees args l y Hsl) as Hpo.
  pose proof Hsl as (Hp & Hlast & Hes & _).
  destruct (AppendEntries_cases args k1 k2 y Hl Hp)
    as (y' & r & sp & Heq & Hrt & Hsucc & _ & Hrej & Hacc).
  exists y', r, sp. split; [done|]. destruct (aer_Success r).
  - destruct (proj1 Hsucc eq_refl) as [_ Hok].
    destruct (Hacc Ht Hok) as (l' & rest & [H1 _ _ H4 _ _ _ _] & Hfc & _).
    set (es := ae_Entries args) in *.
    destruct (proj2 (zget_is_Some es (zlen es - 1))) as [e He]; [lia|].
    assert (0 <= ae_PrevLogIndex args + 1 <= zlen (log y)) as Hi by (destruct Hok; lia).
    destruct (conflict_agrees _ _ _ _ _ _ Hi Hfc He) as (e' & He' & Hte).
    pose proof (slice_of_get args l _ e Hsl He) as Hle.
    replace (ae_PrevLogIndex args + 1 + zlen es - 1) with (ae_PrevLogIndex args + zlen es) in He' by lia.
    replace (ae_PrevLogIndex args + 1 + (zlen es - 1)) with (ae_PrevLogIndex args + zlen es) in Hle by lia.
    rewrite <- H4 in He'. split; [done|]. split.
    { intros Hnil. apply zget_Some_range in He'. rewrite Hnil in He'. by destruct He' as [? ?%Z.le_ngt]. }
    split; [lia|]. split; [apply zget_Some_range in He'; lia|]. intros _. by exists e', e.
  - assert (~ prev_ok args (log y)) as Hno by (intros Hok; by discriminate (proj2 Hsucc (conj Ht Hok))).
    destruct (Hrej Ht Hno) as ([H1 _ _ H4 _ _ _ _] & _). split; [done|]. rewrite H4.
    split; [done|]. split; [lia|]. split; [by rewrite <- Hpo|done].
Qed.

(** The leader goes on, its entries for the servers other than [q] untouched. *)
Record leads_on (q : Z) rf rf' : Prop := {
  lo_state : state rf' = Leader;
  lo_term : currentTerm rf' = currentTerm rf;
  lo_log : log rf' = log rf;
  lo_applied : lastApplied rf' = lastApplied rf;
  lo_commit : commitIndex rf <= commitIndex rf';
  lo_others p : p <> q -> nx rf' p = nx rf p /\ mx rf' p = mx rf p }.

(** Nothing above the commit index can be committed. *)
Definition commits_all rf : Prop :=
  forall M, commitIndex rf < M <= lastLogIndex rf -> ~ committable rf M.

Lemma zset_get (l : list Z) q v :
  0 <= q < zlen l -> exists l' : list Z, zset l q v = Some l' /\ zlen l' = zlen l /\ zget l' q = Some v /\
    forall p, p <> q -> zget l' p = zget l p.
Proof.
  intros Hq. exists (<[Z.to_nat q := v]> l). split; [by apply zset_in|]. split; [by apply zlen_insert|].
  split; [by apply zget_insert_eq|]. intros p Hp. apply zget_insert_ne; [lia|done].
Qed.

Lemma reply_succeeds q args (r : AppendEntriesReply) k rf i m :
  node_ok rf -> state rf = Leader -> 0 <= q < peers rf -> aer_Term r <= currentTerm rf ->
  nx rf q = Some i -> mx rf q = Some m -> aer_Success r = true ->
  exists rf' sp, replicate_reply q (currentTerm rf) args r k rf = Some (rf', sp, true) /\
    leads_on q rf rf' /\ commits_all rf' /\
    mx rf' q = Some (Z.max m (ae_PrevLogIndex args + zlen (ae_Entries args))) /\
    nx rf' q = Some (Z.max m (ae_PrevLogIndex args + zlen (ae_Entries args)) + 1) /\
    (commitIndex rf < commitIndex rf' -> sp = [SpawnApply]).
Proof.
  intros [Hme Hl Hc Ha Hld] Hs Hq Ht Hi Hm Hok. unfold replicate_reply.
  rewrite bool_decide_eq_true_2, Z.eqb_refl by done. simpl.
  destruct (currentTerm rf <? aer_Term r) eqn:E; bsimp; [lia|]. rewrite Hok.
  destruct (Hld Hs) as (ni & mi & Hni & Hmi & Hnl & Hml & Hn1 & Hm0).
  unfold nx, mx in Hi, Hm. rewrite Hni in Hi. rewrite Hmi in Hm. simpl in Hi, Hm.
  rewrite Hni, Hmi. simpl. rewrite Hm. simpl.
  set (nm := ae_PrevLogIndex args + zlen (ae_Entries args)).
  assert (exists mi', (if m <? nm then zset mi q nm else Some mi) = Some mi' /\ zlen mi' = zlen mi /\
    zget mi' q = Some (Z.max m nm) /\ (forall p, p <> q -> zget mi' p = zget mi p) /\
    Forall (fun m => 0 <= m) mi') as (mi' & -> & Hml' & Hm' & Hmo & Hm0').
  { destruct (m <? nm) eqn:E2; bsimp.
    - destruct (zset_bound mi q nm 0) as (mi' & Hz & ? & ? & _); [lia| |done|].
      { apply zget_Some_lookup in Hm as [_ Hm]. pose proof (Forall_lookup_1 _ _ _ _ Hm0 Hm). simpl in *. lia. }
      destruct (zset_get mi q nm) as (mi2 & Hz2 & ? & Hg & Ho); [lia|]. rewrite Hz in Hz2. injection Hz2 as <-.
      exists mi'. split_and!; try done. rewrite Hg. f_equal. lia.
    - exists mi. split_and!; try done. rewrite Hm. f_equal. lia. }
  simpl. rewrite Hm'. simpl.
  destruct (zset_get ni q (Z.max m nm + 1)) as (ni' & Hz & Hnl' & Hn' & Hno); [lia|]. rewrite Hz. simpl.
  set (rf1 := set_nextIndex (Some ni') (set_matchIndex (Some mi') rf)).
  assert (leader_ok rf1) as Hlk.
  { destruct (zset_bound ni q (Z.max m nm + 1) 1) as (ni2 & Hz2 & ? & ? & _); [lia| |done|].
    { assert (0 <= m); [|lia]. apply zget_Some_lookup in Hm as [_ Hm].
      exact (Forall_lookup_1 _ _ _ _ Hm0 Hm). }
    rewrite Hz in Hz2. injection Hz2 as <-.
    exists ni', mi'. split_and!; try done; simpl; congruence. }
  destruct (tryAdvanceCommit_spec rf1 Hlk) as (cm & -> & Hle & _ & Hmax); [simpl; lia|done|].
  simpl. eexists _, _. split; [done|]. split; [|split; [exact Hmax|]].
  - split; try done. intros p Hp. unfold nx, mx. simpl. rewrite Hni, Hmi. simpl. auto.
  - split; [done|]. split; [done|]. simpl. intros Hlt. by destruct (_ <? _) eqn:E3; bsimp; [|lia].
Qed.

Lemma reply_fails q args (r : AppendEntriesReply) k rf i m :
  node_ok rf -> state rf = Leader -> 0 <= q < peers rf -> aer_Term r <= currentTerm rf ->
  nx rf q = Some i -> mx rf q = Some m -> 1 < i -> aer_Success r = false ->
  exists rf', replicate_reply q (currentTerm rf) args r k rf = Some (rf', [], true) /\
    leads_on q rf rf' /\ commitIndex rf' = commitIndex rf /\ mx rf' q = Some m /\ nx rf' q = Some (i - 1).
Proof.
  intros [Hme Hl Hc Ha Hld] Hs Hq Ht Hi Hm H1 Hok. unfold replicate_reply.
  rewrite bool_decide_eq_true_2, Z.eqb_refl by done. simpl.
  destruct (currentTerm rf <? aer_Term r) eqn:E; bsimp; [lia|]. rewrite Hok.
  destruct (Hld Hs) as (ni & mi & Hni & Hmi & Hnl & Hml & _).
  unfold nx, mx in Hi, Hm. rewrite Hni in Hi. rewrite Hmi in Hm. simpl in Hi, Hm.
  rewrite Hni. simpl. rewrite Hi. simpl. destruct (1 <? i) eqn:E1; bsimp; [|lia].
  destruct (zset_get ni q (i - 1)) as (ni' & Hz & Hnl' & Hn' & Hno); [lia|]. rewrite Hz. simpl.
  eexists. split; [done|]. unfold nx, mx. simpl. rewrite Hmi. simpl. split; [|done].
  split; try done. intros p Hp. unfold nx, mx. simpl. rewrite Hni. simpl. auto.
Qed.

(** One iteration of the replication to server [q]: the call, and its reply. *)
Record exchanged c m q j rf c' rf' y' : Prop := {
  ex_goes : goes c c';
  ex_leader : zget (c_nodes c') m = Some rf';
  ex_follower : zget (c_nodes c') q = Some y';
  ex_others p : p <> m -> p <> q -> zget (c_nodes c') p = zget (c_nodes c) p;
  ex_leads : leads_on q rf rf';
  ex_term : currentTerm y' = currentTerm rf;
  ex_nonempty : log y' <> [];
  ex_self : c_procs c' !! j = Some (PReplicate m q (currentTerm rf));
  ex_procs i p : i <> j -> c_procs c !! i = Some p -> c_procs c' !! i = Some p;
  ex_apply : commitIndex rf < commitIndex rf' -> exists i, c_procs c' !! i = Some (PApply m) }.

(** What a round with [q] taught the leader, whose next index for [q] was [i]: it
    and [q] agree up to the last entry sent, or [q] refused and the index moves
    back. *)
Definition adjusted q rf rf' y y' i mt : Prop :=
  let nm := i - 1 + Z.min 100 (lastLogIndex rf - i + 1) in
  agrees (log rf) y' nm /\ commits_all rf' /\ mx rf' q = Some (Z.max mt nm) /\
    nx rf' q = Some (Z.max mt nm + 1) \/
  ~ agrees (log rf) y (i - 1) /\ log y' = log y /\ mx rf' q = Some mt /\ nx rf' q = Some (i - 1).

Lemma reply_handled q args r k rf i mt y y' :
  node_ok rf -> state rf = Leader -> 0 <= q < peers rf -> aer_Term r <= currentTerm rf ->
  nx rf q = Some i -> mx rf q = Some mt -> 1 <= i -> log y <> [] ->
  ae_PrevLogIndex args = i - 1 ->
  zlen (ae_Entries args) = Z.min 100 (lastLogIndex rf - i + 1) ->
  (if aer_Success r then agrees (log rf) y' (ae_PrevLogIndex args + zlen (ae_Entries args))
   else ~ agrees (log rf) y (ae_PrevLogIndex args) /\ log y' = log y) ->
  exists rf' sp, replicate_reply q (currentTerm rf) args r k rf = Some (rf', sp, true) /\
    leads_on q rf rf' /\ (commitIndex rf < commitIndex rf' -> sp = [SpawnApply]) /\
    adjusted q rf rf' y y' i mt.
Proof.
  intros Hok Hs Hq Ht Hi Hmt H1 Hly Hprev Hlen Hag. unfold adjusted. cbv zeta.
  destruct (aer_Success r) eqn:Hsu.
  - destruct (reply_succeeds q args r k rf i mt) as (rf' & sp & ? & ? & ? & Hmx & Hnx & ?); try done.
    rewrite Hprev, Hlen in Hmx, Hnx, Hag. exists rf', sp. auto 10.
  - destruct Hag as [Hno Hll]. rewrite Hprev in Hno. assert (1 < i) as Hi1.
    { destruct (decide (i = 1)) as [->|]; [|lia]. exfalso. apply Hno. split; [|lia].
      pose proof (zlen_pos _ Hly). lia. }
    destruct (reply_fails q args r k rf i mt) as (rf' & ? & ? & Hcm & ? & ?); try done.
    exists rf', []. split_and!; auto. lia.
Qed.

Lemma exchange N c m q j rf y i mt :
  live N c -> zget (c_nodes c) m = Some rf -> state rf = Leader -> q <> m ->
  zget (c_nodes c) q = Some y -> currentTerm y <= currentTerm rf ->
  c_procs c !! j = Some (PReplicate m q (currentTerm rf)) ->
  nx rf q = Some i -> mx rf q = Some mt -> 1 <= i <= lastLogIndex rf ->
  exists c' rf' y', exchanged c m q j rf c' rf' y' /\
    adjusted q rf rf' y y' i mt.
Proof.
  intros Hc Hm Hs Hne Hq Ht Hj Hi Hmt Hr. set (k := mkTick 0 0).
  destruct (live_node _ _ _ _ Hc Hm) as (Hok & Hp & Hme & Hrm & Hd).
  destruct (live_node _ _ _ _ Hc Hq) as ([_ Hly _ _ _] & _ & _ & Hrq & _).
  destruct (send_total rf q i Hok Hs Hd ltac:(congruence) ltac:(lia) Hi Hr)
    as (args & Hsend & Hta & Hprev & Hlen).
  pose proof (replicate_send_slice_of q (currentTerm rf) rf args Hsend ltac:(lia)) as Hsl.
  destruct (moves c j (PReplicate m q (currentTerm rf)) 0 k k c (PReplCall m q (currentTerm rf) args) [])
    as (c1 & [Hgo1 Hn1 _ Hj1 _ Ho1]); [done| |].
  { simpl. rewrite (get_node_some _ _ _ Hm). simpl. by rewrite Hsend. }
  destruct (follower_merges args k k (log rf) y Hly Hsl) as (y' & r & sp & Happ & Hty & Hly' & Hrt & Hag);
    [lia|lia|].
  rewrite Hta in Hty, Hrt. rewrite <- Hn1 in Hm, Hq.
  destruct (moves c1 j _ 0 k k (set_node q y' c1) (PReplReply m q (currentTerm rf) args r)
    (map (proc_of q) sp) Hj1) as (c2 & [Hgo2 Hn2 _ Hj2 _ Ho2]).
  { simpl. unfold serve_append. rewrite (get_node_some _ _ _ Hq). simpl. by rewrite Happ. }
  simpl in Hn2. assert (zget (c_nodes c2) m = Some rf) as Hm2.
  { rewrite Hn2, zget_insert_ne; [done|lia|done]. }
  destruct (reply_handled q args r k rf i mt y y') as (rf' & sp' & Hrep & Hlo & Hsp & Hcase);
    try done; [lia|lia|].
  destruct (moves c2 j _ 0 k k (set_node m rf' c2) (PReplicate m q (currentTerm rf))
    (map (proc_of m) sp') Hj2) as (c3 & [Hgo3 Hn3 _ Hj3 Hnew3 Ho3]).
  { simpl. rewrite (get_node_some _ _ _ Hm2). simpl. by rewrite Hrep. }
  simpl in Hn3. exists c3, rf', y'. split; [|exact Hcase]. split; try done.
  - by etrans; [|etrans].
  - rewrite Hn3. apply zget_insert_eq. by apply zget_Some_range in Hm2.
  - rewrite Hn3, zget_insert_ne by (done || lia). rewrite Hn2. apply zget_insert_eq.
    by apply zget_Some_range in Hq.
  - intros p Hpm Hpq. by rewrite Hn3, zget_insert_ne, Hn2, zget_insert_ne, Hn1 by (done || lia).
  - intros i' p Hi' Hip. by apply Ho3, Ho2, Ho1.
  - intros Hlt. eexists. apply (Hnew3 0%nat). by rewrite (Hsp Hlt).
Qed.

(** ** A server catches up *)

(** Server [q] stores all the leader has, and the leader knows it. *)
Record caught_up c m q j rf c' rf' : Prop := {
  cu_goes : goes c c';
  cu_leader : zget (c_nodes c') m = Some rf';
  cu_others p : p <> m -> p <> q -> zget (c_nodes c') p = zget (c_nodes c) p;
  cu_leads : leads_on q rf rf';
  cu_procs i p : i <> j -> c_procs c !! i = Some p -> c_procs c' !! i = Some p;
  cu_apply : commitIndex rf < commitIndex rf' -> exists i, c_procs c' !! i = Some (PApply m);
  cu_match : mx rf' q = Some (lastLogIndex rf);
  cu_commits : commits_all rf' }.

Lemma leads_on_trans q x y z : leads_on q x y -> leads_on q y z -> leads_on q x z.
Proof.
  intros [H1 H2 H3 H4 H5 H6] [G1 G2 G3 G4 G5 G6]. split; try congruence; [lia|].
  intros p Hp. destruct (H6 p Hp), (G6 p Hp). split; congruence.
Qed.

Lemma leads_on_last q x y : leads_on q x y -> lastLogIndex y = lastLogIndex x.
Proof. intros [_ _ H _ _ _]. unfold lastLogIndex. by rewrite H. Qed.

Lemma exchanged_last c m q j rf c1 rf1 y1 :
  exchanged c m q j rf c1 rf1 y1 -> mx rf1 q = Some (lastLogIndex rf) -> commits_all rf1 ->
  caught_up c m q j rf c1 rf1.
Proof. intros []. by split. Qed.

Lemma exchanged_more c m q j rf c1 rf1 y1 c2 rf2 :
  exchanged c m q j rf c1 rf1 y1 -> caught_up c1 m q j rf1 c2 rf2 -> caught_up c m q j rf c2 rf2.
Proof.
  intros [] []. split; try done.
  - by etrans.
  - intros p Hm Hq. rewrite cu_others0 by done. auto.
  - by eapply leads_on_trans.
  - eauto.
  - intros Hlt. destruct (decide (commitIndex rf < commitIndex rf1)) as [Hlt1|Hge].
    + destruct (ex_apply0 Hlt1) as [i Hi]. exists i. apply cu_procs0; [|done]. intros ->. congruence.
    + apply cu_apply0. lia.
  - by rewrite cu_match0, (leads_on_last _ _ _ ex_leads0).
Qed.

(** Once the logs agree at some index, every call succeeds. *)
Lemma streams N m q j d : forall c rf y i,
  live N c -> zget (c_nodes c) m = Some rf -> state rf = Leader -> q <> m ->
  zget (c_nodes c) q = Some y -> currentTerm y <= currentTerm rf ->
  c_procs c !! j = Some (PReplicate m q (currentTerm rf)) ->
  nx rf q = Some i -> mx rf q = Some (i - 1) -> 1 <= i <= lastLogIndex rf ->
  agrees (log rf) y (i - 1) -> (Z.to_nat (lastLogIndex rf - i) < d)%nat ->
  exists c' rf', caught_up c m q j rf c' rf'.
Proof.
  induction d as [|d IH]; intros c rf y i Hc Hm Hs Hne Hq Ht Hj Hi Hmt Hr Hag Hd; [lia|].
  destruct (exchange N c m q j rf y i (i - 1)) as (c1 & rf1 & y1 & Hex & [Hok|[Hno _]]); try done.
  destruct Hok as (Hag1 & Hca & Hmx & Hnx). rewrite Z.max_r in Hmx, Hnx by lia.
  set (nm := i - 1 + Z.min 100 (lastLogIndex rf - i + 1)) in *.
  destruct (decide (nm = lastLogIndex rf)) as [Hlast|Hlast].
  { exists c1, rf1. eapply exchanged_last; [done| |done]. by rewrite Hmx, Hlast. }
  pose proof Hex as [Hgo1 Hm1 Hq1 _ Hlo Hty _ Hj1 _ _].
  pose proof (leads_on_last _ _ _ Hlo) as Hll. destruct Hlo as [Hs1 Ht1 Hl1 _ _ _].
  destruct (IH c1 rf1 y1 (nm + 1)) as (c2 & rf2 & Hcu); try done.
  - by eapply goes_live.
  - lia.
  - by rewrite Ht1.
  - rewrite Hmx. f_equal. lia.
  - lia.
  - rewrite Hl1. by replace (nm + 1 - 1) with nm by lia.
  - lia.
  - exists c2, rf2. by eapply exchanged_more.
Qed.

(** The next index goes down until the logs agree. *)
Lemma catches_up N m q j d : forall c rf y i,
  live N c -> zget (c_nodes c) m = Some rf -> state rf = Leader -> q <> m ->
  zget (c_nodes c) q = Some y -> currentTerm y <= currentTerm rf ->
  c_procs c !! j = Some (PReplicate m q (currentTerm rf)) ->
  nx rf q = Some i -> mx rf q = Some 0 -> 1 <= i <= lastLogIndex rf ->
  (Z.to_nat i < d)%nat -> exists c' rf', caught_up c m q j rf c' rf'.
Proof.
  induction d as [|d IH]; intros c rf y i Hc Hm Hs Hne Hq Ht Hj Hi Hmt Hr Hd; [lia|].
  destruct (exchange N c m q j rf y i 0) as (c1 & rf1 & y1 & Hex & Hcase); try done.
  pose proof Hex as [Hgo1 Hm1 Hq1 _ Hlo Hty Hly1 Hj1 _ _].
  pose proof (leads_on_last _ _ _ Hlo) as Hll. destruct Hlo as [Hs1 Ht1 Hl1 _ _ _].
  unfold adjusted in Hcase. cbv zeta in Hcase. set (nm := i - 1 + Z.min 100 (lastLogIndex rf - i + 1)) in *.
  destruct Hcase as [(Hag1 & Hca & Hmx & Hnx)|(Hno & Hly & Hmx & Hnx)].
  - rewrite Z.max_r in Hmx, Hnx by lia. destruct (decide (nm = lastLogIndex rf)) as [Hlast|Hlast].
    { exists c1, rf1. eapply exchanged_last; [done| |done]. by rewrite Hmx, Hlast. }
    destruct (streams N m q j (S (Z.to_nat (lastLogIndex rf))) c1 rf1 y1 (nm + 1))
      as (c2 & rf2 & Hcu); try done.
    + by eapply goes_live.
    + lia.
    + by rewrite Ht1.
    + rewrite Hmx. f_equal. lia.
    + lia.
    + rewrite Hl1. by replace (nm + 1 - 1) with nm by lia.
    + lia.
    + exists c2, rf2. by eapply exchanged_more.
  - assert (i <> 1) as Hi1.
    { intros ->. apply Hno. split; [|lia]. rewrite <- Hly. pose proof (zlen_pos _ Hly1). lia. }
    destruct (IH c1 rf1 y1 (i - 1)) as (c2 & rf2 & Hcu); try done.
    + by eapply goes_live.
    + lia.
    + by rewrite Ht1.
    + lia.
    + lia.
    + exists c2, rf2. by eapply exchanged_more.
Qed.

(** The servers of [rest] store all the leader has. *)
Record all_caught_up c m rest rf c' rf' : Prop := {
  ac_goes : goes c c';
  ac_leader : zget (c_nodes c') m = Some rf';
  ac_state : state rf' = Leader;
  ac_term : currentTerm rf' = currentTerm rf;
  ac_log : log rf' = log rf;
  ac_applied : lastApplied rf' = lastApplied rf;
  ac_procs i p : c_procs c !! i = Some p -> (forall q T, p <> PReplicate m q T) -> c_procs c' !! i = Some p;
  ac_commit : commitIndex rf' = commitIndex rf \/ exists i, c_procs c' !! i = Some (PApply m);
  ac_match q : q ∈ rest -> mx rf' q = Some (lastLogIndex rf);
  ac_rest q : q ∉ rest -> mx rf' q = mx rf q;
  ac_commits : rest = [] /\ rf' = rf \/ commits_all rf' }.

(** All the others catch up, one after the other. *)
Lemma all_catch_up N m rest : forall c rf,
  live N c -> zget (c_nodes c) m = Some rf -> state rf = Leader -> 1 <= lastLogIndex rf ->
  NoDup rest ->
  (forall q, q ∈ rest -> q <> m /\ nx rf q = Some (lastLogIndex rf) /\ mx rf q = Some 0 /\
     (exists y, zget (c_nodes c) q = Some y /\ currentTerm y <= currentTerm rf) /\
     exists j, c_procs c !! j = Some (PReplicate m q (currentTerm rf))) ->
  exists c' rf', all_caught_up c m rest rf c' rf'.
Proof.
  induction rest as [|q rest IH]; intros c rf Hc Hm Hs Hl1 Hnd Hq.
  { exists c, rf. split; try done; auto. intros q Hin. by apply elem_of_nil in Hin. }
  apply NoDup_cons in Hnd as [Hnin Hnd].
  destruct (Hq q) as (Hne & Hnx & Hmx & (y & Hy & Ht) & j & Hj); [set_solver|].
  destruct (catches_up N m q j (S (Z.to_nat (lastLogIndex rf))) c rf y (lastLogIndex rf))
    as (c1 & rf1 & [Hgo1 Hm1 Ho1 Hlo Hp1 Ha1 Hmx1 Hca1]); try done; [lia..|].
  pose proof (leads_on_last _ _ _ Hlo) as Hll. destruct Hlo as [Hs1 Ht1 Hlg1 Hap1 Hc1 Hoth].
  destruct (IH c1 rf1) as (c2 & rf2 & [Hgo2 Hm2 Hs2 Ht2 Hlg2 Hap2 Hp2 Hc2 Hin2 Hout2 Hca2]); try done.
  { by eapply goes_live. }
  { lia. }
  { intros q' Hq'. assert (q' <> q) as Hqq by (by intros ->).
    destruct (Hq q') as (Hne' & Hnx' & Hmx' & (y' & Hy' & Ht') & j' & Hj'); [set_solver|].
    destruct (Hoth q' Hqq) as [-> ->]. rewrite Hll, Ht1. split; [done|]. split; [done|]. split; [done|].
    split; [exists y'; by rewrite Ho1|]. exists j'. apply Hp1; [|done]. intros ->. congruence. }
  exists c2, rf2. split; try congruence.
  - by etrans.
  - intros i p Hi Hp. apply Hp2; [|done]. apply Hp1; [|done]. intros ->. rewrite Hj in Hi.
    injection Hi as <-. by eapply Hp.
  - destruct Hc2 as [->|?]; [|by right]. destruct (decide (commitIndex rf < commitIndex rf1)) as [Hlt|];
      [|left; lia]. right. destruct (Ha1 Hlt) as [i Hi]. exists i. by apply Hp2.
  - intros q' [->|Hq']%elem_of_cons; [by rewrite Hout2|]. rewrite <- Hll. by apply Hin2.
  - intros q' Hq'. rewrite Hout2 by set_solver. apply Hoth. set_solver.
  - right. by destruct Hca2 as [[_ ->]|].
Qed.

(** ** The service receives the command *)

(** A goroutine takes the next entry, and sends it. *)
Lemma applies_next c m rf i e :
  zget (c_nodes c) m = Some rf -> c_procs c !! i = Some (PApply m) ->
  lastApplied rf < commitIndex rf -> zget (log rf) (lastApplied rf + 1) = Some e ->
  exists c', goes c c' /\ c_procs c' !! i = Some (PApply m) /\
    zget (c_nodes c') m = Some (set_lastApplied (lastApplied rf + 1) rf) /\
    (m, mkApplyMsg true (e_Command e) (lastApplied rf + 1) false [] 0 0) ∈ c_applied c'.
Proof.
  intros Hm Hi Hlt He. set (k := mkTick 0 0). set (rf1 := set_lastApplied (lastApplied rf + 1) rf).
  set (msg := mkApplyMsg true (e_Command e) (lastApplied rf + 1) false [] 0 0).
  destruct (moves c i _ 0 k k (set_node m rf1 c) (PSend m msg) [] Hi) as (c1 & [Hgo1 Hn1 _ Hi1 _ _]).
  { simpl. rewrite (get_node_some _ _ _ Hm). simpl. unfold applyCommittedEntries.
    destruct (commitIndex rf <=? lastApplied rf) eqn:E; bsimp; [lia|]. by rewrite He. }
  destruct (moves c1 i _ 0 k k (add_applied (m, msg) c1) (PApply m) [] Hi1)
    as (c2 & [Hgo2 Hn2 Hap2 Hi2 _ _]); [done|]. simpl in Hn1, Hn2, Hap2.
  exists c2. split; [by etrans|]. split; [done|]. split.
  - rewrite Hn2, Hn1. apply zget_insert_eq. by apply zget_Some_range in Hm.
  - rewrite Hap2. apply elem_of_app. right. apply list_elem_of_here.
Qed.

(** It takes the entries up to the one before [ix]. *)
Lemma applies_until m d : forall c rf i ix,
  zget (c_nodes c) m = Some rf -> c_procs c !! i = Some (PApply m) ->
  0 <= lastApplied rf < ix -> ix <= commitIndex rf -> ix <= lastLogIndex rf ->
  (Z.to_nat (ix - lastApplied rf) <= d)%nat ->
  exists c', goes c c' /\ c_procs c' !! i = Some (PApply m) /\
    zget (c_nodes c') m = Some (set_lastApplied (ix - 1) rf).
Proof.
  induction d as [|d IH]; intros c rf i ix Hm Hi Ha Hx Hlast Hd; [lia|].
  destruct (decide (lastApplied rf = ix - 1)) as [Heq|Hne].
  { exists c. split; [done|]. split; [done|]. rewrite <- Heq. by destruct rf. }
  destruct (proj2 (zget_is_Some (log rf) (lastApplied rf + 1))) as [e He].
  { unfold lastLogIndex in Hlast. lia. }
  destruct (applies_next c m rf i e Hm Hi ltac:(lia) He) as (c1 & Hgo1 & Hi1 & Hm1 & _).
  destruct (IH c1 _ i ix Hm1 Hi1) as (c2 & Hgo2 & Hi2 & Hm2); [simpl; lia|simpl; lia|done|simpl; lia|].
  exists c2. split; [by etrans|]. split; [done|]. by rewrite Hm2.
Qed.

(** ** A command is committed *)

Lemma all_store rf N :
  node_ok rf -> (forall q, q ∈ other_peers rf -> mx rf q = Some N) -> acks rf N = peers rf.
Proof.
  intros Hok Hall. unfold acks.
  assert (filter (fun i => stores (default [] (matchIndex rf)) N i = true) (other_peers rf) = other_peers rf) as ->.
  { revert Hall. generalize (other_peers rf). intros l Hall. induction l as [|i l IH]; [done|].
    rewrite filter_cons_True; [by f_equal; apply IH; intros q Hq; apply Hall; right|].
    unfold stores. unfold mx in Hall. rewrite (Hall i) by left. apply Z.leb_refl. }
  rewrite zlen_other_peers by apply Hok. lia.
Qed.

Lemma bump_get (l : list Z) i v :
  0 <= i < zlen l -> exists l' : list Z, bump (Some l) i v = Some (Some l') /\
    forall p, p <> i -> zget l' p = zget l p.
Proof.
  intros Hi. unfold bump. destruct (i <? zlen l) eqn:E; bsimp; [|lia].
  destruct (proj2 (zget_is_Some l i) Hi) as [x ->]. simpl. destruct (x <? v); [|eauto].
  destruct (zset_get l i v Hi) as (l' & -> & _ & _ & Ho). simpl. eauto.
Qed.

Lemma zget_replicate_eq {A} (n : Z) (a : A) q : 0 <= q < n -> zget (replicate (Z.to_nat n) a) q = Some a.
Proof. intros Hq. apply zget_Some_lookup. split; [lia|]. apply lookup_replicate_2. lia. Qed.

(** A new leader takes a command. *)
Lemma new_leader_starts v rf :
  0 <= me rf < peers rf -> let rf0 := (becomeLeaderLocked rf).1 in
  exists rf1 r, Start v rf0 = Some (rf1, r, map (fun i => SpawnReplicate i (currentTerm rf)) (other_peers rf)) /\
    state rf1 = Leader /\ currentTerm rf1 = currentTerm rf /\
    log rf1 = log rf ++ [mkEntry (currentTerm rf) (Some v)] /\
    commitIndex rf1 = commitIndex rf /\ lastApplied rf1 = lastApplied rf /\
    forall q, q <> me rf -> 0 <= q < peers rf -> nx rf1 q = Some (zlen (log rf)) /\ mx rf1 q = Some 0.
Proof.
  intros Hme rf0. unfold Start. rewrite bool_decide_eq_true_2 by done.
  unfold rf0, becomeLeaderLocked. cbn [fst negb]. simpl.
  destruct (bump_get (replicate (Z.to_nat (peers rf)) 0) (me rf) (lastLogIndex rf0 + 1)) as (mi & Hmi & Hmo).
  { rewrite zlen_replicate. lia. }
  unfold lastLogIndex in *. simpl in *. rewrite Hmi. simpl.
  destruct (bump_get (replicate (Z.to_nat (peers rf)) (zlen (log rf) - 1 + 1)) (me rf)
    (zlen (log rf) - 1 + 1 + 1)) as (ni & Hni & Hno).
  { rewrite zlen_replicate. lia. }
  simpl in Hni. rewrite Hni. simpl. eexists _, _. split; [done|]. split_and!; try done.
  intros q Hne Hq. unfold nx, mx. simpl. rewrite Hno, Hmo, !zget_replicate_eq by done.
  split; [f_equal; lia|done].
Qed.

(** A follower of term [T]. *)
Definition heard_of (T : Z) x : Prop := currentTerm x = T /\ state x = Follower.

(** A server comes to lead in a new term, whatever the servers did before. *)
Lemma leads_anew N c :
  live N c -> 2 <= N -> (forall i rf, zget (c_nodes c) i = Some rf -> settled rf) ->
  exists c' m rf, goes c c' /\ zget (c_nodes c') m = Some (becomeLeaderLocked rf).1 /\ settled rf /\
    forall q x, q <> m -> zget (c_nodes c') q = Some x -> heard_of (currentTerm rf) x.
Proof.
  intros Hc HN Hset. destruct (freshest (c_nodes c)) as (m & rf & Hm & Hmax).
  { intros Hnil. pose proof (live_len _ _ Hc) as Hl. rewrite Hnil, zlen_nil in Hl. lia. }
  destruct (steps_down N c m rf Hc HN Hm) as (c1 & rf1 & Hgo1 & Hsl1 & Hm1 & Hs1).
  pose proof (goes_live _ _ _ Hc Hgo1) as Hc1.
  assert (forall q x1, zget (c_nodes c1) q = Some x1 ->
    exists x, zget (c_nodes c) q = Some x /\ log x1 = log x) as Hback.
  { intros q x1 Hx1. destruct (proj2 (zget_is_Some (c_nodes c) q)) as [x Hx].
    { apply zget_Some_range in Hx1. by rewrite (live_len _ _ Hc), <- (live_len _ _ Hc1). }
    destruct (Hsl1 q x Hx) as (x' & Hx' & Hl & _). exists x. split; [done|]. congruence. }
  destruct (Hsl1 m rf Hm) as (rf1' & Hm1' & Hl1 & Hset1). rewrite Hm1 in Hm1'. injection Hm1' as <-.
  destruct (comes_to_lead N c1 m rf1 Hc1 Hm1 Hs1) as (c2 & rf2 & Hgo2 & Hm2 & Hsl2 & Hq2).
  { intros q x1 Hx1. destruct (Hback q x1 Hx1) as (x & Hx & Hlx).
    rewrite (up_to_date_log x x1 rf rf1) by done. by eapply Hmax. }
  exists c2, m, rf2. split; [by etrans|]. split; [done|]. split.
  - eapply same_log_settled; [done|]. apply Hset1. by eapply Hset.
  - intros q x Hne Hx. destruct (proj2 (zget_is_Some (c_nodes c1) q)) as [x1 Hx1].
    { apply zget_Some_range in Hx. rewrite (live_len _ _ Hc1).
      by rewrite (live_len _ _ (goes_live _ _ _ Hc1 Hgo2)) in Hx. }
    destruct (Hq2 q x1 Hne Hx1) as (x' & Hx' & Hh). rewrite Hx in Hx'. injection Hx' as <-. by destruct Hh.
Qed.

(** The new leader takes a command, and is about to send it to the others. *)
Lemma submits N c m rf v :
  live N c -> zget (c_nodes c) m = Some (becomeLeaderLocked rf).1 ->
  (forall q x, q <> m -> zget (c_nodes c) q = Some x -> heard_of (currentTerm rf) x) ->
  exists c1 rf1, step c (Client m v) = Ret c1 /\ live N c1 /\ zget (c_nodes c1) m = Some rf1 /\
    state rf1 = Leader /\ currentTerm rf1 = currentTerm rf /\
    log rf1 = log rf ++ [mkEntry (currentTerm rf1) (Some v)] /\ commitIndex rf1 = commitIndex rf /\ lastApplied rf1 = lastApplied rf /\
    forall q, q ∈ other_peers rf1 ->
      q <> m /\ nx rf1 q = Some (lastLogIndex rf1) /\ mx rf1 q = Some 0 /\
      (exists y, zget (c_nodes c1) q = Some y /\ currentTerm y <= currentTerm rf1) /\
      exists j, c_procs c1 !! j = Some (PReplicate m q (currentTerm rf1)).
Proof.
  intros Hc Hm Hterm. destruct (live_node _ _ _ _ Hc Hm) as ([Hme _ _ _ _] & Hp & Hmm & Hr & _).
  simpl in Hme, Hp, Hmm.
  destruct (new_leader_starts v rf Hme) as (rf1 & r & Hst & Hs1 & Ht1 & Hl1 & Hc1 & Ha1 & Hnm).
  set (sp := map (fun i => SpawnReplicate i (currentTerm rf)) (other_peers rf)) in *.
  set (c1 := set_procs (c_procs c ++ map (proc_of m) sp) (set_node m rf1 c)).
  assert (step c (Client m v) = Ret c1) as Hstep.
  { simpl. rewrite (get_node_some _ _ _ Hm). cbn [mbind result_bind]. by rewrite Hst. }
  assert (live N c1) as Hlive.
  { apply (exec_live N c [Client m v]); [done|]. cbn [exec]. by rewrite Hstep. }
  assert (zget (c_nodes c1) m = Some rf1) as Hm1.
  { apply zget_insert_eq. by apply zget_Some_range in Hm. }
  destruct (live_node _ _ _ _ Hlive Hm1) as (_ & Hp1 & Hme1 & _).
  exists c1, rf1. rewrite Ht1. do 8 (split; [done|]). intros q Hq.
  assert (q ∈ other_peers rf) as Hq0.
  { unfold other_peers, range_peers in *. by rewrite Hp, Hmm, <- Hp1, <- Hme1. }
  pose proof Hq0 as [Hne Hrq]%elem_of_other_peers. destruct (Hnm q Hne Hrq) as [Hnx Hmx].
  split; [congruence|]. split.
  { rewrite Hnx. unfold lastLogIndex. rewrite Hl1, zlen_app. change (zlen [_]) with 1. f_equal. lia. }
  split; [done|]. split.
  - destruct (proj2 (zget_is_Some (c_nodes c) q)) as [x Hx]; [by rewrite (live_len N), <- Hp|].
    exists x. assert (q <> m) by congruence. split; [|rewrite (proj1 (Hterm q x ltac:(done) ltac:(done))); lia].
    simpl. rewrite zget_insert_ne; [done|lia|done].
  - apply list_elem_of_lookup in Hq0 as [i Hi]. exists (length (c_procs c) + i)%nat. simpl.
    rewrite lookup_app_r by lia. replace (_ + i - _)%nat with i by lia.
    unfold sp. by rewrite !list_lookup_fmap, Hi.
Qed.

(** Once the others store the last entry, of its own term, it is committed. *)
Lemma commits_last rf e :
  node_ok rf -> 2 <= peers rf -> commits_all rf ->
  zget (log rf) (lastLogIndex rf) = Some e -> e_Term e = currentTerm rf ->
  (forall q, q ∈ other_peers rf -> mx rf q = Some (lastLogIndex rf)) ->
  lastLogIndex rf <= commitIndex rf.
Proof.
  intros Hok Hn Hca He Ht Hmx. apply Z.le_ngt. intros Hlt. apply (Hca (lastLogIndex rf)); [lia|].
  split; [by exists e|]. rewrite all_store by done. apply Z.div_lt; lia.
Qed.

(** The new leader takes a command, replicates and commits it, and takes all
    that precedes it for its service. *)
Lemma new_leader_commits N c m rf v :
  live N c -> 2 <= N -> zget (c_nodes c) m = Some (becomeLeaderLocked rf).1 -> settled rf ->
  (forall q x, q <> m -> zget (c_nodes c) q = Some x -> heard_of (currentTerm rf) x) ->
  let ix := zlen (log rf) in
  exists c1 c2 i rf2, step c (Client m v) = Ret c1 /\ goes c1 c2 /\
    c_procs c2 !! i = Some (PApply m) /\ zget (c_nodes c2) m = Some rf2 /\
    lastApplied rf2 = ix - 1 /\ ix <= commitIndex rf2 /\ currentTerm rf2 = currentTerm rf /\
    zget (log rf2) ix = Some (mkEntry (currentTerm rf) (Some v)).
Proof.
  intros Hc HN Hm [Ha Hcm] Hterm ix.
  destruct (submits N c m rf v Hc Hm Hterm)
    as (c1 & rf1 & Hst & Hc1 & Hm1 & Hs1 & Ht1 & Hl1 & Hcm1 & Ha1 & Hothers).
  rewrite Ht1 in Hl1. set (e := mkEntry (currentTerm rf) (Some v)) in *.
  destruct (live_node _ _ _ _ Hc Hm) as ([_ Hl _ _ _] & _). simpl in Hl.
  assert (lastLogIndex rf1 = ix) as Hlast.
  { unfold lastLogIndex. rewrite Hl1, zlen_app. change (zlen [_]) with 1. unfold ix. lia. }
  pose proof (zlen_pos _ Hl) as Hpos. fold ix in Hpos.
  destruct (all_catch_up N m (other_peers rf1) c1 rf1 Hc1 Hm1 Hs1 ltac:(lia) (other_peers_NoDup _) Hothers)
    as (c2 & rf2 & [Hgo2 Hm2 Hs2 Ht2 Hl2 Ha2 _ Hc2 Hmx2 _ Hca2]).
  destruct (live_node _ _ _ _ Hc1 Hm1) as (Hok1 & Hp1 & Hme1 & _).
  destruct (live_node _ _ _ _ (goes_live _ _ _ Hc1 Hgo2) Hm2) as (Hok2 & Hp2 & Hme2 & _).
  assert (lastLogIndex rf2 = ix) as Hlast2 by (unfold lastLogIndex in *; by rewrite Hl2).
  assert (zget (log rf2) ix = Some e) as He.
  { unfold ix. rewrite Hl2, Hl1, zget_app_r, Z.sub_diag by lia. done. }
  assert (ix <= commitIndex rf2) as Hcommit.
  { rewrite <- Hlast2. apply (commits_last rf2 e); try done; [lia| |by rewrite Hlast2|simpl; congruence|].
    - destruct Hca2 as [[Hnil _]|]; [|done]. pose proof (zlen_other_peers rf1 (ok_me _ Hok1)) as Hz.
      rewrite Hnil, zlen_nil in Hz. lia.
    - intros q Hq. rewrite Hlast2, <- Hlast. apply Hmx2.
      unfold other_peers, range_peers in *. by rewrite Hp1, Hme1, <- Hp2, <- Hme2. }
  unfold lastLogIndex in Hcm. destruct Hc2 as [Hc2|[i Hi]]; [lia|].
  pose proof (ok_applied _ Hok2).
  destruct (applies_until m (Z.to_nat ix) c2 rf2 i ix Hm2 Hi) as (c3 & Hgo3 & Hi3 & Hm3); [lia..|].
  exists c1, c3, i, (set_lastApplied (ix - 1) rf2). split; [done|]. split; [by etrans|].
  split_and!; try done. simpl. congruence.
Qed.

(** C10. The cluster can always make progress: from every state that two or more
    servers can reach, as long as none has lost entries it committed, and for
    every command, there is a continuation without crashes and without losses
    in which the command is submitted once and handed to a service. *)
Theorem cluster_can_commit n c v :
  reachable n c -> (2 <= n)%nat ->
  (forall i rf, zget (c_nodes c) i = Some rf -> settled rf) ->
  exists acts i acts' c' index, Forall smooth acts /\ Forall smooth acts' /\
    exec c (acts ++ Client i v :: acts') = Ret c' /\
    (i, mkApplyMsg true (Some v) index false [] 0 0) ∈ c_applied c'.
Proof.
  intros Hre Hn Hset. pose proof (reachable_live n c Hre) as Hc.
  destruct (leads_anew _ c Hc ltac:(lia) Hset) as (c1 & m & rf & Hgo1 & Hm & Hs & Hterm).
  destruct (new_leader_commits _ c1 m rf v (goes_live _ _ _ Hc Hgo1) ltac:(lia) Hm Hs Hterm)
    as (c2 & c3 & i & rf2 & Hst & Hgo2 & Hi & Hm2 & Ha & Hci & _ & He).
  set (ix := zlen (log rf)) in *. replace ix with (lastApplied rf2 + 1) in He by lia.
  destruct (applies_next c3 m rf2 i _ Hm2 Hi ltac:(lia) He) as (c4 & Hgo3 & _ & _ & Hin).
  assert (goes c2 c4) as (acts' & Ha' & Hx') by (by etrans).
  destruct Hgo1 as (acts & Hac & Hx). exists acts, m, acts', c4, (lastApplied rf2 + 1).
  split; [done|]. split; [done|]. split; [|done]. rewrite (exec_app _ _ _ _ Hx).
  cbn [exec]. by rewrite Hst.
Qed.

(** ** A server alone *)

(** Goroutines of a cluster without other servers. *)
Definition alone (p : proc Cmd) : Prop :=
  match p with
  | PDone | PTicker _ | PTickerAct _ _ _ | PBroadcast _ | PElection _ _ | PWait _ _ | PStepDown _ _
  | PApply _ => True
  | _ => False
  end.

Record uncommitted c : Prop := {
  un_nodes : Forall (fun rf => commitIndex rf = 0 /\ lastApplied rf = 0) (c_nodes c);
  un_procs : Forall alone (c_procs c);
  un_applied : c_applied c = [] }.

Lemma no_others rf : peers rf = 1 -> me rf = 0 -> other_peers rf = [].
Proof.
  intros Hp Hm. destruct (other_peers rf) as [|q l] eqn:E; [done|].
  assert (q ∈ other_peers rf) as [? ?]%elem_of_other_peers by (rewrite E; left). lia.
Qed.

Lemma uncommitted_set c c' m rf rf' :
  uncommitted c -> zget (c_nodes c) m = Some rf ->
  commitIndex rf' = commitIndex rf -> lastApplied rf' = lastApplied rf ->
  c_nodes c' = <[Z.to_nat m := rf']> (c_nodes c) -> c_procs c' = c_procs c ->
  c_applied c' = c_applied c -> uncommitted c'.
Proof.
  intros [Hn Hp Ha] [_ Hm]%zget_Some_lookup Hc Hl Hn' Hp' Ha'. split; [|by rewrite Hp'|by rewrite Ha'].
  rewrite Hn'. apply Forall_insert; [done|]. rewrite Hc, Hl. exact (Forall_lookup_1 _ _ _ _ Hn Hm).
Qed.

Lemma alone_proc_of m (sp : list spawn) :
  (forall q t, SpawnReplicate q t ∉ sp) -> Forall alone (map (proc_of m) sp).
Proof.
  intros Hsp. apply Forall_forall. intros p (s & -> & Hs)%list_elem_of_fmap.
  destruct s as [| | |q t|]; try done. by destruct (Hsp q t).
Qed.

Lemma ticker_commit st term clock k rf : commitIndex (ticker_act st term clock k rf).1 = commitIndex rf.
Proof. unfold ticker_act. by repeat case_match. Qed.

Lemma step_down_commit term k rf : commitIndex (step_down term k rf) = commitIndex rf.
Proof.
  unfold step_down. destruct (_ <? _); [|done].
  by destruct (becomeFollower_fields term k rf) as (_ & _ & _ & _ & _ & ? & _).
Qed.

(** An election ends with heartbeats at most. *)
Lemma election_end_commit el rf :
  commitIndex (election_end el rf).1.2 = commitIndex rf /\
  forall q t, SpawnReplicate q t ∉ (election_end el rf).2.
Proof.
  unfold election_end. cbn zeta. destruct (_ <? _); [destruct (_ && _)|]; (split; [done|set_solver]).
Qed.

Lemma ran_uncommitted c p c' p' sp :
  live 1 c -> uncommitted c -> alone p -> ran c p c' p' sp ->
  uncommitted c' /\ Forall alone (p' :: sp).
Proof.
  intros Hc Hu Hp Hran.
  assert (forall m rf, zget (c_nodes c) m = Some rf -> other_peers rf = []) as Hnone.
  { intros m rf Hg. destruct (live_node _ _ _ _ Hc Hg) as (_ & Hpe & Hme & Hr & _). apply no_others; lia. }
  destruct Hran as [p p' Hmo|m st term clock k rf rf' l Hg Ha|m rf args Hg Hb
    |m peer args k1 k2 rf rf' r l Hg Ha|m r k rf Hg|m peer term args k1 k2 rf rf' r l Hg Ha
    |m peer term args r k rf rf' l more Hg Hrr|m term rf args Hg Hs|m e el rf el' rf' l He Hw Hg Hee
    |m e peer args k1 k2 rf rf' r Hg Hv|m e peer r el el' down He Hv|m e el He|m term k rf Hg
    |m rf rf' msg Hg Ha|m msg]; try done.
  - split; [done|]. destruct Hmo; by repeat constructor.
  - pose proof (ticker_commit st term clock k rf) as Hci. pose proof (held_ticker st term clock k rf) as [_ Hla _].
    pose proof (ticker_spawns st term clock k rf) as Hsp. rewrite Ha in Hci, Hla, Hsp.
    split; [|constructor; [done|by apply alone_proc_of]].
    eapply uncommitted_set; [done|exact Hg|done|done|by unfold voted; case_match..].
  - rewrite (Hnone m rf Hg). split; [done|by repeat constructor].
  - rewrite (Hnone m rf Hg). destruct Hu. split; [by split|by repeat constructor].
  - destruct (election_end_commit el rf) as [Hci Hsp]. pose proof (held_election_end el rf) as [_ Hla _].
    rewrite Hee in Hci, Hsp, Hla. split; [by eapply uncommitted_set|].
    constructor; [done|by apply alone_proc_of].
  - split; [|by repeat constructor].
    eapply uncommitted_set; [done|exact Hg|apply step_down_commit|apply held_step_down|done..].
  - apply apply_cases in Ha as (Hlt & _). apply zget_Some_lookup in Hg as [_ Hg].
    destruct (Forall_lookup_1 _ _ _ _ (un_nodes _ Hu) Hg). lia.
Qed.

Lemma step_uncommitted c act c' :
  live 1 c -> uncommitted c -> step c act = Ret c' -> uncommitted c'.
Proof.
  intros Hc Hu Hst. destruct act as [i arrives clock k1 k2|m v|m k]; simpl in Hst.
  - destruct (c_procs c !! i) as [p|] eqn:Hp; [|by injection Hst as <-].
    destruct (run p arrives clock k1 k2 c) as [[[c1 p'] sp]| |] eqn:Hrun; simpl in Hst; try done.
    injection Hst as <-. pose proof (Forall_lookup_1 _ _ _ _ (un_procs _ Hu) Hp) as Hal.
    pose proof (run_ran _ _ _ _ _ _ _ _ _ Hrun) as Hran.
    destruct (ran_uncommitted c p c1 p' sp Hc Hu Hal Hran) as [[Hn1 _ Ha1] [Hp' Hsp]%Forall_cons].
    split; try done. simpl. apply Forall_app. split; [|done].
    apply Forall_insert; [apply Hu|done].
  - unfold get_node in Hst. destruct (zget (c_nodes c) m) as [rf|] eqn:Hi; simpl in Hst; [|done].
    destruct (live_node _ _ _ _ Hc Hi) as (Hok & Hpe & Hme & Hr & _).
    destruct (Start_cases v rf Hok) as (rf' & r & sp & Heq & _ & _ & _ & _ & Hci & Hcase).
    rewrite Heq in Hst. simpl in Hst. injection Hst as <-.
    destruct (held_Start _ _ _ _ _ Heq) as [_ Hla _].
    assert (sp = []) as ->.
    { destruct Hcase as [(_ & _ & _ & ->)|(_ & _ & _ & ->)]; [done|]. by rewrite no_others by lia. }
    eapply uncommitted_set; [done|exact Hi|done..| |done]. simpl. apply app_nil_r.
  - unfold get_node in Hst. destruct (zget (c_nodes c) m) as [rf|] eqn:Hi; simpl in Hst; [|done].
    assert (forall d rf0, commitIndex (readPersist d rf0 : Raft Cmd) = commitIndex rf0 /\
      lastApplied (readPersist d rf0) = lastApplied rf0) as Hread.
    { intros d rf0. unfold readPersist. destruct (_ =? 0); [done|]. by repeat case_match. }
    injection Hst as <-. destruct Hu as [Hn Hp Ha]. split; [| |done]; simpl.
    + apply Forall_insert; [done|]. apply Hread.
    + apply Forall_app. split; [|by repeat constructor]. apply Forall_fmap, (Forall_impl _ _ _ Hp).
      intros q Hq. simpl. by destruct (bool_decide _).
Qed.

(** C37. A cluster of one server commits nothing: the commit index is only moved when
    a reply of another server arrives, so that, although the single server is
    elected and takes commands, its service never receives one. *)
Theorem single_server_never_commits c :
  reachable 1 c ->
  c_applied c = [] /\ forall i rf, zget (c_nodes c) i = Some rf -> commitIndex rf = 0.
Proof.
  intros (k & acts & Hex). enough (uncommitted c) as [Hn _ Ha].
  { split; [done|]. intros i rf [_ Hi]%zget_Some_lookup. by destruct (Forall_lookup_1 _ _ _ _ Hn Hi). }
  assert (live 1 (init 1 k : Cluster Cmd)) as Hl by (split; [apply (init_good 1)|apply init_awake]).
  assert (uncommitted (init 1 k : Cluster Cmd)) as Hu by (by repeat constructor).
  revert Hl Hu Hex. generalize (init 1 k : Cluster Cmd) as c0.
  induction acts as [|act acts IH]; intros c0 Hl Hu; simpl; [by intros [= <-]|].
  destruct (step c0 act) as [c1| |] eqn:Hst; simpl; try done. apply IH.
  - apply (exec_live 1 c0 [act]); [done|]. cbn [exec]. by rewrite Hst.
  - by eapply step_uncommitted.
Qed.
End commit.

Section witnesses.
(** Two servers lead the same term ([RaftCluster.two_leaders_one_term]): the
    cluster recovers. *)
Definition contested : Cluster Z :=
  match exec start3 second_leader with Ret c => c | _ => start3 end.

Lemma contested_reachable : reachable 3 contested.
Proof. exists t0, second_leader. by vm_compute. Qed.

Definition settled_b (rf : Raft Z) : bool :=
  (lastApplied rf <=? commitIndex rf) && (commitIndex rf <=? lastLogIndex rf).

Lemma settled_all (c : Cluster Z) :
  forallb settled_b (c_nodes c) = true ->
  forall i rf, zget (c_nodes c) i = Some rf -> settled rf.
Proof.
  intros Hb i rf [_ Hi]%zget_Some_lookup. rewrite forallb_forall in Hb.
  apply list_elem_of_lookup_2, list_elem_of_In in Hi. specialize (Hb rf Hi). unfold settled_b in Hb.
  bsimp. by split; lia.
Qed.

Lemma cluster_can_commit_witness :
  exists acts i acts' c' index, Forall smooth acts /\ Forall smooth acts' /\
    exec contested (acts ++ Client i 7 :: acts') = Ret c' /\
    (i, mkApplyMsg true (Some 7) index false [] 0 0) ∈ c_applied c'.
Proof.
  apply (cluster_can_commit 3 contested 7); [exact contested_reachable|lia|].
  apply settled_all. by vm_compute.
Defined.

(** One server, elected, with a command in its log. *)
Definition start1 : Cluster Z := init 1 t0.
Definition lonely : Cluster Z :=
  match exec start1 [go 0; go 0; go 1; go 1; Client 0 7; go 0; go 0] with Ret c => c | _ => start1 end.

Lemma single_reachable : reachable 1 lonely.
Proof. exists t0, [go 0; go 0; go 1; go 1; Client 0 7; go 0; go 0]. by vm_compute. Qed.

Lemma single_leads : is_leader lonely 0 1 /\
  exists rf, zget (c_nodes lonely) 0 = Some rf /\ log rf = [mkEntry 0 None; mkEntry 1 (Some 7)].
Proof. split; eexists; split; [by vm_compute|done|by vm_compute|done]. Qed.

Lemma single_server_never_commits_witness :
  is_leader lonely 0 1 /\ c_applied lonely = [] /\
  forall i rf, zget (c_nodes lonely) i = Some rf -> commitIndex rf = 0.
Proof.
  split; [exact (proj1 single_leads)|]. exact (single_server_never_commits lonely single_reachable).
Defined.
End witnesses.
End ClusterCommit.
