(* ===== verification/ClusterSettled.v ===== *)
(** In the runs the safety theorems are about (no double vote, at most 100
    commands) every server is settled at all times: what it applied it knows to
    be committed, and still has.  So ClusterCommit.v applies to their states. *)
From S2P Require Import Prelude Persister RaftNode RaftFacts RaftSpec RaftSafety RaftCluster ClusterSections ClusterSafety ClusterRefines ClusterRuns ClusterProgress ClusterCommit.
Import Persister Raft RaftFacts RaftSpec RaftSafety RaftCluster ClusterSections ClusterSafety ClusterRefines ClusterRuns ClusterProgress ClusterCommit.

Module ClusterSettled.

Section settled.
Context {Cmd : Type} `{!Gob Z, !Gob (list (LogEntry Cmd))}.
Context (n : nat).
Abbreviation N := (Z.of_nat n).
Implicit Types (rf : Raft Cmd) (c : Cluster Cmd) (acts : list (action Cmd)) (l : list (LogEntry Cmd)).

(** After an accepted call the log covers all that was sent. *)
Lemma conflict_covers l p es l' rest :
  0 <= p < zlen l -> find_conflict l (p + 1) es = Some (l', rest) -> p + zlen es < zlen (l' ++ rest).
Proof.
  intros Hp Hf. destruct (find_conflict_spec l (p + 1) es) as (l1 & pre & rest1 & Hf1 & Hes & _ & _); [lia|].
  destruct (decide (es = [])) as [->|Hne].
  - simpl in Hf. injection Hf as <- <-. rewrite app_nil_r, zlen_nil. lia.
  - pose proof (zlen_pos _ Hne). destruct (proj2 (zget_is_Some es (zlen es - 1))) as [e He]; [lia|].
    destruct (conflict_agrees l (p + 1) es l' rest e ltac:(lia) Hf He) as (e' & He' & _).
    apply zget_Some_range in He'. lia.
Qed.

(** A follower that was not told of more than it was sent never forgets that an
    entry is committed. *)
Lemma append_commit (args : AppendEntriesArgs Cmd) k1 k2 rf rf' r (sp : list spawn) :
  log rf <> [] -> 0 <= ae_PrevLogIndex args ->
  ae_LeaderCommit args <= ae_PrevLogIndex args + zlen (ae_Entries args) ->
  AppendEntries args k1 k2 rf = Some (rf', r, sp) -> commitIndex rf <= commitIndex rf'.
Proof.
  intros Hl Hp Hlc Ha. destruct (AppendEntries_cases args k1 k2 rf Hl Hp)
    as (rf1 & r1 & sp1 & Heq & _ & _ & Hold & Hrej & Hacc).
  rewrite Ha in Heq. injection Heq as <- <- <-.
  destruct (decide (ae_Term args < currentTerm rf)) as [Ht|Ht]; [by destruct (Hold Ht) as [-> _]|].
  destruct (prev_matches_spec args rf) as ([] & _ & Hiff).
  - destruct (Hacc ltac:(lia) (proj1 Hiff eq_refl)) as (l' & rest & [_ _ _ Hl' _ _ _ _] & Hfc & -> & _).
    destruct (proj1 Hiff eq_refl) as [Hlt _].
    pose proof (conflict_covers _ _ _ _ _ (conj Hp Hlt) Hfc) as Hcov.
    unfold new_commit, lastLogIndex. rewrite Hl'. destruct (_ <? _) eqn:E; bsimp; lia.
  - destruct Hrej as (_ & -> & _); [lia|by intros ?%Hiff|done].
Qed.

Definition applied_le c : Prop :=
  forall i rf, zget (c_nodes c) i = Some rf -> lastApplied rf <= commitIndex rf.

Lemma applied_le_set c c' m rf' :
  applied_le c -> c_nodes c' = <[Z.to_nat m := rf']> (c_nodes c) -> 0 <= m < zlen (c_nodes c) ->
  lastApplied rf' <= commitIndex rf' -> applied_le c'.
Proof.
  intros Hc Hn Hr Hrf i rf. rewrite Hn. destruct (decide (i = m)) as [->|Hne].
  - rewrite zget_insert_eq by done. by intros [= <-].
  - rewrite zget_insert_ne by (done || lia). apply Hc.
Qed.

(** What a call in flight tells of the leader's commit index. *)
Lemma carries_ref s B c p m args :
  cluster_ref n s B c -> B <= capacity -> p ∈ c_procs c -> carries p = Some (m, args) ->
  0 <= ae_PrevLogIndex args /\ ae_LeaderCommit args <= ae_PrevLogIndex args + zlen (ae_Entries args).
Proof.
  intros Hr HB Hp Hca. pose proof (re_procs _ _ _ _ _ _ _ Hr) as Hps. rewrite Forall_forall in Hps.
  specialize (Hps p Hp). assert (args_ref n s B args) as (ldr & L & _ & (Hprev & _) & Hlc).
  { destruct p; try done; simpl in Hca; injection Hca as -> ->; [done|by destruct Hps]. }
  split; [done|]. by apply Hlc.
Qed.

Lemma ran_applied_le s B c p c' p' sp :
  good N c -> cluster_ref n s B c -> B <= capacity -> p ∈ c_procs c -> applied_le c ->
  ran c p c' p' sp -> applied_le c'.
Proof.
  intros Hg Hr HB Hp Hc Hran.
  destruct (ran_touched _ _ _ _ _ Hran) as [c' Hn|c' m rf rf' Hm Hn [_ Ha Hci]
    |c' m args k1 k2 rf rf' r l Hm Hn Hca Ha|c' m rf rf' msg Hm Hn Ha _ _].
  - intros i rf. rewrite Hn. apply Hc.
  - eapply applied_le_set; [done|exact Hn|by eapply zget_Some_range|]. specialize (Hc m rf Hm). lia.
  - eapply applied_le_set; [done|exact Hn|by eapply zget_Some_range|].
    destruct (carries_ref s B c p m args Hr HB Hp Hca) as [Hprev Hlc].
    destruct (get_node_inv _ _ _ _ _ _ _ Hg Hm) as [[Hok _ _ _ _ _] _].
    pose proof (append_commit args k1 k2 rf rf' r l (ok_log _ Hok) Hprev Hlc Ha).
    destruct (AppendEntries_served _ _ _ _ _ _ _ Ha) as [_ ->]. specialize (Hc m rf Hm). lia.
  - eapply applied_le_set; [done|exact Hn|by eapply zget_Some_range|].
    destruct (apply_cases _ _ _ Ha) as (Hlt & -> & _). simpl. lia.
Qed.

Lemma step_applied_le s B c act c' :
  good N c -> cluster_ref n s B c -> B <= capacity -> applied_le c -> step c act = Ret c' ->
  applied_le c'.
Proof.
  intros Hg Hr HB Hc Hst. destruct act as [i arrives clock k1 k2|m v|m k]; simpl in Hst; unfold get_node in Hst;
    try (destruct (zget (c_nodes c) m) as [rf|] eqn:Hm; simpl in Hst; [|done]).
  - destruct (c_procs c !! i) as [p|] eqn:Hp; [|by injection Hst as <-].
    destruct (run p arrives clock k1 k2 c) as [[[c1 p'] sp]| |] eqn:Hrun; simpl in Hst; try done.
    injection Hst as <-. apply list_elem_of_lookup_2 in Hp.
    exact (ran_applied_le s B c p c1 p' sp Hg Hr HB Hp Hc (run_ran _ _ _ _ _ _ _ _ _ Hrun)).
  - destruct (Start v rf) as [[[rf' r] l]|] eqn:Hs; simpl in Hst; [|done]. injection Hst as <-.
    eapply applied_le_set; [exact Hc|done|by eapply zget_Some_range|].
    destruct (held_Start _ _ _ _ _ Hs) as [_ -> Hci]. specialize (Hc m rf Hm). lia.
  - injection Hst as <-. eapply applied_le_set; [exact Hc|done|by eapply zget_Some_range|].
    destruct (Make_fresh (peers rf) (me rf) (persister rf) k) as [_ Ha].
    destruct (get_node_inv _ _ _ _ _ _ _ Hg Hm) as [[Hok Hd _ _ _ _] _].
    destruct (restart_ok k rf Hok Hd) as ([[_ _ Hci _ _] _ _ _] & _).
    etrans; [|exact Hci]. by apply Z.eq_le_incl.
Qed.

Lemma exec_snoc c acts act c' :
  exec c (acts ++ [act]) = Ret c' -> exists c1, exec c acts = Ret c1 /\ step c1 act = Ret c'.
Proof.
  revert c. induction acts as [|a acts IH]; intros c; simpl.
  - destruct (step c act) as [c1| |] eqn:Hst; simpl; try done. intros [= <-]. by exists c.
  - destruct (step c a); simpl; try done. apply IH.
Qed.

Lemma commands_snoc acts act : commands (acts ++ [act]) = commands acts + commands [act].
Proof. induction acts as [|[] acts IH]; simpl in *; lia. Qed.

Lemma run_settled k acts c :
  exec (init n k) acts = Ret c -> single (c_votes c) -> commands acts <= 100 ->
  forall i rf, zget (c_nodes c) i = Some rf -> settled rf.
Proof.
  intros Hex Hs Hcap. enough (applied_le c) as Hle.
  { intros i rf Hi. split; [by eapply Hle|].
    destruct (run_reached n k acts c Hex Hs) as (s & _ & _ & Hr).
    eapply (nr_commit _ _ _ _ _ (re_nodes _ _ _ _ _ _ _ Hr i rf Hi)). unfold capacity. lia. }
  revert c Hex Hs Hcap. induction acts as [|act acts IH] using rev_ind; intros c Hex Hs Hcap.
  - injection Hex as <-. intros i rf Hi. apply zget_Some_lookup in Hi as [_ Hi].
    apply list_elem_of_lookup_2 in Hi. simpl in Hi.
    apply list_elem_of_fmap in Hi as (sp & -> & (m & -> & _)%list_elem_of_fmap). done.
  - apply exec_snoc in Hex as (c1 & Hex & Hst). rewrite commands_snoc in Hcap.
    assert (0 <= commands [act]) as H0 by (by destruct act).
    assert (single (c_votes c1)) as Hs1 by (eapply single_mono; [by eapply step_votes|done]).
    destruct (run_reached n k acts c1 Hex Hs1) as (s & _ & _ & Hr).
    eapply (step_applied_le s (1 + commands acts) c1); [|done|unfold capacity; lia|by apply IH; [..|lia]|done].
    eapply exec_inv; [apply init_good|exact Hex].
Qed.
End settled.
End ClusterSettled.
