(* ===== verification/KVRaft.v ===== *)
(** The replicated key/value service (src/kvraft): the server with its duplicate
    table and notification channels on top of a Raft peer, and the clerk.
    Sections under [kv.mu] are single definitions; a blocking call is split at
    the points where it waits. *)
From S2P Require Import Prelude Persister RaftNode RaftFacts.
Import Persister Raft.

Module KVRaft.

(** ** Messages (common.go) *)

Inductive Err := OK | ErrNoKey | ErrWrongLeader | ErrTimeout | ErrUnknownOp.

#[export] Instance Err_eq_dec : EqDecision Err.
Proof. solve_decision. Defined.

Record PutAppendArgs := mkPutAppendArgs {
  pa_Key : string; pa_Value : string; pa_Op : string; pa_ClientId : Z; pa_SeqNum : Z }.

Record PutAppendReply := mkPutAppendReply { par_Err : Err }.

Record GetArgs := mkGetArgs { ga_Key : string; ga_ClientId : Z; ga_SeqNum : Z }.

Record GetReply := mkGetReply { gr_Err : Err; gr_Value : string }.

(** ** The server (server.go) *)

Record Op := mkOp {
  OpType : string; Key : string; Value : string; ClientId : Z; SeqNum : Z }.

#[export] Instance Op_eq_dec : EqDecision Op.
Proof. solve_decision. Defined.

(** What a log entry can carry: an [Op], or a value of another type. *)
Inductive command :=
  | COp (op : Op)
  | COther (v : Z).

#[export] Instance command_eq_dec : EqDecision command.
Proof. solve_decision. Defined.

#[export] Program Instance Op_countable : Countable Op :=
  inj_countable' (fun o => (OpType o, Key o, Value o, ClientId o, SeqNum o))
    (fun '(t, k, v, c, s) => mkOp t k v c s) _.
Next Obligation. by intros []. Qed.

#[export] Program Instance command_countable : Countable command :=
  inj_countable' (fun c => match c with COp o => inl o | COther v => inr v end)
    (fun s => match s with inl o => COp o | inr v => COther v end) _.
Next Obligation. by intros []. Qed.

Record NotifyCh := mkNotify { nc_Term : Z; nc_Value : string; nc_Err : Err }.

(** A channel of capacity one is a cell of [chans], addressed by its position;
    it holds the message sent and not yet received. *)
Record KVServer := mkKVServer {
  kv_me : Z;
  rf : Raft command;
  kv_dead : Z;
  maxraftstate : Z;
  kvStore : gmap string string;
  lastApplied : gmap Z Z;
  lastResult : gmap Z string;
  notifyChans : gmap Z nat;
  lastAppliedIndex : Z;
  chans : list (option NotifyCh) }.

Definition set_rf v kv := mkKVServer (kv_me kv) v (kv_dead kv) (maxraftstate kv) (kvStore kv)
  (lastApplied kv) (lastResult kv) (notifyChans kv) (lastAppliedIndex kv) (chans kv).
Definition set_kv_dead v kv := mkKVServer (kv_me kv) (rf kv) v (maxraftstate kv) (kvStore kv)
  (lastApplied kv) (lastResult kv) (notifyChans kv) (lastAppliedIndex kv) (chans kv).
Definition set_kvStore v kv := mkKVServer (kv_me kv) (rf kv) (kv_dead kv) (maxraftstate kv) v
  (lastApplied kv) (lastResult kv) (notifyChans kv) (lastAppliedIndex kv) (chans kv).
Definition set_lastApplied v kv := mkKVServer (kv_me kv) (rf kv) (kv_dead kv) (maxraftstate kv)
  (kvStore kv) v (lastResult kv) (notifyChans kv) (lastAppliedIndex kv) (chans kv).
Definition set_lastResult v kv := mkKVServer (kv_me kv) (rf kv) (kv_dead kv) (maxraftstate kv)
  (kvStore kv) (lastApplied kv) v (notifyChans kv) (lastAppliedIndex kv) (chans kv).
Definition set_notifyChans v kv := mkKVServer (kv_me kv) (rf kv) (kv_dead kv) (maxraftstate kv)
  (kvStore kv) (lastApplied kv) (lastResult kv) v (lastAppliedIndex kv) (chans kv).
Definition set_lastAppliedIndex v kv := mkKVServer (kv_me kv) (rf kv) (kv_dead kv)
  (maxraftstate kv) (kvStore kv) (lastApplied kv) (lastResult kv) (notifyChans kv) v (chans kv).
Definition set_chans v kv := mkKVServer (kv_me kv) (rf kv) (kv_dead kv) (maxraftstate kv)
  (kvStore kv) (lastApplied kv) (lastResult kv) (notifyChans kv) (lastAppliedIndex kv) v.

(** [lastSeq, exists := kv.lastApplied[c]; exists && lastSeq >= s] *)
Definition duplicate (kv : KVServer) (c s : Z) : bool :=
  match lastApplied kv !! c with
  | Some lastSeq => s <=? lastSeq
  | None => false
  end.

(** The first section of [Get]: the reply to a duplicate, or the operation to
    submit. *)
Definition Get (kv : KVServer) (args : GetArgs) : GetReply + Op :=
  if duplicate kv (ga_ClientId args) (ga_SeqNum args)
  then inl (mkGetReply OK (default "" (lastResult kv !! ga_ClientId args)))
  else inr (mkOp "Get" (ga_Key args) "" (ga_ClientId args) (ga_SeqNum args)).

(** The rest of [Get], once [waitForApply] returned. *)
Definition Get_done (r : Err * string) : GetReply := mkGetReply r.1 r.2.

Definition PutAppend (kv : KVServer) (args : PutAppendArgs) : PutAppendReply + Op :=
  if duplicate kv (pa_ClientId args) (pa_SeqNum args)
  then inl (mkPutAppendReply OK)
  else inr (mkOp (pa_Op args) (pa_Key args) (pa_Value args) (pa_ClientId args) (pa_SeqNum args)).

Definition PutAppend_done (r : Err * string) : PutAppendReply := mkPutAppendReply r.1.

Definition Put (kv : KVServer) (args : PutAppendArgs) := PutAppend kv args.
Definition Append (kv : KVServer) (args : PutAppendArgs) := PutAppend kv args.

Definition Kill (kv : KVServer) : KVServer :=
  set_rf (Raft.Kill (rf kv)) (set_kv_dead 1 kv).

Definition killed (kv : KVServer) : bool := kv_dead kv =? 1.

(** *** [waitForApply] *)

Section wait.
Context `{!Gob Z, !Gob (list (LogEntry command))}.

(** Submitting to Raft: the index and term to wait for, or the answer. *)
Definition wait_start (op : Op) (kv : KVServer) :
    option (KVServer * (Err * string + Z * Z) * list spawn) :=
  '(rf, (index, term, isLeader), sp) ← Start (COp op) (rf kv);
  Some (set_rf rf kv,
        if negb isLeader then inl (ErrWrongLeader, ""%string) else inr (index, term), sp).

(** Making and registering the channel. *)
Definition wait_register (index : Z) (kv : KVServer) : KVServer * nat :=
  let ch := length (chans kv) in
  (set_notifyChans (<[index := ch]> (notifyChans kv)) (set_chans (chans kv ++ [None]) kv), ch).

(** The first case of the select: the message the channel holds is received. *)
Definition wait_take (ch : nat) (kv : KVServer) : option (KVServer * NotifyCh) :=
  match chans kv !! ch with
  | Some (Some result) => Some (set_chans (<[ch := None]> (chans kv)) kv, result)
  | _ => None
  end.

(** The section of either case: the channel is no longer announced. *)
Definition wait_forget (index : Z) (kv : KVServer) : KVServer :=
  set_notifyChans (delete index (notifyChans kv)) kv.

Definition wait_result (term : Z) (result : NotifyCh) : Err * string :=
  if negb (nc_Term result =? term) then (ErrWrongLeader, ""%string)
  else (nc_Err result, nc_Value result).

Definition wait_receive (index term : Z) (ch : nat) (kv : KVServer) :
    option (KVServer * (Err * string)) :=
  '(kv, result) ← wait_take ch kv;
  Some (wait_forget index kv, wait_result term result).

(** The second case, after 500 ms. *)
Definition wait_timeout (index : Z) (kv : KVServer) : KVServer * (Err * string) :=
  (wait_forget index kv, (ErrTimeout, ""%string)).
End wait.

(** *** Applying *)

Definition executeOperation (op : Op) (kv : KVServer) : KVServer * (Err * string) :=
  if String.eqb (OpType op) "Get" then
    match kvStore kv !! Key op with
    | Some value => (kv, (OK, value))
    | None => (kv, (ErrNoKey, ""%string))
    end
  else if String.eqb (OpType op) "Put" then
    (set_kvStore (<[Key op := Value op]> (kvStore kv)) kv, (OK, ""%string))
  else if String.eqb (OpType op) "Append" then
    (set_kvStore (<[Key op := (default "" (kvStore kv !! Key op) ++ Value op)%string]>
                    (kvStore kv)) kv, (OK, ""%string))
  else (kv, (ErrUnknownOp, ""%string)).

(** The non-blocking send on a channel of capacity one. *)
Definition try_send (ch : nat) (r : NotifyCh) (kv : KVServer) : KVServer :=
  match chans kv !! ch with
  | Some None => set_chans (<[ch := Some r]> (chans kv)) kv
  | _ => kv
  end.

(** The middle of [applyCommand]: execute the operation unless it is a
    duplicate. *)
Definition applyOp (op : Op) (kv : KVServer) : KVServer * (Err * string) :=
  if duplicate kv (ClientId op) (SeqNum op) then
    (kv, (OK, if String.eqb (OpType op) "Get"
              then default "" (lastResult kv !! ClientId op) else ""%string))
  else
    let '(kv, (err, value)) := executeOperation op kv in
    let kv := set_lastApplied (<[ClientId op := SeqNum op]> (lastApplied kv)) kv in
    let kv := if String.eqb (OpType op) "Get"
              then set_lastResult (<[ClientId op := value]> (lastResult kv)) kv else kv in
    (kv, (err, value)).

Definition applyCommand (msg : ApplyMsg command) (kv : KVServer) : KVServer :=
  if CommandIndex msg <=? lastAppliedIndex kv then kv
  else
    let kv := set_lastAppliedIndex (CommandIndex msg) kv in
    match Command msg with
    | Some (COp op) =>
        let '(currentTerm, _) := GetState (rf kv) in
        let '(kv, (err, value)) := applyOp op kv in
        match notifyChans kv !! CommandIndex msg with
        | Some ch => try_send ch (mkNotify currentTerm value err) kv
        | None => kv
        end
    | _ => kv
    end.

(** [applySnapshot] only logs. *)
Definition applySnapshot (msg : ApplyMsg command) (kv : KVServer) : KVServer := kv.

(** One iteration of [applier]. *)
Definition applier (msg : ApplyMsg command) (kv : KVServer) : KVServer :=
  if CommandValid msg then applyCommand msg kv
  else if SnapshotValid msg then applySnapshot msg kv else kv.

Section start.
Context `{!Gob Z, !Gob (list (LogEntry command))}.

Definition StartKVServer (servers me : Z) (persister : Persister) (maxraftstate : Z)
    (k : tick) : KVServer * list spawn :=
  let '(rf, sp) := Make servers me persister k in
  (mkKVServer me rf 0 maxraftstate ∅ ∅ ∅ ∅ 0 [], sp).
End start.

(** ** The clerk (client.go) *)

Record Clerk := mkClerk { servers : Z; clientId : Z; seqNum : Z; lastLeader : Z }.

(** [nrand] is the identifier drawn. *)
Definition MakeClerk (servers nrand : Z) : Clerk := mkClerk servers nrand 0 0.

(** The answer of an RPC: nothing if [Call] returns false. *)
Definition clerk_Get_args (ck : Clerk) (key : string) : Clerk * GetArgs :=
  let ck := mkClerk (servers ck) (clientId ck) (seqNum ck + 1) (lastLeader ck) in
  (ck, mkGetArgs key (clientId ck) (seqNum ck)).

Definition clerk_PutAppend_args (ck : Clerk) (key value op : string) : Clerk * PutAppendArgs :=
  let ck := mkClerk (servers ck) (clientId ck) (seqNum ck + 1) (lastLeader ck) in
  (ck, mkPutAppendArgs key value op (clientId ck) (seqNum ck)).

Definition set_lastLeader (i : Z) (ck : Clerk) : Clerk :=
  mkClerk (servers ck) (clientId ck) (seqNum ck) i.

(** [(serverIndex + 1) % len(ck.servers)]; dividing by zero panics. *)
Definition next_server (ck : Clerk) (serverIndex : Z) : result Z :=
  if servers ck =? 0 then Panic else Ret (Z.rem (serverIndex + 1) (servers ck)).

(** The retry loop of [Get]: [call i n] is what the [n]-th call, to server [i],
    answers.  Indexing the slice of servers out of range panics. *)
Fixpoint clerk_Get_loop (fuel : nat) (call : Z -> nat -> option GetReply) (ck : Clerk)
    (serverIndex : Z) (n : nat) : result (Clerk * string) :=
  match fuel with
  | O => NoFuel
  | S fuel =>
      if (0 <=? serverIndex) && (serverIndex <? servers ck) then
        match call serverIndex n with
        | Some (mkGetReply OK v) => Ret (set_lastLeader serverIndex ck, v)
        | Some (mkGetReply ErrNoKey _) => Ret (set_lastLeader serverIndex ck, ""%string)
        | _ =>
            i ← next_server ck serverIndex;
            clerk_Get_loop fuel call ck i (S n)
        end
      else Panic
  end.

Definition clerk_Get (fuel : nat) (call : GetArgs -> Z -> nat -> option GetReply) (ck : Clerk)
    (key : string) : result (Clerk * string) :=
  let '(ck, args) := clerk_Get_args ck key in
  clerk_Get_loop fuel (call args) ck (lastLeader ck) 0.

Fixpoint clerk_PutAppend_loop (fuel : nat) (call : Z -> nat -> option PutAppendReply)
    (ck : Clerk) (serverIndex : Z) (n : nat) : result Clerk :=
  match fuel with
  | O => NoFuel
  | S fuel =>
      if (0 <=? serverIndex) && (serverIndex <? servers ck) then
        match call serverIndex n with
        | Some (mkPutAppendReply OK) => Ret (set_lastLeader serverIndex ck)
        | _ =>
            i ← next_server ck serverIndex;
            clerk_PutAppend_loop fuel call ck i (S n)
        end
      else Panic
  end.

Definition clerk_PutAppend (fuel : nat) (call : PutAppendArgs -> Z -> nat -> option PutAppendReply)
    (ck : Clerk) (key value op : string) : result Clerk :=
  let '(ck, args) := clerk_PutAppend_args ck key value op in
  clerk_PutAppend_loop fuel (call args) ck (lastLeader ck) 0.

Definition clerk_Put fuel call ck key value := clerk_PutAppend fuel call ck key value "Put".
Definition clerk_Append fuel call ck key value := clerk_PutAppend fuel call ck key value "Append".
End KVRaft.
