(* ===== verification/KVRaftProps.v ===== *)
(** What the replicated key/value service promises: the operations of the log
    are executed at most once each and in its order, their results are those of
    the key/value model the checker uses, and a request that waits receives the
    result of its own operation. *)
From S2P Require Import Prelude Porcupine CheckSingle Linearizability CheckOps KvModel Persister RaftNode RaftFacts RaftProps KVRaft.
Import Persister Raft RaftFacts KVRaft.

Module KVRaftProps.

(** ** The store up to missing keys *)

(** A missing key reads as the empty string. *)
Definition store_equiv (m m' : gmap string string) : Prop :=
  forall k, KvModel.get m k = KvModel.get m' k.

#[export] Instance store_equiv_equivalence : Equivalence store_equiv.
Proof.
  split.
  - by intros m k.
  - intros m m' H k. by rewrite H.
  - intros m1 m2 m3 H1 H2 k. by rewrite H1, H2.
Qed.

#[export] Instance insert_store_equiv k v :
  Proper (store_equiv ==> store_equiv) (fun m => <[k := v]> m).
Proof.
  intros m m' Hm k'. destruct (decide (k = k')) as [->|Hne].
  - by rewrite !KvModel.get_insert_eq.
  - by rewrite !KvModel.get_insert_ne.
Qed.

Lemma insert_get_equiv m k : store_equiv (<[k := KvModel.get m k]> m) m.
Proof.
  intros k'. destruct (decide (k = k')) as [->|Hne].
  - by rewrite KvModel.get_insert_eq.
  - by rewrite KvModel.get_insert_ne.
Qed.

(** The model of the store does not see the difference. *)
#[export] Instance legal_store_equiv l :
  Proper (store_equiv ==> iff) (fun m => Linearizability.legal KvModel.StoreModel m l).
Proof.
  assert (forall l m m', store_equiv m m' -> Linearizability.legal KvModel.StoreModel m l ->
    Linearizability.legal KvModel.StoreModel m' l) as Himp.
  { clear. induction l as [|o l IH]; intros m m' Hm; [done|]. intros (m1 & Hst & Hl).
    apply KvModel.store_Step_spec in Hst as (s & Hst & ->).
    exists (<[KvModel.key_of o := s]> m'). split.
    - apply KvModel.store_Step_spec. exists s. by rewrite <- Hm.
    - eapply IH; [|exact Hl]. by apply insert_store_equiv. }
  intros m m' Hm. split; apply Himp; [done|by symmetry].
Qed.

(** ** The reference: the log without its duplicates, replayed on a map *)

Definition exec_store (m : gmap string string) (op : Op) : gmap string string :=
  if String.eqb (OpType op) "Put" then <[Key op := Value op]> m
  else if String.eqb (OpType op) "Append" then
    <[Key op := (KvModel.get m (Key op) ++ Value op)%string]> m
  else m.

Definition is_dup (seen : gmap Z Z) (op : Op) : bool :=
  match seen !! ClientId op with Some s => SeqNum op <=? s | None => false end.

(** The operations that are executed: each client's numbers must increase. *)
Fixpoint effective (seen : gmap Z Z) (ops : list Op) : list Op :=
  match ops with
  | [] => []
  | op :: ops =>
      if is_dup seen op then effective seen ops
      else op :: effective (<[ClientId op := SeqNum op]> seen) ops
  end.

(** The messages that carry a log, from index [i] on. *)
Fixpoint messages (i : Z) (ops : list Op) : list (ApplyMsg command) :=
  match ops with
  | [] => []
  | op :: ops => mkApplyMsg true (Some (COp op)) i false [] 0 0 :: messages (i + 1) ops
  end.

Definition apply_all (kv : KVServer) (msgs : list (ApplyMsg command)) : KVServer :=
  foldl (fun kv msg => applier msg kv) kv msgs.

Lemma executeOperation_store op kv :
  kvStore (executeOperation op kv).1 = exec_store (kvStore kv) op.
Proof.
  unfold executeOperation, exec_store, KvModel.get.
  destruct (String.eqb_spec (OpType op) "Get") as [->|]; [by case_match|].
  by repeat case_match.
Qed.

Lemma executeOperation_frame op kv :
  lastApplied (executeOperation op kv).1 = lastApplied kv /\
  lastResult (executeOperation op kv).1 = lastResult kv /\
  notifyChans (executeOperation op kv).1 = notifyChans kv /\
  chans (executeOperation op kv).1 = chans kv /\
  rf (executeOperation op kv).1 = rf kv /\
  lastAppliedIndex (executeOperation op kv).1 = lastAppliedIndex kv.
Proof. unfold executeOperation. by repeat case_match. Qed.

(** [applyOp] on the store and the duplicate table. *)
Lemma applyOp_spec op kv :
  let kv' := (applyOp op kv).1 in
  (if duplicate kv (ClientId op) (SeqNum op) then kv' = kv
   else kvStore kv' = exec_store (kvStore kv) op /\
        lastApplied kv' = <[ClientId op := SeqNum op]> (lastApplied kv)) /\
  notifyChans kv' = notifyChans kv /\ chans kv' = chans kv /\ rf kv' = rf kv /\
  lastAppliedIndex kv' = lastAppliedIndex kv.
Proof.
  unfold applyOp. destruct (duplicate _ _ _); [done|].
  pose proof (executeOperation_store op kv) as Hs.
  pose proof (executeOperation_frame op kv) as (Ha & Hr & Hn & Hc & Hrf & Hi).
  destruct (executeOperation op kv) as [kv1 [err value]]. simpl in *.
  destruct (String.eqb _ _); simpl; rewrite Ha; done.
Qed.

Lemma applyCommand_op op i kv t :
  lastAppliedIndex kv < i ->
  let kv' := applyCommand (mkApplyMsg true (Some (COp op)) i false [] t 0) kv in
  lastAppliedIndex kv' = i /\ rf kv' = rf kv /\
  (if duplicate kv (ClientId op) (SeqNum op)
   then kvStore kv' = kvStore kv /\ lastApplied kv' = lastApplied kv
   else kvStore kv' = exec_store (kvStore kv) op /\
        lastApplied kv' = <[ClientId op := SeqNum op]> (lastApplied kv)).
Proof.
  intros Hi. unfold applyCommand. simpl. destruct (i <=? lastAppliedIndex kv) eqn:E; bsimp; [lia|].
  destruct (GetState (rf kv)) as [ct ld] eqn:Eg.
  pose proof (applyOp_spec op (set_lastAppliedIndex i kv)) as (Hop & Hn & Hc & Hrf & Hidx).
  change (duplicate (set_lastAppliedIndex i kv)) with (duplicate kv) in Hop.
  destruct (applyOp op (set_lastAppliedIndex i kv)) as [kv1 [err value]]. simpl in *.
  assert (forall kv2, (kv2 = kv1 \/ exists x, kv2 = set_chans x kv1) ->
    lastAppliedIndex kv2 = i /\ rf kv2 = rf kv /\
    (if duplicate kv (ClientId op) (SeqNum op)
     then kvStore kv2 = kvStore kv /\ lastApplied kv2 = lastApplied kv
     else kvStore kv2 = exec_store (kvStore kv) op /\
          lastApplied kv2 = <[ClientId op := SeqNum op]> (lastApplied kv))) as Hgoal.
  { intros kv2 Hkv2. split; [by destruct Hkv2 as [->|[x ->]]|].
    split; [by destruct Hkv2 as [->|[x ->]]|].
    destruct (duplicate kv _ _).
    - subst kv1. by destruct Hkv2 as [->|[x ->]].
    - by destruct Hkv2 as [->|[x ->]]. }
  apply Hgoal. unfold try_send. repeat case_match; eauto.
Qed.

Lemma apply_all_spec ops kv i :
  lastAppliedIndex kv < i ->
  kvStore (apply_all kv (messages i ops)) =
    foldl exec_store (kvStore kv) (effective (lastApplied kv) ops) /\
  (ops <> [] -> lastAppliedIndex (apply_all kv (messages i ops)) = i + zlen ops - 1).
Proof.
  revert kv i. induction ops as [|op ops IH]; intros kv i Hi; [done|].
  cbn [messages apply_all foldl]. unfold apply_all in IH.
  change (applier (mkApplyMsg true (Some (COp op)) i false [] 0 0) kv)
    with (applyCommand (mkApplyMsg true (Some (COp op)) i false [] 0 0) kv).
  destruct (applyCommand_op op i kv 0 Hi) as (Hidx & _ & Hop).
  set (kv1 := applyCommand _ kv) in *.
  destruct (IH kv1 (i + 1)) as [Hs Hl]; [lia|]. split.
  - etrans; [exact Hs|]. cbn [effective]. 
    change (duplicate kv (ClientId op) (SeqNum op)) with (is_dup (lastApplied kv) op) in Hop.
    destruct (is_dup (lastApplied kv) op).
    + by destruct Hop as [-> ->].
    + by destruct Hop as [-> ->].
  - intros _. rewrite zlen_cons. destruct ops as [|op' ops].
    + simpl. change (zlen []) with 0. lia.
    + etrans; [by apply Hl|]. lia.
Qed.

Lemma effective_bound seen ops op :
  op ∈ effective seen ops ->
  match seen !! ClientId op with Some s => s < SeqNum op | None => True end.
Proof.
  revert seen. induction ops as [|o ops IH]; intros seen; simpl; [by intros ?%elem_of_nil|].
  destruct (is_dup seen o) eqn:E; unfold is_dup in E.
  - apply IH.
  - intros [->|Hin]%elem_of_cons.
    + destruct (seen !! ClientId o); [bsimp; lia|done].
    + apply IH in Hin. destruct (decide (ClientId o = ClientId op)) as [Heq|Hne].
      * rewrite Heq, lookup_insert_eq in Hin. rewrite Heq in E.
        destruct (seen !! ClientId op); [bsimp; lia|done].
      * by rewrite lookup_insert_ne in Hin.
Qed.

Lemma effective_nodup seen ops :
  NoDup (map (fun op => (ClientId op, SeqNum op)) (effective seen ops)).
Proof.
  revert seen. induction ops as [|o ops IH]; intros seen; simpl; [constructor|].
  destruct (is_dup seen o); [done|].
  simpl. constructor; [|done]. intros (op & Heq & Hin)%list_elem_of_fmap.
  apply effective_bound in Hin. injection Heq as Hc Hs.
  rewrite <- Hc, lookup_insert_eq in Hin. lia.
Qed.

Lemma effective_length seen ops : (length (effective seen ops) <= length ops)%nat.
Proof.
  revert seen. induction ops as [|o ops IH]; intros seen; simpl; [lia|].
  destruct (is_dup seen o); simpl.
  - specialize (IH seen). lia.
  - specialize (IH (<[ClientId o := SeqNum o]> seen)). lia.
Qed.

Lemma effective_first pre op post seen :
  match seen !! ClientId op with Some s => s < SeqNum op | None => True end ->
  (forall o, o ∈ pre -> ClientId o = ClientId op -> SeqNum o < SeqNum op) ->
  op ∈ effective seen (pre ++ op :: post).
Proof.
  revert seen. induction pre as [|o pre IH]; intros seen Hs Hpre; simpl.
  - unfold is_dup. destruct (seen !! ClientId op) as [s|] eqn:E; [|set_solver].
    destruct (SeqNum op <=? s) eqn:E2; bsimp; [lia|set_solver].
  - destruct (is_dup seen o).
    + apply IH; [done|set_solver].
    + apply elem_of_cons. right. apply IH; [|set_solver].
      destruct (decide (ClientId o = ClientId op)) as [Heq|Hne].
      * rewrite Heq, lookup_insert_eq. apply Hpre; [set_solver|done].
      * by rewrite lookup_insert_ne.
Qed.

(** ** Execution *)

Section execution.
Implicit Types (kv : KVServer) (op : Op) (ops : list Op).

(** Applying the log in order executes the operations of the log without their
    duplicates, in the order of the log: no (client, number) pair twice. *)
Theorem apply_at_most_once kv ops :
  let kv' := apply_all kv (messages (lastAppliedIndex kv + 1) ops) in
  kvStore kv' = foldl exec_store (kvStore kv) (effective (lastApplied kv) ops) /\
  NoDup (map (fun op => (ClientId op, SeqNum op)) (effective (lastApplied kv) ops)) /\
  sublist (effective (lastApplied kv) ops) ops.
Proof.
  split; [apply apply_all_spec; lia|]. split; [apply effective_nodup|].
  generalize (lastApplied kv) as seen. induction ops as [|o ops IH]; intros seen; simpl; [done|].
  destruct (is_dup seen o); [by apply sublist_cons|by apply sublist_skip].
Qed.

(** An operation is executed at its first occurrence in the log, if its client
    used smaller numbers before: retries are absorbed, new requests are not. *)
Theorem apply_at_least_once kv pre op post :
  match lastApplied kv !! ClientId op with Some s => s < SeqNum op | None => True end ->
  (forall o, o ∈ pre -> ClientId o = ClientId op -> SeqNum o < SeqNum op) ->
  exists l1 l2, effective (lastApplied kv) (pre ++ op :: post) = l1 ++ op :: l2 /\
    (op ∉ l1) /\ (op ∉ l2) /\
    kvStore (apply_all kv (messages (lastAppliedIndex kv + 1) (pre ++ op :: post))) =
      foldl exec_store (exec_store (foldl exec_store (kvStore kv) l1) op) l2.
Proof.
  intros Hs Hpre. pose proof (effective_first pre op post _ Hs Hpre) as Hin.
  apply list_elem_of_split in Hin as (l1 & l2 & Heq). exists l1, l2. split; [done|].
  pose proof (effective_nodup (lastApplied kv) (pre ++ op :: post)) as Hnd. rewrite Heq in Hnd.
  rewrite map_app in Hnd. simpl in Hnd. apply NoDup_app in Hnd as (_ & Hd & Hnd).
  apply NoDup_cons in Hnd as [Hn _].
  split; [|split].
  - intros Hop. apply (Hd (ClientId op, SeqNum op)); [|set_solver].
    by apply (list_elem_of_fmap_2 (fun op => (ClientId op, SeqNum op))) in Hop.
  - intros Hop. apply Hn. by apply (list_elem_of_fmap_2 (fun op => (ClientId op, SeqNum op))) in Hop.
  - destruct (apply_all_spec (pre ++ op :: post) kv (lastAppliedIndex kv + 1)) as [-> _]; [lia|].
    by rewrite Heq, foldl_app.
Qed.

(** The answer to an executed Get is kept: the handler gives it to a retry. *)
Theorem Get_retry_answer kv op :
  OpType op = "Get"%string -> duplicate kv (ClientId op) (SeqNum op) = false ->
  let '(kv', (err, value)) := applyOp op kv in
  value = KvModel.get (kvStore kv) (Key op) /\ kvStore kv' = kvStore kv /\
  Get kv' (mkGetArgs (Key op) (ClientId op) (SeqNum op)) = inl (mkGetReply OK value).
Proof.
  intros Ht Hd. unfold applyOp. rewrite Hd. unfold executeOperation. rewrite Ht. simpl.
  unfold KvModel.get. destruct (kvStore kv !! Key op) as [v|]; simpl;
    (split; [done|]; split; [done|]; unfold Get, duplicate; simpl;
     rewrite lookup_insert_eq, Z.leb_refl, lookup_insert_eq; done).
Qed.

(** Whatever its type, an operation counts as executed once it was applied: an
    operation of an unknown type is refused the first time and reported as
    successful when it is retried, without having had an effect. *)
Theorem unknown_op_retry kv args :
  duplicate kv (pa_ClientId args) (pa_SeqNum args) = false ->
  pa_Op args <> "Get"%string -> pa_Op args <> "Put"%string -> pa_Op args <> "Append"%string ->
  exists op kv' value, PutAppend kv args = inr op /\
    applyOp op kv = (kv', (ErrUnknownOp, value)) /\ kvStore kv' = kvStore kv /\
    PutAppend kv' args = inl (mkPutAppendReply OK).
Proof.
  intros Hd Hg Hp Ha. unfold PutAppend at 1. rewrite Hd. eexists _, _, _. split; [done|].
  unfold applyOp. simpl. rewrite Hd. unfold executeOperation. simpl.
  apply String.eqb_neq in Hg, Hp, Ha. rewrite Hg, Hp, Ha.
  split; [reflexivity|]. simpl. split; [done|].
  unfold PutAppend, duplicate. simpl. by rewrite lookup_insert_eq, Z.leb_refl.
Qed.
End execution.

(** ** Linearizability *)

Section linearizability.
Implicit Types (kv : KVServer) (op : Op).

(** The operations of the model (models/kv.go). *)
Definition op_code (op : Op) : option Z :=
  if String.eqb (OpType op) "Get" then Some 0
  else if String.eqb (OpType op) "Put" then Some 1
  else if String.eqb (OpType op) "Append" then Some 2 else None.

(** An operation with the times of its call, application and return. *)
Record timed := mkTimed { t_op : Op; t_call : Z; t_apply : Z; t_return : Z }.

(** The history the clients observe when the log is applied in order. *)
Fixpoint observed kv (l : list timed) : list (Porcupine.Operation KvModel.value) :=
  match l with
  | [] => []
  | t :: l =>
      let '(kv', (_, value)) := applyOp (t_op t) kv in
      Porcupine.mkOperation (ClientId (t_op t))
        (KvModel.VInput (KvModel.mkKvInput (default 3 (op_code (t_op t))) (Key (t_op t))
           (Value (t_op t))))
        (t_call t) (KvModel.VOutput (KvModel.mkKvOutput value)) (t_return t) :: observed kv' l
  end.

(** An executed operation is a step of the model of the store. *)
Lemma executeOperation_refines op kv kv' err value c :
  op_code op = Some c -> executeOperation op kv = (kv', (err, value)) ->
  exists m', KvModel.store_Step (kvStore kv)
      (KvModel.VInput (KvModel.mkKvInput c (Key op) (Value op)))
      (KvModel.VOutput (KvModel.mkKvOutput value)) = Some (true, m') /\
    store_equiv m' (kvStore kv').
Proof.
  unfold op_code, executeOperation, KvModel.store_Step, KvModel.kv_Step. simpl.
  destruct (String.eqb_spec (OpType op) "Get").
  - intros [= <-]. unfold KvModel.get at 1 3.
    destruct (kvStore kv !! Key op) as [v|] eqn:E; intros [= <- <- <-]; simpl;
      rewrite ?String.eqb_refl; eexists; (split; [done|]);
      (etrans; [|apply (insert_get_equiv _ (Key op))]); unfold KvModel.get; by rewrite E.
  - destruct (String.eqb_spec (OpType op) "Put").
    + intros [= <-] [= <- <- <-]. simpl. by eexists.
    + destruct (String.eqb_spec (OpType op) "Append"); [|done].
      intros [= <-] [= <- <- <-]. simpl. by eexists.
Qed.

Lemma observed_legal kv l :
  Forall (fun t => is_Some (op_code (t_op t))) l ->
  effective (lastApplied kv) (map t_op l) = map t_op l ->
  Linearizability.legal KvModel.StoreModel (kvStore kv) (observed kv l).
Proof.
  revert kv. induction l as [|t l IH]; intros kv Hty Heff; [done|].
  apply Forall_cons in Hty as [[c Hc] Hty]. simpl in Heff.
  destruct (is_dup (lastApplied kv) (t_op t)) eqn:Ed.
  { exfalso. pose proof (effective_length (lastApplied kv) (map t_op l)) as H.
    rewrite Heff in H. simpl in H. lia. }
  injection Heff as Heff. simpl. rewrite Hc.
  destruct (applyOp (t_op t) kv) as [kv1 [err value]] eqn:Eop.
  pose proof (applyOp_spec (t_op t) kv) as (Hop & _). rewrite Eop in Hop. simpl in Hop.
  change (duplicate kv (ClientId (t_op t)) (SeqNum (t_op t)))
    with (is_dup (lastApplied kv) (t_op t)) in Hop. rewrite Ed in Hop.
  destruct Hop as [Hs Hl]. unfold applyOp in Eop.
  change (duplicate kv (ClientId (t_op t)) (SeqNum (t_op t)))
    with (is_dup (lastApplied kv) (t_op t)) in Eop. rewrite Ed in Eop.
  destruct (executeOperation (t_op t) kv) as [kv2 [err2 value2]] eqn:Eex.
  assert (value2 = value) as -> by (by destruct (String.eqb _ _); simplify_eq).
  destruct (executeOperation_refines _ _ _ _ _ _ Hc Eex) as (m' & Hst & Heq).
  exists m'. split; [exact Hst|].
  assert (store_equiv m' (kvStore kv1)) as Heq1.
  { rewrite Heq, Hs. pose proof (executeOperation_store (t_op t) kv) as H. rewrite Eex in H.
    simpl in H. by rewrite H. }
  apply (legal_store_equiv _ _ _ Heq1), IH; [done|]. by rewrite Hl.
Qed.

Lemma observed_times kv l o :
  o ∈ observed kv l -> exists t, t ∈ l /\ Porcupine.op_Call o = t_call t /\
    Porcupine.op_Return o = t_return t.
Proof.
  revert kv. induction l as [|t l IH]; intros kv; simpl; [by intros ?%elem_of_nil|].
  destruct (applyOp (t_op t) kv) as [kv1 [err value]].
  intros [->|Hin]%elem_of_cons; [exists t; set_solver|].
  destruct (IH kv1 Hin) as (t' & ? & ?). exists t'. set_solver.
Qed.

(** The service is linearizable: when every operation is applied, in the order
    of the log, between its call and its return, the history the clients see is
    a linearizable history of the key/value model of src/models. *)
Theorem kvraft_linearizable kv l :
  kvStore kv = ∅ ->
  Forall (fun t => is_Some (op_code (t_op t))) l ->
  effective (lastApplied kv) (map t_op l) = map t_op l ->
  Forall (fun t => t_call t <= t_apply t <= t_return t) l ->
  (forall i j ti tj, (i < j)%nat -> l !! i = Some ti -> l !! j = Some tj ->
     t_apply ti <= t_apply tj) ->
  Linearizability.linearizable KvModel.StoreModel (observed kv l).
Proof.
  intros Hinit Hty Heff Hin Hord. exists (observed kv l). split; [done|]. split.
  - clear Hinit Hty Heff. revert kv. induction l as [|t l IH]; intros kv; [done|]. simpl.
    destruct (applyOp (t_op t) kv) as [kv1 [err value]]. apply Forall_cons in Hin as [Ht Hin].
    split; [|apply IH; [done|]; intros i j ti tj Hij Hi Hj; by apply (Hord (S i) (S j)); [lia|..]].
    apply Forall_forall. intros o (t' & Ht' & Hcall & Hret)%observed_times Hprec.
    unfold Linearizability.precedes in Hprec. simpl in Hprec.
    pose proof Ht' as [j Hj]%list_elem_of_lookup.
    assert (t_apply t <= t_apply t') by (apply (Hord 0%nat (S j)); [lia|done|done]).
    rewrite Forall_forall in Hin. specialize (Hin t' Ht'). lia.
  - change (Porcupine.Init KvModel.StoreModel) with (∅ : gmap string string).
    rewrite <- Hinit. by apply observed_legal.
Qed.
End linearizability.

(** ** Waiting for an operation *)

Section waiting.
Context `{!Gob Z, !Gob (list (LogEntry command))}.
Implicit Types (kv : KVServer) (op : Op).

Lemma wait_start_spec kv op :
  node_ok (rf kv) ->
  exists rf' r sp, wait_start op kv = Some (set_rf rf' kv, r, sp) /\
    ((state (rf kv) <> Leader /\ r = inl (ErrWrongLeader, ""%string) /\ rf' = rf kv) \/
     (state (rf kv) = Leader /\ r = inr (zlen (log (rf kv)), currentTerm (rf kv)) /\
      currentTerm rf' = currentTerm (rf kv) /\
      log rf' = log (rf kv) ++ [mkEntry (currentTerm (rf kv)) (Some (COp op))])).
Proof.
  intros Hok. unfold wait_start.
  destruct (Start_cases (COp op) (rf kv) Hok)
    as (rf' & r & sp & -> & _ & Ht & _ & _ & _ & [(Hs & -> & -> & ->)|(Hs & -> & Hl & ->)]);
    simpl; eexists _, _, _; (split; [done|]); [by left|by right].
Qed.

(** A request end to end: the operation is appended to the log of the leader,
    and when the message with its index is applied in the same term, the waiting
    handler answers with the result of executing exactly that operation. *)
Theorem request_answered kv kv1 op index term sp :
  node_ok (rf kv) -> state (rf kv) = Leader ->
  wait_start op kv = Some (kv1, inr (index, term), sp) ->
  lastAppliedIndex kv < index -> duplicate kv (ClientId op) (SeqNum op) = false ->
  let '(kv2, ch) := wait_register index kv1 in
  let kv3 := applyCommand (mkApplyMsg true (Some (COp op)) index false [] 0 0) kv2 in
  zget (log (rf kv1)) index = Some (mkEntry term (Some (COp op))) /\
  exists kv4, wait_receive index term ch kv3 = Some (kv4, (executeOperation op kv).2) /\
    kvStore kv4 = exec_store (kvStore kv) op /\ notifyChans kv4 = delete index (notifyChans kv).
Proof.
  intros Hok Hs Hst Hidx Hd.
  destruct (wait_start_spec kv op Hok) as (rf' & r & sp' & Heq & Hcases).
  rewrite Hst in Heq. injection Heq as -> <- <-.
  destruct Hcases as [(Hns & _)|(_ & Hr & Ht & Hl)]; [done|]. injection Hr as -> ->.
  unfold wait_register. simpl. split.
  { rewrite Hl, zget_app_r by lia. by rewrite Z.sub_diag. }
  generalize dependent (zlen (log (rf kv))). intros index Hidx _.
  unfold applyCommand. simpl. destruct (index <=? lastAppliedIndex kv) eqn:E; bsimp; [lia|].
  unfold applyOp, duplicate in *. simpl. rewrite Hd.
  pose proof (executeOperation_store op kv) as Hst1.
  unfold executeOperation in *. simpl.
  destruct (String.eqb (OpType op) "Get") eqn:E1; [|destruct (String.eqb (OpType op) "Put") eqn:E2;
    [|destruct (String.eqb (OpType op) "Append") eqn:E3]]; try (destruct (kvStore kv !! Key op)).
  all: simpl in *; rewrite ?E1; simpl; rewrite lookup_insert_eq; unfold try_send; simpl;
    rewrite list_lookup_middle by done; simpl;
    unfold wait_receive, wait_take, wait_result; simpl; rewrite list_lookup_insert_eq by (rewrite length_app; simpl; lia);
    simpl; rewrite Ht, Z.eqb_refl; simpl; eexists; (split; [done|]); simpl;
    (split; [done|by rewrite delete_insert_eq]).
Qed.

(** A message of another term makes the handler answer [ErrWrongLeader]. *)
Theorem stale_term_refused index term ch kv r :
  chans kv !! ch = Some (Some r) -> nc_Term r <> term ->
  exists kv', wait_receive index term ch kv = Some (kv', (ErrWrongLeader, ""%string)) /\
    kvStore kv' = kvStore kv.
Proof.
  intros Hc Ht. unfold wait_receive, wait_take, wait_result. rewrite Hc. simpl.
  apply Z.eqb_neq in Ht. rewrite Ht. simpl. eauto.
Qed.
End waiting.

(** ** The clerk *)

Section clerk.
Implicit Types (ck : Clerk).

(** The server of the [n]-th attempt. *)
Definition nth_server ck (n : nat) : Z := (lastLeader ck + Z.of_nat n) `mod` servers ck.

Definition clerk_ok ck : Prop := 0 <= lastLeader ck < servers ck.

(** An attempt that ends the loop of [Get], and its result. *)
Definition Get_answer (r : option GetReply) : option string :=
  match r with
  | Some (mkGetReply OK v) => Some v
  | Some (mkGetReply ErrNoKey _) => Some ""%string
  | _ => None
  end.

Lemma next_server_spec ck n :
  clerk_ok ck -> next_server ck (nth_server ck n) = Ret (nth_server ck (S n)).
Proof.
  unfold clerk_ok, next_server, nth_server. intros Hok.
  destruct (servers ck =? 0) eqn:E; bsimp; [lia|]. f_equal.
  pose proof (Z.mod_pos_bound (lastLeader ck + Z.of_nat n) (servers ck)).
  rewrite Z.rem_mod_nonneg by lia. rewrite Z.add_mod_idemp_l by lia. f_equal. lia.
Qed.

Lemma clerk_Get_loop_spec call ck m n v fuel :
  clerk_ok ck -> (n <= m)%nat ->
  (forall k, (n <= k < m)%nat -> Get_answer (call (nth_server ck k) k) = None) ->
  Get_answer (call (nth_server ck m) m) = Some v -> (m - n < fuel)%nat ->
  clerk_Get_loop fuel call ck (nth_server ck n) n = Ret (set_lastLeader (nth_server ck m) ck, v).
Proof.
  intros Hok. revert n. induction fuel as [|fuel IH]; intros n Hn Hno Hyes Hf; [lia|]. simpl.
  assert ((0 <=? nth_server ck n) && (nth_server ck n <? servers ck) = true) as ->.
  { unfold nth_server, clerk_ok in *.
    pose proof (Z.mod_pos_bound (lastLeader ck + Z.of_nat n) (servers ck)).
    apply andb_true_iff. rewrite Z.leb_le, Z.ltb_lt. lia. }
  destruct (decide (n = m)) as [->|Hne].
  - destruct (call (nth_server ck m) m) as [[[] v']|]; simpl in Hyes; try done;
      by injection Hyes as ->.
  - specialize (IH (S n)). rewrite next_server_spec by done. simpl.
    assert (clerk_Get_loop fuel call ck (nth_server ck (S n)) (S n) =
      Ret (set_lastLeader (nth_server ck m) ck, v)) as Hrec.
    { apply IH; [lia| |done|lia]. intros k Hk. apply Hno. lia. }
    specialize (Hno n). destruct (call (nth_server ck n) n) as [[[] v']|]; simpl in Hno;
      try done; exfalso; (assert (Some v' = None) by (apply Hno; lia)) ||
      (assert (Some ""%string = None) by (apply Hno; lia)); done.
Qed.

(** The clerk tries the servers in turn, from the last leader, with the same
    number, until one answers; it returns that answer, never panics, and
    remembers the server.  Each call uses a number of its own. *)
Theorem clerk_Get_returns fuel call ck key m v :
  clerk_ok ck ->
  let args := mkGetArgs key (clientId ck) (seqNum ck + 1) in
  (forall k, (k < m)%nat -> Get_answer (call args (nth_server ck k) k) = None) ->
  Get_answer (call args (nth_server ck m) m) = Some v -> (m < fuel)%nat ->
  exists ck', clerk_Get fuel call ck key = Ret (ck', v) /\ clerk_ok ck' /\
    seqNum ck' = seqNum ck + 1 /\ clientId ck' = clientId ck /\
    lastLeader ck' = nth_server ck m.
Proof.
  intros Hok args Hno Hyes Hf.
  set (ck1 := mkClerk (servers ck) (clientId ck) (seqNum ck + 1) (lastLeader ck)).
  assert (clerk_Get fuel call ck key =
    clerk_Get_loop fuel (call args) ck1 (nth_server ck1 0) 0) as ->.
  { unfold clerk_Get, nth_server, clerk_ok in *. simpl. by rewrite Z.add_0_r, Z.mod_small by lia. }
  rewrite (clerk_Get_loop_spec (call args) ck1 m 0 v fuel); [|done|lia| |done|lia].
  - eexists. split; [done|]. split_and!; try done.
    unfold clerk_ok, nth_server in *. simpl.
    apply Z.mod_pos_bound. lia.
  - intros k Hk. apply Hno. lia.
Qed.
End clerk.

(** ** Concrete runs *)

Section witnesses.
Definition put_a : Op := mkOp "Put" "x" "a" 1 1.
Definition append_b : Op := mkOp "Append" "x" "b" 1 2.
Definition get_x : Op := mkOp "Get" "x" "" 2 1.
Definition strange : PutAppendArgs := mkPutAppendArgs "x" "a" "Del" 1 1.

Definition kv0 : KVServer := (StartKVServer 3 0 MakePersister (-1) (mkTick 0 0)).1.

Definition kvmsg (i : Z) (op : Op) : ApplyMsg command :=
  mkApplyMsg true (Some (COp op)) i false [] 0 0.

(** The index guard drops an entry that arrives after a later one: a server
    whose applier receives two committed entries in the other order misses the
    first, and differs from the other servers for ever. *)
Theorem reordered_apply_diverges :
  KvModel.get (kvStore (apply_all kv0 [kvmsg 1 put_a; kvmsg 2 append_b])) "x" = "ab"%string /\
  KvModel.get (kvStore (apply_all kv0 [kvmsg 2 append_b; kvmsg 1 put_a])) "x" = "b"%string.
Proof. by vm_compute. Qed.

Lemma apply_at_least_once_witness :
  exists l1 l2, effective (lastApplied kv0) ([put_a; put_a] ++ append_b :: [append_b; get_x]) =
      l1 ++ append_b :: l2 /\ (append_b ∉ l1) /\ (append_b ∉ l2) /\
    kvStore (apply_all kv0 (messages (lastAppliedIndex kv0 + 1)
      ([put_a; put_a] ++ append_b :: [append_b; get_x]))) =
      foldl exec_store (exec_store (foldl exec_store (kvStore kv0) l1) append_b) l2.
Proof.
  apply (apply_at_least_once kv0 [put_a; put_a] append_b [append_b; get_x]); [done|].
  intros o [->|[->|?%elem_of_nil]%elem_of_cons]%elem_of_cons; by vm_compute.
Defined.

Definition kv_a : KVServer := apply_all kv0 [kvmsg 1 put_a].

Lemma Get_retry_answer_witness :
  exists kv' err, applyOp get_x kv_a = (kv', (err, "a"%string)) /\
    Get kv' (mkGetArgs "x" 2 1) = inl (mkGetReply OK "a").
Proof.
  pose proof (Get_retry_answer kv_a get_x eq_refl eq_refl) as H.
  destruct (applyOp get_x kv_a) as [kv' [err value]]. destruct H as (-> & _ & Hg).
  exists kv', err. split; [by vm_compute|]. etrans; [exact Hg|]. by vm_compute.
Defined.

Lemma unknown_op_retry_witness :
  exists op kv' value, PutAppend kv0 strange = inr op /\
    applyOp op kv0 = (kv', (ErrUnknownOp, value)) /\ kvStore kv' = kvStore kv0 /\
    PutAppend kv' strange = inl (mkPutAppendReply OK).
Proof. by apply unknown_op_retry. Defined.

Definition timeline : list timed :=
  [mkTimed put_a 0 2 5; mkTimed get_x 1 3 6; mkTimed append_b 6 7 9].

Lemma kvraft_linearizable_witness :
  Linearizability.linearizable KvModel.StoreModel (observed kv0 timeline).
Proof.
  apply kvraft_linearizable; try done.
  - repeat constructor; by eexists.
  - repeat constructor; simpl; lia.
  - intros i j ti tj Hij Hi Hj.
    destruct i as [|[|[|i]]], j as [|[|[|j]]]; simplify_eq/=; lia.
Defined.

(** The server of a leader of term 1. *)
Definition kv_leader : KVServer :=
  set_rf (becomeLeaderLocked (becomeCandidateLocked (mkTick 0 0) (rf kv0))).1 kv0.

Lemma kv_leader_ok : node_ok (rf kv_leader).
Proof.
  apply becomeLeader_ok. split; done.
Qed.

Lemma request_answered_witness :
  exists kv1 sp kv4, wait_start put_a kv_leader = Some (kv1, inr (1, 1), sp) /\
    let kv3 := applyCommand (kvmsg 1 put_a) (wait_register 1 kv1).1 in
    wait_receive 1 1 0 kv3 = Some (kv4, (OK, ""%string)) /\
    kvStore kv4 = {["x"%string := "a"%string]}.
Proof.
  destruct (wait_start_spec kv_leader put_a kv_leader_ok) as (rf' & r & sp & Heq & Hc).
  destruct Hc as [[Hs _]|(Hs & Hr & _)]; [done|]. rewrite Hr in Heq.
  destruct (request_answered kv_leader _ put_a _ _ sp kv_leader_ok Hs Heq)
    as (_ & kv4 & Hrecv & Hstore & _); [by vm_compute|done|].
  exists (set_rf rf' kv_leader), sp, kv4. split; [exact Heq|]. split; [exact Hrecv|].
  rewrite Hstore. by vm_compute.
Defined.

Lemma stale_term_refused_witness :
  exists kv', wait_receive 1 2 0 (set_chans [Some (mkNotify 1 "a" OK)] kv0) =
    Some (kv', (ErrWrongLeader, ""%string)) /\ kvStore kv' = ∅.
Proof.
  by apply (stale_term_refused 1 2 0
    (set_chans [Some (mkNotify 1 "a" OK)] kv0) (mkNotify 1 "a" OK)).
Defined.

(** The second server answers. *)
Definition second (args : GetArgs) (i : Z) (n : nat) : option GetReply :=
  if i =? 1 then Some (mkGetReply OK "v") else Some (mkGetReply ErrWrongLeader "").

Lemma clerk_Get_returns_witness :
  exists ck', clerk_Get 5 second (MakeClerk 3 77) "x" = Ret (ck', "v"%string) /\ clerk_ok ck' /\
    seqNum ck' = 1 /\ clientId ck' = 77 /\ lastLeader ck' = 1.
Proof.
  apply (clerk_Get_returns 5 second (MakeClerk 3 77) "x" 1 "v"); [by vm_compute| |done|lia].
  intros k Hk. by replace k with 0%nat by lia.
Defined.
End witnesses.
End KVRaftProps.
