(* ===== verification/KVTables.v ===== *)
(** The state machine that every server of src/kvraft replicates: the store and
    the tables of duplicates, the operations that take effect, and their answers,
    as functions of the log alone. *)
From S2P Require Import Prelude Porcupine CheckSingle Linearizability CheckOps KvModel Persister RaftNode KVRaft KVRaftProps.
Import Persister Raft KVRaft KVRaftProps.

Module KVTables.

Record tables := mkTables {
  t_store : gmap string string; t_applied : gmap Z Z; t_result : gmap Z string }.

Definition tables_of (kv : KVServer) : tables :=
  mkTables (kvStore kv) (lastApplied kv) (lastResult kv).

Definition fresh : tables := mkTables ∅ ∅ ∅.

(** What an operation answers when it takes effect. *)
Definition exec_answer (m : gmap string string) (op : Op) : Err * string :=
  if String.eqb (OpType op) "Get" then
    match m !! Key op with Some v => (OK, v) | None => (ErrNoKey, ""%string) end
  else if String.eqb (OpType op) "Put" then (OK, ""%string)
  else if String.eqb (OpType op) "Append" then (OK, ""%string)
  else (ErrUnknownOp, ""%string).

(** The value a duplicate is answered with. *)
Definition cached (t : tables) (op : Op) : string :=
  if String.eqb (OpType op) "Get" then default ""%string (t_result t !! ClientId op) else ""%string.

Definition run_op (op : Op) (t : tables) : tables * (Err * string) :=
  if is_dup (t_applied t) op then (t, (OK, cached t op))
  else
    let r := exec_answer (t_store t) op in
    (mkTables (exec_store (t_store t) op) (<[ClientId op := SeqNum op]> (t_applied t))
       (if String.eqb (OpType op) "Get" then <[ClientId op := r.2]> (t_result t) else t_result t), r).

Definition replay (t : tables) (ops : list Op) : tables := foldl (fun t op => (run_op op t).1) t ops.

(** The operations that take effect, in order, with their answers. *)
Fixpoint linear (t : tables) (ops : list Op) : list (Op * string) :=
  match ops with
  | [] => []
  | op :: ops =>
      let rest := linear (run_op op t).1 ops in
      if is_dup (t_applied t) op then rest else (op, (exec_answer (t_store t) op).2) :: rest
  end.

Definition key_of (op : Op) : Z * Z := (ClientId op, SeqNum op).

Implicit Types (t : tables) (op o : Op) (ops : list Op) (v : string).

(** ** The servers run it *)

Lemma executeOperation_run op kv :
  executeOperation op kv =
    (set_kvStore (exec_store (kvStore kv) op) kv, exec_answer (kvStore kv) op).
Proof.
  unfold executeOperation, exec_store, exec_answer, KvModel.get.
  assert (set_kvStore (kvStore kv) kv = kv) as Hid by (by destruct kv).
  destruct (String.eqb_spec (OpType op) "Get") as [->|].
  - simpl. rewrite Hid. by case_match.
  - repeat case_match; by rewrite ?Hid.
Qed.

Lemma applyOp_run op kv :
  tables_of (applyOp op kv).1 = (run_op op (tables_of kv)).1 /\
  (applyOp op kv).2 = (run_op op (tables_of kv)).2.
Proof.
  unfold applyOp, run_op. change (duplicate kv (ClientId op) (SeqNum op))
    with (is_dup (t_applied (tables_of kv)) op). destruct (is_dup _ _); [done|].
  rewrite executeOperation_run. destruct (exec_answer (kvStore kv) op) as [err value] eqn:Ea.
  simpl. rewrite Ea. by destruct (String.eqb _ _).
Qed.

(** ** What takes effect *)

Lemma replay_app t ops1 ops2 : replay t (ops1 ++ ops2) = replay (replay t ops1) ops2.
Proof. apply foldl_app. Qed.

Lemma linear_app t ops1 ops2 :
  linear t (ops1 ++ ops2) = linear t ops1 ++ linear (replay t ops1) ops2.
Proof.
  revert t. induction ops1 as [|op ops1 IH]; intros t; [done|]. simpl. rewrite IH.
  by destruct (is_dup _ _).
Qed.

Lemma linear_snoc t ops op :
  linear t (ops ++ [op]) = linear t ops ++
    (if is_dup (t_applied (replay t ops)) op then []
     else [(op, (exec_answer (t_store (replay t ops)) op).2)]).
Proof. rewrite linear_app. simpl. by destruct (is_dup _ _). Qed.

Lemma linear_ops t ops op v : (op, v) ∈ linear t ops -> op ∈ ops.
Proof.
  revert t. induction ops as [|o ops IH]; intros t; simpl; [by intros ?%elem_of_nil|].
  destruct (is_dup _ _).
  - intros Hin%IH. set_solver.
  - intros [[= -> _]|Hin%IH]%elem_of_cons; set_solver.
Qed.

(** A number that takes effect is larger than the ones before. *)
Lemma linear_bound t ops op v :
  (op, v) ∈ linear t ops ->
  match t_applied t !! ClientId op with Some s => s < SeqNum op | None => True end.
Proof.
  revert t. induction ops as [|o ops IH]; intros t; simpl; [by intros ?%elem_of_nil|].
  unfold run_op. destruct (is_dup (t_applied t) o) eqn:E; [apply IH|]. unfold is_dup in E.
  intros [[= -> _]|Hin]%elem_of_cons.
  - destruct (t_applied t !! ClientId o); [bsimp; lia|done].
  - apply IH in Hin. simpl in Hin. destruct (decide (ClientId o = ClientId op)) as [Heq|Hne].
    + rewrite Heq, lookup_insert_eq in Hin. rewrite Heq in E.
      destruct (t_applied t !! ClientId op); [bsimp; lia|done].
    + by rewrite lookup_insert_ne in Hin.
Qed.

Lemma linear_nodup t ops : NoDup (map key_of (linear t ops).*1).
Proof.
  revert t. induction ops as [|o ops IH]; intros t; simpl; [constructor|].
  unfold run_op. destruct (is_dup (t_applied t) o); [apply IH|]. simpl.
  constructor; [|apply IH]. intros (op & Heq & ([op' v] & -> & Hin)%list_elem_of_fmap)%list_elem_of_fmap.
  apply linear_bound in Hin. simpl in *. injection Heq as Hc Hs.
  rewrite <- Hc, lookup_insert_eq in Hin. lia.
Qed.

Lemma linear_functional t ops op v v' :
  (op, v) ∈ linear t ops -> (op, v') ∈ linear t ops -> v = v'.
Proof.
  intros [i Hi]%list_elem_of_lookup [j Hj]%list_elem_of_lookup.
  assert (i = j) as ->; [|congruence].
  apply (NoDup_lookup _ _ _ (key_of op) (linear_nodup t ops)).
  - rewrite list_lookup_fmap, list_lookup_fmap, Hi. done.
  - rewrite list_lookup_fmap, list_lookup_fmap, Hj. done.
Qed.

(** The tables remember the last operation of a client that took effect. *)
Lemma replay_last ops c s :
  t_applied (replay fresh ops) !! c = Some s ->
  exists op v, (op, v) ∈ linear fresh ops /\ ClientId op = c /\ SeqNum op = s /\
    (String.eqb (OpType op) "Get" = true -> t_result (replay fresh ops) !! c = Some v) /\
    (String.eqb (OpType op) "Get" = false -> v = ""%string).
Proof.
  induction ops as [|op ops IH] using rev_ind; [done|].
  rewrite linear_snoc, replay_app. simpl. unfold run_op.
  destruct (is_dup (t_applied (replay fresh ops)) op); simpl; rewrite ?app_nil_r; [done|].
  intros [[<- <-]|[Hne Hs]]%lookup_insert_Some.
  - exists op, (exec_answer (t_store (replay fresh ops)) op).2.
    split; [set_solver|]. split; [done|]. split; [done|]. split; intros Ht.
    + by rewrite Ht, lookup_insert_eq.
    + unfold exec_answer. rewrite Ht. by repeat case_match.
  - destruct (IH Hs) as (o & v & Hin & Hc & Hseq & Hg & Hng). exists o, v.
    split; [set_solver|]. split; [done|]. split; [done|]. split; [|done]. intros Ht.
    destruct (String.eqb (OpType op) "Get"); [|by apply Hg]. rewrite lookup_insert_ne by done. by apply Hg.
Qed.

(** ** The model of the checker accepts it *)

Lemma run_op_refines m op c :
  op_code op = Some c ->
  exists m', KvModel.store_Step m (KvModel.VInput (KvModel.mkKvInput c (Key op) (Value op)))
      (KvModel.VOutput (KvModel.mkKvOutput (exec_answer m op).2)) = Some (true, m') /\
    store_equiv m' (exec_store m op).
Proof.
  unfold op_code, exec_answer, exec_store, KvModel.store_Step, KvModel.kv_Step.
  destruct (String.eqb_spec (OpType op) "Get") as [Hg|].
  - intros [= <-]. rewrite Hg. simpl. eexists. split; [|apply insert_get_equiv]. do 3 f_equal.
    unfold KvModel.get. destruct (m !! Key op); simpl; by rewrite ?String.eqb_refl.
  - destruct (String.eqb_spec (OpType op) "Put").
    + intros [= <-]. simpl. by eexists.
    + destruct (String.eqb_spec (OpType op) "Append"); [|done]. intros [= <-]. simpl. by eexists.
Qed.

(** [f] presents an operation and its answer to the checker. *)
Lemma linear_legal f t ops :
  (forall op v, (op, v) ∈ linear t ops -> exists c, op_code op = Some c /\
     Porcupine.op_Input (f (op, v)) = KvModel.VInput (KvModel.mkKvInput c (Key op) (Value op)) /\
     Porcupine.op_Output (f (op, v)) = KvModel.VOutput (KvModel.mkKvOutput v)) ->
  Linearizability.legal KvModel.StoreModel (t_store t) (map f (linear t ops)).
Proof.
  revert t. induction ops as [|op ops IH]; intros t Hf; [done|]. simpl in Hf |- *.
  unfold run_op in *. destruct (is_dup (t_applied t) op); [by apply IH|].
  destruct (Hf op (exec_answer (t_store t) op).2) as (c & Hc & Hi & Ho); [set_solver|].
  destruct (run_op_refines (t_store t) op c Hc) as (m' & Hst & Heq).
  simpl. exists m'. rewrite Hi, Ho. split; [done|].
  apply (legal_store_equiv _ _ _ Heq).
  match goal with |- Linearizability.legal _ ?m (map f (linear ?t' ops)) => apply (IH t') end.
  intros o v Hin. apply Hf. set_solver.
Qed.
End KVTables.
