(* ===== verification/KVCluster.v ===== *)
(** The replicated key/value service as one system: a Raft cluster, the service
    on every peer with its applier and its RPC handlers, and the clerks that
    call them (src/kvraft/server.go and client.go), with one transition per
    section between two points where the code waits.  A server and its peer
    share the Raft state; the network loses and delays requests and replies,
    clerks give up on a server at any time, and servers crash and restart.  The
    state also keeps the history the clerks observe. *)
From S2P Require Import Prelude Porcupine KvModel Persister RaftNode RaftCluster KVRaft.
Import Persister Raft RaftCluster KVRaft.

Module KVCluster.

(** ** Messages *)

Inductive request :=
  | RGet (args : GetArgs)
  | RPutAppend (args : PutAppendArgs).

Inductive response :=
  | AGet (reply : GetReply)
  | APutAppend (reply : PutAppendReply).

(** The first section of a handler: a reply, or the operation to submit. *)
Definition dispatch (kv : KVServer) (req : request) : response + Op :=
  match req with
  | RGet args =>
      match Get kv args with inl reply => inl (AGet reply) | inr op => inr op end
  | RPutAppend args =>
      match PutAppend kv args with inl reply => inl (APutAppend reply) | inr op => inr op end
  end.

(** What a handler replies once [waitForApply] returned. *)
Definition finish (req : request) (r : Err * string) : response :=
  match req with
  | RGet _ => AGet (Get_done r)
  | RPutAppend _ => APutAppend (PutAppend_done r)
  end.

(** The replies that end the loop of a clerk, and what the clerk returns. *)
Definition accepted (resp : response) : option string :=
  match resp with
  | AGet (mkGetReply OK value) => Some value
  | AGet (mkGetReply ErrNoKey _) => Some ""%string
  | APutAppend (mkPutAppendReply OK) => Some ""%string
  | _ => None
  end.

(** ** The state *)

(** The goroutine of an RPC, from the request in flight to server [n] to the
    reply in flight. *)
Inductive handler :=
  | HDone
  | HArrived (n : Z) (req : request)
  | HSubmit (n : Z) (req : request) (op : Op)
  | HRegister (n : Z) (req : request) (index term : Z)
  | HWait (n : Z) (req : request) (index term : Z) (ch : nat)
  | HForget (n : Z) (req : request) (index : Z) (r : Err * string)
  | HReply (req : request) (resp : response).

Definition handler_node (p : handler) : option Z :=
  match p with
  | HArrived n _ | HSubmit n _ _ | HRegister n _ _ _ | HWait n _ _ _ _ | HForget n _ _ _ => Some n
  | HDone | HReply _ _ => None
  end.

(** A clerk is idle, or its call [id] waits for the reply of handler [h]. *)
Inductive phase :=
  | Idle
  | Calling (id : nat) (req : request) (serverIndex : Z) (h : nat).

Record client := mkClient { cl_ck : Clerk; cl_phase : phase }.

(** A call of a clerk's operation: when it began, and what it returned, when. *)
Record call := mkCall { ca_req : request; ca_time : Z; ca_done : option (string * Z) }.

(** [kc_hands]: the message an applier received and did not process yet.
    [kc_starts] counts the calls of [Start]; [kc_skips] records the messages
    that reached a server ahead of their turn. *)
Record KVCluster := mkKVCluster {
  kc_raft : Cluster command;
  kc_kvs : list KVServer;
  kc_hands : list (option (ApplyMsg command));
  kc_handlers : list handler;
  kc_clients : list client;
  kc_calls : list call;
  kc_clock : Z;
  kc_starts : Z;
  kc_skips : list (Z * Z) }.

Definition set_raft v kc := mkKVCluster v (kc_kvs kc) (kc_hands kc) (kc_handlers kc)
  (kc_clients kc) (kc_calls kc) (kc_clock kc) (kc_starts kc) (kc_skips kc).
Definition set_kvs v kc := mkKVCluster (kc_raft kc) v (kc_hands kc) (kc_handlers kc)
  (kc_clients kc) (kc_calls kc) (kc_clock kc) (kc_starts kc) (kc_skips kc).
Definition set_hands v kc := mkKVCluster (kc_raft kc) (kc_kvs kc) v (kc_handlers kc)
  (kc_clients kc) (kc_calls kc) (kc_clock kc) (kc_starts kc) (kc_skips kc).
Definition set_handlers v kc := mkKVCluster (kc_raft kc) (kc_kvs kc) (kc_hands kc) v
  (kc_clients kc) (kc_calls kc) (kc_clock kc) (kc_starts kc) (kc_skips kc).
Definition set_clients v kc := mkKVCluster (kc_raft kc) (kc_kvs kc) (kc_hands kc)
  (kc_handlers kc) v (kc_calls kc) (kc_clock kc) (kc_starts kc) (kc_skips kc).
Definition set_calls v kc := mkKVCluster (kc_raft kc) (kc_kvs kc) (kc_hands kc)
  (kc_handlers kc) (kc_clients kc) v (kc_clock kc) (kc_starts kc) (kc_skips kc).
Definition tick_clock kc := mkKVCluster (kc_raft kc) (kc_kvs kc) (kc_hands kc)
  (kc_handlers kc) (kc_clients kc) (kc_calls kc) (kc_clock kc + 1) (kc_starts kc) (kc_skips kc).
Definition count_start kc := mkKVCluster (kc_raft kc) (kc_kvs kc) (kc_hands kc)
  (kc_handlers kc) (kc_clients kc) (kc_calls kc) (kc_clock kc) (kc_starts kc + 1) (kc_skips kc).
Definition add_skip v kc := mkKVCluster (kc_raft kc) (kc_kvs kc) (kc_hands kc)
  (kc_handlers kc) (kc_clients kc) (kc_calls kc) (kc_clock kc) (kc_starts kc)
  (kc_skips kc ++ [v]).

Section defs.
Context `{!Gob Z, !Gob (list (LogEntry command))}.

(** The service of server [n], with its pointer to the Raft peer. *)
Definition server (n : Z) (kc : KVCluster) : result KVServer :=
  kv ← of_option (zget (kc_kvs kc) n);
  r ← get_node n (kc_raft kc);
  Ret (set_rf r kv).

Definition set_server (n : Z) (kv : KVServer) (kc : KVCluster) : KVCluster :=
  set_raft (set_node n (rf kv) (kc_raft kc)) (set_kvs (<[Z.to_nat n := kv]> (kc_kvs kc)) kc).

Definition set_handler (h : nat) (p : handler) (kc : KVCluster) : KVCluster :=
  set_handlers (<[h := p]> (kc_handlers kc)) kc.

Definition set_hand (n : Z) (o : option (ApplyMsg command)) (kc : KVCluster) : KVCluster :=
  set_hands (<[Z.to_nat n := o]> (kc_hands kc)) kc.

Definition set_client (m : nat) (cl : client) (kc : KVCluster) : KVCluster :=
  set_clients (<[m := cl]> (kc_clients kc)) kc.

Definition spawn_raft (n : Z) (sp : list spawn) (kc : KVCluster) : KVCluster :=
  set_raft (set_procs (c_procs (kc_raft kc) ++ map (proc_of n) sp) (kc_raft kc)) kc.

(** ** The server side *)

(** The next section of handler [h], which is at [p]. *)
Definition handle (h : nat) (p : handler) (kc : KVCluster) : result KVCluster :=
  match p with
  | HDone | HReply _ _ => Ret kc
  | HArrived n req =>
      kv ← server n kc;
      Ret (set_handler h match dispatch kv req with
                         | inl resp => HReply req resp
                         | inr op => HSubmit n req op
                         end kc)
  | HSubmit n req op =>
      kv ← server n kc;
      '(kv, r, sp) ← of_option (wait_start op kv);
      let kc := count_start (spawn_raft n sp (set_server n kv kc)) in
      Ret (set_handler h match r with
                         | inl e => HReply req (finish req e)
                         | inr (index, term) => HRegister n req index term
                         end kc)
  | HRegister n req index term =>
      kv ← server n kc;
      let '(kv, ch) := wait_register index kv in
      Ret (set_handler h (HWait n req index term ch) (set_server n kv kc))
  | HWait n req index term ch =>
      kv ← server n kc;
      match wait_take ch kv with
      | Some (kv, result) =>
          Ret (set_handler h (HForget n req index (wait_result term result)) (set_server n kv kc))
      | None => Ret kc
      end
  | HForget n req index r =>
      kv ← server n kc;
      Ret (set_handler h (HReply req (finish req r)) (set_server n (wait_forget index kv) kc))
  end.

(** The time-out of [waitForApply]. *)
Definition expire (h : nat) (p : handler) (kc : KVCluster) : result KVCluster :=
  match p with
  | HWait n req index term ch =>
      kv ← server n kc;
      let '(kv, r) := wait_timeout index kv in
      Ret (set_handler h (HReply req (finish req r)) (set_server n kv kc))
  | _ => Ret kc
  end.

(** The applier of server [n] processes the message it received. *)
Definition apply (n : Z) (kc : KVCluster) : result KVCluster :=
  match zget (kc_hands kc) n with
  | Some (Some msg) =>
      kv ← server n kc;
      let ahead := CommandValid msg && (lastAppliedIndex kv + 1 <? CommandIndex msg) in
      let kc := set_hand n None (set_server n (applier msg kv) kc) in
      Ret (if ahead then add_skip (n, CommandIndex msg) kc else kc)
  | _ => Ret kc
  end.

(** A section of a Raft goroutine.  The apply channel is not buffered: a peer
    sends when the applier is back at its receive. *)
Definition raft_run (i : nat) (arrives : bool) (clock : Z) (k1 k2 : tick) (kc : KVCluster) :
    result KVCluster :=
  match c_procs (kc_raft kc) !! i with
  | Some (PSend n msg) =>
      match zget (kc_hands kc) n with
      | Some None =>
          c ← step (kc_raft kc) (Run i arrives clock k1 k2);
          Ret (set_hand n (Some msg) (set_raft c kc))
      | _ => Ret kc
      end
  | _ =>
      c ← step (kc_raft kc) (Run i arrives clock k1 k2);
      Ret (set_raft c kc)
  end.

(** Server [n] crashes, with its goroutines, and is started again from what its
    peer persisted. *)
Definition crash (n : Z) (k : tick) (kc : KVCluster) : result KVCluster :=
  kv ← server n kc;
  c ← step (kc_raft kc) (Restart n k);
  let '(kv', _) := StartKVServer (peers (rf kv)) n (persister (rf kv)) (maxraftstate kv) k in
  let hs := map (fun p => if bool_decide (handler_node p = Some n) then HDone else p)
              (kc_handlers kc) in
  Ret (set_raft c (set_kvs (<[Z.to_nat n := kv']> (kc_kvs kc)) (set_hand n None
         (set_handlers hs kc)))).

(** ** The clerks *)

(** [ck.servers[serverIndex].Call]: the request leaves. *)
Definition send (m : nat) (ck : Clerk) (id : nat) (req : request) (serverIndex : Z)
    (kc : KVCluster) : result KVCluster :=
  if (0 <=? serverIndex) && (serverIndex <? servers ck) then
    let h := length (kc_handlers kc) in
    Ret (set_client m (mkClient ck (Calling id req serverIndex h))
           (set_handlers (kc_handlers kc ++ [HArrived serverIndex req]) kc))
  else Panic.

(** An idle clerk begins an operation. *)
Definition begin (m : nat) (ck : Clerk) (req : request) (kc : KVCluster) : result KVCluster :=
  let id := length (kc_calls kc) in
  let kc := tick_clock (set_calls (kc_calls kc ++ [mkCall req (kc_clock kc) None]) kc) in
  send m ck id req (lastLeader ck) kc.

(** The call did not succeed: the next server. *)
Definition retry (m : nat) (ck : Clerk) (id : nat) (req : request) (serverIndex : Z)
    (kc : KVCluster) : result KVCluster :=
  i ← next_server ck serverIndex;
  send m ck id req i kc.

Definition complete (id : nat) (value : string) (kc : KVCluster) : KVCluster :=
  tick_clock (set_calls
    (alter (fun c => mkCall (ca_req c) (ca_time c) (Some (value, kc_clock kc))) id (kc_calls kc)) kc).

(** The reply of the call arrives. *)
Definition answer (m : nat) (ck : Clerk) (id : nat) (req : request) (serverIndex : Z) (h : nat)
    (kc : KVCluster) : result KVCluster :=
  match kc_handlers kc !! h with
  | Some (HReply _ resp) =>
      let kc := set_handler h HDone kc in
      match accepted resp with
      | Some value =>
          Ret (complete id value (set_client m (mkClient (set_lastLeader serverIndex ck) Idle) kc))
      | None => retry m ck id req serverIndex kc
      end
  | _ => Ret kc
  end.

(** ** Runs *)

(** [Handle h] and [Expire h]: the handler of an RPC; [Answer m]: clerk [m]
    receives the reply of its call; [Lose m]: [Call] returns false. *)
Inductive kv_action :=
  | RaftRun (i : nat) (arrives : bool) (clock : Z) (k1 k2 : tick)
  | Apply (n : Z)
  | Handle (h : nat)
  | Expire (h : nat)
  | Crash (n : Z) (k : tick)
  | NewClerk (nrand : Z)
  | CallGet (m : nat) (key : string)
  | CallPut (m : nat) (key value : string)
  | CallAppend (m : nat) (key value : string)
  | Answer (m : nat)
  | Lose (m : nat).

Definition kv_step (kc : KVCluster) (a : kv_action) : result KVCluster :=
  match a with
  | RaftRun i arrives clock k1 k2 => raft_run i arrives clock k1 k2 kc
  | Apply n => apply n kc
  | Handle h => match kc_handlers kc !! h with Some p => handle h p kc | None => Ret kc end
  | Expire h => match kc_handlers kc !! h with Some p => expire h p kc | None => Ret kc end
  | Crash n k => crash n k kc
  | NewClerk nrand =>
      Ret (set_clients (kc_clients kc ++
             [mkClient (MakeClerk (zlen (c_nodes (kc_raft kc))) nrand) Idle]) kc)
  | CallGet m key =>
      match kc_clients kc !! m with
      | Some (mkClient ck Idle) =>
          let '(ck, args) := clerk_Get_args ck key in begin m ck (RGet args) kc
      | _ => Ret kc
      end
  | CallPut m key value =>
      match kc_clients kc !! m with
      | Some (mkClient ck Idle) =>
          let '(ck, args) := clerk_PutAppend_args ck key value "Put" in begin m ck (RPutAppend args) kc
      | _ => Ret kc
      end
  | CallAppend m key value =>
      match kc_clients kc !! m with
      | Some (mkClient ck Idle) =>
          let '(ck, args) := clerk_PutAppend_args ck key value "Append" in begin m ck (RPutAppend args) kc
      | _ => Ret kc
      end
  | Answer m =>
      match kc_clients kc !! m with
      | Some (mkClient ck (Calling id req i h)) => answer m ck id req i h kc
      | _ => Ret kc
      end
  | Lose m =>
      match kc_clients kc !! m with
      | Some (mkClient ck (Calling id req i h)) => retry m ck id req i kc
      | _ => Ret kc
      end
  end.

Fixpoint kv_exec (kc : KVCluster) (acts : list kv_action) : result KVCluster :=
  match acts with
  | [] => Ret kc
  | a :: acts => kc ← kv_step kc a; kv_exec kc acts
  end.

(** [n] new servers and no clerk. *)
Definition kv_init (n : nat) (maxraftstate : Z) (k : tick) : KVCluster :=
  mkKVCluster (init n k)
    (map (fun m => (StartKVServer (Z.of_nat n) (Z.of_nat m) MakePersister maxraftstate k).1) (seq 0 n))
    (replicate n None) [] [] [] 0 0 [].
End defs.

(** ** The history *)

Definition input_of (req : request) : KvModel.KvInput :=
  match req with
  | RGet args => KvModel.mkKvInput 0 (ga_Key args) ""
  | RPutAppend args =>
      KvModel.mkKvInput (if String.eqb (pa_Op args) "Put" then 1 else 2) (pa_Key args) (pa_Value args)
  end.

Definition client_of (req : request) : Z :=
  match req with RGet args => ga_ClientId args | RPutAppend args => pa_ClientId args end.

(** A call that returned [value] at time [t], for the checker. *)
Definition operation_of (c : call) (value : string) (t : Z) : Porcupine.Operation KvModel.value :=
  Porcupine.mkOperation (client_of (ca_req c)) (KvModel.VInput (input_of (ca_req c))) (ca_time c)
    (KvModel.VOutput (KvModel.mkKvOutput value)) t.

(** The calls that returned, and the others in as far as [guess] says what they
    are about to return. *)
Definition completion (guess : call -> option string) (kc : KVCluster) :
    list (Porcupine.Operation KvModel.value) :=
  omap (fun c => match ca_done c with
                 | Some (value, t) => Some (operation_of c value t)
                 | None => (fun value => operation_of c value (kc_clock kc)) <$> guess c
                 end) (kc_calls kc).

(** The operations that returned. *)
Definition history (kc : KVCluster) : list (Porcupine.Operation KvModel.value) :=
  completion (fun _ => None) kc.
End KVCluster.
