(* ===== verification/KVClusterInv.v ===== *)
(** What every reachable state of the key/value system satisfies: the tables of
    a server are those of an agreed prefix of the log, a handler that waits
    waits for its own operation, and a reply a clerk would accept is the answer
    its operation has in the agreed log. *)
From S2P Require Import Prelude Porcupine KvModel Persister RaftNode RaftFacts RaftSpec RaftSafety RaftCluster ClusterSections ClusterSafety ClusterRefines ClusterRuns ClusterValidity KVRaft KVRaftProps KVTables KVCluster.
Import Persister Raft RaftFacts RaftSpec RaftSafety RaftCluster ClusterSections ClusterSafety ClusterRefines ClusterRuns ClusterValidity.
Import KVRaft KVRaftProps KVTables KVCluster.

Module KVClusterInv.

Lemma list_elem_of_insert_inv {A} (l : list A) i (x y : A) : x ∈ <[i := y]> l -> x ∈ l \/ x = y.
Proof.
  intros (j & Hj)%list_elem_of_lookup. apply list_lookup_insert_Some in Hj as [(_ & <- & _)|[_ Hj]].
  - by right.
  - left. by eapply list_elem_of_lookup_2.
Qed.

Section invariant.
Context `{!Gob Z, !Gob (list (LogEntry command))}.
Context (n : nat).
Abbreviation N := (Z.of_nat n).
Implicit Types (s : system command) (l P L : list (LogEntry command)) (kv : KVServer).
Implicit Types (op : Op) (v : string) (req : request) (resp : response) (calls : list call).
Implicit Types (p : handler) (handlers : list handler) (kvs : list KVServer) (cl : client).
Implicit Types (clients : list client) (hands : list (option (ApplyMsg command))).
Implicit Types (applied : list (Z * ApplyMsg command)) (c : call).

(** ** Definitions *)

(** The operation a handler submits for a request. *)
Definition op_of req : Op :=
  match req with
  | RGet a => mkOp "Get" (ga_Key a) "" (ga_ClientId a) (ga_SeqNum a)
  | RPutAppend a => mkOp (pa_Op a) (pa_Key a) (pa_Value a) (pa_ClientId a) (pa_SeqNum a)
  end.

Definition ops_of l : list Op :=
  omap (fun e => match e_Command e with Some (COp op) => Some op | _ => None end) l.

Definition invoked calls op : Prop := exists c, c ∈ calls /\ op_of (ca_req c) = op.

Definition called calls req : Prop := exists c, c ∈ calls /\ ca_req c = req.

Definition invoked_before (t : Z) calls op : Prop :=
  exists c, c ∈ calls /\ op_of (ca_req c) = op /\ ca_time c < t.

Definition returned calls op : Prop :=
  exists c, c ∈ calls /\ op_of (ca_req c) = op /\ is_Some (ca_done c).

(** The sentinel alone, or a prefix of what a majority stores. *)
Definition agreed s l : Prop :=
  head l = Some sentinel /\ (zlen l = 1 \/ exists T P, committed n s T P /\ l `prefix_of` P).

(** [op] took effect in the agreed log, and answered [v]. *)
Definition answer_ok s calls op v : Prop :=
  exists l, agreed s l /\ Forall (invoked calls) (ops_of l) /\ (op, v) ∈ linear fresh (ops_of l).

(** A reply that its clerk, if it still waits, may accept. *)
Definition resp_ok s calls req resp : Prop :=
  forall v, accepted resp = Some v ->
  returned calls (op_of req) \/ answer_ok s calls (op_of req) v.

(** The leader [i] of [term] put [op] at [index]. *)
Definition started s (i index term : Z) op : Prop :=
  exists L e, led s !! term = Some (i, L) /\ zget L index = Some e /\ e_Command e = Some (COp op).

(** The channel [ch] is announced for [index] only, and a message in it is the
    answer, if its term is [term]. *)
Definition waits s calls req (index term : Z) (ch : nat) kv : Prop :=
  (ch < length (chans kv))%nat /\ (forall i, notifyChans kv !! i = Some ch -> i = index) /\
  (forall r, chans kv !! ch = Some (Some r) -> resp_ok s calls req (finish req (wait_result term r))).

Definition handler_ref s calls kvs p : Prop :=
  match p with
  | HDone | HArrived _ _ => True
  | HSubmit _ req op => op = op_of req
  | HRegister i req index term => started s i index term (op_of req)
  | HWait i req index term ch => started s i index term (op_of req) /\
      forall kv, zget kvs i = Some kv -> waits s calls req index term ch kv
  | HForget _ req _ r => resp_ok s calls req (finish req r)
  | HReply req resp => resp_ok s calls req resp
  end.

Definition handler_req p : option request :=
  match p with
  | HDone => None
  | HArrived _ req | HSubmit _ req _ | HRegister _ req _ _ | HWait _ req _ _ _
  | HForget _ req _ _ | HReply req _ => Some req
  end.

(** The tables of a server are those of the agreed log it applied. *)
Record app_ref s calls kv : Prop := {
  ap_log : exists l, agreed s l /\ Forall (invoked calls) (ops_of l) /\
    zlen l = lastAppliedIndex kv + 1 /\ tables_of kv = replay fresh (ops_of l);
  ap_notify i ch : notifyChans kv !! i = Some ch -> (ch < length (chans kv))%nat }.

(** What a clerk knows of its calls: all but the current one returned, and had
    smaller numbers. *)
Definition calls_ref calls cl : Prop :=
  match cl_phase cl with
  | Idle => forall c, c ∈ calls -> client_of (ca_req c) = clientId (cl_ck cl) ->
      SeqNum (op_of (ca_req c)) <= seqNum (cl_ck cl) /\ is_Some (ca_done c)
  | Calling id req _ _ =>
      (exists c, calls !! id = Some c /\ ca_req c = req /\ ca_done c = None) /\
      client_of req = clientId (cl_ck cl) /\ SeqNum (op_of req) = seqNum (cl_ck cl) /\
      forall j c, calls !! j = Some c -> j <> id -> client_of (ca_req c) = clientId (cl_ck cl) ->
        SeqNum (op_of (ca_req c)) < seqNum (cl_ck cl) /\ is_Some (ca_done c)
  end.

(** The handler a clerk waits for serves its request. *)
Definition phase_ref handlers cl : Prop :=
  match cl_phase cl with
  | Idle => True
  | Calling _ req _ h =>
      exists p, handlers !! h = Some p /\ forall r, handler_req p = Some r -> r = req
  end.

(** A request the model of the checker knows. *)
Definition req_ok req : Prop :=
  exists code, op_code (op_of req) = Some code /\
    input_of req = KvModel.mkKvInput code (Key (op_of req)) (Value (op_of req)).

(** A call that returned was answered by an agreed log whose operations were
    all called before. *)
Record call_ref s calls clients (clock : Z) c : Prop := {
  cr_time : ca_time c < clock;
  cr_code : req_ok (ca_req c);
  cr_client : exists cl, cl ∈ clients /\ clientId (cl_ck cl) = client_of (ca_req c);
  cr_done v t : ca_done c = Some (v, t) -> ca_time c < t < clock /\
    exists l, agreed s l /\ Forall (invoked_before t calls) (ops_of l) /\
      (op_of (ca_req c), v) ∈ linear fresh (ops_of l) }.

Definition call_key c : Z * Z := key_of (op_of (ca_req c)).

Record service s calls kvs applied hands handlers clients (clock : Z) : Prop := {
  sv_kvs : zlen kvs = N;
  sv_handlen : zlen hands = N;
  sv_apps : Forall (app_ref s calls) kvs;
  sv_hands i msg : zget hands i = Some (Some msg) -> (i, msg) ∈ applied;
  sv_handlers : Forall (handler_ref s calls kvs) handlers;
  sv_reqs p req : p ∈ handlers -> handler_req p = Some req -> called calls req;
  sv_clients : Forall (calls_ref calls) clients;
  sv_phases : Forall (phase_ref handlers) clients;
  sv_calls : Forall (call_ref s calls clients clock) calls;
  sv_keys : NoDup (map call_key calls) }.

(** ** Monotonicity *)

(** Calls are only added, and only completed once. *)
Definition calls_le calls calls' : Prop :=
  forall i c, calls !! i = Some c -> exists c', calls' !! i = Some c' /\ ca_req c' = ca_req c /\
    ca_time c' = ca_time c /\ (is_Some (ca_done c) -> ca_done c' = ca_done c).

Lemma calls_le_refl calls : calls_le calls calls.
Proof. intros i c Hi. by exists c. Qed.

Lemma calls_le_app calls calls' : calls_le calls (calls ++ calls').
Proof. intros i c Hi. exists c. split; [by apply lookup_app_l_Some|done]. Qed.

Lemma calls_le_elem calls calls' c :
  calls_le calls calls' -> c ∈ calls -> exists c', c' ∈ calls' /\ ca_req c' = ca_req c /\
    ca_time c' = ca_time c /\ (is_Some (ca_done c) -> ca_done c' = ca_done c).
Proof.
  intros Hle [i Hi]%list_elem_of_lookup. destruct (Hle i c Hi) as (c' & Hc' & ?).
  exists c'. split; [by eapply list_elem_of_lookup_2|done].
Qed.

Lemma invoked_mono calls calls' op : calls_le calls calls' -> invoked calls op -> invoked calls' op.
Proof.
  intros Hle (c & Hc & <-). destruct (calls_le_elem _ _ _ Hle Hc) as (c' & ? & Hr & _).
  exists c'. by rewrite Hr.
Qed.

Lemma invoked_before_mono t calls calls' op :
  calls_le calls calls' -> invoked_before t calls op -> invoked_before t calls' op.
Proof.
  intros Hle (c & Hc & <- & Ht). destruct (calls_le_elem _ _ _ Hle Hc) as (c' & ? & Hr & Htm & _).
  exists c'. by rewrite Hr, Htm.
Qed.

Lemma returned_mono calls calls' op : calls_le calls calls' -> returned calls op -> returned calls' op.
Proof.
  intros Hle (c & Hc & <- & Hd). destruct (calls_le_elem _ _ _ Hle Hc) as (c' & ? & Hr & _ & Hd').
  exists c'. rewrite Hr, (Hd' Hd). done.
Qed.

Lemma agreed_later s s' l : later s s' -> agreed s l -> agreed s' l.
Proof.
  intros Hla [Hh [Hl|(T & P & HP & Hpre)]]; (split; [done|]); [by left|right].
  exists T, P. split; [by eapply committed_later|done].
Qed.

Lemma answer_ok_mono s s' calls calls' op v :
  later s s' -> calls_le calls calls' -> answer_ok s calls op v -> answer_ok s' calls' op v.
Proof.
  intros Hla Hle (l & Hl & Hops & Hin). exists l. split; [by eapply agreed_later|]. split; [|done].
  eapply Forall_impl; [exact Hops|]. intros o. by apply invoked_mono.
Qed.

Lemma resp_ok_mono s s' calls calls' req resp :
  later s s' -> calls_le calls calls' -> resp_ok s calls req resp -> resp_ok s' calls' req resp.
Proof.
  intros Hla Hle Hr v Hv. destruct (Hr v Hv); [left; by eapply returned_mono|right].
  by eapply answer_ok_mono.
Qed.

Lemma started_later s s' i index term op :
  later s s' -> started s i index term op -> started s' i index term op.
Proof.
  intros Hla (L & e & HL & He & Hc). destruct (la_led _ _ Hla _ _ _ HL) as (x & HL' & _).
  exists (L ++ x), e. split; [done|]. split; [|done].
  pose proof (zget_Some_range _ _ _ He). by rewrite zget_app_l by lia.
Qed.

Lemma waits_mono s s' calls calls' req index term ch kv :
  later s s' -> calls_le calls calls' -> waits s calls req index term ch kv ->
  waits s' calls' req index term ch kv.
Proof.
  intros Hla Hle (Hlen & Hn & Hr). split; [done|]. split; [done|]. intros r Hc.
  eapply resp_ok_mono; [done|done|by apply Hr].
Qed.

Lemma handler_ref_mono s s' calls calls' kvs p :
  later s s' -> calls_le calls calls' -> handler_ref s calls kvs p -> handler_ref s' calls' kvs p.
Proof.
  intros Hla Hle. destruct p as [| | | |i req index term ch| |]; simpl; try done.
  - by apply started_later.
  - intros [Hs Hw]. split; [by eapply started_later|]. intros kv Hkv.
    eapply waits_mono; [done|done|by apply Hw].
  - by apply resp_ok_mono.
  - by apply resp_ok_mono.
Qed.

Lemma app_ref_mono s s' calls calls' kv :
  later s s' -> calls_le calls calls' -> app_ref s calls kv -> app_ref s' calls' kv.
Proof.
  intros Hla Hle [(l & Hl & Hops & Hrest) Hn]. split; [|done]. exists l.
  split; [by eapply agreed_later|]. split; [|done].
  eapply Forall_impl; [exact Hops|]. intros o. by apply invoked_mono.
Qed.

Lemma call_ref_mono s s' calls calls' clients clients' clock clock' c :
  later s s' -> calls_le calls calls' -> clock <= clock' ->
  (forall cl, cl ∈ clients -> exists cl', cl' ∈ clients' /\ clientId (cl_ck cl') = clientId (cl_ck cl)) ->
  call_ref s calls clients clock c -> call_ref s' calls' clients' clock' c.
Proof.
  intros Hla Hle Hck Hcl [Ht Hco (cl & Hin & Hid) Hd]. split; [lia|done| |].
  - destruct (Hcl cl Hin) as (cl' & ? & Hid'). exists cl'. by rewrite Hid'.
  - intros v t Hdone. destruct (Hd v t Hdone) as (? & l & Hl & Hops & Hv). split; [lia|].
    exists l. split; [by eapply agreed_later|]. split; [|done].
    eapply Forall_impl; [exact Hops|]. intros o. by apply invoked_before_mono.
Qed.

(** Later states of the protocol, and more messages delivered. *)
Lemma service_later s s' calls kvs applied applied' hands handlers clients clock :
  later s s' -> applied ⊆ applied' ->
  service s calls kvs applied hands handlers clients clock ->
  service s' calls kvs applied' hands handlers clients clock.
Proof.
  intros Hla Happ [Hk Hh Ha Hm Hhs Hreq Hcl Hph Hca Hkey]. split; try done.
  - eapply Forall_impl; [exact Ha|]. intros kv. apply app_ref_mono; [done|apply calls_le_refl].
  - intros i msg Hi. by apply Happ, Hm.
  - eapply Forall_impl; [exact Hhs|]. intros p. apply handler_ref_mono; [done|apply calls_le_refl].
  - eapply Forall_impl; [exact Hca|]. intros c.
    apply call_ref_mono; [done|apply calls_le_refl|done|]. intros cl Hin. by exists cl.
Qed.

(** ** Changes of one part *)

(** Handlers only move on. *)
Definition handlers_le handlers handlers' : Prop :=
  forall h p, handlers !! h = Some p -> exists p', handlers' !! h = Some p' /\
    forall r, handler_req p' = Some r -> handler_req p = Some r.

Lemma phase_ref_mono handlers handlers' cl :
  handlers_le handlers handlers' -> phase_ref handlers cl -> phase_ref handlers' cl.
Proof.
  intros Hle. unfold phase_ref. destruct (cl_phase cl) as [|id req i h]; [done|].
  intros (p & Hp & Hr). destruct (Hle h p Hp) as (p' & Hp' & Hr'). exists p'.
  split; [done|]. intros r ?%Hr'. by apply Hr.
Qed.

Lemma handlers_le_app handlers handlers' : handlers_le handlers (handlers ++ handlers').
Proof. intros h p Hp. exists p. split; [by apply lookup_app_l_Some|done]. Qed.

Lemma handlers_le_insert handlers h p p' :
  handlers !! h = Some p -> (forall r, handler_req p' = Some r -> handler_req p = Some r) ->
  handlers_le handlers (<[h := p']> handlers).
Proof.
  intros Hp Hr h' q Hq. destruct (decide (h' = h)) as [->|Hne].
  - exists p'. rewrite list_lookup_insert_eq by (by eapply lookup_lt_Some). split; [done|].
    rewrite Hp in Hq. by injection Hq as <-.
  - exists q. by rewrite list_lookup_insert_ne.
Qed.

(** One handler moved on. *)
Lemma service_handler s calls kvs applied hands handlers clients clock h p p' :
  service s calls kvs applied hands handlers clients clock -> handlers !! h = Some p ->
  (forall r, handler_req p' = Some r -> handler_req p = Some r) -> handler_ref s calls kvs p' ->
  service s calls kvs applied hands (<[h := p']> handlers) clients clock.
Proof.
  intros [Hk Hh Ha Hm Hhs Hreq Hcl Hph Hca Hkey] Hp Hr Hp'. split; try done.
  - by apply Forall_insert.
  - intros q req [Hin| ->]%list_elem_of_insert_inv Hq; [by eapply Hreq|].
    apply (Hreq p); [by eapply list_elem_of_lookup_2|by apply Hr].
  - eapply Forall_impl; [exact Hph|]. intros cl. apply phase_ref_mono. by eapply handlers_le_insert.
Qed.

(** One server changed; the handlers that wait at it still wait. *)
Lemma service_server s calls kvs applied hands handlers clients clock i kv kv' :
  service s calls kvs applied hands handlers clients clock -> zget kvs i = Some kv ->
  app_ref s calls kv' ->
  (forall req index term ch, HWait i req index term ch ∈ handlers ->
     started s i index term (op_of req) -> called calls req ->
     waits s calls req index term ch kv -> waits s calls req index term ch kv') ->
  service s calls (<[Z.to_nat i := kv']> kvs) applied hands handlers clients clock.
Proof.
  intros [Hk Hh Ha Hm Hhs Hreq Hcl Hph Hca Hkey] Hi Hkv' Hw. split; try done.
  - by rewrite zlen_insert.
  - by apply Forall_insert.
  - rewrite Forall_forall in Hhs. apply Forall_forall. intros p Hp. specialize (Hhs p Hp).
    destruct p as [| | | |j req index term ch| |]; simpl in *; try done.
    destruct Hhs as [Hs Hwt]. split; [done|]. intros kv1 Hkv1.
    pose proof (zget_Some_range _ _ _ Hi). destruct (decide (j = i)) as [->|Hne].
    + rewrite zget_insert_eq in Hkv1 by lia. injection Hkv1 as <-.
      apply Hw; [done|done|by eapply Hreq|by apply Hwt].
    + rewrite zget_insert_ne in Hkv1 by (done || lia). by apply Hwt.
Qed.

(** ** Requests and operations *)

Lemma client_of_op req : client_of req = ClientId (op_of req).
Proof. by destruct req. Qed.

Lemma called_invoked calls req : called calls req -> invoked calls (op_of req).
Proof. intros (c & ? & <-). by exists c. Qed.

Lemma called_mono calls calls' req : calls_le calls calls' -> called calls req -> called calls' req.
Proof.
  intros Hle (c & Hc & <-). destruct (calls_le_elem _ _ _ Hle Hc) as (c' & ? & Hr & _). by exists c'.
Qed.

Lemma returned_dec calls op : returned calls op \/ ~ returned calls op.
Proof.
  destruct (decide (Exists (fun c => op_of (ca_req c) = op /\ is_Some (ca_done c)) calls))
    as [(c & ? & ? & ?)%Exists_exists|Hno]; [left; by exists c|right].
  intros (c & ? & ? & ?). apply Hno, Exists_exists. by exists c.
Qed.

(** A reply at once is the cached answer; otherwise the operation is submitted. *)
Lemma dispatch_spec kv req :
  req_ok req ->
  match dispatch kv req with
  | inl resp => is_dup (t_applied (tables_of kv)) (op_of req) = true /\
      accepted resp = Some (cached (tables_of kv) (op_of req))
  | inr op => op = op_of req
  end.
Proof.
  intros (code & Hc & Hi). unfold dispatch. destruct req as [a|a]; unfold Get, PutAppend.
  - change (duplicate kv (ga_ClientId a) (ga_SeqNum a))
      with (is_dup (t_applied (tables_of kv)) (op_of (RGet a))). by destruct (is_dup _ _).
  - change (duplicate kv (pa_ClientId a) (pa_SeqNum a))
      with (is_dup (t_applied (tables_of kv)) (op_of (RPutAppend a))).
    destruct (is_dup _ _); [|done]. split; [done|]. unfold cached. simpl in *. unfold op_code in Hc.
    simpl in Hc. destruct (String.eqb (pa_Op a) "Get"); [|done].
    injection Hc as <-. injection Hi as Hi. by destruct (String.eqb (pa_Op a) "Put").
Qed.

(** The clerk returns the value of the answer. *)
Lemma finish_run req t v :
  req_ok req -> accepted (finish req (run_op (op_of req) t).2) = Some v ->
  v = (run_op (op_of req) t).2.2.
Proof.
  intros (code & Hc & Hi) Hv. unfold run_op, cached, exec_answer in *.
  destruct req as [a|a]; simpl in *.
  - destruct (is_dup _ _); simpl in *; [by injection Hv|].
    destruct (t_store t !! ga_Key a); simpl in *; by injection Hv.
  - unfold op_code in Hc. simpl in Hc. destruct (String.eqb (pa_Op a) "Get").
    + injection Hc as <-. injection Hi as Hi. by destruct (String.eqb (pa_Op a) "Put").
    + destruct (is_dup _ _); simpl in *; [by injection Hv|].
      destruct (String.eqb (pa_Op a) "Put"), (String.eqb (pa_Op a) "Append"); simpl in *;
        by simplify_eq.
Qed.

(** ** Agreed logs *)

Lemma ops_of_snoc l e :
  ops_of (l ++ [e]) = ops_of l ++ match e_Command e with Some (COp op) => [op] | _ => [] end.
Proof. unfold ops_of. rewrite omap_app. simpl. by destruct (e_Command e) as [[]|]. Qed.

Lemma committed_head s T P : inv n s -> committed n s T P -> head P = Some sentinel /\ 1 < zlen P.
Proof.
  intros Hi [(ldr & L & HL & [x Hx] & _ & Hlen) _]. split; [|done].
  destruct (le_log _ _ _ _ _ (in_led n s Hi _ _ _ HL)) as [Hh _]. rewrite Hx in Hh. by destruct P.
Qed.

Lemma sentinel_only l : head l = Some sentinel -> zlen l <= 1 -> l = [sentinel].
Proof.
  intros Hh Hl. destruct l as [|a [|b l]]; [done|by injection Hh as ->|].
  rewrite !zlen_cons in Hl. pose proof (zlen_nonneg l). lia.
Qed.

Lemma sentinel_prefix P : head P = Some sentinel -> [sentinel] `prefix_of` P.
Proof. destruct P as [|a P]; [done|]. intros [= ->]. by exists P. Qed.

Lemma agreed_prefix s l T P :
  inv n s -> agreed s l -> committed n s T P -> zlen l <= zlen P -> l `prefix_of` P.
Proof.
  intros Hi [Hh [Hl|(T0 & P0 & HP0 & Hpre)]] HP Hlen.
  - rewrite (sentinel_only l) by (done || lia). apply sentinel_prefix.
    by destruct (committed_head s T P Hi HP).
  - destruct (committed_comparable n s T0 P0 T P Hi HP0 HP) as [Hc|Hc]; [by etrans|].
    by eapply prefix_shorter.
Qed.

(** Of two agreed logs the shorter is a prefix of the longer. *)
Lemma agreed_comparable s l l' :
  inv n s -> agreed s l -> agreed s l' -> zlen l <= zlen l' -> l `prefix_of` l'.
Proof.
  intros Hi Hl [Hh' [Hl'|(T & P & HP & Hpre)]] Hlen.
  - destruct Hl as [Hh _]. rewrite (sentinel_only l) by (done || lia). by apply sentinel_prefix.
  - eapply prefix_shorter; [|exact Hpre|done]. eapply agreed_prefix; [done|done|done|].
    apply zlen_prefix in Hpre. lia.
Qed.

(** The next entry of a committed log extends an agreed one. *)
Lemma agreed_snoc s l T P e :
  inv n s -> agreed s l -> committed n s T P -> zget P (zlen l) = Some e -> agreed s (l ++ [e]).
Proof.
  intros Hi Hl HP He. pose proof (zget_Some_range _ _ _ He).
  assert (l `prefix_of` P) as [x ->] by (eapply agreed_prefix; [done|done|done|lia]).
  rewrite zget_app_r, Z.sub_diag in He by lia. destruct x as [|e' x]; [done|].
  injection He as ->. destruct Hl as [Hh _]. split; [by destruct l|]. right.
  exists T, (l ++ e :: x). split; [done|]. exists x. by rewrite <- app_assoc.
Qed.

(** ** Answers *)

Section answers.
Context s calls kvs applied hands handlers clients (clock : Z).
Context (Hi : inv n s) (Hsv : service s calls kvs applied hands handlers clients clock).

(** While an operation is not answered its clerk calls no other. *)
Lemma pending_max op op' :
  invoked calls op -> ~ returned calls op -> invoked calls op' -> ClientId op' = ClientId op ->
  SeqNum op' <= SeqNum op /\ (SeqNum op' = SeqNum op -> op' = op).
Proof.
  intros (c & Hc & Hop) Hno (c' & Hc' & Hop') Hid.
  pose proof (sv_calls _ _ _ _ _ _ _ _ Hsv) as Hcalls. rewrite Forall_forall in Hcalls.
  destruct (Hcalls c Hc) as [_ _ (cl & Hcl & Hclid) _].
  assert (ca_done c = None) as Hd.
  { destruct (ca_done c) eqn:E; [|done]. exfalso. apply Hno. exists c. rewrite E. by eauto. }
  pose proof (sv_clients _ _ _ _ _ _ _ _ Hsv) as Hcls. rewrite Forall_forall in Hcls.
  specialize (Hcls cl Hcl). unfold calls_ref in Hcls.
  assert (client_of (ca_req c) = clientId (cl_ck cl)) as H1 by done.
  assert (client_of (ca_req c') = clientId (cl_ck cl)) as H2.
  { rewrite Hclid, !client_of_op, Hop, Hop'. done. }
  destruct (cl_phase cl) as [|id req i h].
  - destruct (Hcls c Hc H1) as [_ [? Hs]]. by rewrite Hd in Hs.
  - destruct Hcls as ((c0 & Hid0 & Hr0 & _) & _ & Hseq & Hoth).
    apply list_elem_of_lookup in Hc as [j Hj]. apply list_elem_of_lookup in Hc' as [j' Hj'].
    destruct (decide (j = id)) as [->|Hne].
    2: { destruct (Hoth j c Hj Hne H1) as [_ [? Hs]]. by rewrite Hd in Hs. }
    rewrite Hid0 in Hj. injection Hj as ->. rewrite <- Hop, Hr0, Hseq.
    destruct (decide (j' = id)) as [->|Hne].
    + rewrite Hid0 in Hj'. injection Hj' as ->. rewrite <- Hop', Hr0, Hseq. done.
    + destruct (Hoth j' c' Hj' Hne H2) as [Hlt _]. rewrite Hop' in Hlt. lia.
Qed.

(** What the tables remember of it is its answer. *)
Lemma cached_answer l op :
  agreed s l -> Forall (invoked calls) (ops_of l) -> invoked calls op ->
  is_dup (t_applied (replay fresh (ops_of l))) op = true ->
  returned calls op \/ answer_ok s calls op (cached (replay fresh (ops_of l)) op).
Proof.
  intros Hl Hops Hinv Hdup. destruct (returned_dec calls op) as [|Hno]; [by left|right].
  unfold is_dup in Hdup.
  destruct (t_applied (replay fresh (ops_of l)) !! ClientId op) as [q|] eqn:Hq; [|done].
  apply Z.leb_le in Hdup. destruct (replay_last _ _ _ Hq) as (o & v & Hin & Hc & Hs & Hg & Hng).
  pose proof (linear_ops _ _ _ _ Hin) as Ho. rewrite Forall_forall in Hops.
  destruct (pending_max op o Hinv Hno (Hops o Ho) Hc) as [Hle Heq].
  rewrite (Heq ltac:(lia)) in *. exists l. split; [done|]. split; [by apply Forall_forall|].
  unfold cached. destruct (String.eqb (OpType op) "Get").
  - by rewrite (Hg eq_refl).
  - by rewrite <- (Hng eq_refl).
Qed.

(** The result of applying the next entry is its answer. *)
Lemma applied_answer l e op :
  agreed s l -> Forall (invoked calls) (ops_of l) -> agreed s (l ++ [e]) ->
  e_Command e = Some (COp op) -> invoked calls op ->
  returned calls op \/
  answer_ok s calls op (run_op op (replay fresh (ops_of l))).2.2.
Proof.
  intros Hl Hops Hl' He Hinv. unfold run_op. destruct (is_dup _ op) eqn:Ed.
  { by apply cached_answer. }
  right. exists (l ++ [e]). split; [done|]. rewrite ops_of_snoc, He.
  split; [apply Forall_app; split; [done|by constructor]|].
  rewrite linear_snoc, Ed. apply elem_of_app. right. apply list_elem_of_here.
Qed.
End answers.

(** ** The applier *)

Definition notified (index : Z) (r : NotifyCh) kv : list (option NotifyCh) :=
  match notifyChans kv !! index with
  | Some ch => match chans kv !! ch with
               | Some None => <[ch := Some r]> (chans kv)
               | _ => chans kv
               end
  | None => chans kv
  end.

Lemma executeOperation_chans op kv :
  notifyChans (applyOp op kv).1 = notifyChans kv /\ chans (applyOp op kv).1 = chans kv /\
  rf (applyOp op kv).1 = rf kv /\ lastAppliedIndex (applyOp op kv).1 = lastAppliedIndex kv.
Proof. destruct (applyOp_spec op kv) as (_ & ? & ? & ? & ?). done. Qed.

Lemma applyCommand_run msg kv op :
  lastAppliedIndex kv < CommandIndex msg -> Command msg = Some (COp op) ->
  let r := (run_op op (tables_of kv)).2 in
  let kv' := applyCommand msg kv in
  tables_of kv' = (run_op op (tables_of kv)).1 /\ lastAppliedIndex kv' = CommandIndex msg /\
  notifyChans kv' = notifyChans kv /\
  chans kv' = notified (CommandIndex msg) (mkNotify (currentTerm (rf kv)) r.2 r.1) kv.
Proof.
  intros Hlt Hc. unfold applyCommand. rewrite Hc.
  destruct (_ <=? _) eqn:E; [apply Z.leb_le in E; lia|]. clear E.
  set (kv1 := set_lastAppliedIndex (CommandIndex msg) kv).
  destruct (applyOp_run op kv1) as [Ht Hr].
  destruct (executeOperation_chans op kv1) as (Hn & Hch & _ & Hx).
  change (tables_of kv1) with (tables_of kv) in *. unfold GetState. simpl.
  destruct (applyOp op kv1) as [kv2 [err value]]. simpl in *. rewrite <- Hr. simpl.
  unfold notified, try_send. rewrite Hn, Hch. simpl.
  destruct (notifyChans kv !! CommandIndex msg) as [ch|]; [|done].
  destruct (chans kv !! ch) as [[|]|]; done.
Qed.
End invariant.
End KVClusterInv.
