(* ===== verification/KVClusterSteps.v ===== *)
(** Every step of the key/value system keeps the invariant of KVClusterInv.v, as
    long as no server votes twice in a term, at most 100 commands were started,
    no message reached a server ahead of its turn, and the clerks drew different
    identifiers. *)
From S2P Require Import Prelude Porcupine KvModel Persister RaftNode RaftFacts RaftSpec RaftSafety RaftCluster ClusterSections ClusterSafety ClusterRefines ClusterRuns ClusterLogs ClusterValidity KVRaft KVRaftProps KVTables KVCluster KVClusterInv.
Import Persister Raft RaftFacts RaftSpec RaftSafety RaftCluster ClusterSections ClusterSafety ClusterRefines ClusterRuns ClusterLogs ClusterValidity.
Import KVRaft KVRaftProps KVTables KVCluster KVClusterInv.

Module KVClusterSteps.

Section steps.
Context `{!Gob Z, !Gob (list (LogEntry command))}.
Context (n : nat).
Abbreviation N := (Z.of_nat n).
Implicit Types (s : system command) (l P L : list (LogEntry command)) (kv : KVServer).
Implicit Types (op : Op) (v : string) (req : request) (calls : list call) (kc : KVCluster).
Implicit Types (p : handler) (handlers : list handler) (kvs : list KVServer) (cl : client).
Implicit Types (clients : list client) (hands : list (option (ApplyMsg command))).
Implicit Types (applied : list (Z * ApplyMsg command)) (c : call) (sp : list spawn).

(** ** The invariant of the system *)

(** The commands in the logs are operations that were called. *)
Definition command_ok calls (cmd : command) : Prop := exists op, cmd = COp op /\ invoked calls op.

Record kv_inv s kc : Prop := {
  ki_proto : inv n s;
  ki_good : good N (kc_raft kc);
  ki_ref : cluster_ref n s (1 + kc_starts kc) (kc_raft kc);
  ki_sound : sound (command_ok (kc_calls kc)) (kc_raft kc);
  ki_service : service n s (kc_calls kc) (kc_kvs kc) (c_applied (kc_raft kc)) (kc_hands kc)
    (kc_handlers kc) (kc_clients kc) (kc_clock kc) }.

Definition client_ids kc : list Z := map (fun cl => clientId (cl_ck cl)) (kc_clients kc).

Record fine kc : Prop := {
  fi_single : single (c_votes (kc_raft kc));
  fi_starts : kc_starts kc <= 100;
  fi_skips : kc_skips kc = [];
  fi_ids : NoDup (client_ids kc) }.

Definition kept_inv kc' : Prop := exists s, kv_inv s kc'.

(** ** Servers *)

Lemma server_cases i kc kv :
  server i kc = Ret kv -> exists kv0 r, zget (kc_kvs kc) i = Some kv0 /\
    zget (c_nodes (kc_raft kc)) i = Some r /\ kv = set_rf r kv0.
Proof.
  unfold server, get_node. destruct (zget (kc_kvs kc) i) as [kv0|]; simpl; [|done].
  destruct (zget (c_nodes (kc_raft kc)) i) as [r|]; simpl; [|done]. intros [= <-]. by exists kv0, r.
Qed.

Lemma app_ref_ext s calls kv kv' :
  tables_of kv' = tables_of kv -> lastAppliedIndex kv' = lastAppliedIndex kv ->
  (forall i ch, notifyChans kv' !! i = Some ch -> (ch < length (chans kv'))%nat) ->
  app_ref n s calls kv -> app_ref n s calls kv'.
Proof. intros Ht Hx Hn [Hl _]. split; [|done]. by rewrite Ht, Hx. Qed.

(** A server changed, and neither its tables nor its peer. *)
Lemma kv_inv_local s kc i kv0 r kv' :
  kv_inv s kc -> zget (kc_kvs kc) i = Some kv0 -> zget (c_nodes (kc_raft kc)) i = Some r ->
  rf kv' = r -> tables_of kv' = tables_of kv0 -> lastAppliedIndex kv' = lastAppliedIndex kv0 ->
  (forall x ch, notifyChans kv' !! x = Some ch -> (ch < length (chans kv'))%nat) ->
  (forall req index term ch, waits n s (kc_calls kc) req index term ch kv0 ->
     waits n s (kc_calls kc) req index term ch kv') ->
  kv_inv s (set_server i kv' kc).
Proof.
  intros [Hp Hg Hr Hso Hsv] Hkv Hrf Heq Ht Hx Hn Hw. unfold set_server. rewrite Heq.
  rewrite set_node_id by done. split; try done. simpl.
  eapply service_server; [done|exact Hkv| |by intros; apply Hw].
  eapply app_ref_ext; [done..|]. apply zget_Some_lookup in Hkv as [_ Hkv].
  exact (Forall_lookup_1 _ _ _ _ (sv_apps _ _ _ _ _ _ _ _ _ Hsv) Hkv).
Qed.

Lemma kv_inv_handler s kc h p p' :
  kv_inv s kc -> kc_handlers kc !! h = Some p ->
  (forall r, handler_req p' = Some r -> handler_req p = Some r) ->
  handler_ref n s (kc_calls kc) (kc_kvs kc) p' -> kv_inv s (set_handler h p' kc).
Proof.
  intros [Hp Hg Hr Hso Hsv] Hh Hreq Hp'. split; try done. by eapply service_handler.
Qed.

Section handler.
Context s kc (h : nat).
Context (Hinv : kv_inv s kc).

Lemma handler_facts p :
  kc_handlers kc !! h = Some p ->
  handler_ref n s (kc_calls kc) (kc_kvs kc) p /\
  forall req, handler_req p = Some req -> called (kc_calls kc) req /\ req_ok req.
Proof.
  intros Hp. destruct Hinv as [_ _ _ _ Hsv].
  split; [exact (Forall_lookup_1 _ _ _ _ (sv_handlers _ _ _ _ _ _ _ _ _ Hsv) Hp)|].
  intros req Hreq. assert (called (kc_calls kc) req) as (c & Hc & <-).
  { eapply sv_reqs; [exact Hsv| |exact Hreq]. by eapply list_elem_of_lookup_2. }
  split; [by exists c|]. pose proof (sv_calls _ _ _ _ _ _ _ _ _ Hsv) as Hcs.
  rewrite Forall_forall in Hcs. by apply Hcs.
Qed.

Lemma app_facts i kv0 :
  zget (kc_kvs kc) i = Some kv0 -> app_ref n s (kc_calls kc) kv0.
Proof.
  intros [_ Hkv]%zget_Some_lookup.
  exact (Forall_lookup_1 _ _ _ _ (sv_apps _ _ _ _ _ _ _ _ _ (ki_service _ _ Hinv)) Hkv).
Qed.

Lemma arrived_inv i req kc' :
  kc_handlers kc !! h = Some (HArrived i req) -> handle h (HArrived i req) kc = Ret kc' ->
  kv_inv s kc'.
Proof.
  intros Hh Heq. simpl in Heq. destruct (server i kc) as [kv| |] eqn:Hs; simpl in Heq; try done.
  injection Heq as <-. apply server_cases in Hs as (kv0 & r & Hkv & _ & ->).
  destruct (handler_facts _ Hh) as [_ Hreq]. destruct (Hreq req eq_refl) as [Hca Hok].
  pose proof (dispatch_spec (set_rf r kv0) req Hok) as Hd.
  eapply kv_inv_handler; [done|exact Hh|by destruct (dispatch _ _)|].
  destruct (dispatch _ _) as [resp|op]; [|done]. destruct Hd as [Hdup Hacc].
  intros v Hv. simpl in Hv. rewrite Hacc in Hv. injection Hv as <-.
  destruct (app_facts i kv0 Hkv) as [(l & Hl & Hops & _ & Ht) _].
  change (tables_of (set_rf r kv0)) with (tables_of kv0) in *. rewrite Ht in *.
  eapply cached_answer; [apply Hinv|done|done|by apply called_invoked|done].
Qed.

Lemma register_inv i req index term kc' :
  kc_handlers kc !! h = Some (HRegister i req index term) ->
  handle h (HRegister i req index term) kc = Ret kc' -> kv_inv s kc'.
Proof.
  intros Hh Heq. simpl in Heq. destruct (server i kc) as [kv| |] eqn:Hs; simpl in Heq; try done.
  injection Heq as <-. apply server_cases in Hs as (kv0 & r & Hkv & Hr & ->).
  destruct (handler_facts _ Hh) as [Hst _]. destruct (app_facts i kv0 Hkv) as [_ Hn].
  set (kv' := (wait_register index (set_rf r kv0)).1).
  assert (kv_inv s (set_server i kv' kc)) as Hinv'.
  { eapply kv_inv_local; try done.
    - simpl. intros x ch. rewrite length_app. intros [[_ <-]|[_ Hx]]%lookup_insert_Some; simpl; [lia|].
      apply Hn in Hx. lia.
    - simpl. intros req0 index0 term0 ch (Hlen & Hx & Hc). split; [simpl; rewrite length_app; lia|].
      simpl. split.
      + intros x [[_ <-]|[_ Hx']]%lookup_insert_Some; [lia|by apply Hx].
      + intros r0 Hr0. apply Hc. by rewrite lookup_app_l in Hr0. }
  eapply (kv_inv_handler s (set_server i kv' kc)); [done|exact Hh|done|].
  split; [done|]. intros kv1 Hkv1. simpl in Hkv1. pose proof (zget_Some_range _ _ _ Hkv).
  rewrite zget_insert_eq in Hkv1 by lia. injection Hkv1 as <-. split; [|split].
  - simpl. rewrite length_app. simpl. lia.
  - simpl. intros x [[<- _]|[_ Hx]]%lookup_insert_Some; [done|]. apply Hn in Hx. lia.
  - simpl. intros r0 Hr0. by rewrite lookup_app_r, Nat.sub_diag in Hr0.
Qed.

Lemma wait_inv i req index term ch kc' :
  kc_handlers kc !! h = Some (HWait i req index term ch) ->
  handle h (HWait i req index term ch) kc = Ret kc' -> kv_inv s kc'.
Proof.
  intros Hh Heq. simpl in Heq. destruct (server i kc) as [kv| |] eqn:Hs; simpl in Heq; try done.
  apply server_cases in Hs as (kv0 & r & Hkv & Hr & ->). unfold wait_take in Heq. simpl in Heq.
  destruct (chans kv0 !! ch) as [[result|]|] eqn:Hch; injection Heq as <-; try done.
  destruct (handler_facts _ Hh) as [[_ Hw] _]. destruct (Hw kv0 Hkv) as (_ & _ & Hresp).
  destruct (app_facts i kv0 Hkv) as [_ Hn].
  set (kv' := set_chans (<[ch := None]> (chans kv0)) (set_rf r kv0)).
  assert (kv_inv s (set_server i kv' kc)) as Hinv'.
  { eapply kv_inv_local; try done.
    - simpl. intros x ch'. rewrite length_insert. apply Hn.
    - simpl. intros req0 index0 term0 ch' (Hlen & Hx & Hc).
      split; [simpl; by rewrite length_insert|]. split; [done|]. simpl.
      intros r0 [(<- & ? & _)|[_ Hr0]]%list_lookup_insert_Some; [done|by apply Hc]. }
  eapply (kv_inv_handler s (set_server i kv' kc)); [done|exact Hh|done|]. by apply Hresp.
Qed.

(** Taking the channel off the table. *)
Lemma forget_inv i kv0 r index :
  zget (kc_kvs kc) i = Some kv0 -> zget (c_nodes (kc_raft kc)) i = Some r ->
  kv_inv s (set_server i (wait_forget index (set_rf r kv0)) kc).
Proof.
  intros Hkv Hr. destruct (app_facts i kv0 Hkv) as [_ Hn]. eapply kv_inv_local; try done.
  - simpl. intros x ch [_ Hx]%lookup_delete_Some. by apply (Hn x).
  - simpl. intros req index0 term ch (Hlen & Hx & Hc). split; [done|]. split; [|done]. simpl.
    intros x [_ Hx']%lookup_delete_Some. by apply Hx.
Qed.

Lemma reply_inv i req index r p kv :
  kc_handlers kc !! h = Some p -> handler_req p = Some req ->
  resp_ok n s (kc_calls kc) req (finish req r) -> server i kc = Ret kv ->
  kv_inv s (set_handler h (HReply req (finish req r)) (set_server i (wait_forget index kv) kc)).
Proof.
  intros Hh Hreq Hresp (kv0 & rf0 & Hkv & Hr & ->)%server_cases.
  eapply (kv_inv_handler s (set_server i _ kc)); [by apply forget_inv|exact Hh|by intros ? [= <-]|].
  done.
Qed.

Lemma expire_inv p kc' :
  kc_handlers kc !! h = Some p -> expire h p kc = Ret kc' -> kv_inv s kc'.
Proof.
  intros Hh Heq. destruct p as [| | | |i req index term ch| |]; simpl in Heq;
    try (by injection Heq as <-).
  destruct (server i kc) as [kv| |] eqn:Hs; simpl in Heq; try done. injection Heq as <-.
  eapply reply_inv; [exact Hh|done| |done]. intros v Hv. by destruct req.
Qed.
End handler.

(** ** Submitting *)

(** [waitForApply] submits through a step of the Raft cluster. *)
Lemma wait_start_step kc i kv op kv' r sp :
  server i kc = Ret kv -> wait_start op kv = Some (kv', r, sp) ->
  step (kc_raft kc) (Client i (COp op)) = Ret (kc_raft (spawn_raft i sp (set_server i kv' kc))).
Proof.
  intros (kv0 & r0 & Hkv & Hr & ->)%server_cases Hst. unfold wait_start in Hst. simpl in *.
  unfold get_node. rewrite Hr. simpl.
  destruct (Start (COp op) r0) as [[[rf1 [[x t] b]] sp1]|]; simpl in *; [|done].
  by injection Hst as <- _ <-.
Qed.

(** The protocol follows a step of the Raft cluster. *)
Lemma raft_step s kc act (c' : Cluster command) (starts : Z) :
  kv_inv s kc -> step (kc_raft kc) act = Ret c' -> single (c_votes c') ->
  starts = kc_starts kc + commands [act] ->
  (forall m cmd, act = Client m cmd -> command_ok (kc_calls kc) cmd) ->
  exists s', later s s' /\ inv n s' /\ good N c' /\ cluster_ref n s' (1 + starts) c' /\
    sound (command_ok (kc_calls kc)) c'.
Proof.
  intros [Hp Hg Hr Hso _] Hst Hsg -> Hcmd.
  destruct (step_refines n s _ _ act c' Hp Hg Hr Hst Hsg) as (s' & Hsteps & Hr').
  destruct (nexts_later n _ _ Hp Hsteps) as [Hp' Hla]. exists s'. split; [done|]. split; [done|].
  split; [by eapply step_inv|]. split; [by rewrite Z.add_assoc|].
  by eapply step_sound.
Qed.

Lemma submit_inv s kc h i req op kc' :
  kv_inv s kc -> kc_handlers kc !! h = Some (HSubmit i req op) ->
  handle h (HSubmit i req op) kc = Ret kc' -> single (c_votes (kc_raft kc')) -> kept_inv kc'.
Proof.
  intros Hinv Hh Heq Hsg. destruct (handler_facts s kc h Hinv _ Hh) as [Hop Hreq].
  destruct (Hreq req eq_refl) as [Hca _]. simpl in Hop, Heq.
  destruct (server i kc) as [kv| |] eqn:Hs; simpl in Heq; try done.
  destruct (wait_start op kv) as [[[kv' r] sp]|] eqn:Hst; simpl in Heq; [|done].
  injection Heq as <-. simpl in Hsg. pose proof (wait_start_step _ _ _ _ _ _ _ Hs Hst) as Hstep.
  destruct (raft_step s kc _ _ (kc_starts kc + 1) Hinv Hstep Hsg eq_refl)
    as (s' & Hla & Hp' & Hg' & Hr' & Hso').
  { intros m cmd [= <- <-]. exists op. split; [done|]. rewrite Hop. by apply called_invoked. }
  pose proof Hs as (kv0 & r0 & Hkv & Hr & ->)%server_cases.
  destruct (get_node_inv _ _ _ _ _ _ _ (ki_good _ _ Hinv) Hr) as [[Hok _ _ _ _ _] Hran].
  destruct (wait_start_spec (set_rf r0 kv0) op Hok) as (rf' & r' & sp' & Hst' & Hcase).
  rewrite Hst in Hst'. injection Hst' as -> -> ->. simpl in Hcase.
  destruct (app_facts s kc Hinv i kv0 Hkv) as [_ Hn].
  assert (service n s' (kc_calls kc) (<[Z.to_nat i := set_rf rf' (set_rf r0 kv0)]> (kc_kvs kc))
    (c_applied (kc_raft kc)) (kc_hands kc) (kc_handlers kc) (kc_clients kc) (kc_clock kc)) as Hsv.
  { pose proof (service_later n s s' _ _ _ _ _ _ _ _ Hla (reflexivity _) (ki_service _ _ Hinv)) as Hsv.
    eapply service_server; [exact Hsv|exact Hkv| |by intros].
    apply (app_ref_ext _ _ kv0); [done..|].
    eapply app_ref_mono; [exact Hla|apply calls_le_refl|]. by eapply app_facts. }
  exists s'. split; try done. simpl. eapply service_handler; [exact Hsv|exact Hh| |].
  { intros rq. by destruct r' as [|[]]. }
  destruct Hcase as [(_ & -> & _)|(Hld & -> & Ht & Hlog)]; simpl.
  - intros v Hv. by destruct req.
  - assert (zget (c_nodes (kc_raft (spawn_raft i sp' (set_server i (set_rf rf' (set_rf r0 kv0)) kc)))) i
      = Some rf') as Hnode.
    { simpl. apply zget_insert_eq. by eapply zget_Some_range. }
    destruct (cluster_server n s' _ _ i rf' Hp' Hr' Hnode) as [_ [_ _ _ Hldr _ _ _ _]].
    assert (state rf' = Leader) as Hst2.
    { destruct (Start_cases (COp op) r0 Hok) as (rf2 & r2 & sp2 & Heq2 & _ & _ & _ & Hs2 & _).
      unfold wait_start in Hst. simpl in Hst. rewrite Heq2 in Hst. simpl in Hst.
      destruct r2 as [[x t] b]. injection Hst as <- _ _. by rewrite Hs2. }
    specialize (Hldr Hst2). simpl in Hldr. rewrite Ht, Hlog in Hldr.
    exists (log r0 ++ [mkEntry (currentTerm r0) (Some (COp op))]),
      (mkEntry (currentTerm r0) (Some (COp op))).
    split; [done|]. split; [by rewrite zget_app_r, Z.sub_diag by lia|by rewrite Hop].
Qed.

(** ** Applying *)

(** A message of the current term in a channel answers the handler that waits. *)
Lemma waits_notified s calls kvs applied hands handlers clients clock
    i kv0 rf0 req index term ch l T P e op (x : Z) :
  inv n s -> service n s calls kvs applied hands handlers clients clock ->
  zget (RaftSpec.servers s) i = Some (view rf0) -> called calls req -> req_ok req ->
  started s i index term (op_of req) -> waits n s calls req index term ch kv0 ->
  agreed n s l -> Forall (invoked calls) (ops_of l) -> zlen l = x ->
  tables_of kv0 = replay fresh (ops_of l) ->
  committed n s T P -> term_reached s i T -> zget P (x) = Some e ->
  e_Command e = Some (COp op) ->
  forall r, notified (x) (mkNotify (currentTerm rf0)
      (run_op op (tables_of kv0)).2.2 (run_op op (tables_of kv0)).2.1) kv0 !! ch = Some (Some r) ->
  resp_ok n s calls req (finish req (wait_result term r)).
Proof.
  intros Hi Hsv Hv Hca Hok (L & e' & HL & He' & Hc') (Hlen & Hann & Hold) Hl Hops Hzl Ht HP HT He Hc r Hr.
  unfold notified in Hr.
  destruct (notifyChans kv0 !! x) as [ch'|] eqn:Hnc; [|by apply Hold].
  destruct (chans kv0 !! ch') as [[|]|] eqn:Hcell; try by apply Hold.
  apply list_lookup_insert_Some in Hr as [(-> & Hr & _)|[_ Hr]]; [|by apply Hold].
  injection Hr as <-. specialize (Hann _ Hnc). unfold wait_result. simpl.
  destruct (currentTerm rf0 =? term) eqn:Et; simpl; [|by intros v ?; destruct req].
  apply Z.eqb_eq in Et. destruct HT as (sv & Hsv' & HTle). rewrite Hv in Hsv'. injection Hsv' as <-.
  simpl in HTle. assert (P `prefix_of` L) as [y ->].
  { eapply committed_led; [exact Hi|exact HP| |exact HL]. lia. }
  pose proof (zget_Some_range _ _ _ He). rewrite <- Hann, zget_app_l, He in He' by lia.
  injection He' as <-. rewrite Hc in Hc'. injection Hc' as ->. rewrite Ht.
  intros v Hacc. rewrite <- surjective_pairing in Hacc. apply finish_run in Hacc as ->; [|done].
  eapply (applied_answer n s _ _ _ _ _ _ _ Hsv l e); try done; [|by apply called_invoked].
  eapply agreed_snoc; [done|done|exact HP|by rewrite Hzl].
Qed.

(** The hand of an applier. *)
Lemma service_hand s calls kvs applied applied' hands handlers clients clock i o :
  service n s calls kvs applied hands handlers clients clock -> applied ⊆ applied' ->
  (forall msg, o = Some msg -> (i, msg) ∈ applied') -> 0 <= i ->
  service n s calls kvs applied' (<[Z.to_nat i := o]> hands) handlers clients clock.
Proof.
  intros [Hk Hh Ha Hm Hhs Hreq Hcl Hph Hca Hkey] Hsub Ho Hi. split; try done.
  - by rewrite zlen_insert.
  - intros j msg Hj. destruct (decide (j = i)) as [->|Hne].
    + pose proof (zget_Some_range _ _ _ Hj) as Hr. rewrite zlen_insert in Hr.
      rewrite zget_insert_eq in Hj by done. injection Hj as ->. by apply Ho.
    + rewrite zget_insert_ne in Hj by (done || lia). by apply Hsub, Hm.
Qed.

(** The applier leaves the peer alone. *)
Lemma applyCommand_rf msg kv : rf (applyCommand msg kv) = rf kv.
Proof.
  unfold applyCommand. repeat (case_match; try done).
  all: try (match goal with H : applyOp ?o ?k = _ |- _ =>
    pose proof (executeOperation_chans o k) as (_ & _ & Hrf & _); rewrite H in Hrf end).
  all: unfold try_send; repeat case_match; done.
Qed.

Lemma applier_rf msg kv : rf (applier msg kv) = rf kv.
Proof. unfold applier. destruct (CommandValid msg); [apply applyCommand_rf|]. by case_match. Qed.

(** The applier processes the next message. *)
Lemma apply_next s kc i kv0 r0 msg :
  kv_inv s kc -> zget (kc_kvs kc) i = Some kv0 -> zget (c_nodes (kc_raft kc)) i = Some r0 ->
  msg_ref n s i msg -> cmd_sound (command_ok (kc_calls kc)) (Command msg) ->
  CommandIndex msg = lastAppliedIndex kv0 + 1 ->
  service n s (kc_calls kc) (<[Z.to_nat i := applyCommand msg (set_rf r0 kv0)]> (kc_kvs kc))
    (c_applied (kc_raft kc)) (kc_hands kc) (kc_handlers kc) (kc_clients kc) (kc_clock kc).
Proof.
  intros Hinv Hkv Hr (T & P & e & HP & HT & _ & _ & He & Hcmd) Hso Hx.
  destruct (app_facts s kc Hinv i kv0 Hkv) as [(l & Hl & Hops & Hzl & Ht) Hn].
  rewrite Hx, <- Hzl in He. pose proof Hinv as [Hi Hg Href _ Hsv].
  pose proof (agreed_snoc n s l T P e Hi Hl HP He) as Hl'.
  assert (zlen (l ++ [e]) = CommandIndex msg + 1) as Hzl'.
  { rewrite zlen_app, zlen_cons, zlen_nil. lia. }
  destruct (Command msg) as [cmd|] eqn:Hc.
  2: { assert (applyCommand msg (set_rf r0 kv0) = set_lastAppliedIndex (CommandIndex msg) (set_rf r0 kv0))
      as -> by (unfold applyCommand; rewrite Hc; case_match; [bsimp; simpl in *; lia|done]).
    eapply service_server; [exact Hsv|exact Hkv| |by intros]. split; [|done]. exists (l ++ [e]).
    rewrite ops_of_snoc, <- Hcmd, app_nil_r. done. }
  destruct Hso as (op & -> & Hinvk). 
  destruct (applyCommand_run msg (set_rf r0 kv0) op) as (Ht' & Hx' & Hn' & Hch'); [simpl; lia|done|].
  set (kv' := applyCommand msg (set_rf r0 kv0)) in *.
  assert (length (chans kv') = length (chans kv0)) as Hlen.
  { rewrite Hch'. unfold notified. repeat case_match; by rewrite ?length_insert. }
  eapply service_server; [exact Hsv|exact Hkv| |].
  - split.
    + exists (l ++ [e]). split; [done|]. rewrite ops_of_snoc, <- Hcmd, Hx'.
      split; [apply Forall_app; split; [done|by constructor]|]. split; [done|].
      rewrite replay_app, Ht'. simpl. by rewrite <- Ht.
    + intros x ch. rewrite Hn', Hlen. apply Hn.
  - intros req index term ch Hin Hst Hca Hw. pose proof Hw as (Hlen0 & Hann & _).
    split; [by rewrite Hlen|]. split; [intros x; rewrite Hn'; apply Hann|]. rewrite Hch'.
    assert (req_ok req) as Hok.
    { destruct Hca as (c & Hc0 & <-). pose proof (sv_calls _ _ _ _ _ _ _ _ _ Hsv) as Hcs.
      rewrite Forall_forall in Hcs. by apply Hcs. }
    destruct (cluster_server n s _ _ i r0 Hi Href Hr) as [Hv _].
    eapply (waits_notified s _ _ _ _ _ _ _ i kv0 r0 req index term ch l T P e op (CommandIndex msg));
      try done; [lia|]. rewrite Hx, <- Hzl. done.
Qed.

(** What an applier holds was committed, and called. *)
Lemma hand_facts s kc i msg :
  kv_inv s kc -> kc_starts kc <= 100 -> zget (kc_hands kc) i = Some (Some msg) ->
  msg_ref n s i msg /\ cmd_sound (command_ok (kc_calls kc)) (Command msg).
Proof.
  intros [Hi Hg Href Hso Hsv] Hcap Hh. pose proof (sv_hands _ _ _ _ _ _ _ _ _ Hsv i msg Hh) as Hin.
  pose proof (re_applied _ _ _ _ _ _ _ Href) as Happ. rewrite Forall_forall in Happ.
  pose proof (so_sent _ _ Hso) as Hsent. rewrite Forall_forall in Hsent.
  split; [|exact (Hsent _ Hin)]. destruct (Happ _ Hin) as [_ Hm]. apply Hm. unfold capacity. lia.
Qed.

Lemma apply_inv s kc i kc' :
  kv_inv s kc -> apply i kc = Ret kc' -> fine kc' -> kv_inv s kc'.
Proof.
  intros Hinv Heq Hf. unfold apply in Heq.
  destruct (zget (kc_hands kc) i) as [[msg|]|] eqn:Hh; [|by injection Heq as <-..].
  destruct (server i kc) as [kv| |] eqn:Hs; simpl in Heq; try done.
  apply server_cases in Hs as (kv0 & r0 & Hkv & Hr & ->). injection Heq as Heq.
  assert (kc_starts kc <= 100) as Hcap.
  { destruct Hf as [_ Hst _ _]. rewrite <- Heq in Hst. by destruct (_ && _). }
  destruct (hand_facts s kc i msg Hinv Hcap Hh) as [Hm Hcs].
  pose proof Hm as (T & P & e & HP & HT & H0 & Hval & He & Hcmd).
  unfold applier in Heq. rewrite Hval in Heq. simpl in Heq.
  destruct (lastAppliedIndex kv0 + 1 <? CommandIndex msg) eqn:Ea.
  { destruct Hf as [_ _ Hsk _]. rewrite <- Heq in Hsk. simpl in Hsk. by destruct (kc_skips kc). }
  apply Z.ltb_ge in Ea. subst kc'. pose proof Hinv as [Hi Hg Href Hso Hsv].
  assert (service n s (kc_calls kc) (<[Z.to_nat i := applyCommand msg (set_rf r0 kv0)]> (kc_kvs kc))
    (c_applied (kc_raft kc)) (kc_hands kc) (kc_handlers kc) (kc_clients kc) (kc_clock kc)) as Hsv'.
  { destruct (decide (CommandIndex msg <= lastAppliedIndex kv0)) as [Hle|Hgt].
    - assert (applyCommand msg (set_rf r0 kv0) = set_rf r0 kv0) as ->.
      { unfold applyCommand. simpl. case_match; [done|bsimp; lia]. }
      eapply service_server; [exact Hsv|exact Hkv| |by intros].
      destruct (app_facts s kc Hinv i kv0 Hkv) as [? Hn]. by eapply app_ref_ext.
    - eapply apply_next; try done. lia. }
  unfold set_server. rewrite applyCommand_rf, set_node_id by done. split; try done. simpl.
  eapply service_hand; [done|done|done|]. by eapply zget_Some_range.
Qed.

(** ** Raft *)

(** Only a send adds to what was delivered. *)
Lemma ran_applied (c c' : Cluster command) q q' ps :
  ran c q c' q' ps ->
  c_applied c' = c_applied c ++ match q with PSend i msg => [(i, msg)] | _ => [] end.
Proof.
  intros Hr. destruct Hr as [p p' []| | | | | | | | | | | | | |]; simpl; rewrite ?app_nil_r; try done;
    unfold voted; by case_match.
Qed.

Lemma step_applied (c c' : Cluster command) i arrives clock k1 k2 :
  step c (Run i arrives clock k1 k2) = Ret c' ->
  c_applied c' = c_applied c ++
    match c_procs c !! i with Some (PSend j msg) => [(j, msg)] | _ => [] end.
Proof.
  simpl. destruct (c_procs c !! i) as [q|]; [|intros [= <-]; by rewrite app_nil_r].
  destruct (run q arrives clock k1 k2 c) as [[[c1 q'] sp]| |] eqn:Hrun; simpl; try done.
  intros [= <-]. exact (ran_applied _ _ _ _ _ (run_ran _ _ _ _ _ _ _ _ _ Hrun)).
Qed.

(** A peer runs; if it sends, its applier waits for it. *)
Lemma raft_run_cases i arrives clock k1 k2 kc kc' :
  raft_run i arrives clock k1 k2 kc = Ret kc' ->
  (exists c' : Cluster command, step (kc_raft kc) (Run i arrives clock k1 k2) = Ret c' /\
     kc' = set_raft c' kc) \/
  (exists (c' : Cluster command) j msg, step (kc_raft kc) (Run i arrives clock k1 k2) = Ret c' /\
     c_procs (kc_raft kc) !! i = Some (PSend j msg) /\ zget (kc_hands kc) j = Some None /\
     kc' = set_hand j (Some msg) (set_raft c' kc)) \/ kc' = kc.
Proof.
  unfold raft_run. intros Heq. destruct (c_procs (kc_raft kc) !! i) as [[]|] eqn:Hp;
    try (destruct (zget (kc_hands kc) _) as [[|]|] eqn:Hh);
    try (destruct (step (kc_raft kc) _) as [c'| |] eqn:Hst; simpl in Heq; try done);
    injection Heq as <-; eauto 10.
Qed.

Lemma raft_run_inv s kc i arrives clock k1 k2 kc' :
  kv_inv s kc -> raft_run i arrives clock k1 k2 kc = Ret kc' -> fine kc' -> kept_inv kc'.
Proof.
  intros Hinv Hcase%raft_run_cases Hf.
  assert (forall c' : Cluster command, step (kc_raft kc) (Run i arrives clock k1 k2) = Ret c' -> single (c_votes c') ->
    exists s', later s s' /\ inv n s' /\ good N c' /\ cluster_ref n s' (1 + kc_starts kc) c' /\
      sound (command_ok (kc_calls kc)) c') as Hraft.
  { intros c' Hst Hsg. eapply raft_step; [done|exact Hst|done|simpl; lia|done]. }
  pose proof (fun c' : Cluster command => step_applied (kc_raft kc) c' i arrives clock k1 k2) as Happ.
  destruct Hcase as [(c' & Hst & ->)|[(c' & j & msg & Hst & Hp & Hh & ->)| ->]]; [..|by exists s];
    destruct (Hraft c' Hst (fi_single _ Hf)) as (s' & Hla & Hp' & Hg' & Hr' & Hso');
    specialize (Happ c' Hst); exists s'; (split; try done); simpl; rewrite Happ.
  - eapply service_later; [exact Hla| |exact (ki_service _ _ Hinv)]. set_solver.
  - rewrite Hp. eapply service_hand; [|done| |by eapply zget_Some_range].
    + eapply service_later; [exact Hla| |exact (ki_service _ _ Hinv)]. set_solver.
    + intros m [= ->]. set_solver.
Qed.

(** ** Crashes *)

Definition crashed (i : Z) handlers : list handler :=
  map (fun p => if bool_decide (handler_node p = Some i) then HDone else p) handlers.

Lemma service_crash s calls kvs applied hands handlers clients clock i :
  service n s calls kvs applied hands handlers clients clock ->
  service n s calls kvs applied hands (crashed i handlers) clients clock.
Proof.
  intros [Hk Hh Ha Hm Hhs Hreq Hcl Hph Hca Hkey]. split; try done.
  - apply Forall_fmap, (Forall_impl _ _ _ Hhs). intros p Hp. simpl. by destruct (bool_decide _).
  - intros p req (q & -> & Hq)%list_elem_of_fmap Hr. destruct (bool_decide _); [done|by eapply Hreq].
  - eapply Forall_impl; [exact Hph|]. intros cl. apply phase_ref_mono. intros h p Hp.
    exists (if bool_decide (handler_node p = Some i) then HDone else p). split.
    + unfold crashed. by rewrite list_lookup_fmap, Hp.
    + intros r. by destruct (bool_decide _).
Qed.

Lemma crash_inv s kc i k kc' :
  kv_inv s kc -> crash i k kc = Ret kc' -> fine kc' -> kept_inv kc'.
Proof.
  intros Hinv Heq Hf. unfold crash in Heq.
  destruct (server i kc) as [kv| |] eqn:Hs; simpl in Heq; try done.
  destruct (get_node i (kc_raft kc)) as [r| |] eqn:Hg; simpl in Heq; try done.
  injection Heq as Heq. subst kc'. 
  apply server_cases in Hs as (kv0 & r0 & Hkv & Hr & ->).
  unfold get_node in Hg. rewrite Hr in Hg. injection Hg as <-.
  match type of Hf with fine (set_raft ?ra _) =>
    assert (step (kc_raft kc) (Restart i k) = Ret ra) as Hst by
      (simpl; unfold get_node; rewrite Hr; done);
    destruct (raft_step s kc _ ra (kc_starts kc) Hinv Hst (fi_single _ Hf))
      as (s' & Hla & Hp' & Hg' & Hr' & Hso'); [simpl; lia|done|];
    exists s'; split; try done
  end.
  simpl. pose proof (service_later n s s' _ _ _ _ _ _ _ _ Hla (reflexivity _) (ki_service _ _ Hinv)) as Hsv.
  apply (service_crash _ _ _ _ _ _ _ _ i) in Hsv.
  eapply service_server; [|exact Hkv| |].
  - eapply service_hand; [exact Hsv|done|done|by eapply zget_Some_range].
  - split; [|done]. exists [sentinel]. repeat split; [by left|constructor].
  - intros req index term ch (q & Hq & Hin)%list_elem_of_fmap.
    destruct (bool_decide (handler_node q = Some i)) eqn:E; [done|].
    apply bool_decide_eq_false in E. subst q. done.
Qed.

(** ** Clerks *)

(** The identifiers of the clerks do not change. *)
Definition same_id cl cl' : Prop := clientId (cl_ck cl') = clientId (cl_ck cl).

Lemma clients_insert clients m cl0 cl' cl :
  clients !! m = Some cl0 -> same_id cl0 cl' -> cl ∈ clients ->
  exists cl1, cl1 ∈ <[m := cl']> clients /\ clientId (cl_ck cl1) = clientId (cl_ck cl).
Proof.
  intros Hm Hid [j Hj]%list_elem_of_lookup. destruct (decide (j = m)) as [->|Hne].
  - exists cl'. split; [apply list_elem_of_insert; by eapply lookup_lt_Some|].
    rewrite Hm in Hj. injection Hj as <-. done.
  - exists cl. split; [|done]. apply (list_elem_of_lookup_2 _ j). by rewrite list_lookup_insert_ne.
Qed.

(** The calls of a clerk are the same. *)
Definition same_calls calls calls' cl : Prop :=
  forall j c, client_of (ca_req c) = clientId (cl_ck cl) -> calls' !! j = Some c <-> calls !! j = Some c.

Lemma calls_ref_same calls calls' cl :
  same_calls calls calls' cl -> calls_ref calls cl -> calls_ref calls' cl.
Proof.
  intros Hs. unfold calls_ref. destruct (cl_phase cl) as [|id req i h].
  - intros Hc c [j Hj]%list_elem_of_lookup Hid. apply Hc; [|done].
    apply (Hs j c Hid) in Hj. by eapply list_elem_of_lookup_2.
  - intros ((c & Hc & Hr & Hd) & Hid & Hseq & Hoth). split; [|split; [done|split; [done|]]].
    + exists c. split; [|done]. apply Hs; [by rewrite Hr|done].
    + intros j c' Hj Hne Hid'. apply (Hs j c' Hid') in Hj. by eapply Hoth.
Qed.

(** A clerk that keeps waiting sends its request to another server. *)
Lemma service_send s calls kvs applied hands handlers clients clock m cl0 ck id req i :
  service n s calls kvs applied hands handlers clients clock -> clients !! m = Some cl0 ->
  same_id cl0 (mkClient ck Idle) ->
  calls_ref calls (mkClient ck (Calling id req i (length handlers))) -> called calls req ->
  service n s calls kvs applied hands (handlers ++ [HArrived i req])
    (<[m := mkClient ck (Calling id req i (length handlers))]> clients) clock.
Proof.
  intros [Hk Hh Ha Hm Hhs Hreq Hcl Hph Hca Hkey] Hm0 Hid Hcr Hcd. split; try done.
  - apply Forall_app. split; [done|by constructor].
  - intros p r [Hp| ->%list_elem_of_singleton]%elem_of_app; [by eapply Hreq|by intros [= <-]].
  - by apply Forall_insert.
  - apply Forall_insert.
    + eapply Forall_impl; [exact Hph|]. intros cl. apply phase_ref_mono, handlers_le_app.
    + exists (HArrived i req). rewrite lookup_app_r, Nat.sub_diag by lia. split; [done|].
      by intros r [= <-].
  - eapply Forall_impl; [exact Hca|]. intros c.
    apply call_ref_mono; [apply later_refl|apply calls_le_refl|done|]. intros cl. by eapply clients_insert.
Qed.

Lemma ids_distinct clients m m' cl cl' :
  NoDup (map (fun cl => clientId (cl_ck cl)) clients) -> clients !! m = Some cl ->
  clients !! m' = Some cl' -> m <> m' -> clientId (cl_ck cl) <> clientId (cl_ck cl').
Proof.
  intros Hnd Hm Hm' Hne Heq. apply Hne.
  by apply (NoDup_lookup _ _ _ (clientId (cl_ck cl)) Hnd); rewrite list_lookup_fmap, ?Hm, ?Hm'; simpl; rewrite ?Heq.
Qed.

(** The calls of clerk [m] changed; the other clerks do not see it. *)
Lemma others_ref clients m cl0 cl' calls calls' :
  NoDup (map (fun cl => clientId (cl_ck cl)) clients) -> clients !! m = Some cl0 ->
  Forall (calls_ref calls) clients -> calls_ref calls' cl' ->
  (forall cl, clientId (cl_ck cl) <> clientId (cl_ck cl0) -> same_calls calls calls' cl) ->
  Forall (calls_ref calls') (<[m := cl']> clients).
Proof.
  intros Hnd Hm Hcl Hcl' Hs. rewrite Forall_lookup. intros j cl Hj.
  apply list_lookup_insert_Some in Hj as [(_ & <- & _)|[Hne Hj]]; [done|].
  eapply calls_ref_same; [|exact (Forall_lookup_1 _ _ _ _ Hcl Hj)]. apply Hs.
  by apply (ids_distinct clients j m); try done.
Qed.

(** A clerk begins a call. *)
Lemma service_begin s calls kvs applied hands handlers clients clock m ck ck' req i :
  service n s calls kvs applied hands handlers clients clock ->
  NoDup (map (fun cl => clientId (cl_ck cl)) clients) -> clients !! m = Some (mkClient ck Idle) ->
  clientId ck' = clientId ck -> seqNum ck' = seqNum ck + 1 ->
  client_of req = clientId ck -> SeqNum (op_of req) = seqNum ck' -> req_ok req ->
  service n s (calls ++ [mkCall req clock None]) kvs applied hands (handlers ++ [HArrived i req])
    (<[m := mkClient ck' (Calling (length calls) req i (length handlers))]> clients) (clock + 1).
Proof.
  intros [Hk Hh Ha Hm Hhs Hreq Hcl Hph Hca Hkey] Hnd Hm0 Hid Hseq Hcid Hsq Hok.
  set (calls' := calls ++ [mkCall req clock None]). pose proof (calls_le_app calls [mkCall req clock None]) as Hle.
  pose proof (Forall_lookup_1 _ _ _ _ Hcl Hm0) as Hidle. unfold calls_ref in Hidle. simpl in Hidle.
  assert (forall c, c ∈ calls -> client_of (ca_req c) = clientId ck -> SeqNum (op_of (ca_req c)) < seqNum ck') as Hlt.
  { intros c Hc Hi. destruct (Hidle c Hc Hi). lia. }
  split; try done.
  - eapply Forall_impl; [exact Ha|]. intros kv. by apply app_ref_mono; [apply later_refl|].
  - apply Forall_app. split; [|by constructor]. eapply Forall_impl; [exact Hhs|]. intros p.
    by apply handler_ref_mono; [apply later_refl|].
  - intros p r [Hp| ->%list_elem_of_singleton]%elem_of_app Hr.
    + eapply called_mono; [exact Hle|by eapply Hreq].
    + injection Hr as <-. exists (mkCall req clock None). set_solver.
  - eapply others_ref; [done|exact Hm0|exact Hcl| |].
    + split; [|split; [simpl; congruence|split; [done|]]].
      * exists (mkCall req clock None). unfold calls'. by rewrite lookup_app_r, Nat.sub_diag.
      * intros j c Hj Hne Hc. unfold calls' in Hj. simpl in Hc |- *. rewrite Hid in Hc.
        apply lookup_app_Some in Hj as [Hj|[Hge Hj]].
        -- apply list_elem_of_lookup_2 in Hj. split; [by apply Hlt|by apply Hidle].
        -- apply lookup_lt_Some in Hj. simpl in Hj. lia.
    + intros cl Hne j c Hc. unfold calls'. split; [|intros Hj; by apply lookup_app_l_Some].
      intros [Hj|[_ Hj]]%lookup_app_Some; [done|].
      apply list_lookup_singleton_Some in Hj as [_ <-]. simpl in *. congruence.
  - apply Forall_insert.
    + eapply Forall_impl; [exact Hph|]. intros cl. apply phase_ref_mono, handlers_le_app.
    + exists (HArrived i req). rewrite lookup_app_r, Nat.sub_diag by lia. split; [done|]. by intros r [= <-].
  - assert (forall cl, cl ∈ clients -> exists cl1,
      cl1 ∈ <[m := mkClient ck' (Calling (length calls) req i (length handlers))]> clients /\
      clientId (cl_ck cl1) = clientId (cl_ck cl)) as Hcls.
    { intros cl. eapply clients_insert; [exact Hm0|done]. }
    apply Forall_app. split.
    + eapply Forall_impl; [exact Hca|]. intros c. apply call_ref_mono; [apply later_refl|done|lia|done].
    + constructor; [|constructor]. split; simpl; [lia|done| |done].
      destruct (Hcls (mkClient ck Idle)) as (cl1 & ? & Hc1); [by eapply list_elem_of_lookup_2|].
      exists cl1. split; [done|]. by rewrite Hc1, Hcid.
  - unfold calls'. rewrite map_app. apply NoDup_app. split; [done|]. split; [|apply NoDup_singleton].
    intros k (c & -> & Hc)%list_elem_of_fmap Hk'. simpl in Hk'. apply list_elem_of_singleton in Hk'.
    unfold call_key, key_of in Hk'. simpl in Hk'. injection Hk' as Hk1 Hk2.
    rewrite <- !client_of_op in Hk1. assert (client_of (ca_req c) = clientId ck) as Hci by congruence.
    specialize (Hlt c Hc Hci). lia.
Qed.

(** A call returns. *)
Definition completed id v (t : Z) calls : list call :=
  alter (fun c => mkCall (ca_req c) (ca_time c) (Some (v, t))) id calls.

Lemma completed_lookup id v t calls j c :
  completed id v t calls !! j = Some c ->
  (j <> id /\ calls !! j = Some c) \/
  (j = id /\ exists c0, calls !! id = Some c0 /\ c = mkCall (ca_req c0) (ca_time c0) (Some (v, t))).
Proof.
  unfold completed. destruct (decide (j = id)) as [->|Hne].
  - rewrite list_lookup_alter_eq. intros (c0 & Hc0 & ->)%fmap_Some. right. eauto.
  - rewrite list_lookup_alter_ne by done. by left.
Qed.

Lemma completed_le id v t calls c :
  calls !! id = Some c -> ca_done c = None -> calls_le calls (completed id v t calls).
Proof.
  intros Hid Hd j c' Hj. unfold completed. destruct (decide (j = id)) as [->|Hne].
  - rewrite list_lookup_alter_eq, Hid. rewrite Hid in Hj. injection Hj as <-.
    eexists. split; [done|]. simpl. split; [done|]. split; [done|]. rewrite Hd. by intros [? ?].
  - exists c'. by rewrite list_lookup_alter_ne.
Qed.

Lemma completed_keys id v t calls : map call_key (completed id v t calls) = map call_key calls.
Proof.
  unfold completed. revert id. induction calls as [|c calls IH]; intros [|id]; simpl; try done.
  change (call_key c :: map call_key (completed id v t calls) = call_key c :: map call_key calls).
  f_equal. apply IH.
Qed.

(** Only the current call of a clerk has its operation. *)
Lemma not_returned calls id c :
  NoDup (map call_key calls) -> calls !! id = Some c -> ca_done c = None ->
  ~ returned calls (op_of (ca_req c)).
Proof.
  intros Hnd Hid Hd (c' & [j Hj]%list_elem_of_lookup & Hop & Hdone).
  assert (j = id) as ->.
  { apply (NoDup_lookup _ _ _ (call_key c) Hnd); rewrite list_lookup_fmap; [rewrite Hj|by rewrite Hid].
    simpl. unfold call_key. by rewrite Hop. }
  rewrite Hid in Hj. injection Hj as <-. rewrite Hd in Hdone. by destruct Hdone.
Qed.

Lemma service_complete s calls kvs applied hands handlers clients clock m ck ck' id req i h v :
  service n s calls kvs applied hands handlers clients clock ->
  NoDup (map (fun cl => clientId (cl_ck cl)) clients) ->
  clients !! m = Some (mkClient ck (Calling id req i h)) ->
  clientId ck' = clientId ck -> seqNum ck' = seqNum ck ->
  answer_ok n s calls (op_of req) v ->
  service n s (completed id v clock calls) kvs applied hands handlers
    (<[m := mkClient ck' Idle]> clients) (clock + 1).
Proof.
  intros [Hk Hh Ha Hm Hhs Hreq Hcl Hph Hca Hkey] Hnd Hm0 Hid Hseq (l & Hl & Hops & Hin).
  pose proof (Forall_lookup_1 _ _ _ _ Hcl Hm0) as ((c0 & Hc0 & Hr0 & Hd0) & Hcid & Hsq & Hoth).
  simpl in *. pose proof (completed_le id v clock calls c0 Hc0 Hd0) as Hle. split; try done.
  - eapply Forall_impl; [exact Ha|]. intros kv. by apply app_ref_mono; [apply later_refl|].
  - eapply Forall_impl; [exact Hhs|]. intros p. by apply handler_ref_mono; [apply later_refl|].
  - intros p r Hp Hr. eapply called_mono; [exact Hle|by eapply Hreq].
  - eapply others_ref; [done|exact Hm0|exact Hcl| |].
    + unfold calls_ref. simpl. intros c [j Hj]%list_elem_of_lookup Hc. rewrite Hid in Hc. rewrite Hseq.
      apply completed_lookup in Hj as [[Hne Hj]|(-> & c1 & Hc1 & ->)].
      * destruct (Hoth j c Hj Hne Hc) as [? ?]. split; [lia|done].
      * simpl. rewrite Hc0 in Hc1. injection Hc1 as <-. rewrite Hr0, Hsq. split; [lia|done].
    + simpl. intros cl Hne j c Hc. unfold completed. destruct (decide (j = id)) as [->|Hj].
      * rewrite list_lookup_alter_eq, Hc0. simpl. split; intros [= <-]; simpl in *; congruence.
      * by rewrite list_lookup_alter_ne.
  - by apply Forall_insert.
  - assert (forall cl, cl ∈ clients -> exists cl1, cl1 ∈ <[m := mkClient ck' Idle]> clients /\
      clientId (cl_ck cl1) = clientId (cl_ck cl)) as Hcls.
    { intros cl. eapply clients_insert; [exact Hm0|done]. }
    rewrite Forall_lookup. intros j c [[_ Hj]|(-> & c1 & Hc1 & ->)]%completed_lookup.
    + eapply call_ref_mono; [apply later_refl|exact Hle| |exact Hcls|exact (Forall_lookup_1 _ _ _ _ Hca Hj)]. lia.
    + rewrite Hc0 in Hc1. injection Hc1 as <-.
      destruct (Forall_lookup_1 _ _ _ _ Hca Hc0) as [Ht Hcode (cl & Hclin & Hclid) _].
      split; simpl; [lia|done| |].
      * destruct (Hcls cl Hclin) as (cl1 & ? & Hc1). exists cl1. by rewrite Hc1.
      * intros v' t [= <- <-]. split; [lia|]. exists l. split; [done|]. split; [|by rewrite Hr0].
        eapply Forall_impl; [exact Hops|]. intros o (c' & Hc' & Ho).
        rewrite Forall_forall in Hca. pose proof (cr_time _ _ _ _ _ _ (Hca c' Hc')) as Hlt.
        destruct (calls_le_elem _ _ _ Hle Hc') as (c'' & ? & Hr & Htm & _).
        exists c''. rewrite Hr, Htm. done.
  - by rewrite completed_keys.
Qed.

Lemma command_ok_mono calls calls' cmd : calls_le calls calls' -> command_ok calls cmd -> command_ok calls' cmd.
Proof. intros Hle (op & -> & Ho). exists op. split; [done|by eapply invoked_mono]. Qed.

(** The clerks changed, and not the servers. *)
Lemma kv_inv_clerks s kc calls handlers clients clock :
  kv_inv s kc -> calls_le (kc_calls kc) calls ->
  service n s calls (kc_kvs kc) (c_applied (kc_raft kc)) (kc_hands kc) handlers clients clock ->
  kv_inv s (mkKVCluster (kc_raft kc) (kc_kvs kc) (kc_hands kc) handlers clients calls clock
    (kc_starts kc) (kc_skips kc)).
Proof.
  intros [Hp Hg Hr Hso _] Hle Hsv. split; try done. simpl.
  eapply sound_mono; [|exact Hso]. intros cmd. by apply command_ok_mono.
Qed.

Lemma send_cases m ck id req i kc kc' :
  send m ck id req i kc = Ret kc' ->
  kc' = set_client m (mkClient ck (Calling id req i (length (kc_handlers kc))))
          (set_handlers (kc_handlers kc ++ [HArrived i req]) kc).
Proof. unfold send. destruct (_ && _); [|done]. by intros [= <-]. Qed.

Lemma begin_inv s kc m ck ck' req kc' :
  kv_inv s kc -> kc_clients kc !! m = Some (mkClient ck Idle) -> NoDup (client_ids kc) ->
  clientId ck' = clientId ck -> seqNum ck' = seqNum ck + 1 ->
  client_of req = clientId ck -> SeqNum (op_of req) = seqNum ck' -> req_ok req ->
  begin m ck' req kc = Ret kc' -> kv_inv s kc'.
Proof.
  intros Hinv Hm Hnd Hid Hseq Hc Hs Hok ->%send_cases.
  apply (kv_inv_clerks s kc); [done|apply calls_le_app|]. simpl.
  by eapply service_begin; [apply Hinv| |exact Hm|..].
Qed.

(** The current call of a clerk. *)
Lemma calling_facts s kc m ck id req i h :
  kv_inv s kc -> kc_clients kc !! m = Some (mkClient ck (Calling id req i h)) ->
  calls_ref (kc_calls kc) (mkClient ck (Calling id req i h)) /\ called (kc_calls kc) req /\
  ~ returned (kc_calls kc) (op_of req) /\
  exists p, kc_handlers kc !! h = Some p /\ forall r, handler_req p = Some r -> r = req.
Proof.
  intros [_ _ _ _ Hsv] Hm.
  pose proof (Forall_lookup_1 _ _ _ _ (sv_clients _ _ _ _ _ _ _ _ _ Hsv) Hm) as Hcr.
  pose proof (Forall_lookup_1 _ _ _ _ (sv_phases _ _ _ _ _ _ _ _ _ Hsv) Hm) as Hph.
  split; [done|]. destruct Hcr as ((c & Hc & Hr & Hd) & _). split.
  - exists c. split; [by eapply list_elem_of_lookup_2|done].
  - split; [|done]. rewrite <- Hr.
    by eapply not_returned; [apply (sv_keys _ _ _ _ _ _ _ _ _ Hsv)|exact Hc|].
Qed.

Lemma retry_inv s kc m ck id req i h kc' :
  kv_inv s kc -> kc_clients kc !! m = Some (mkClient ck (Calling id req i h)) ->
  retry m ck id req i kc = Ret kc' -> kv_inv s kc'.
Proof.
  intros Hinv Hm Heq. unfold retry in Heq. destruct (next_server ck i) as [i'| |]; simpl in Heq; try done.
  apply send_cases in Heq as ->. destruct (calling_facts _ _ _ _ _ _ _ _ Hinv Hm) as (Hcr & Hca & _).
  apply (kv_inv_clerks s kc); [done|apply calls_le_refl|]. simpl.
  eapply service_send; [apply Hinv|exact Hm|done|exact Hcr|done].
Qed.

Lemma answer_inv s kc m ck id req i h kc' :
  kv_inv s kc -> NoDup (client_ids kc) ->
  kc_clients kc !! m = Some (mkClient ck (Calling id req i h)) ->
  answer m ck id req i h kc = Ret kc' -> kv_inv s kc'.
Proof.
  intros Hinv Hnd Hm Heq. unfold answer in Heq.
  destruct (kc_handlers kc !! h) as [[| | | | | |req' resp]|] eqn:Hh; try by injection Heq as <-.
  destruct (calling_facts _ _ _ _ _ _ _ _ Hinv Hm) as (_ & _ & Hno & p & Hp & Hreq).
  rewrite Hh in Hp. injection Hp as <-. specialize (Hreq req' eq_refl) as ->.
  destruct (handler_facts s kc h Hinv _ Hh) as [Hresp _].
  assert (kv_inv s (set_handler h HDone kc)) as Hinv' by (by eapply kv_inv_handler).
  destruct (accepted resp) as [v|] eqn:Hacc.
  - injection Heq as <-. destruct (Hresp v Hacc) as [|Hans]; [done|].
    apply (kv_inv_clerks s (set_handler h HDone kc)); [done| |].
    + destruct (calling_facts _ _ _ _ _ _ _ _ Hinv Hm) as (((c & Hc & _ & Hd) & _) & _).
      by eapply completed_le.
    + eapply service_complete; [apply Hinv'|exact Hnd|exact Hm|done|done|done].
  - eapply retry_inv; [exact Hinv'|exact Hm|exact Heq].
Qed.

(** A new clerk has made no call, as nobody else has its identifier. *)
Lemma new_clerk_inv s kc ck :
  kv_inv s kc -> NoDup (client_ids kc ++ [clientId ck]) ->
  kv_inv s (set_clients (kc_clients kc ++ [mkClient ck Idle]) kc).
Proof.
  intros Hinv Hnd. apply (kv_inv_clerks s kc); [done|apply calls_le_refl|].
  destruct (ki_service _ _ Hinv) as [Hk Hh Ha Hm Hhs Hreq Hcl Hph Hca Hkey]. split; try done.
  - apply Forall_app. split; [done|]. constructor; [|constructor]. intros c Hc Hid. simpl in Hid.
    rewrite Forall_forall in Hca. destruct (cr_client _ _ _ _ _ _ (Hca c Hc)) as (cl & Hcl' & Hid').
    exfalso. apply NoDup_app in Hnd as (_ & Hdis & _). apply (Hdis (clientId ck)); [|set_solver].
    rewrite <- Hid, <- Hid'. unfold client_ids. by apply (list_elem_of_fmap_2 (fun cl => clientId (cl_ck cl))).
  - apply Forall_app. split; [done|]. by constructor.
  - eapply Forall_impl; [exact Hca|]. intros c.
    apply call_ref_mono; [apply later_refl|apply calls_le_refl|done|]. intros cl Hin. exists cl. set_solver.
Qed.

(** ** The peers *)

(** The peers stay, or make one step of the Raft cluster. *)
Definition raft_follows kc kc' : Prop :=
  (kc_raft kc' = kc_raft kc /\ kc_starts kc' = kc_starts kc) \/
  exists act, step (kc_raft kc) act = Ret (kc_raft kc') /\ kc_starts kc' = kc_starts kc + commands [act].

Lemma server_raft i kv kv' kc :
  server i kc = Ret kv -> rf kv' = rf kv -> set_node i (rf kv') (kc_raft kc) = kc_raft kc.
Proof. intros (kv0 & r & _ & Hr & ->)%server_cases Hrf. rewrite Hrf. by apply set_node_id. Qed.

Lemma handle_raft h p kc kc' : handle h p kc = Ret kc' -> raft_follows kc kc'.
Proof.
  intros Heq. destruct p as [|i req|i req op|i req x t|i req x t ch|i req x r|req resp]; simpl in Heq;
    try (injection Heq as <-; by left);
    (destruct (server i kc) as [kv| |] eqn:Hs; simpl in Heq; try done).
  - injection Heq as <-. by left.
  - destruct (wait_start op kv) as [[[kv' r] sp]|] eqn:Hst; simpl in Heq; [|done].
    injection Heq as <-. right. exists (Client i (COp op)). split; [|done].
    by rewrite (wait_start_step _ _ _ _ _ _ _ Hs Hst).
  - injection Heq as <-. left. split; [|done]. by eapply (server_raft i kv (wait_register x kv).1).
  - unfold wait_take in Heq. destruct (chans kv !! ch) as [[result|]|]; injection Heq as <-; try by left.
    left. split; [|done]. by eapply (server_raft i kv (set_chans (<[ch := None]> (chans kv)) kv)).
  - injection Heq as <-. left. split; [|done]. by eapply (server_raft i kv (wait_forget x kv)).
Qed.

Lemma clerk_raft m ck id req i kc kc' :
  retry m ck id req i kc = Ret kc' -> kc_raft kc' = kc_raft kc /\ kc_starts kc' = kc_starts kc.
Proof.
  unfold retry. destruct (next_server ck i); simpl; [|done..]. by intros ->%send_cases.
Qed.

Lemma step_raft kc a kc' : kv_step kc a = Ret kc' -> raft_follows kc kc'.
Proof.
  intros Heq. assert (forall kc' : KVCluster, Ret kc = Ret kc' -> raft_follows kc kc') as Hsame.
  { intros kc1 [= <-]. by left. }
  destruct a as [i arr ck k1 k2|i|h|h|i k|nr|m key|m key v|m key v|m|m]; simpl in Heq;
    try (destruct (kc_clients kc !! m) as [[ck [|id req i h]]|]; try (by apply Hsame));
    try (apply send_cases in Heq as ->; by left).
  - unfold raft_run in Heq. repeat (case_match; try (by apply Hsame));
      (destruct (step (kc_raft kc) _) as [c'| |] eqn:Hst; simpl in Heq; try done);
      injection Heq as <-; right; exists (Run i arr ck k1 k2); (split; [exact Hst|simpl; lia]).
  - unfold apply in Heq. destruct (zget _ _) as [[msg|]|]; try by apply Hsame.
    destruct (server i kc) as [kv| |] eqn:Hs; simpl in Heq; try done. injection Heq as <-.
    pose proof (server_raft i kv (applier msg kv) kc Hs (applier_rf msg kv)) as Hr.
    left. by destruct (_ && _).
  - destruct (kc_handlers kc !! h); [by eapply handle_raft|by apply Hsame].
  - destruct (kc_handlers kc !! h) as [p|]; [|by apply Hsame].
    destruct p as [|i req|i req op|i req x t|i req x t ch|i req x r|req resp]; simpl in Heq;
      try (by apply Hsame).
    destruct (server i kc) as [kv| |] eqn:Hs; simpl in Heq; try done. injection Heq as <-.
    left. split; [|done]. by eapply (server_raft i kv (wait_forget x kv)).
  - unfold crash in Heq. destruct (server i kc); simpl in Heq; try done. right. exists (Restart i k).
    destruct (get_node _ _) as [r| |] eqn:Hg; simpl in Heq; try done. injection Heq as <-.
    simpl. rewrite Hg. simpl. split; [done|lia].
  - injection Heq as <-. by left.
  - left. unfold answer in Heq. destruct (kc_handlers kc !! h) as [[]|]; try by injection Heq as <-.
    destruct (accepted resp); [by injection Heq as <-|]. by apply clerk_raft in Heq.
  - left. by apply clerk_raft in Heq.
Qed.

(** ** Runs *)

(** What was recorded stays recorded. *)
Record grown kc kc' : Prop := {
  gr_votes : c_votes (kc_raft kc) ⊆ c_votes (kc_raft kc');
  gr_starts : kc_starts kc <= kc_starts kc';
  gr_skips : kc_skips kc' = [] -> kc_skips kc = [];
  gr_ids : client_ids kc `prefix_of` client_ids kc' }.

Lemma grown_fine kc kc' : grown kc kc' -> fine kc' -> fine kc.
Proof.
  intros [Hv Hs Hk [x Hx]] [Hsg Hst Hsk Hids]. split; [by eapply single_mono|lia|by apply Hk|].
  rewrite Hx in Hids. by apply NoDup_app in Hids as [? _].
Qed.

(** Clerks keep their identifiers. *)
Lemma client_ids_insert (clients : list client) m cl cl' :
  clients !! m = Some cl -> clientId (cl_ck cl') = clientId (cl_ck cl) ->
  map (fun cl => clientId (cl_ck cl)) (<[m := cl']> clients) = map (fun cl => clientId (cl_ck cl)) clients.
Proof.
  intros Hm Hid. rewrite (list_fmap_insert (fun cl => clientId (cl_ck cl))).
  apply list_insert_id. by rewrite list_lookup_fmap, Hm, Hid.
Qed.

Lemma client_grown kc kc' m cl cl' :
  kc_clients kc !! m = Some cl -> kc_clients kc' = <[m := cl']> (kc_clients kc) ->
  clientId (cl_ck cl') = clientId (cl_ck cl) ->
  kc_raft kc' = kc_raft kc -> kc_starts kc' = kc_starts kc -> kc_skips kc' = kc_skips kc ->
  grown kc kc'.
Proof.
  intros Hm Hc Hid Hr Hs Hk. split; rewrite ?Hr, ?Hs, ?Hk; try done.
  unfold client_ids. by rewrite Hc, (client_ids_insert _ _ _ _ Hm Hid).
Qed.

Lemma send_grown m ck id req i kc kc' cl :
  kc_clients kc !! m = Some cl -> clientId ck = clientId (cl_ck cl) ->
  send m ck id req i kc = Ret kc' -> grown kc kc'.
Proof. intros Hm Hid ->%send_cases. eapply client_grown; [exact Hm|reflexivity|done..]. Qed.

Lemma retry_grown m ck id req i kc kc' cl :
  kc_clients kc !! m = Some cl -> clientId ck = clientId (cl_ck cl) ->
  retry m ck id req i kc = Ret kc' -> grown kc kc'.
Proof.
  intros Hm Hid Heq. unfold retry in Heq. destruct (next_server ck i); simpl in Heq; try done.
  by eapply send_grown.
Qed.

Lemma raft_grown kc (c' : Cluster command) act hands handlers kvs :
  step (kc_raft kc) act = Ret c' ->
  grown kc (mkKVCluster c' kvs hands handlers (kc_clients kc) (kc_calls kc) (kc_clock kc)
    (kc_starts kc) (kc_skips kc)).
Proof. intros Hst. split; try done. by eapply step_votes. Qed.

Lemma handle_grown h p kc kc' : handle h p kc = Ret kc' -> grown kc kc'.
Proof.
  intros Heq. destruct p; simpl in Heq; try (injection Heq as <-; by split);
    (destruct (server _ kc) as [kv| |]; simpl in Heq; try done);
    try (destruct (wait_start op kv) as [[[kv' r] sp]|]; simpl in Heq; [|done]);
    try (destruct (wait_take ch kv) as [[kv' r]|]);
    injection Heq as <-; split; try done; simpl; lia.
Qed.

Lemma step_grown kc a kc' : kv_step kc a = Ret kc' -> grown kc kc'.
Proof.
  intros Heq. assert (forall kc' : KVCluster, Ret kc = Ret kc' -> grown kc kc') as Hsame.
  { intros kc1 [= <-]. by split. }
  destruct a as [i arr ck k1 k2|i|h|h|i k|nr|m key|m key v|m key v|m|m]; simpl in Heq.
  - unfold raft_run in Heq. repeat (case_match; try by apply Hsame);
      (destruct (step (kc_raft kc) _) as [c'| |] eqn:Hst; simpl in Heq; try done);
      injection Heq as <-; exact (raft_grown kc c' _ _ _ _ Hst).
  - unfold apply in Heq. destruct (zget _ _) as [[msg|]|]; try by apply Hsame.
    destruct (server _ _); simpl in Heq; try done. injection Heq as <-.
    destruct (_ && _); split; simpl; try done. intros H. by destruct (kc_skips kc).
  - destruct (kc_handlers kc !! h); [by eapply handle_grown|by apply Hsame].
  - destruct (kc_handlers kc !! h) as [p|]; [|by apply Hsame].
    destruct p; simpl in Heq; try (by apply Hsame).
    destruct (server _ kc); simpl in Heq; try done. injection Heq as <-. by split.
  - unfold crash in Heq. destruct (server _ kc); simpl in Heq; try done.
    destruct (get_node _ _) as [r| |] eqn:Hg; simpl in Heq; try done. injection Heq as <-.
    by split.
  - injection Heq as <-. split; try done. unfold client_ids. simpl. rewrite map_app. by eexists.
  - destruct (kc_clients kc !! m) as [[ck [|]]|] eqn:Hm; try by apply Hsame.
    apply send_cases in Heq as ->. eapply client_grown; [exact Hm|reflexivity|done..].
  - destruct (kc_clients kc !! m) as [[ck [|]]|] eqn:Hm; try by apply Hsame.
    apply send_cases in Heq as ->. eapply client_grown; [exact Hm|reflexivity|done..].
  - destruct (kc_clients kc !! m) as [[ck [|]]|] eqn:Hm; try by apply Hsame.
    apply send_cases in Heq as ->. eapply client_grown; [exact Hm|reflexivity|done..].
  - destruct (kc_clients kc !! m) as [[ck [|id req i h]]|] eqn:Hm; try by apply Hsame.
    unfold answer in Heq. destruct (kc_handlers kc !! h) as [[]|]; try by apply Hsame.
    destruct (accepted resp).
    + injection Heq as <-. eapply client_grown; [exact Hm|reflexivity|done..].
    + by destruct (retry_grown m ck id req i (set_handler h HDone kc) kc' _ Hm eq_refl Heq).
  - destruct (kc_clients kc !! m) as [[ck [|id req i h]]|] eqn:Hm; try by apply Hsame.
    by eapply retry_grown.
Qed.

Lemma kv_step_inv s kc a kc' :
  kv_inv s kc -> kv_step kc a = Ret kc' -> fine kc' -> kept_inv kc'.
Proof.
  intros Hinv Heq Hf. pose proof (grown_fine _ _ (step_grown _ _ _ Heq) Hf) as Hf0.
  pose proof (fi_ids _ Hf0) as Hnd.
  assert (Ret kc = Ret kc' -> kept_inv kc') as Hsame by (intros [= <-]; by exists s).
  destruct a as [i arr ck k1 k2|i|h|h|i k|nr|m key|m key v|m key v|m|m]; simpl in Heq.
  - by eapply raft_run_inv.
  - exists s. by eapply apply_inv.
  - destruct (kc_handlers kc !! h) as [p|] eqn:Hh; [|by apply Hsame].
    destruct p as [|i req|i req op|i req x t|i req x t ch|i req x r|req resp]; try by apply Hsame.
    + exists s. by eapply arrived_inv.
    + eapply submit_inv; [exact Hinv|exact Hh|exact Heq|apply Hf].
    + exists s. by eapply register_inv.
    + exists s. by eapply wait_inv.
    + simpl in Heq. destruct (server i kc) as [kv| |] eqn:Hs; simpl in Heq; try done.
      injection Heq as <-. exists s. destruct (handler_facts s kc h Hinv _ Hh) as [Hr _].
      by eapply reply_inv; [|exact Hh| | |].
  - destruct (kc_handlers kc !! h) as [p|] eqn:Hh; [|by apply Hsame]. exists s. by eapply expire_inv.
  - by eapply crash_inv.
  - injection Heq as <-. exists s. apply new_clerk_inv; [done|].
    pose proof (fi_ids _ Hf) as Hids. unfold client_ids in Hids. simpl in Hids. by rewrite map_app in Hids.
  - destruct (kc_clients kc !! m) as [[ck [|]]|] eqn:Hm; try by apply Hsame.
    exists s. eapply (begin_inv _ _ _ _ _ _ _ Hinv Hm Hnd); [..|exact Heq]; try done. by exists 0.
  - destruct (kc_clients kc !! m) as [[ck [|]]|] eqn:Hm; try by apply Hsame.
    exists s. eapply (begin_inv _ _ _ _ _ _ _ Hinv Hm Hnd); [..|exact Heq]; try done. by exists 1.
  - destruct (kc_clients kc !! m) as [[ck [|]]|] eqn:Hm; try by apply Hsame.
    exists s. eapply (begin_inv _ _ _ _ _ _ _ Hinv Hm Hnd); [..|exact Heq]; try done. by exists 2.
  - destruct (kc_clients kc !! m) as [[ck [|id req i h]]|] eqn:Hm; try by apply Hsame.
    exists s. by eapply answer_inv.
  - destruct (kc_clients kc !! m) as [[ck [|id req i h]]|] eqn:Hm; try by apply Hsame.
    exists s. by eapply retry_inv.
Qed.

Lemma exec_kept kc acts kc' : kept_inv kc -> kv_exec kc acts = Ret kc' -> fine kc' -> kept_inv kc'.
Proof.
  revert kc. induction acts as [|a acts IH]; intros kc Hinv Heq Hf; simpl in Heq.
  { by injection Heq as <-. }
  destruct (kv_step kc a) as [kc1| |] eqn:Hst; simpl in Heq; try done.
  eapply IH; [|exact Heq|done]. destruct Hinv as [s Hinv]. eapply kv_step_inv; [done|exact Hst|].
  clear -Heq Hf. revert kc1 Heq. induction acts as [|a acts IH]; intros kc1 Heq; simpl in Heq.
  { by injection Heq as ->. }
  destruct (kv_step kc1 a) as [kc2| |] eqn:Hst; simpl in Heq; try done.
  eapply grown_fine; [by eapply step_grown|by apply IH].
Qed.

Lemma init_kept maxraftstate k : kept_inv (kv_init n maxraftstate k).
Proof.
  exists (initial n). split; [apply initial_inv|apply init_good|apply init_refines|apply init_sound|].
  split; simpl; try constructor.
  - unfold zlen. by rewrite length_map, length_seq.
  - apply zlen_replicate.
  - apply Forall_forall. intros kv (m & -> & _)%list_elem_of_fmap. split; [|done].
    exists [sentinel]. repeat split; [by left|constructor].
  - intros i msg [_ Hi]%zget_Some_lookup. by apply lookup_replicate in Hi as [? _].
  - by intros p req ?%elem_of_nil.
Qed.

(** The invariant of every run. *)
Lemma run_kept maxraftstate k acts kc :
  kv_exec (kv_init n maxraftstate k) acts = Ret kc -> fine kc -> kept_inv kc.
Proof. intros Hex Hf. eapply exec_kept; [apply init_kept|exact Hex|done]. Qed.
End steps.
End KVClusterSteps.
