(* ===== verification/KVSteady.v ===== *)
(** What holds in every reachable state of the key/value system, whatever the
    schedule, the crashes and the votes: a service is never ahead of its peer,
    the channels announced exist, and the clerks address servers that exist
    with operations that the servers know. *)
From S2P Require Import Prelude Porcupine KvModel Persister RaftNode RaftFacts RaftSpec RaftSafety RaftCluster ClusterSections ClusterSafety ClusterRefines ClusterRuns ClusterProgress KVRaft KVRaftProps KVTables KVCluster KVClusterInv KVClusterSteps.
Import Persister Raft RaftFacts RaftSpec RaftSafety RaftCluster ClusterSections ClusterSafety ClusterRefines ClusterRuns ClusterProgress.
Import KVRaft KVRaftProps KVTables KVCluster KVClusterInv KVClusterSteps.

Module KVSteady.

(** ** What the peers take for their services only grows *)

Section onward.
Context {Cmd : Type} `{!Gob Z, !Gob (list (LogEntry Cmd))}.
Implicit Types (rf : Raft Cmd) (c : Cluster Cmd) (msg : ApplyMsg Cmd).

(** Server [i] took the entries up to [x]. *)
Definition took c (i x : Z) : Prop :=
  exists rf, zget (c_nodes c) i = Some rf /\ x <= Raft.lastApplied rf.

(** From [c] to [c'] no server forgets what it took, and what it is about to
    send it took. *)
Record onward c c' : Prop := {
  on_len : zlen (c_nodes c') = zlen (c_nodes c);
  on_took i x : took c i x -> took c' i x;
  on_sends i msg : PSend i msg ∈ c_procs c' ->
    PSend i msg ∈ c_procs c \/ took c' i (CommandIndex msg) }.

Lemma took_insert c c' m rf rf' i x :
  zget (c_nodes c) m = Some rf -> c_nodes c' = <[Z.to_nat m := rf']> (c_nodes c) ->
  Raft.lastApplied rf <= Raft.lastApplied rf' -> took c i x -> took c' i x.
Proof.
  intros Hm Hn Hle (rf0 & Hi & Hx). pose proof (zget_Some_range _ _ _ Hm) as Hr. unfold took. rewrite Hn.
  destruct (decide (i = m)) as [->|Hne].
  - rewrite Hm in Hi. injection Hi as <-. exists rf'. rewrite zget_insert_eq by done. split; [done|lia].
  - exists rf0. by rewrite zget_insert_ne by (done || lia).
Qed.

(** The goroutines a section leaves: only the one that took a message sends. *)
Lemma ran_sends c p c' p' sp i msg :
  ran c p c' p' sp -> PSend i msg ∈ p' :: sp -> took c' i (CommandIndex msg).
Proof.
  intros Hr Hin. assert (forall m (l : list spawn), PSend i msg ∉ map (proc_of m) l) as Hsp.
  { intros m l (s & Heq & _)%list_elem_of_fmap. by destruct s. }
  apply elem_of_cons in Hin as [Heq|Hin].
  - destruct Hr as [p p' []| | | | | |m peer term args r k rf rf' l [] Hg Hrr| | | | | | |m rf rf' msg' Hg Ha|]; try done.
    injection Heq as -> ->. destruct (apply_cases _ _ _ Ha) as (_ & -> & e & _ & ->).
    eexists. split; [apply zget_insert_eq; by eapply zget_Some_range|done].
  - destruct Hr as [| | | | | | | | | |m e peer r el el' [] He Hv| | | |]; try (by apply Hsp in Hin);
      try (by apply elem_of_nil in Hin); try (by apply list_elem_of_fmap in Hin as (? & ? & ?)).
    by apply list_elem_of_singleton in Hin.
Qed.

Lemma run_onward c j arrives clock k1 k2 c' :
  step c (Run j arrives clock k1 k2) = Ret c' -> onward c c'.
Proof.
  simpl. destruct (c_procs c !! j) as [p|] eqn:Hp; [|by intros [= <-]; split; [|..|left]].
  destruct (run p arrives clock k1 k2 c) as [[[c1 p'] sp]| |] eqn:Hrun; simpl; try done.
  intros [= <-]. pose proof (run_ran _ _ _ _ _ _ _ _ _ Hrun) as Hran. clear Hrun. split.
  - simpl. destruct (ran_touched _ _ _ _ _ Hran) as [c' ->|c' m rf rf' _ ->|c' m args x1 x2 rf rf' r l _ ->
      |c' m rf rf' msg _ ->]; by rewrite ?zlen_insert.
  - intros i x Ht. destruct (ran_touched _ _ _ _ _ Hran) as [c' Hn|c' m rf rf' Hm Hn [_ Ha _]
      |c' m args x1 x2 rf rf' r l Hm Hn _ Ha|c' m rf rf' msg Hm Hn Ha _ _].
    + destruct Ht as (rf & Hi & Hx). exists rf. simpl. by rewrite Hn.
    + eapply took_insert; [exact Hm|exact Hn| |done]. lia.
    + eapply took_insert; [exact Hm|exact Hn| |done]. destruct (AppendEntries_served _ _ _ _ _ _ _ Ha). lia.
    + eapply took_insert; [exact Hm|exact Hn| |done]. destruct (apply_cases _ _ _ Ha) as (_ & -> & _). simpl. lia.
  - intros i msg. simpl. intros [Hin|Hin]%elem_of_app.
    + apply list_elem_of_insert_inv in Hin as [Hin|Hin]; [by left|right].
      apply (ran_sends c p c1 p' sp i msg Hran). rewrite Hin. apply list_elem_of_here.
    + right. apply (ran_sends c p c1 p' sp i msg Hran). by apply list_elem_of_further.
Qed.

Lemma client_onward c m v c' : step c (Client m v) = Ret c' -> onward c c'.
Proof.
  simpl. unfold get_node. destruct (zget (c_nodes c) m) as [rf|] eqn:Hm; simpl; [|done].
  destruct (Start v rf) as [[[rf' r] l]|] eqn:Hs; simpl; [|done]. intros [= <-]. split.
  - simpl. by rewrite zlen_insert.
  - intros i x. eapply took_insert; [exact Hm|done|]. destruct (held_Start _ _ _ _ _ Hs) as [_ -> _]. lia.
  - intros i msg. simpl. intros [Hin|(s & Heq & _)%list_elem_of_fmap]%elem_of_app; [by left|by destruct s].
Qed.
End onward.
(** ** Steady states *)

Section steady.
Context `{!Gob Z, !Gob (list (LogEntry command))}.
Context (n : nat).
Abbreviation N := (Z.of_nat n).
Implicit Types (kc : KVCluster) (kv : KVServer) (c : Cluster command) (req : request).
Implicit Types (kvs : list KVServer) (hands : list (option (ApplyMsg command))) (cl : client).
Implicit Types (msg : ApplyMsg command).

(** The services and their peers. *)
Record abreast c kvs hands : Prop := {
  ab_kvs : zlen kvs = N;
  ab_hands : zlen hands = N;
  ab_server i kv : zget kvs i = Some kv -> took c i (lastAppliedIndex kv);
  ab_hand i msg : zget hands i = Some (Some msg) -> took c i (CommandIndex msg);
  ab_send i msg : PSend i msg ∈ c_procs c -> took c i (CommandIndex msg);
  ab_notify i kv x ch : zget kvs i = Some kv -> notifyChans kv !! x = Some ch ->
    (ch < length (chans kv))%nat }.

(** An operation the servers execute. *)
Definition answerable req : Prop :=
  match req with RGet _ => True | RPutAppend a => pa_Op a = "Put"%string \/ pa_Op a = "Append"%string end.

(** A clerk of a system with [L] calls. *)
Definition clerk_ok (L : nat) cl : Prop :=
  servers (cl_ck cl) = N /\ 0 <= lastLeader (cl_ck cl) < N /\
  match cl_phase cl with
  | Idle => True
  | Calling id req i _ => 0 <= i < N /\ answerable req /\ (id < L)%nat
  end.

Record steady kc : Prop := {
  sy_live : live N (kc_raft kc);
  sy_abreast : abreast (kc_raft kc) (kc_kvs kc) (kc_hands kc);
  sy_clerks : Forall (clerk_ok (length (kc_calls kc))) (kc_clients kc) }.

Lemma abreast_onward c c' kvs hands : onward c c' -> abreast c kvs hands -> abreast c' kvs hands.
Proof.
  intros Ho [Hk Hh Hs Hm Hp Hn]. split; try done.
  - intros i kv Hi. by apply (on_took _ _ Ho), (Hs i).
  - intros i msg Hi. by apply (on_took _ _ Ho), (Hm i).
  - intros i msg Hi. destruct (on_sends _ _ Ho i msg Hi) as [?|?]; [|done]. by apply (on_took _ _ Ho), Hp.
Qed.

Lemma abreast_server c kvs hands i kv' :
  abreast c kvs hands -> 0 <= i < N -> took c i (lastAppliedIndex kv') ->
  (forall x ch, notifyChans kv' !! x = Some ch -> (ch < length (chans kv'))%nat) ->
  abreast c (<[Z.to_nat i := kv']> kvs) hands.
Proof.
  intros [Hk Hh Hs Hm Hp Hn] Hi Ht Hnt.
  assert (forall j kv, zget (<[Z.to_nat i := kv']> kvs) j = Some kv ->
    (j = i /\ kv = kv') \/ zget kvs j = Some kv) as Hcase.
  { intros j kv. destruct (decide (j = i)) as [->|Hne].
    - rewrite zget_insert_eq by lia. intros [= <-]. by left.
    - rewrite zget_insert_ne by (done || lia). by right. }
  split; try done.
  - by rewrite zlen_insert.
  - intros j kv [[-> ->]|Hj]%Hcase; [done|by apply Hs].
  - intros j kv x ch [[-> ->]|Hj]%Hcase; [by apply Hnt|by eapply Hn].
Qed.

Lemma abreast_hand c kvs hands i o :
  abreast c kvs hands -> 0 <= i < N -> (forall msg, o = Some msg -> took c i (CommandIndex msg)) ->
  abreast c kvs (<[Z.to_nat i := o]> hands).
Proof.
  intros [Hk Hh Hs Hm Hp Hn] Hi Ho. split; try done.
  - by rewrite zlen_insert.
  - intros j msg. destruct (decide (j = i)) as [->|Hne].
    + rewrite zget_insert_eq by lia. intros [= Hj]. by apply Ho.
    + rewrite zget_insert_ne by (done || lia). apply Hm.
Qed.

(** The service of a peer that exists. *)
Lemma abreast_range c kvs hands i kv : abreast c kvs hands -> zget kvs i = Some kv -> 0 <= i < N.
Proof. intros Ha Hi%zget_Some_range. by rewrite (ab_kvs _ _ _ Ha) in Hi. Qed.

Lemma took_mono c i x y : took c i x -> y <= x -> took c i y.
Proof. intros (rf & Hi & Hx) Hy. exists rf. split; [done|lia]. Qed.

(** What the applier does to a service. *)
Lemma applier_effect msg kv :
  notifyChans (applier msg kv) = notifyChans kv /\
  length (chans (applier msg kv)) = length (chans kv) /\
  lastAppliedIndex (applier msg kv) <= lastAppliedIndex kv `max` CommandIndex msg /\
  forall ch, notifyChans kv !! CommandIndex msg <> Some ch -> chans (applier msg kv) !! ch = chans kv !! ch.
Proof.
  unfold applier, applySnapshot. destruct (CommandValid msg); [|by case_match; split_and!; try done; lia].
  destruct (decide (CommandIndex msg <= lastAppliedIndex kv)) as [Hle|Hgt].
  { unfold applyCommand. rewrite (proj2 (Z.leb_le _ _)) by done. split_and!; try done; lia. }
  destruct (Command msg) as [[op|v]|] eqn:Hc.
  - destruct (applyCommand_run msg kv op ltac:(lia) Hc) as (_ & -> & -> & ->). unfold notified.
    split; [done|]. split; [repeat case_match; by rewrite ?length_insert|]. split; [lia|]. intros ch Hne.
    destruct (notifyChans kv !! CommandIndex msg) as [ch'|]; [|done].
    destruct (chans kv !! ch') as [[|]|]; try done. apply list_lookup_insert_ne. by intros ->.
  - unfold applyCommand. rewrite Hc. case_match; split_and!; try done; simpl; lia.
  - unfold applyCommand. rewrite Hc. case_match; split_and!; try done; simpl; lia.
Qed.
(** ** The steps of the system *)

Lemma server_some i kc kv0 r :
  zget (kc_kvs kc) i = Some kv0 -> zget (c_nodes (kc_raft kc)) i = Some r ->
  server i kc = Ret (set_rf r kv0).
Proof. intros Hk Hr. unfold server, get_node. by rewrite Hk; simpl; rewrite Hr. Qed.

(** The applier of server [i] processed [msg]. *)
Record processed i msg kc kc' : Prop := {
  pr_raft : kc_raft kc' = kc_raft kc;
  pr_kvs : exists kv0 r, zget (kc_kvs kc) i = Some kv0 /\ zget (c_nodes (kc_raft kc)) i = Some r /\
    kc_kvs kc' = <[Z.to_nat i := applier msg (set_rf r kv0)]> (kc_kvs kc);
  pr_hands : kc_hands kc' = <[Z.to_nat i := None]> (kc_hands kc);
  pr_handlers : kc_handlers kc' = kc_handlers kc;
  pr_clients : kc_clients kc' = kc_clients kc;
  pr_calls : kc_calls kc' = kc_calls kc }.

Lemma apply_processed i msg kc kc' :
  zget (kc_hands kc) i = Some (Some msg) -> apply i kc = Ret kc' -> processed i msg kc kc'.
Proof.
  intros Hh. unfold apply. rewrite Hh. destruct (server i kc) as [kv| |] eqn:Hs; simpl; try done.
  apply server_cases in Hs as (kv0 & r & Hk & Hr & ->). intros Heq.
  assert (kc_raft (set_server i (applier msg (set_rf r kv0)) kc) = kc_raft kc) as Hraft.
  { simpl. rewrite applier_rf. by apply set_node_id. }
  destruct (_ && _); injection Heq as <-; split; try exact Hraft; try done; by exists kv0, r.
Qed.

Lemma steady_processed i msg kc kc' :
  steady kc -> zget (kc_hands kc) i = Some (Some msg) -> processed i msg kc kc' -> steady kc'.
Proof.
  intros [Hl Ha Hc] Hh [Hr (kv0 & r & Hk & Hn & Hks) Hhs _ Hcl Hca].
  split; [by rewrite Hr| |by rewrite Hcl, Hca]. rewrite Hr, Hks, Hhs.
  destruct (applier_effect msg (set_rf r kv0)) as (Hnt & Hlen & Hx & _). simpl in Hnt, Hlen, Hx.
  pose proof (abreast_range _ _ _ _ _ Ha Hk) as Hi.
  apply abreast_hand; [|done|done]. apply abreast_server; [done|done| |].
  - pose proof (ab_server _ _ _ Ha i kv0 Hk) as Ht. pose proof (ab_hand _ _ _ Ha i msg Hh) as Ht'.
    destruct (Z.max_spec (lastAppliedIndex kv0) (CommandIndex msg)) as [[? Hm]|[? Hm]];
      rewrite Hm in Hx; [by eapply (took_mono _ _ _ _ Ht')|by eapply (took_mono _ _ _ _ Ht)].
  - rewrite Hnt, Hlen. intros x ch. by eapply (ab_notify _ _ _ Ha i kv0).
Qed.

(** A service changed; what it applied did not. *)
Lemma steady_server kc i kv0 r kv' :
  steady kc -> zget (kc_kvs kc) i = Some kv0 -> zget (c_nodes (kc_raft kc)) i = Some r ->
  rf kv' = r -> lastAppliedIndex kv' = lastAppliedIndex kv0 ->
  (forall x ch, notifyChans kv' !! x = Some ch -> (ch < length (chans kv'))%nat) ->
  steady (set_server i kv' kc).
Proof.
  intros [Hl Ha Hc] Hk Hr Hrf Hx Hn. unfold set_server. rewrite Hrf, set_node_id by done.
  split; [done| |done]. simpl. apply abreast_server; [done|by eapply abreast_range| |done].
  rewrite Hx. by apply (ab_server _ _ _ Ha).
Qed.

(** A step of the Raft cluster, which is no restart. *)
Lemma steady_raft kc act c' :
  steady kc -> step (kc_raft kc) act = Ret c' -> onward (kc_raft kc) c' -> steady (set_raft c' kc).
Proof.
  intros [Hl Ha Hc] Hst Ho. split; [|by eapply abreast_onward|done].
  apply (exec_live N (kc_raft kc) [act]); [done|]. simpl. by rewrite Hst.
Qed.

Lemma raft_run_steady i arrives clock k1 k2 kc kc' :
  steady kc -> raft_run i arrives clock k1 k2 kc = Ret kc' -> steady kc'.
Proof.
  intros Hs [(c' & Hst & ->)|[(c' & j & msg & Hst & Hp & Hh & ->)| ->]]%raft_run_cases; [| |done];
    pose proof (run_onward _ _ _ _ _ _ _ Hst) as Ho; pose proof (steady_raft kc _ c' Hs Hst Ho) as Hs'; [done|].
  destruct Hs' as [Hl Ha Hc]. split; [done| |done]. simpl. apply abreast_hand; [done| |].
  - pose proof (ab_hands _ _ _ Ha) as Hlen. simpl in Hlen. rewrite <- Hlen. by eapply zget_Some_range.
  - intros m [= <-]. apply (on_took _ _ Ho). apply (ab_send _ _ _ (sy_abreast _ Hs)).
    by eapply list_elem_of_lookup_2.
Qed.

Lemma steady_handler kc h p : steady kc -> steady (set_handler h p kc).
Proof. by intros []. Qed.

Lemma handle_steady h p kc kc' : steady kc -> handle h p kc = Ret kc' -> steady kc'.
Proof.
  intros Hs Heq. destruct p as [|i req|i req op|i req x t|i req x t ch|i req x r|req resp];
    simpl in Heq; try (by injection Heq as <-);
    (destruct (server i kc) as [kv| |] eqn:Hsv; simpl in Heq; try done);
    pose proof Hsv as (kv0 & r0 & Hk & Hr & ->)%server_cases;
    pose proof (ab_notify _ _ _ (sy_abreast _ Hs) i kv0) as Hn.
  - injection Heq as <-. by apply steady_handler.
  - destruct (wait_start op (set_rf r0 kv0)) as [[[kv' r] sp]|] eqn:Hst; simpl in Heq; [|done].
    injection Heq as <-. apply steady_handler.
    pose proof (wait_start_step _ _ _ _ _ _ _ Hsv Hst) as Hstep.
    pose proof (steady_raft kc _ _ Hs Hstep (client_onward _ _ _ _ Hstep)) as [Hl Ha Hc].
    assert (exists rf', kv' = set_rf rf' kv0) as [rf' ->].
    { unfold wait_start in Hst. simpl in Hst. opt_inv. destruct p as [[rf' [[x t] b]] l].
      injection Hst as <- _ _. by exists rf'. }
    split; [done| |done]. simpl. apply abreast_server; [done|by eapply abreast_range| |].
    + exact (ab_server _ _ _ Ha i kv0 Hk).
    + intros x ch. by apply Hn.
  - injection Heq as <-. apply steady_handler. eapply steady_server; try done. simpl.
    intros y ch. rewrite length_app. intros [[_ <-]|[_ Hy]]%lookup_insert_Some; simpl; [lia|].
    apply Hn in Hy; [lia|done].
  - unfold wait_take in Heq. destruct (chans _ !! ch) as [[res|]|] eqn:Hch; injection Heq as <-; [|done..].
    apply steady_handler. eapply steady_server; try done. simpl. intros y ch'. rewrite length_insert. by apply Hn.
  - injection Heq as <-. apply steady_handler. eapply steady_server; try done. simpl.
    intros y ch' [_ Hy]%lookup_delete_Some. by eapply Hn.
Qed.

Lemma expire_steady h p kc kc' : steady kc -> expire h p kc = Ret kc' -> steady kc'.
Proof.
  intros Hs Heq. destruct p as [| | | |i req x t ch| |]; simpl in Heq; try (by injection Heq as <-).
  destruct (server i kc) as [kv| |] eqn:Hsv; simpl in Heq; try done.
  pose proof Hsv as (kv0 & r0 & Hk & Hr & ->)%server_cases. injection Heq as <-.
  apply steady_handler. eapply steady_server; try done. simpl.
  intros y ch' [_ Hy]%lookup_delete_Some. by eapply (ab_notify _ _ _ (sy_abreast _ Hs) i kv0).
Qed.
(** A crash: the service and the peer start again, and nothing is in between. *)
Lemma crash_steady i k kc kc' : steady kc -> crash i k kc = Ret kc' -> steady kc'.
Proof.
  intros [Hl Ha Hc] Heq. unfold crash in Heq.
  destruct (server i kc) as [kv| |] eqn:Hs; simpl in Heq; try done.
  apply server_cases in Hs as (kv0 & r & Hk & Hr & ->).
  unfold get_node in Heq. rewrite Hr in Heq. simpl in Heq. injection Heq as <-.
  pose proof (abreast_range _ _ _ _ _ Ha Hk) as Hi.
  set (r' := (Make (peers r) (me r) (persister r) k).1).
  assert (step (kc_raft kc) (Restart i k) = Ret (set_procs
    (map (fun p => if bool_decide (node_of p = Some i) then PDone else p) (c_procs (kc_raft kc)) ++
     [PTicker i]) (set_node i r' (kc_raft kc)))) as Hst by (simpl; unfold get_node; by rewrite Hr).
  split; [|simpl|done].
  - apply (exec_live N (kc_raft kc) [Restart i k]); [done|]. cbn [exec]. by rewrite Hst.
  - set (c' := set_procs _ _).
    assert (forall j x, j <> i -> took (kc_raft kc) j x -> took c' j x) as Hoth.
    { intros j x Hne (rf0 & Hj & Hx). exists rf0. simpl. by rewrite zget_insert_ne by (done || lia). }
    destruct Ha as [Hks Hhs Hsv Hhd Hsd Hnt]. destruct (Make_fresh (peers r) (me r) (persister r) k) as [_ Hz].
    split; [by rewrite zlen_insert..| | | |].
    + intros j kv. destruct (decide (j = i)) as [->|Hne].
      * rewrite zget_insert_eq by lia. intros [= <-]. exists r'.
        split; [apply zget_insert_eq; by eapply zget_Some_range|]. unfold r'. by rewrite Hz.
      * rewrite zget_insert_ne by (done || lia). intros Hj. by apply Hoth, Hsv.
    + intros j msg. destruct (decide (j = i)) as [->|Hne]; [by rewrite zget_insert_eq by lia|].
      rewrite zget_insert_ne by (done || lia). intros Hj. by apply Hoth, Hhd.
    + intros j msg. simpl. intros [(p & Heq & Hp)%list_elem_of_fmap|Hp]%elem_of_app;
        [|by apply list_elem_of_singleton in Hp].
      destruct (bool_decide (node_of p = Some i)) eqn:E; [done|]. subst p.
      apply bool_decide_eq_false in E. simpl in E. apply Hoth; [congruence|by apply Hsd].
    + intros j kv x ch. destruct (decide (j = i)) as [->|Hne].
      * rewrite zget_insert_eq by lia. by intros [= <-].
      * rewrite zget_insert_ne by (done || lia). apply Hnt.
Qed.

(** ** The clerks *)

Context (Hn : (0 < n)%nat).

Lemma clerk_ok_mono L L' cl : (L <= L')%nat -> clerk_ok L cl -> clerk_ok L' cl.
Proof.
  intros Hle (Hs & Hl & Hp). split; [done|]. split; [done|].
  destruct (cl_phase cl); [done|]. destruct Hp as (? & ? & ?). split_and!; try done; lia.
Qed.

(** A clerk changed, and calls were added. *)
Lemma steady_clerk kc kc' m cl :
  steady kc -> clerk_ok (length (kc_calls kc')) cl ->
  kc_raft kc' = kc_raft kc -> kc_kvs kc' = kc_kvs kc -> kc_hands kc' = kc_hands kc ->
  (length (kc_calls kc) <= length (kc_calls kc'))%nat ->
  kc_clients kc' = <[m := cl]> (kc_clients kc) -> steady kc'.
Proof.
  intros [Hl Ha Hc] Hcl Hr Hk Hh Hle Hcs. split; [by rewrite Hr|by rewrite Hr, Hk, Hh|]. rewrite Hcs.
  apply Forall_insert; [|done]. eapply Forall_impl; [exact Hc|]. intros x. by apply clerk_ok_mono.
Qed.

Lemma send_ret m ck id req i kc :
  servers ck = N -> 0 <= i < N ->
  send m ck id req i kc = Ret (set_client m (mkClient ck (Calling id req i (length (kc_handlers kc))))
    (set_handlers (kc_handlers kc ++ [HArrived i req]) kc)).
Proof.
  intros Hs Hi. unfold send. rewrite Hs. by rewrite (proj2 (Z.leb_le _ _)), (proj2 (Z.ltb_lt _ _)) by lia.
Qed.

Lemma begin_steady kc m ck ck' req kc' :
  steady kc -> kc_clients kc !! m = Some (mkClient ck Idle) ->
  servers ck' = servers ck -> lastLeader ck' = lastLeader ck -> answerable req ->
  begin m ck' req kc = Ret kc' -> steady kc'.
Proof.
  intros Hs Hm Hsv Hll Hreq Heq. destruct (Forall_lookup_1 _ _ _ _ (sy_clerks _ Hs) Hm) as (H1 & H2 & _).
  simpl in H1, H2. unfold begin in Heq. rewrite send_ret in Heq by congruence. injection Heq as <-.
  eapply steady_clerk; [exact Hs| |done..| |done]; simpl; rewrite length_app; simpl; [|lia].
  split; [simpl; congruence|]. simpl. rewrite Hll. split; [done|]. split; [done|]. split; [done|lia].
Qed.

Lemma next_server_ret ck i :
  servers ck = N -> 0 <= i < N ->
  next_server ck i = Ret ((i + 1) mod N) /\ 0 <= (i + 1) mod N < N.
Proof.
  intros Hs Hi. unfold next_server. rewrite Hs. destruct (N =? 0) eqn:E; bsimp; [lia|].
  rewrite Z.rem_mod_nonneg by lia. split; [done|apply Z.mod_pos_bound; lia].
Qed.

Lemma retry_steady kc m ck id req i h kc' :
  steady kc -> kc_clients kc !! m = Some (mkClient ck (Calling id req i h)) ->
  retry m ck id req i kc = Ret kc' -> steady kc'.
Proof.
  intros Hs Hm Heq. destruct (Forall_lookup_1 _ _ _ _ (sy_clerks _ Hs) Hm) as (H1 & H2 & Hi & Hreq & Hid).
  simpl in H1, H2. destruct (next_server_ret ck i H1 Hi) as [Hnx Hr]. unfold retry in Heq.
  rewrite Hnx in Heq. simpl in Heq. rewrite send_ret in Heq by done. injection Heq as <-.
  eapply steady_clerk; [exact Hs| |done..]. split; [done|]. split; [done|]. by split.
Qed.

Lemma complete_steady id v kc : steady kc -> steady (complete id v kc).
Proof.
  intros [Hl Ha Hc]. split; [done|done|]. simpl. eapply Forall_impl; [exact Hc|].
  intros cl. apply clerk_ok_mono. by rewrite length_alter.
Qed.

Lemma answer_steady kc m ck id req i h kc' :
  steady kc -> kc_clients kc !! m = Some (mkClient ck (Calling id req i h)) ->
  answer m ck id req i h kc = Ret kc' -> steady kc'.
Proof.
  intros Hs Hm Heq. unfold answer in Heq.
  destruct (kc_handlers kc !! h) as [[| | | | | |req' resp]|]; try by injection Heq as <-.
  destruct (accepted resp) as [v|]; [|eapply (retry_steady (set_handler h HDone kc)); [by apply steady_handler|exact Hm|exact Heq]].
  injection Heq as <-. apply complete_steady.
  destruct (Forall_lookup_1 _ _ _ _ (sy_clerks _ Hs) Hm) as (H1 & H2 & Hi & _).
  eapply (steady_clerk kc); [exact Hs| |done..]. by split.
Qed.

Lemma step_steady kc a kc' : steady kc -> kv_step kc a = Ret kc' -> steady kc'.
Proof.
  intros Hs Heq. destruct a as [i arr ck k1 k2|i|h|h|i k|nr|m key|m key v|m key v|m|m]; simpl in Heq.
  - by eapply raft_run_steady.
  - destruct (zget (kc_hands kc) i) as [[msg|]|] eqn:Hh.
    + eapply steady_processed; [exact Hs|exact Hh|by apply apply_processed].
    + unfold apply in Heq. rewrite Hh in Heq. by injection Heq as <-.
    + unfold apply in Heq. rewrite Hh in Heq. by injection Heq as <-.
  - destruct (kc_handlers kc !! h) as [p|]; [by eapply handle_steady|by injection Heq as <-].
  - destruct (kc_handlers kc !! h) as [p|]; [by eapply expire_steady|by injection Heq as <-].
  - by eapply crash_steady.
  - injection Heq as <-. destruct Hs as [Hl Ha Hc]. split; [done|done|]. simpl.
    apply Forall_app. split; [done|]. constructor; [|constructor]. unfold clerk_ok. simpl.
    rewrite (live_len _ _ Hl). split; [done|]. split; [lia|done].
  - destruct (kc_clients kc !! m) as [[ck [|]]|] eqn:Hm; try by injection Heq as <-.
    by eapply begin_steady; [exact Hs|exact Hm| | | |exact Heq].
  - destruct (kc_clients kc !! m) as [[ck [|]]|] eqn:Hm; try by injection Heq as <-.
    eapply begin_steady; [exact Hs|exact Hm| | | |exact Heq]; try done. by left.
  - destruct (kc_clients kc !! m) as [[ck [|]]|] eqn:Hm; try by injection Heq as <-.
    eapply begin_steady; [exact Hs|exact Hm| | | |exact Heq]; try done. by right.
  - destruct (kc_clients kc !! m) as [[ck [|id req i h]]|] eqn:Hm; try by injection Heq as <-.
    by eapply answer_steady.
  - destruct (kc_clients kc !! m) as [[ck [|id req i h]]|] eqn:Hm; try by injection Heq as <-.
    by eapply retry_steady.
Qed.

Lemma exec_steady kc acts kc' : steady kc -> kv_exec kc acts = Ret kc' -> steady kc'.
Proof.
  revert kc. induction acts as [|a acts IH]; intros kc Hs; simpl; [by intros [= <-]|].
  destruct (kv_step kc a) as [kc1| |] eqn:Hst; simpl; try done. apply IH. by eapply step_steady.
Qed.

Lemma init_steady maxraftstate k : steady (kv_init n maxraftstate k).
Proof.
  split; [split; [apply init_good|apply init_awake]| |constructor]. split.
  - unfold zlen. simpl. by rewrite length_map, length_seq.
  - simpl. rewrite zlen_replicate. lia.
  - intros i kv Hi. pose proof (zget_Some_range _ _ _ Hi) as Hr. unfold zlen in Hr. simpl in Hr.
    rewrite length_map, length_seq in Hr.
    destruct (proj2 (zget_is_Some (c_nodes (init n k : Cluster command)) i)) as [rf Hrf].
    { unfold zlen. simpl. by rewrite !length_map, length_seq. }
    exists rf. split; [done|].
    apply zget_Some_lookup in Hi as [_ Hi%list_elem_of_lookup_2]. simpl in Hi.
    apply list_elem_of_fmap in Hi as (m & -> & _).
    apply zget_Some_lookup in Hrf as [_ Hrf%list_elem_of_lookup_2]. simpl in Hrf.
    by apply list_elem_of_fmap in Hrf as (sp & -> & (m' & -> & _)%list_elem_of_fmap).
  - simpl. intros i msg [_ Hi]%zget_Some_lookup. by apply lookup_replicate in Hi as [? _].
  - simpl. by intros i msg (m & Heq & _)%list_elem_of_fmap.
  - intros i kv x ch [_ Hi%list_elem_of_lookup_2]%zget_Some_lookup. simpl in Hi.
    by apply list_elem_of_fmap in Hi as (m & -> & _).
Qed.

(** Every reachable state is steady. *)
Lemma run_steady maxraftstate k acts kc :
  kv_exec (kv_init n maxraftstate k) acts = Ret kc -> steady kc.
Proof. apply exec_steady, init_steady. Qed.
End steady.
End KVSteady.
