(* ===== verification/KVClusterProps.v ===== *)
(** The key/value service of src/kvraft end to end: whatever the clerks observe
    of the replicated servers is linearizable, as long as the four conditions of
    [KVClusterSteps.fine] hold, and src/porcupine accepts it; replicas that
    applied as much hold the same; without single votes a clerk reads stale
    data. *)
From S2P Require Import Prelude Porcupine CheckSingle CheckerProof Linearizability CheckOps KvModel Persister RaftNode RaftFacts RaftSpec RaftSafety RaftCluster ClusterSections ClusterSafety ClusterRefines ClusterRuns KVRaft KVRaftProps KVTables KVCluster KVClusterInv KVClusterSteps.
Import Persister Raft RaftFacts RaftSpec RaftSafety RaftCluster ClusterSections ClusterSafety ClusterRefines ClusterRuns.
Import KVRaft KVRaftProps KVTables KVCluster KVClusterInv KVClusterSteps.

Module KVClusterProps.

Section linearizability.
Context `{!Gob Z, !Gob (list (LogEntry command))}.
Context (n : nat).
Implicit Types (s : system command) (l Q : list (LogEntry command)) (kc : KVCluster).
Implicit Types (op : Op) (v : string) (calls : list call) (c : call).

(** A log that explains every call that returned. *)
Definition explains calls l : Prop :=
  forall c v t, c ∈ calls -> ca_done c = Some (v, t) ->
  exists l0, l0 `prefix_of` l /\ Forall (invoked_before t calls) (ops_of l0) /\
    (op_of (ca_req c), v) ∈ linear fresh (ops_of l0).

(** The longest log that answered a call. *)
Lemma longest_log s calls kvs applied hands handlers clients clock :
  inv n s -> service n s calls kvs applied hands handlers clients clock ->
  exists Q, agreed n s Q /\ Forall (invoked calls) (ops_of Q) /\ explains calls Q.
Proof.
  intros Hi Hsv. pose proof (sv_calls _ _ _ _ _ _ _ _ _ Hsv) as Hcs.
  assert (forall cs, cs ⊆ calls -> exists Q, agreed n s Q /\ Forall (invoked calls) (ops_of Q) /\
    forall c v t, c ∈ cs -> ca_done c = Some (v, t) -> exists l0, l0 `prefix_of` Q /\
      Forall (invoked_before t calls) (ops_of l0) /\
      (op_of (ca_req c), v) ∈ linear fresh (ops_of l0)) as Hall; [|by apply Hall].
  induction cs as [|c cs IH]; intros Hsub.
  { exists [sentinel]. split; [|split; [constructor|by intros c v t ?%elem_of_nil]]. split; [done|by left]. }
  destruct IH as (Q & HQ & Hops & Hex); [set_solver|].
  destruct (ca_done c) as [[v t]|] eqn:Hd.
  2: { exists Q. split; [done|]. split; [done|]. intros c' v t [->|Hc']%elem_of_cons Hd'; [congruence|].
    by eapply Hex. }
  rewrite Forall_forall in Hcs. destruct (cr_done _ _ _ _ _ _ (Hcs c ltac:(set_solver)) v t Hd)
    as (_ & l & Hl & Hb & Hin).
  assert (Forall (invoked calls) (ops_of l)) as Hops'.
  { eapply Forall_impl; [exact Hb|]. intros o (c' & ? & ? & _). by exists c'. }
  destruct (decide (zlen l <= zlen Q)) as [Hle|Hgt].
  - exists Q. split; [done|]. split; [done|]. intros c' v' t' [->|Hc']%elem_of_cons Hd'; [|by eapply Hex].
    rewrite Hd in Hd'. injection Hd' as <- <-. exists l. split; [|done]. by eapply agreed_comparable.
  - assert (Q `prefix_of` l) as HQl by (eapply agreed_comparable; [done|done|done|lia]).
    exists l. split; [done|]. split; [done|]. intros c' v' t' [->|Hc']%elem_of_cons Hd'.
    + rewrite Hd in Hd'. injection Hd' as <- <-. by exists l.
    + destruct (Hex c' v' t' Hc' Hd') as (l0 & ? & ?). exists l0. split; [by etrans|done].
Qed.

(** ** The order *)

Section order.
Context calls (clock : Z) Q.
Context (Hkeys : NoDup (map call_key calls)).
Context (Htimes : Forall (fun c => ca_time c < clock) calls).
Context (Hcodes : Forall (fun c => req_ok (ca_req c)) calls).
Context (Hops : Forall (invoked calls) (ops_of Q)).
Context (Hex : explains calls Q).

Abbreviation answers := (linear fresh (ops_of Q)).

Definition answer_of op : option string := (fun x => x.2.2) <$> list_find (fun x => x.1 = op) answers.

Lemma answer_of_spec op v : answer_of op = Some v <-> (op, v) ∈ answers.
Proof.
  unfold answer_of. split.
  - intros ([i [o w]] & (Hi & Heq & _)%list_find_Some & ->)%fmap_Some. simpl in *. subst o.
    by eapply list_elem_of_lookup_2.
  - intros Hin. destruct (list_find_elem_of (fun x => x.1 = op) answers (op, v) Hin eq_refl) as [[i [o w]] Hf].
    rewrite Hf. simpl. f_equal. apply list_find_Some in Hf as (Hi & Heq & _). simpl in Heq. subst o.
    apply list_elem_of_lookup_2 in Hi. by eapply linear_functional.
Qed.

Lemma call_unique c c' : c ∈ calls -> c' ∈ calls -> op_of (ca_req c) = op_of (ca_req c') -> c = c'.
Proof.
  intros [i Hi]%list_elem_of_lookup [j Hj]%list_elem_of_lookup Heq.
  assert (i = j) as ->; [|congruence].
  apply (NoDup_lookup _ _ _ (call_key c) Hkeys); rewrite list_lookup_fmap; [by rewrite Hi|].
  rewrite Hj. simpl. unfold call_key. by rewrite Heq.
Qed.

Definition no_call : call := mkCall (RGet (mkGetArgs "" 0 0)) 0 None.

Definition call_for op : call :=
  default no_call ((fun x => x.2) <$> list_find (fun c => op_of (ca_req c) = op) calls).

Lemma call_for_spec op v : (op, v) ∈ answers -> call_for op ∈ calls /\ op_of (ca_req (call_for op)) = op.
Proof.
  intros Hin%linear_ops. rewrite Forall_forall in Hops. destruct (Hops op Hin) as (c & Hc & Hop).
  unfold call_for. destruct (list_find_elem_of (fun c => op_of (ca_req c) = op) calls c Hc Hop) as [[i c'] Hf].
  rewrite Hf. simpl. apply list_find_Some in Hf as (Hi & ? & _). split; [|done].
  by eapply list_elem_of_lookup_2.
Qed.

Definition end_of c : Z := match ca_done c with Some (_, t) => t | None => clock end.

Definition shown (x : call * string) : Porcupine.Operation KvModel.value :=
  operation_of x.1 x.2 (end_of x.1).

Definition ordered_calls : list (call * string) := map (fun x => (call_for x.1, x.2)) answers.

Definition guess c : option string := answer_of (op_of (ca_req c)).

Lemma done_answer c v t : c ∈ calls -> ca_done c = Some (v, t) -> guess c = Some v.
Proof.
  intros Hc Hd. apply answer_of_spec. destruct (Hex c v t Hc Hd) as (l0 & [x ->] & _ & Hin).
  unfold ops_of in *. rewrite omap_app, linear_app.
  apply elem_of_app. by left.
Qed.

(** The completed history is the answers, in another order. *)
Lemma ordered_perm :
  omap (fun c => (fun v => (c, v)) <$> guess c) calls ≡ₚ ordered_calls.
Proof.
  assert (NoDup calls) as Hnd by (by eapply NoDup_fmap_1).
  apply NoDup_Permutation.
  - eapply (NoDup_fmap_1 fst), sublist_NoDup; [exact Hnd|apply omap_fst_sublist].
  - apply (NoDup_fmap_1 (fun x : call * string => call_key x.1)). unfold ordered_calls.
    rewrite map_map. simpl.
    assert (map (fun x => call_key (call_for x.1)) answers = map key_of answers.*1) as ->.
    { rewrite map_map. apply map_ext_in. intros [op v] Hin%list_elem_of_In. simpl. unfold call_key.
      by destruct (call_for_spec op v Hin) as [_ ->]. }
    apply linear_nodup.
  - intros [c v]. rewrite list_elem_of_omap. unfold ordered_calls. rewrite list_elem_of_fmap. split.
    + intros (c' & Hc' & (w & Hw & [= -> ->])%fmap_Some). apply answer_of_spec in Hw.
      exists (op_of (ca_req c'), w). split; [|done]. simpl. f_equal.
      destruct (call_for_spec _ _ Hw). by apply call_unique.
    + intros ([op w] & [= -> ->] & Hin). destruct (call_for_spec op w Hin) as [Hc Hop].
      exists (call_for op). split; [done|]. unfold guess. rewrite Hop.
      by rewrite (proj2 (answer_of_spec op w) Hin).
Qed.

(** No operation that returned before another was called comes after it. *)
Lemma ordered_realtime : Linearizability.realtime (map shown ordered_calls).
Proof.
  apply Linearizability.realtime_lookup. intros i j a b Hij Hi Hj Hprec. unfold ordered_calls in *.
  rewrite map_map in Hi, Hj. change (map ?f ?l) with (f <$> l) in Hi, Hj.
  rewrite list_lookup_fmap in Hi, Hj.
  destruct (answers !! i) as [[op v]|] eqn:Ei; simpl in Hi; [|done].
  destruct (answers !! j) as [[op' v']|] eqn:Ej; simpl in Hj; [|done].
  injection Hi as <-. injection Hj as <-. unfold Linearizability.precedes in Hprec. simpl in Hprec.
  pose proof (list_elem_of_lookup_2 _ _ _ Ei) as Hin. pose proof (list_elem_of_lookup_2 _ _ _ Ej) as Hin'.
  destruct (call_for_spec op v Hin) as [Hc Hop]. destruct (call_for_spec op' v' Hin') as [Hc' Hop'].
  rewrite Forall_forall in Htimes. pose proof (Htimes _ Hc) as Ht. unfold end_of in Hprec.
  destruct (ca_done (call_for op')) as [[w t]|] eqn:Hd; [|lia].
  destruct (Hex _ _ _ Hc' Hd) as (l0 & [x ->] & Hb & Hin0). rewrite Hop' in Hin0.
  assert (op ∈ ops_of l0) as Hop0.
  { unfold ops_of in Ei, Ej. rewrite omap_app, linear_app in Ei, Ej.
    fold (ops_of l0) in Ei, Ej. apply list_elem_of_lookup in Hin0 as [k Hk].
    assert (k = j) as ->.
    { pose proof (linear_nodup fresh (ops_of (l0 ++ x))) as Hnd. unfold ops_of in Hnd.
      rewrite omap_app, linear_app in Hnd. fold (ops_of l0) in Hnd.
      apply (NoDup_lookup _ _ _ (key_of op') Hnd); rewrite list_lookup_fmap, list_lookup_fmap.
      - by rewrite (lookup_app_l_Some _ _ _ _ Hk).
      - by rewrite Ej. }
    pose proof (lookup_lt_Some _ _ _ Hk). rewrite lookup_app_l in Ei by lia.
    by eapply linear_ops, list_elem_of_lookup_2. }
  rewrite Forall_forall in Hb. destruct (Hb op Hop0) as (c0 & Hc0 & Heq & Hlt).
  rewrite (call_unique c0 (call_for op)) in Hlt by (done || congruence). lia.
Qed.

Lemma ordered_legal : Linearizability.legal KvModel.StoreModel ∅ (map shown ordered_calls).
Proof.
  unfold ordered_calls. rewrite map_map.
  apply (linear_legal (fun x => shown (call_for x.1, x.2)) fresh (ops_of Q)).
  intros op v Hin. destruct (call_for_spec op v Hin) as [Hc Hop].
  rewrite Forall_forall in Hcodes. destruct (Hcodes _ Hc) as (code & Hcode & Hinp).
  rewrite Hop in *. exists code. split; [done|]. split; [|done]. simpl. by rewrite Hinp.
Qed.
End order.

(** ** The peers of a run *)

Lemma runs_raft acts kc kc' :
  kv_exec kc acts = Ret kc' ->
  exists racts, exec (kc_raft kc) racts = Ret (kc_raft kc') /\
    kc_starts kc' = kc_starts kc + commands racts.
Proof.
  revert kc. induction acts as [|a acts IH]; intros kc Heq; simpl in Heq.
  { injection Heq as <-. exists []. split; [done|simpl; lia]. }
  destruct (kv_step kc a) as [kc1| |] eqn:Hst; simpl in Heq; try done.
  destruct (IH kc1 Heq) as (racts & Hex & Hc).
  destruct (step_raft _ _ _ Hst) as [[Hr Hs]|(act & Hr & Hs)].
  - exists racts. rewrite <- Hr, <- Hs. done.
  - exists (act :: racts). simpl. rewrite Hr. simpl. split; [done|]. rewrite Hc, Hs. destruct act; simpl; lia.
Qed.

(** ** The theorems *)

(** What a state that satisfies the invariant shows is linearizable. *)
Lemma observed_linearizable s kc :
  kv_inv n s kc ->
  exists guess, Linearizability.linearizable KvModel.StoreModel (completion guess kc).
Proof.
  intros [Hi _ _ _ Hsv].
  destruct (longest_log _ _ _ _ _ _ _ _ Hi Hsv) as (Q & HQ & Hops & Hex).
  destruct Hsv as [_ _ _ _ _ _ _ _ Hcs Hkeys].
  assert (Forall (fun c => ca_time c < kc_clock kc) (kc_calls kc)) as Htimes.
  { eapply Forall_impl; [exact Hcs|]. intros c. apply cr_time. }
  assert (Forall (fun c => req_ok (ca_req c)) (kc_calls kc)) as Hcodes.
  { eapply Forall_impl; [exact Hcs|]. intros c. apply cr_code. }
  exists (guess Q). exists (map (shown (kc_clock kc)) (ordered_calls (kc_calls kc) Q)).
  split; [|split; [by apply ordered_realtime|by apply ordered_legal]].
  rewrite <- ordered_perm by done. unfold completion.
  rewrite (omap_as_map _ (shown (kc_clock kc)) (fun c => (fun v => (c, v)) <$> guess Q c)); [done|].
  intros c Hc. unfold shown, end_of. destruct (ca_done c) as [[v t]|] eqn:Hd.
  - assert (guess Q c = Some v) as -> by (by eapply done_answer). simpl. by rewrite Hd.
  - destruct (guess Q c); simpl; [by rewrite Hd|done].
Qed.

(** C1. The replicated key/value service is linearizable: whatever the schedule, the
    losses, the delays, the retries and the crashes, what the clerks of a run
    observed, with the calls still in progress completed or not, is a
    linearizable history of the key/value model of src/models.  It holds while
    no server votes twice in a term, at most 100 commands are started, no
    message reaches a server ahead of its turn, and the clerks have different
    identifiers. *)
Theorem kv_cluster_linearizable maxraftstate k acts kc :
  kv_exec (kv_init n maxraftstate k) acts = Ret kc -> fine kc ->
  exists guess, Linearizability.linearizable KvModel.StoreModel (completion guess kc).
Proof.
  intros Hrun Hf. destruct (run_kept n maxraftstate k acts kc Hrun Hf) as [s Hinv].
  by eapply observed_linearizable.
Qed.

(** Once every call returned, the history needs no completion. *)
Lemma completion_quiescent (g : call -> option string) kc :
  Forall (fun c => is_Some (ca_done c)) (kc_calls kc) -> completion g kc = history kc.
Proof.
  unfold history, completion. intros Hd. rewrite Forall_forall in Hd.
  apply omap_ext_in. intros c Hc. by destruct (Hd c Hc) as [[v t] ->].
Qed.

Lemma completion_typed (g : call -> option string) kc : KvModel.kv_typed (completion g kc).
Proof.
  apply Forall_forall. intros o (c & _ & Ho)%list_elem_of_omap.
  destruct (ca_done c) as [[v t]|]; [|destruct (g c)]; simplify_eq/=; by split; eexists.
Qed.

Lemma history_timely s kc : kv_inv n s kc -> Linearizability.timely (history kc).
Proof.
  intros Hinv. pose proof (sv_calls _ _ _ _ _ _ _ _ _ (ki_service _ _ _ Hinv)) as Hcs.
  rewrite Forall_forall in Hcs. apply Forall_forall. intros o (c & Hc & Ho)%list_elem_of_omap.
  destruct (ca_done c) as [[v t]|] eqn:Hd; [|done]. injection Ho as <-.
  destruct (cr_done _ _ _ _ _ _ (Hcs c Hc) v t Hd) as [? _]. simpl. lia.
Qed.

(** C12. Replicas agree: in a run in which no server votes twice in a term, at most
    100 commands are started, no message reaches a server ahead of its turn and
    the clerks have different identifiers, two servers that applied the log up to
    the same index hold the same store, the same duplicate table and the same
    cached results. *)
Theorem replicas_agree maxraftstate k acts kc i j kvi kvj :
  kv_exec (kv_init n maxraftstate k) acts = Ret kc -> fine kc ->
  zget (kc_kvs kc) i = Some kvi -> zget (kc_kvs kc) j = Some kvj ->
  lastAppliedIndex kvi = lastAppliedIndex kvj ->
  kvStore kvi = kvStore kvj /\ lastApplied kvi = lastApplied kvj /\ lastResult kvi = lastResult kvj.
Proof.
  intros Hrun Hf Hi Hj Hx. destruct (run_kept n maxraftstate k acts kc Hrun Hf) as [s Hinv].
  destruct (app_facts n s kc Hinv i kvi Hi) as [(l & Hl & _ & Hzl & Ht) _].
  destruct (app_facts n s kc Hinv j kvj Hj) as [(l' & Hl' & _ & Hzl' & Ht') _].
  assert (l = l') as ->.
  { apply prefix_length_eq; [|unfold zlen in *; lia].
    eapply agreed_comparable; [apply Hinv|done|done|lia]. }
  rewrite <- Ht' in Ht. unfold tables_of in Ht. by injection Ht.
Qed.

(** The Raft peers under the service run as a Raft cluster: every run of the
    system is, seen at the peers, a run of the cluster of RaftCluster.v with one
    client action per call of [Start]. *)
Theorem kv_cluster_runs_raft maxraftstate k acts kc :
  kv_exec (kv_init n maxraftstate k) acts = Ret kc ->
  exists racts, exec (init n k) racts = Ret (kc_raft kc) /\ commands racts = kc_starts kc.
Proof.
  intros Hrun.
  destruct (runs_raft acts (kv_init n maxraftstate k) kc Hrun) as (racts & Hex & Hc).
  exists racts. split; [done|]. simpl in Hc. lia.
Qed.

Context `{GS : GoSort}.

(** C2. The test-suite's verdict on a run in which no server votes twice in a term,
    at most 100 commands are started, no message reaches a server ahead of its turn
    and the clerks have different identifiers: when all the calls returned, and there
    was at least one, [CheckOperations KvModel] of src/porcupine accepts the recorded
    history, with a budget of search steps that depends on its length and in every
    order in which all its goroutines report.  On a run without calls it gives no
    answer ([None]): it waits for ever. *)
Theorem kv_cluster_passes_checker maxraftstate k acts kc :
  kv_exec (kv_init n maxraftstate k) acts = Ret kc -> fine kc ->
  Forall (fun c => is_Some (ca_done c)) (kc_calls kc) ->
  exists parts, KvModel.kv_Partition (history kc) = Some parts /\
    forall sched kills fuel, (CheckerProof.budget (length (history kc)) < fuel)%nat ->
    CheckOps.valid_run (length parts) 0 sched kills -> CheckOps.complete_run (length parts) sched ->
    Porcupine.CheckOperations KvModel.KvModel (history kc) sched kills fuel =
      Ret (match kc_calls kc with [] => None | _ => Some true end).
Proof.
  intros Hrun Hf Hdone. destruct (run_kept n maxraftstate k acts kc Hrun Hf) as [s Hinv].
  destruct (observed_linearizable s kc Hinv) as [g Hlin]. rewrite completion_quiescent in Hlin by done.
  destruct (KvModel.kv_Partition_spec (history kc) (completion_typed _ kc)) as (keys & Hp & _).
  revert Hp. generalize (map (fun k => KvModel.part_of k (history kc)) keys). intros parts Hp.
  exists parts. split; [exact Hp|]. intros sched kills fuel Hfuel Hvr Hcr.
  destruct (kc_calls kc) as [|c cs] eqn:Ecs.
  { assert (history kc = []) as Hnil by (unfold history, completion; by rewrite Ecs).
    rewrite Hnil in Hp |- *. rewrite KvModel.kv_Partition_nil in Hp. injection Hp as <-.
    by apply KvModel.CheckOperations_KvModel_nil. }
  destruct (KvModel.CheckOperations_KvModel_decides (history kc) parts sched kills fuel
    (history_timely s kc Hinv) (completion_typed _ kc)) as (ok & Hok & Hiff); try done.
  - intros Hnil. apply Forall_cons in Hdone as [[[v t] Hd] _]. unfold history, completion in Hnil.
    rewrite Ecs in Hnil. simpl in Hnil. by rewrite Hd in Hnil.
  - rewrite Hok. do 2 f_equal. by apply Hiff.
Qed.

End linearizability.

(** ** Concrete runs *)

Section runs.
#[local] Existing Instance isort_GoSort.

(** A section of goroutine [i] of the peers, after the election time-out. *)
Definition raft_go (i : nat) : kv_action := RaftRun i true (10 ^ 9) t0 t0.

Definition kv_start3 : KVCluster := kv_init 3 (-1) t0.

Definition kv_state (acts : list kv_action) : KVCluster :=
  match kv_exec kv_start3 acts with Ret kc => kc | _ => kv_start3 end.

(** Server 0 is elected; two clerks start. *)
Definition kv_elect : list kv_action :=
  map raft_go [0; 0; 3; 4; 4; 3]%nat ++ [NewClerk 70; NewClerk 71].

(** Clerk 0 puts: its handler submits and waits, the peers replicate, the applier
    of server 0 applies, and the handler answers. *)
Definition kv_put : list kv_action :=
  [CallPut 0 "x" "a"; Handle 0; Handle 0; Handle 0; raft_go 7; raft_go 7; raft_go 7;
   raft_go 9; raft_go 9; Apply 0; Handle 0; Handle 0; Answer 0].

Definition kv_get : list kv_action :=
  [CallGet 1 "x"; Handle 1; Handle 1; Handle 1; raft_go 10; raft_go 10; raft_go 10;
   raft_go 13; raft_go 13; Apply 0; Handle 1; Handle 1; Answer 1].

(** The follower learns the commit index with the second entry, and applies. *)
Definition kv_follow : list kv_action := [raft_go 12; raft_go 12; Apply 1].

(** Both calls returned; server 1 lags; a third call is in progress. *)
Definition kv_run : list kv_action := kv_elect ++ kv_put ++ kv_get.
Definition kv_busy : list kv_action :=
  kv_run ++ kv_follow ++ [CallAppend 0 "x" "b"; Handle 2; Lose 0].

Lemma kv_runs acts :
  match kv_exec kv_start3 acts with Ret _ => true | _ => false end = true ->
  kv_exec kv_start3 acts = Ret (kv_state acts).
Proof. unfold kv_state. by destruct (kv_exec kv_start3 acts). Qed.

(** The conditions of [fine], computed. *)
Definition single_b (votes : list vote) : bool :=
  forallb (fun x => forallb (fun y =>
    negb (bool_decide (x.1.1 = y.1.1)) || negb (bool_decide (x.1.2 = y.1.2)) ||
    bool_decide (x.2 = y.2)) votes) votes.

Lemma single_b_spec votes : single_b votes = true -> single votes.
Proof.
  intros Hb v T i j Hi Hj. unfold single_b in Hb. rewrite forallb_forall in Hb.
  apply list_elem_of_In in Hi, Hj. specialize (Hb _ Hi). rewrite forallb_forall in Hb.
  specialize (Hb _ Hj). simpl in Hb. rewrite !bool_decide_eq_true_2 in Hb by done.
  simpl in Hb. by apply bool_decide_eq_true in Hb.
Qed.

Definition fine_b kc : bool :=
  single_b (c_votes (kc_raft kc)) && (kc_starts kc <=? 100) &&
  bool_decide (kc_skips kc = []) && bool_decide (NoDup (client_ids kc)).

Lemma fine_b_spec kc : fine_b kc = true -> fine kc.
Proof.
  unfold fine_b. intros [[[Hs Hst]%andb_true_iff Hk]%andb_true_iff Hn]%andb_true_iff.
  apply Z.leb_le in Hst. apply bool_decide_eq_true in Hk, Hn. split; try done. by apply single_b_spec.
Qed.

Lemma kv_busy_runs : kv_exec kv_start3 kv_busy = Ret (kv_state kv_busy).
Proof. apply kv_runs. by vm_compute. Qed.

Lemma kv_busy_fine : fine (kv_state kv_busy).
Proof. apply fine_b_spec. by vm_compute. Qed.

Lemma kv_run_runs : kv_exec kv_start3 kv_run = Ret (kv_state kv_run).
Proof. apply kv_runs. by vm_compute. Qed.

Lemma kv_run_fine : fine (kv_state kv_run).
Proof. apply fine_b_spec. by vm_compute. Qed.

Lemma kv_cluster_linearizable_witness :
  exists guess, Linearizability.linearizable KvModel.StoreModel (completion guess (kv_state kv_busy)).
Proof. exact (kv_cluster_linearizable 3 (-1) t0 kv_busy _ kv_busy_runs kv_busy_fine). Defined.

Definition all_done kc : bool := forallb (fun c => bool_decide (is_Some (ca_done c))) (kc_calls kc).

Lemma all_done_spec kc : all_done kc = true -> Forall (fun c => is_Some (ca_done c)) (kc_calls kc).
Proof.
  unfold all_done. rewrite forallb_forall. intros H. apply Forall_forall.
  intros c Hc%list_elem_of_In. by apply H, bool_decide_eq_true in Hc.
Qed.

(** The put returned before the get, which read it. *)
Lemma kv_cluster_passes_checker_witness :
  map (fun c => ca_done c) (kc_calls (kv_state kv_run)) = [Some (""%string, 1); Some ("a"%string, 3)] /\
  exists parts, KvModel.kv_Partition (history (kv_state kv_run)) = Some parts /\
    forall sched kills fuel, (CheckerProof.budget (length (history (kv_state kv_run))) < fuel)%nat ->
    CheckOps.valid_run (length parts) 0 sched kills -> CheckOps.complete_run (length parts) sched ->
    Porcupine.CheckOperations KvModel.KvModel (history (kv_state kv_run)) sched kills fuel =
      Ret (Some true).
Proof.
  split; [by vm_compute|].
  destruct (kv_cluster_passes_checker 3 (-1) t0 kv_run _ kv_run_runs kv_run_fine)
    as (parts & Hp & H); [apply all_done_spec; by vm_compute|].
  exists parts. split; [exact Hp|]. intros sched kills fuel Hf Hv Hc.
  rewrite (H _ _ _ Hf Hv Hc). by vm_compute.
Defined.

(** Server 1 applied the first entry only after [kv_follow]. *)
Definition kv_follower : list kv_action := kv_elect ++ kv_put ++ firstn 7 kv_get ++ kv_follow.

Lemma kv_follower_runs : kv_exec kv_start3 kv_follower = Ret (kv_state kv_follower).
Proof. apply kv_runs. by vm_compute. Qed.

Lemma kv_follower_fine : fine (kv_state kv_follower).
Proof. apply fine_b_spec. by vm_compute. Qed.

Lemma replicas_agree_witness :
  exists kv0 kv1, zget (kc_kvs (kv_state kv_follower)) 0 = Some kv0 /\
    zget (kc_kvs (kv_state kv_follower)) 1 = Some kv1 /\ lastAppliedIndex kv1 = 1 /\
    kvStore kv0 = kvStore kv1.
Proof.
  destruct (zget (kc_kvs (kv_state kv_follower)) 0) as [kv0|] eqn:H0; [|by vm_compute in H0].
  destruct (zget (kc_kvs (kv_state kv_follower)) 1) as [kv1|] eqn:H1; [|by vm_compute in H1].
  exists kv0, kv1. split; [done|]. split; [done|].
  pose proof (replicas_agree 3 (-1) t0 kv_follower _ 0 1 kv0 kv1 kv_follower_runs
    kv_follower_fine H0 H1) as Hagree.
  vm_compute in H0. injection H0 as <-. vm_compute in H1. injection H1 as <-.
  split; [done|]. by apply Hagree.
Defined.

Lemma kv_cluster_runs_raft_witness :
  exists racts, exec (init 3 t0) racts = Ret (kc_raft (kv_state kv_run)) /\ commands racts = 2.
Proof.
  destruct (kv_cluster_runs_raft 3 (-1) t0 kv_run _ kv_run_runs) as (racts & Hex & Hc).
  exists racts. split; [exact Hex|]. rewrite Hc. by vm_compute.
Defined.

(** ** A stale read *)

(** A heartbeat makes server 2 vote twice, and servers 0 and 1 lead term 1. *)
Definition kv_elect_two : list kv_action :=
  map raft_go [0; 1; 0; 1; 3; 4; 6; 6; 3; 9; 11; 8; 8; 4]%nat ++ [NewClerk 70; NewClerk 71].

(** Clerk 0 puts through server 0; then clerk 1, whose first request is lost,
    gets through server 1. *)
Definition kv_stale : list kv_action :=
  kv_elect_two ++
  [CallPut 0 "x" "a"; Handle 0; Handle 0; Handle 0; raft_go 14; raft_go 14; raft_go 14;
   raft_go 15; raft_go 15; Apply 0; Handle 0; Handle 0; Answer 0] ++
  [CallGet 1 "x"; Lose 1; Handle 2; Handle 2; Handle 2; raft_go 17; raft_go 17; raft_go 17;
   raft_go 18; raft_go 18; Apply 1; Handle 2; Handle 2; Answer 1].

(** C13. Without single votes the service is not linearizable: in a run where a
    heartbeat made a server vote twice, and all else is in order, a clerk reads
    the empty string after a put of another clerk returned. *)
Theorem double_vote_stale_read :
  exists kc, kv_exec kv_start3 kv_stale = Ret kc /\
    kc_starts kc = 2 /\ kc_skips kc = [] /\ NoDup (client_ids kc) /\
    Forall (fun c => is_Some (ca_done c)) (kc_calls kc) /\
    ~ Linearizability.linearizable KvModel.StoreModel (history kc).
Proof.
  destruct (kv_exec kv_start3 kv_stale) as [kc| |] eqn:Hrun; [|by vm_compute in Hrun..].
  exists kc. split; [done|]. vm_compute in Hrun. injection Hrun as <-.
  split; [done|]. split; [done|]. split; [by apply (bool_decide_unpack _); vm_compute|].
  split; [by repeat constructor; eexists|].
  intros (l & Hl & Hrt & Hlegal). unfold history, completion in Hl. simpl in Hl.
  apply Permutation_sym, Permutation_length_2_inv in Hl as [->| ->].
  - destruct Hlegal as (m1 & Hs1 & m2 & Hs2 & _). vm_compute in Hs1. injection Hs1 as <-. by vm_compute in Hs2.
  - destruct Hrt as [[Hp _]%Forall_cons _]. apply Hp. by vm_compute.
Qed.
End runs.
End KVClusterProps.
