(* ===== verification/KVProgress.v ===== *)
(** The service always makes progress: from every state that a run of the
    key/value system reaches (two servers or more), and for every call that is
    pending there, there is a way on without a crash in which the call returns.
    The clerk gives up on the request in flight and tries the servers in turn;
    the peers elect a leader; the leader takes the operation, replicates,
    commits and applies it; the handler that waits is notified and answers. *)
From S2P Require Import Prelude Porcupine KvModel Persister RaftNode RaftFacts RaftSpec RaftSafety RaftCluster ClusterSections ClusterSafety ClusterRefines ClusterRuns ClusterProgress ClusterCommit ClusterSettled KVRaft KVRaftProps KVTables KVCluster KVClusterInv KVClusterSteps KVSteady KVClusterProps.
Import Persister Raft RaftFacts RaftSpec RaftCluster ClusterSections ClusterSafety ClusterRuns ClusterProgress ClusterCommit ClusterSettled.
Import KVRaft KVRaftProps KVTables KVCluster KVClusterInv KVClusterSteps KVSteady KVClusterProps.

Module KVProgress.

Section progress.
Context `{!Gob Z, !Gob (list (LogEntry command))}.
Context (n : nat).
Abbreviation N := (Z.of_nat n).
Abbreviation steady := (KVSteady.steady n).
Implicit Types (kc : KVCluster) (kv : KVServer) (c : Cluster command) (req : request).
Implicit Types (msg : ApplyMsg command) (m : nat) (i : Z) (h ch : nat) (ix : Z).

(** ** Schedules without crashes, losses and time-outs of handlers *)

Definition kv_smooth (a : kv_action) : Prop :=
  match a with
  | RaftRun _ arrives _ _ _ => arrives = true
  | Apply _ | Handle _ | Answer _ => True
  | _ => False
  end.

Definition kv_goes kc kc' : Prop := exists acts, Forall kv_smooth acts /\ kv_exec kc acts = Ret kc'.

Lemma kv_exec_app kc acts acts' kc' :
  kv_exec kc acts = Ret kc' -> kv_exec kc (acts ++ acts') = kv_exec kc' acts'.
Proof.
  revert kc. induction acts as [|a acts IH]; intros kc; simpl; [by intros [= ->]|].
  destruct (kv_step kc a); simpl; try done. apply IH.
Qed.

#[export] Instance kv_goes_preorder : PreOrder kv_goes.
Proof.
  split.
  - intros kc. by exists [].
  - intros kc1 kc2 kc3 (acts & Ha & Hx) (acts' & Ha' & Hx'). exists (acts ++ acts').
    split; [by apply Forall_app|]. by rewrite (kv_exec_app _ _ _ _ Hx).
Qed.

Lemma kv_goes_step kc a kc' : kv_smooth a -> kv_step kc a = Ret kc' -> kv_goes kc kc'.
Proof. intros Ha Hst. exists [a]. split; [by constructor|]. simpl. by rewrite Hst. Qed.

Context (Hn : (0 < n)%nat).

Lemma kv_goes_steady kc kc' : steady kc -> kv_goes kc kc' -> steady kc'.
Proof. intros Hs (acts & _ & Hx). by eapply exec_steady. Qed.

(** ** The peers run under the services *)

(** A handler waits at server [i] for the entry at [ix]. *)
Definition waiting kc i ix ch : Prop :=
  exists kv, zget (kc_kvs kc) i = Some kv /\ notifyChans kv !! ix = Some ch /\
    (forall x, notifyChans kv !! x = Some ch -> x = ix) /\ chans kv !! ch = Some None.

(** The clerks and the handlers stay, and a handler whose entry its server did
    not take still waits. *)
Record undisturbed kc kc' : Prop := {
  un_handlers : kc_handlers kc' = kc_handlers kc;
  un_clients : kc_clients kc' = kc_clients kc;
  un_calls : kc_calls kc' = kc_calls kc;
  un_took i x : took (kc_raft kc) i x -> took (kc_raft kc') i x;
  un_waiting i ix ch : waiting kc i ix ch -> ~ took (kc_raft kc') i ix -> waiting kc' i ix ch }.

#[export] Instance undisturbed_preorder : PreOrder undisturbed.
Proof.
  split; [by split|]. intros kc1 kc2 kc3 [H1 H2 H3 H4 H5] [G1 G2 G3 G4 G5].
  split; try congruence; [by auto|]. intros i ix ch Hw Hno. apply G5; [|done]. apply H5; [done|by auto].
Qed.

(** The applier empties its hand. *)
Lemma frees_hand kc i :
  steady kc -> 0 <= i < N -> exists kc', kv_goes kc kc' /\ undisturbed kc kc' /\
    kc_raft kc' = kc_raft kc /\ zget (kc_hands kc') i = Some None.
Proof.
  intros Hs Hi. pose proof (sy_abreast _ _ Hs) as Ha.
  destruct (proj2 (zget_is_Some (kc_hands kc) i)) as [[msg|] Hh]; [by rewrite (ab_hands _ _ _ _ Ha)| |by exists kc].
  destruct (ab_hand _ _ _ _ Ha i msg Hh) as (r & Hr & Hx).
  destruct (proj2 (zget_is_Some (kc_kvs kc) i)) as [kv0 Hk]; [by rewrite (ab_kvs _ _ _ _ Ha)|].
  assert (exists kc', kv_step kc (Apply i) = Ret kc') as [kc' Hst].
  { simpl. unfold apply. rewrite Hh, (server_some _ _ _ _ Hk Hr). by eexists. }
  exists kc'. pose proof (apply_processed _ _ _ _ Hh Hst) as [Hraft Hkvs Hhs Hhd Hcl Hca].
  split; [by apply (kv_goes_step _ (Apply i))|]. split; [split; try done|].
  - intros j x. by rewrite Hraft.
  - destruct Hkvs as (kv1 & r1 & Hk1 & _ & Hkvs). rewrite Hk in Hk1. injection Hk1 as <-.
    intros j ix ch (kv & Hj & Hnt & Hu & Hc) Hno. unfold waiting. rewrite Hkvs.
    destruct (decide (j = i)) as [->|Hne]; [|exists kv; by rewrite zget_insert_ne by (done || lia)].
    rewrite Hk in Hj. injection Hj as <-. eexists. split; [apply zget_insert_eq; by eapply zget_Some_range|].
    destruct (applier_effect msg (set_rf r1 kv0)) as (Hnt' & _ & _ & Hch). simpl in Hnt', Hch. rewrite Hnt'.
    split; [done|]. split; [done|]. rewrite Hch; [done|]. intros Heq%Hu. apply Hno. rewrite Hraft, <- Heq.
    by apply (ab_hand _ _ _ _ Ha).
  - split; [done|]. rewrite Hhs. apply zget_insert_eq. by eapply zget_Some_range.
Qed.

Lemma undisturbed_raft kc c' :
  onward (kc_raft kc) c' -> undisturbed kc (set_raft c' kc).
Proof. intros Ho. split; try done. apply (on_took _ _ Ho). Qed.

(** A section of a goroutine, the hand of the applier freed if it sends. *)
Lemma lift_run kc j clock k1 k2 c' :
  steady kc -> step (kc_raft kc) (Run j true clock k1 k2) = Ret c' ->
  exists kc', kv_goes kc kc' /\ undisturbed kc kc' /\ kc_raft kc' = c'.
Proof.
  intros Hs Hst. pose proof (run_onward _ _ _ _ _ _ _ Hst) as Ho.
  destruct (c_procs (kc_raft kc) !! j) as [p|] eqn:Hp.
  2: { exists kc. simpl in Hst. rewrite Hp in Hst. by injection Hst as <-. }
  assert ((exists i msg, p = PSend i msg) \/ forall i msg, p <> PSend i msg) as [(i & msg & ->)|Hno]
    by (destruct p; eauto).
  - pose proof (list_elem_of_lookup_2 _ _ _ Hp) as Hin.
    destruct (ab_send _ _ _ _ (sy_abreast _ _ Hs) i msg Hin) as (rf & Hi & _).
    apply zget_Some_range in Hi. rewrite (live_len _ _ (sy_live _ _ Hs)) in Hi.
    destruct (frees_hand kc i Hs Hi) as (kc1 & Hgo1 & Hu1 & Hr1 & Hh1).
    exists (set_hand i (Some msg) (set_raft c' kc1)). split; [|split; [|done]].
    + rewrite Hgo1. apply (kv_goes_step _ (RaftRun j true clock k1 k2)); [done|]. cbn [kv_step]. unfold raft_run.
      by rewrite Hr1, Hp, Hh1, Hst.
    + etrans; [exact Hu1|]. rewrite <- Hr1 in Ho. destruct (undisturbed_raft kc1 c' Ho). by split.
  - exists (set_raft c' kc). split; [|split; [by apply undisturbed_raft|done]].
    apply (kv_goes_step _ (RaftRun j true clock k1 k2)); [done|]. cbn [kv_step]. unfold raft_run.
    rewrite Hp, Hst. destruct p; try done. by edestruct Hno.
Qed.
(** A run of the peers is a run of the system. *)
Lemma lift_goes kc c' :
  steady kc -> goes (kc_raft kc) c' ->
  exists kc', kv_goes kc kc' /\ undisturbed kc kc' /\ kc_raft kc' = c'.
Proof.
  intros Hs (acts & Hsm & Hx). revert kc Hs Hx. induction acts as [|act acts IH]; intros kc Hs Hx; simpl in Hx.
  { injection Hx as <-. by exists kc. }
  apply Forall_cons in Hsm as [Ha Hsm]. destruct (step (kc_raft kc) act) as [c1| |] eqn:Hst; simpl in Hx; try done.
  destruct act as [j arr clock k1 k2|mm v|mm k]; try done. simpl in Ha. subst arr.
  destruct (lift_run kc j clock k1 k2 c1 Hs Hst) as (kc1 & Hgo1 & Hu1 & Hr1).
  destruct (IH Hsm kc1) as (kc2 & Hgo2 & Hu2 & Hr2); [by eapply kv_goes_steady|by rewrite Hr1|].
  exists kc2. split; [by etrans|]. split; [by etrans|done].
Qed.

(** ** The clerk asks *)

Definition returned_call kc (id : nat) : Prop :=
  exists x : call, kc_calls kc !! id = Some x /\ is_Some (ca_done x).

(** Clerk [m] waits for handler [h] of its request to server [i], which is at [p]. *)
Definition asking kc m ck (id : nat) req i h (p : handler) : Prop :=
  kc_clients kc !! m = Some (mkClient ck (Calling id req i h)) /\ kc_handlers kc !! h = Some p.

Lemma undisturbed_asking kc kc' m ck id req i h p :
  undisturbed kc kc' -> asking kc m ck id req i h p -> asking kc' m ck id req i h p.
Proof. unfold asking. by intros [-> -> _ _ _]. Qed.

Lemma asking_clerk kc m ck id req i h p :
  steady kc -> asking kc m ck id req i h p ->
  servers ck = N /\ 0 <= i < N /\ answerable req /\ (id < length (kc_calls kc))%nat.
Proof.
  intros Hs [Hm _]. destruct (Forall_lookup_1 _ _ _ _ (sy_clerks _ _ Hs) Hm) as (? & _ & ? & ? & ?). done.
Qed.

Lemma asking_server kc m ck id req i h p :
  steady kc -> asking kc m ck id req i h p ->
  exists kv0 r, zget (kc_kvs kc) i = Some kv0 /\ zget (c_nodes (kc_raft kc)) i = Some r /\
    server i kc = Ret (set_rf r kv0) /\ node_ok r.
Proof.
  intros Hs Has. destruct (asking_clerk _ _ _ _ _ _ _ _ Hs Has) as (_ & Hi & _).
  destruct (proj2 (zget_is_Some (kc_kvs kc) i)) as [kv0 Hk]; [by rewrite (ab_kvs _ _ _ _ (sy_abreast _ _ Hs))|].
  destruct (proj2 (zget_is_Some (c_nodes (kc_raft kc)) i)) as [r Hr]; [by rewrite (live_len _ _ (sy_live _ _ Hs))|].
  exists kv0, r. destruct (live_node _ _ _ _ (sy_live _ _ Hs) Hr) as [Hok _].
  split_and!; try done. by apply server_some.
Qed.

(** The handler moves on to [p']. *)
Lemma handler_goes kc m ck id req i h p kc1 p' :
  asking kc m ck id req i h p -> handle h p kc = Ret (set_handler h p' kc1) ->
  kc_handlers kc1 = kc_handlers kc -> kc_clients kc1 = kc_clients kc ->
  kv_goes kc (set_handler h p' kc1) /\ asking (set_handler h p' kc1) m ck id req i h p'.
Proof.
  intros [Hm Hh] Heq Hhs Hcs. split.
  - apply (kv_goes_step _ (Handle h)); [done|]. cbn [kv_step]. by rewrite Hh.
  - split; simpl; [by rewrite Hcs|]. rewrite Hhs. apply list_lookup_insert_eq. by eapply lookup_lt_Some.
Qed.

Lemma answer_accepted kc m ck id req i h req' resp v :
  steady kc -> asking kc m ck id req i h (HReply req' resp) -> accepted resp = Some v ->
  exists kc', kv_goes kc kc' /\ returned_call kc' id.
Proof.
  intros Hs Has Hacc. destruct (asking_clerk _ _ _ _ _ _ _ _ Hs Has) as (_ & _ & _ & Hid).
  destruct Has as [Hm Hh]. eexists. split.
  - apply (kv_goes_step _ (Answer m)); [done|]. cbn [kv_step]. rewrite Hm. unfold answer.
    by rewrite Hh, Hacc.
  - apply lookup_lt_is_Some in Hid as [c Hc].
    eexists. split; [simpl; by rewrite list_lookup_alter_eq, Hc|]. by eexists.
Qed.

(** Not the answer: the clerk asks the next server. *)
Lemma answer_refused kc m ck id req i h req' resp :
  steady kc -> asking kc m ck id req i h (HReply req' resp) -> accepted resp = None ->
  exists kc' h', kv_goes kc kc' /\ kc_raft kc' = kc_raft kc /\
    asking kc' m ck id req ((i + 1) mod N) h' (HArrived ((i + 1) mod N) req).
Proof.
  intros Hs Has Hacc. destruct (asking_clerk _ _ _ _ _ _ _ _ Hs Has) as (Hsv & Hi & _).
  destruct (next_server_ret n Hn ck i Hsv Hi) as [Hnx Hr]. destruct Has as [Hm Hh]. eexists _, _. split.
  - apply (kv_goes_step _ (Answer m)); [done|]. cbn [kv_step]. rewrite Hm. unfold answer, retry.
    rewrite Hh, Hacc, Hnx. cbn [mbind result_bind]. by rewrite (send_ret n) by done.
  - split; [done|]. split; simpl.
    + apply list_lookup_insert_eq. by eapply lookup_lt_Some.
    + by apply list_lookup_middle.
Qed.

(** A reply at once is the answer; otherwise the operation is submitted. *)
Lemma dispatch_cases kv req :
  match dispatch kv req with inl resp => is_Some (accepted resp) | inr op => op = op_of req end.
Proof.
  destruct req as [a|a]; simpl; unfold Get, PutAppend; destruct (duplicate _ _ _); try done; by eexists.
Qed.

Lemma request_dispatched kc m ck id req i h :
  steady kc -> asking kc m ck id req i h (HArrived i req) ->
  exists kc', kv_goes kc kc' /\ (returned_call kc' id \/
    kc_raft kc' = kc_raft kc /\ asking kc' m ck id req i h (HSubmit i req (op_of req))).
Proof.
  intros Hs Has. destruct (asking_server _ _ _ _ _ _ _ _ Hs Has) as (kv0 & r & _ & _ & Hsv & _).
  pose proof (dispatch_cases (set_rf r kv0) req) as Hd.
  destruct (handler_goes kc m ck id req i h _ kc
    match dispatch (set_rf r kv0) req with inl resp => HReply req resp | inr op => HSubmit i req op end Has)
    as [Hgo Has']; [simpl; by rewrite Hsv|done|done|].
  destruct (dispatch (set_rf r kv0) req) as [resp|op].
  - destruct Hd as [v Hv]. destruct (answer_accepted _ _ _ _ _ _ _ _ _ v (kv_goes_steady _ _ Hs Hgo) Has' Hv)
      as (kc2 & Hgo2 & Hr). exists kc2. split; [by etrans|by left].
  - subst op. eexists. split; [exact Hgo|]. by right.
Qed.

(** A server that does not lead refuses. *)
Lemma submission_refused kc m ck id req i h op r :
  steady kc -> asking kc m ck id req i h (HSubmit i req op) ->
  zget (c_nodes (kc_raft kc)) i = Some r -> state r <> Leader ->
  exists kc' h', kv_goes kc kc' /\ kc_raft kc' = kc_raft kc /\
    asking kc' m ck id req ((i + 1) mod N) h' (HArrived ((i + 1) mod N) req).
Proof.
  intros Hs Has Hr Hld. destruct (asking_server _ _ _ _ _ _ _ _ Hs Has) as (kv0 & r1 & Hk & Hr1 & Hsv & Hok).
  rewrite Hr in Hr1. injection Hr1 as <-.
  destruct (Start_cases (COp op) r Hok) as (rf' & res & sp & Heq & _ & _ & _ & _ & _ & [(_ & -> & -> & ->)|(? & _)]);
    [|done].
  destruct (handler_goes kc m ck id req i h _ (count_start (spawn_raft i [] (set_server i (set_rf r (set_rf r kv0)) kc)))
    (HReply req (finish req (ErrWrongLeader, ""%string))) Has) as [Hgo Has']; [|done|done|].
  { cbn [handle]. rewrite Hsv. cbn [mbind result_bind]. unfold wait_start. simpl. by rewrite Heq. }
  destruct (answer_refused _ _ _ _ _ _ _ _ _ (kv_goes_steady _ _ Hs Hgo) Has') as (kc2 & h2 & Hgo2 & Hr2 & Has2);
    [by destruct req|].
  exists kc2, h2. split; [by etrans|]. split; [|done]. rewrite Hr2. simpl.
  rewrite app_nil_r, set_node_id by done. by destruct (kc_raft kc).
Qed.

(** How far the clerk is from server [L]. *)
Lemma distance_pos L i : 0 <= i < N -> 0 <= L < N -> i <> L -> 0 < (L - i) mod N < N.
Proof.
  intros Hi HL Hne. pose proof (Z.mod_pos_bound (L - i) N ltac:(lia)).
  assert ((L - i) mod N <> 0); [|lia]. intros Hz. apply Z.mod_divide in Hz as [q Hq]; [|lia].
  destruct (decide (q = 0)); nia.
Qed.

Lemma distance_next L i :
  0 < (L - i) mod N < N -> (L - (i + 1) mod N) mod N = (L - i) mod N - 1.
Proof.
  intros Hp. rewrite Zminus_mod_idemp_r. replace (L - (i + 1)) with ((L - i) + -1) by lia.
  rewrite <- Zplus_mod_idemp_l. rewrite Z.mod_small; lia.
Qed.

(** The clerk gets to the leader, or is answered on the way. *)
Lemma finds_leader m ck id req L d : forall kc i h,
  steady kc -> asking kc m ck id req i h (HArrived i req) -> 0 <= L < N ->
  (forall q x, q <> L -> zget (c_nodes (kc_raft kc)) q = Some x -> state x <> Leader) ->
  (Z.to_nat ((L - i) mod N) <= d)%nat ->
  exists kc' h', kv_goes kc kc' /\ (returned_call kc' id \/
    kc_raft kc' = kc_raft kc /\ asking kc' m ck id req L h' (HSubmit L req (op_of req))).
Proof.
  induction d as [|d IH]; intros kc i h Hs Has HL Hoth Hd;
    destruct (asking_clerk _ _ _ _ _ _ _ _ Hs Has) as (_ & Hi & _);
    destruct (request_dispatched _ _ _ _ _ _ _ Hs Has) as (kc1 & Hgo1 & [Hret|[Hr1 Has1]]);
    try (exists kc1, h; split; [done|by left]);
    destruct (decide (i = L)) as [->|Hne]; try (exists kc1, h; split; [done|by right]).
  - pose proof (distance_pos L i Hi HL Hne). lia.
  - pose proof (kv_goes_steady _ _ Hs Hgo1) as Hs1.
    destruct (asking_server _ _ _ _ _ _ _ _ Hs1 Has1) as (_ & r & _ & Hr & _).
    rewrite Hr1 in Hr. pose proof (Hoth i r Hne Hr) as Hld. rewrite <- Hr1 in Hr.
    destruct (submission_refused _ _ _ _ _ _ _ _ r Hs1 Has1 Hr Hld) as (kc2 & h2 & Hgo2 & Hr2 & Has2).
    destruct (IH kc2 _ h2 (kv_goes_steady _ _ Hs1 Hgo2) Has2 HL) as (kc3 & h3 & Hgo3 & Hend).
    + rewrite Hr2, Hr1. exact Hoth.
    + pose proof (distance_pos L i Hi HL Hne) as Hp. rewrite (distance_next L i Hp). lia.
    + exists kc3, h3. split; [by etrans; [|etrans]|]. rewrite Hr2, Hr1 in Hend. exact Hend.
Qed.
(** ** The leader takes the operation *)

Lemma submission_accepted kc m ck id req L h op r c1 :
  steady kc -> asking kc m ck id req L h (HSubmit L req op) ->
  zget (c_nodes (kc_raft kc)) L = Some r -> state r = Leader ->
  step (kc_raft kc) (Client L (COp op)) = Ret c1 ->
  exists kc', kv_goes kc kc' /\ kc_raft kc' = c1 /\
    asking kc' m ck id req L h (HRegister L req (zlen (log r)) (currentTerm r)).
Proof.
  intros Hs Has Hr Hld Hst.
  destruct (asking_server _ _ _ _ _ _ _ _ Hs Has) as (kv0 & r1 & Hk & Hr' & Hsv & Hok).
  rewrite Hr in Hr'. injection Hr' as <-.
  destruct (Start_cases (COp op) r Hok) as (rf' & res & sp & Heq & _ & _ & _ & _ & _ & [(? & _)|(_ & -> & _)]); [done|].
  assert (wait_start op (set_rf r kv0) =
    Some (set_rf rf' (set_rf r kv0), inr (zlen (log r), currentTerm r), sp)) as Hws.
  { unfold wait_start. simpl. by rewrite Heq. }
  destruct (handler_goes kc m ck id req L h _ (count_start (spawn_raft L sp (set_server L (set_rf rf' (set_rf r kv0)) kc)))
    (HRegister L req (zlen (log r)) (currentTerm r)) Has) as [Hgo Has']; [|done|done|].
  { cbn [handle]. rewrite Hsv. cbn [mbind result_bind]. by rewrite Hws. }
  eexists. split; [exact Hgo|]. split; [|exact Has'].
  rewrite (wait_start_step _ _ _ _ _ _ _ Hsv Hws) in Hst. by injection Hst as <-.
Qed.

(** The handler makes its channel, and waits. *)
Lemma channel_registered kc m ck id req L h ix term :
  steady kc -> asking kc m ck id req L h (HRegister L req ix term) ->
  exists kc' ch, kv_goes kc kc' /\ kc_raft kc' = kc_raft kc /\
    asking kc' m ck id req L h (HWait L req ix term ch) /\ waiting kc' L ix ch.
Proof.
  intros Hs Has. destruct (asking_server _ _ _ _ _ _ _ _ Hs Has) as (kv0 & r & Hk & Hr & Hsv & _).
  set (ch := length (chans kv0)). set (kv' := (wait_register ix (set_rf r kv0)).1).
  destruct (handler_goes kc m ck id req L h _ (set_server L kv' kc) (HWait L req ix term ch) Has)
    as [Hgo Has']; [|done|done|].
  { cbn [handle]. by rewrite Hsv. }
  eexists _, ch. split; [exact Hgo|]. split; [by apply set_node_id|]. split; [exact Has'|].
  exists kv'. split; [simpl; apply zget_insert_eq; by eapply zget_Some_range|]. simpl.
  split; [apply lookup_insert_eq|]. split; [|by apply list_lookup_middle].
  intros x [[<- _]|[_ Hx]]%lookup_insert_Some; [done|].
  apply (ab_notify _ _ _ _ (sy_abreast _ _ Hs) L kv0 x ch Hk) in Hx. unfold ch in Hx. lia.
Qed.

(** ** The entry reaches the service *)

(** A goroutine of peer [L] takes the next entry and hands it to the applier. *)
Lemma hands_over kc j L rf e :
  c_procs (kc_raft kc) !! j = Some (PApply L) -> zget (c_nodes (kc_raft kc)) L = Some rf ->
  zget (kc_hands kc) L = Some None ->
  Raft.lastApplied rf < commitIndex rf -> zget (log rf) (Raft.lastApplied rf + 1) = Some e ->
  exists kc' rf', kv_goes kc kc' /\ kc_kvs kc' = kc_kvs kc /\ kc_handlers kc' = kc_handlers kc /\
    kc_clients kc' = kc_clients kc /\ zget (c_nodes (kc_raft kc')) L = Some rf' /\
    currentTerm rf' = currentTerm rf /\
    zget (kc_hands kc') L = Some (Some (mkApplyMsg true (e_Command e) (Raft.lastApplied rf + 1) false [] 0 0)).
Proof.
  intros Hj Hr Hh Hlt He. set (k := mkTick 0 0).
  set (rf' := Raft.set_lastApplied (Raft.lastApplied rf + 1) rf).
  set (msg := mkApplyMsg true (e_Command e) (Raft.lastApplied rf + 1) false [] 0 0).
  set (c1 := set_procs (<[j := PSend L msg]> (c_procs (kc_raft kc)) ++ []) (set_node L rf' (kc_raft kc))).
  assert (step (kc_raft kc) (Run j true 0 k k) = Ret c1) as Hst1.
  { simpl. rewrite Hj. simpl. rewrite (get_node_some _ _ _ Hr). simpl. unfold applyCommittedEntries.
    rewrite (proj2 (Z.leb_gt _ _)) by lia. by rewrite He. }
  assert (c_procs c1 !! j = Some (PSend L msg)) as Hj1 by (by eapply ran_lookup).
  assert (kv_step kc (RaftRun j true 0 k k) = Ret (set_raft c1 kc)) as Hs1.
  { cbn [kv_step]. unfold raft_run. by rewrite Hj, Hst1. }
  set (c2 := set_procs (<[j := PApply L]> (c_procs c1) ++ []) (add_applied (L, msg) c1)).
  assert (kv_step (set_raft c1 kc) (RaftRun j true 0 k k) = Ret (set_hand L (Some msg) (set_raft c2 kc))) as Hs2.
  { cbn [kv_step]. unfold raft_run. cbn [kc_raft set_raft kc_hands]. rewrite Hj1, Hh. unfold step. by rewrite Hj1. }
  eexists _, rf'. split.
  { etrans; [exact (kv_goes_step _ (RaftRun j true 0 k k) _ eq_refl Hs1)|].
    exact (kv_goes_step _ (RaftRun j true 0 k k) _ eq_refl Hs2). }
  split_and!; try done; simpl.
  - apply zget_insert_eq. by eapply zget_Some_range.
  - apply zget_insert_eq. by eapply zget_Some_range.
Qed.

(** The applier notifies the handler that waits. *)
Lemma entry_applied kc L ix ch op kv0 r msg :
  zget (kc_hands kc) L = Some (Some msg) -> CommandValid msg = true -> CommandIndex msg = ix ->
  Command msg = Some (COp op) -> zget (kc_kvs kc) L = Some kv0 -> lastAppliedIndex kv0 < ix ->
  notifyChans kv0 !! ix = Some ch -> chans kv0 !! ch = Some None ->
  zget (c_nodes (kc_raft kc)) L = Some r ->
  exists kc' kv' t, kv_goes kc kc' /\ processed L msg kc kc' /\ zget (kc_kvs kc') L = Some kv' /\
    chans kv' !! ch = Some (Some (mkNotify (currentTerm r) (run_op op t).2.2 (run_op op t).2.1)).
Proof.
  intros Hh Hval Hx Hc Hk Hlt Hnt Hch Hr.
  assert (exists kc', kv_step kc (Apply L) = Ret kc') as [kc' Hst].
  { simpl. unfold apply. rewrite Hh, (server_some _ _ _ _ Hk Hr). by eexists. }
  pose proof (apply_processed _ _ _ _ Hh Hst) as Hpr.
  exists kc', (applier msg (set_rf r kv0)), (tables_of kv0).
  split; [by apply (kv_goes_step _ (Apply L))|]. split; [done|]. split.
  - destruct Hpr as [_ (kv1 & r1 & Hk1 & Hr1 & ->) _ _ _ _]. simplify_eq.
    apply zget_insert_eq. by eapply zget_Some_range.
  - unfold applier. rewrite Hval.
    destruct (applyCommand_run msg (set_rf r kv0) op) as (_ & _ & _ & ->); [simpl; lia|done|].
    unfold notified. simpl. rewrite Hx, Hnt, Hch. apply list_lookup_insert_eq. by eapply lookup_lt_Some.
Qed.

(** The operations of the clerks are answered. *)
Lemma run_accepted req t :
  answerable req -> is_Some (accepted (finish req (run_op (op_of req) t).2)).
Proof.
  intros Hreq. unfold run_op, exec_answer. destruct req as [a|a]; simpl.
  - destruct (is_dup _ _); [by eexists|]. simpl. destruct (t_store t !! ga_Key a); by eexists.
  - destruct (is_dup _ _); [by eexists|]. simpl. destruct Hreq as [-> | ->]; simpl; by eexists.
Qed.

(** The handler receives the result and answers; the clerk returns. *)
Lemma notified_returns kc m ck id req L h ix term ch kv t :
  steady kc -> asking kc m ck id req L h (HWait L req ix term ch) ->
  zget (kc_kvs kc) L = Some kv ->
  chans kv !! ch = Some (Some (mkNotify term (run_op (op_of req) t).2.2 (run_op (op_of req) t).2.1)) ->
  exists kc', kv_goes kc kc' /\ returned_call kc' id.
Proof.
  intros Hs Has Hk Hch. destruct (asking_server _ _ _ _ _ _ _ _ Hs Has) as (kv0 & r & Hk0 & Hr & Hsv & _).
  rewrite Hk in Hk0. injection Hk0 as <-. set (res := (run_op (op_of req) t).2) in *.
  set (kv1 := set_chans (<[ch := None]> (chans kv)) (set_rf r kv)).
  destruct (handler_goes kc m ck id req L h _ (set_server L kv1 kc) (HForget L req ix res) Has)
    as [Hgo1 Has1]; [|done|done|].
  { cbn [handle]. rewrite Hsv. cbn [mbind result_bind]. unfold wait_take. simpl. rewrite Hch. unfold wait_result.
    simpl. rewrite Z.eqb_refl. simpl. by rewrite <- surjective_pairing. }
  set (kc1 := set_handler h (HForget L req ix res) (set_server L kv1 kc)) in *.
  pose proof (kv_goes_steady _ _ Hs Hgo1) as Hs1.
  destruct (asking_server _ _ _ _ _ _ _ _ Hs1 Has1) as (kv2 & r2 & _ & _ & Hsv2 & _).
  destruct (handler_goes kc1 m ck id req L h _ (set_server L (wait_forget ix (set_rf r2 kv2)) kc1)
    (HReply req (finish req res)) Has1) as [Hgo2 Has2]; [|done|done|].
  { cbn [handle]. by rewrite Hsv2. }
  destruct (asking_clerk _ _ _ _ _ _ _ _ Hs Has) as (_ & _ & Hreq & _).
  destruct (run_accepted req t Hreq) as [v Hv].
  destruct (answer_accepted _ _ _ _ _ _ _ _ _ v (kv_goes_steady _ _ Hs1 Hgo2) Has2 Hv) as (kc3 & Hgo3 & Hret).
  exists kc3. split; [|done]. by etrans; [|etrans].
Qed.

(** The leader that was just elected serves the call. *)
Lemma leader_serves kc m ck id req L h rf :
  steady kc -> 2 <= N -> asking kc m ck id req L h (HSubmit L req (op_of req)) ->
  zget (c_nodes (kc_raft kc)) L = Some (becomeLeaderLocked rf).1 -> settled rf ->
  (forall q x, q <> L -> zget (c_nodes (kc_raft kc)) q = Some x -> heard_of (currentTerm rf) x) ->
  exists kc', kv_goes kc kc' /\ returned_call kc' id.
Proof.
  intros Hs HN Has HL Hset Hoth.
  destruct (new_leader_commits N (kc_raft kc) L rf (COp (op_of req)) (sy_live _ _ Hs) HN HL Hset Hoth)
    as (c1 & c2 & j & rf2 & Hst & Hgo & Hj & Hr2 & Hap & Hci & Hterm & He).
  set (ix := zlen (log rf)) in *.
  destruct (submission_accepted _ _ _ _ _ _ _ _ _ _ Hs Has HL eq_refl Hst) as (kc1 & Hgo1 & Hraft1 & Has1).
  destruct (channel_registered _ _ _ _ _ _ _ _ _ (kv_goes_steady _ _ Hs Hgo1) Has1)
    as (kc2 & ch & Hgo2 & Hraft2 & Has2 & Hw2).
  rewrite <- Hraft1, <- Hraft2 in Hgo. pose proof (kv_goes_steady _ _ Hs (transitivity Hgo1 Hgo2)) as Hs2.
  destruct (lift_goes kc2 c2 Hs2 Hgo) as (kc3 & Hgo3 & Hu3 & Hraft3).
  pose proof (kv_goes_steady _ _ Hs2 Hgo3) as Hs3. rewrite <- Hraft3 in Hj, Hr2.
  destruct (live_node _ _ _ _ (sy_live _ _ Hs3) Hr2) as (_ & _ & _ & HLr & _).
  destruct (frees_hand kc3 L Hs3 HLr) as (kc4 & Hgo4 & Hu4 & Hraft4 & Hh4).
  pose proof (kv_goes_steady _ _ Hs3 Hgo4) as Hs4. rewrite <- Hraft4 in Hj, Hr2.
  assert (undisturbed kc2 kc4) as Hu by (by etrans).
  destruct (un_waiting _ _ Hu L ix ch Hw2) as (kv & Hk & Hnt & _ & Hch).
  { intros (r & Hr & Hx). rewrite Hr2 in Hr. injection Hr as <-. lia. }
  apply (undisturbed_asking _ _ _ _ _ _ _ _ _ Hu) in Has2.
  destruct (ab_server _ _ _ _ (sy_abreast _ _ Hs4) L kv Hk) as (r & Hr & Hx).
  rewrite Hr2 in Hr. injection Hr as <-. replace ix with (Raft.lastApplied rf2 + 1) in He by lia.
  destruct (hands_over kc4 j L rf2 _ Hj Hr2 Hh4 ltac:(lia) He)
    as (kc5 & rf5 & Hgo5 & Hk5 & Hhs5 & Hcl5 & Hr5 & Ht5 & Hh5). rewrite <- Hk5 in Hk.
  destruct (entry_applied kc5 L ix ch (op_of req) kv rf5 _ Hh5 eq_refl ltac:(simpl; lia) eq_refl Hk
    ltac:(lia) Hnt Hch Hr5) as (kc6 & kv6 & t & Hgo6 & [_ _ _ Hhs6 Hcl6 _] & Hk6 & Hch6).
  rewrite Ht5, Hterm in Hch6.
  assert (kv_goes kc kc6) as Hgo06 by (etrans; [exact Hgo1|]; by do 4 (etrans; [eassumption|])).
  assert (asking kc6 m ck id req L h (HWait L req ix (currentTerm rf) ch)) as Has6.
  { unfold asking. by rewrite Hcl6, Hcl5, Hhs6, Hhs5. }
  destruct (notified_returns _ _ _ _ _ _ _ _ _ _ _ t (kv_goes_steady _ _ Hs Hgo06) Has6 Hk6 Hch6)
    as (kc7 & Hgo7 & Hret).
  exists kc7. split; [by etrans|done].
Qed.

(** From a steady state whose servers are settled every pending call can
    return. *)
Lemma steady_returns kc m ck id req i h :
  steady kc -> 2 <= N ->
  (forall j rf, zget (c_nodes (kc_raft kc)) j = Some rf -> settled rf) ->
  kc_clients kc !! m = Some (mkClient ck (Calling id req i h)) ->
  exists kc0 kc', kv_step kc (Lose m) = Ret kc0 /\ kv_goes kc0 kc' /\ returned_call kc' id.
Proof.
  intros Hs HN Hset Hm.
  destruct (Forall_lookup_1 _ _ _ _ (sy_clerks _ _ Hs) Hm) as (Hsv & _ & Hi & _).
  destruct (next_server_ret n Hn ck i Hsv Hi) as [Hnx Hr]. set (i0 := (i + 1) mod N) in *.
  set (kc0 := set_client m (mkClient ck (Calling id req i0 (length (kc_handlers kc))))
    (set_handlers (kc_handlers kc ++ [HArrived i0 req]) kc)).
  assert (kv_step kc (Lose m) = Ret kc0) as Hst.
  { cbn [kv_step]. rewrite Hm. unfold retry. rewrite Hnx. cbn [mbind result_bind]. by rewrite (send_ret n) by done. }
  assert (asking kc0 m ck id req i0 (length (kc_handlers kc)) (HArrived i0 req)) as Has0.
  { split; simpl; [|by apply list_lookup_middle]. apply list_lookup_insert_eq. by eapply lookup_lt_Some. }
  pose proof (step_steady n Hn _ _ _ Hs Hst) as Hs0. exists kc0.
  destruct (leads_anew N (kc_raft kc0) (sy_live _ _ Hs0) HN Hset) as (c1 & L & rf & Hgo & HL & Hrf & Hoth).
  destruct (lift_goes kc0 c1 Hs0 Hgo) as (kc1 & Hgo1 & Hu1 & Hraft1).
  pose proof (kv_goes_steady _ _ Hs0 Hgo1) as Hs1. rewrite <- Hraft1 in HL, Hoth.
  apply (undisturbed_asking _ _ _ _ _ _ _ _ _ Hu1) in Has0.
  destruct (live_node _ _ _ _ (sy_live _ _ Hs1) HL) as (_ & _ & _ & HLr & _).
  destruct (finds_leader m ck id req L (Z.to_nat ((L - i0) mod N)) kc1 i0 _ Hs1 Has0 HLr)
    as (kc2 & h2 & Hgo2 & Hend); [|done|].
  { intros q x Hq Hx. destruct (Hoth q x Hq Hx) as [_ Hf]. by rewrite Hf. }
  destruct Hend as [Hret|[Hraft2 Has2]].
  - exists kc2. split; [done|]. split; [by etrans|done].
  - rewrite <- Hraft2 in HL, Hoth.
    destruct (leader_serves kc2 m ck id req L h2 rf (kv_goes_steady _ _ Hs1 Hgo2) HN Has2 HL Hrf Hoth)
      as (kc3 & Hgo3 & Hret).
    exists kc3. split; [done|]. split; [|done]. by etrans; [|etrans].
Qed.

(** C3. No call hangs for ever: in every run in which no server votes twice in a
    term and at most 100 commands are started, with two servers or more, every
    call in progress can still return.  After the clerk gives up on the one
    request in flight there is a schedule without crashes, losses and time-outs
    of handlers in which it does: the peers elect a leader, the clerk finds it,
    and its operation is committed, applied and answered. *)
Theorem pending_call_returns maxraftstate k acts kc m ck id req i h :
  kv_exec (kv_init n maxraftstate k) acts = Ret kc -> (2 <= n)%nat ->
  single (c_votes (kc_raft kc)) -> kc_starts kc <= 100 ->
  kc_clients kc !! m = Some (mkClient ck (Calling id req i h)) ->
  exists acts' kc' x, Forall kv_smooth acts' /\ kv_exec kc (Lose m :: acts') = Ret kc' /\
    kc_calls kc' !! id = Some x /\ is_Some (ca_done x).
Proof.
  intros Hrun Hn2 Hsg Hcap Hm.
  destruct (runs_raft acts (kv_init n maxraftstate k) kc Hrun) as (racts & Hex & Hc). simpl in Hex, Hc.
  pose proof (run_settled n k racts (kc_raft kc) Hex Hsg ltac:(lia)) as Hset.
  destruct (steady_returns kc m ck id req i h (run_steady n Hn maxraftstate k acts kc Hrun) ltac:(lia) Hset Hm)
    as (kc0 & kc' & Hst & (acts' & Hsm & Hx) & x & Hcall & Hdone).
  exists acts', kc', x. split; [done|]. split; [|done]. cbn [kv_exec]. by rewrite Hst.
Qed.
End progress.

Section witnesses.
#[local] Existing Instance isort_GoSort.

(** Clerk 0 appends, and its first request was lost ([kv_busy]). *)
Lemma pending_call_returns_witness :
  exists acts' kc' x, Forall kv_smooth acts' /\ kv_exec (kv_state kv_busy) (Lose 0 :: acts') = Ret kc' /\
    kc_calls kc' !! 2%nat = Some x /\ is_Some (ca_done x).
Proof.
  destruct (kc_clients (kv_state kv_busy) !! 0%nat) as [cl|] eqn:Hcl; [|by vm_compute in Hcl].
  destruct cl as [ck [|id req i h]]; [by vm_compute in Hcl|].
  pose proof (pending_call_returns 3 ltac:(lia) (-1) t0 kv_busy _ 0 ck id req i h kv_busy_runs ltac:(lia)
    (fi_single _ kv_busy_fine) (fi_starts _ kv_busy_fine) Hcl) as H.
  vm_compute in Hcl. injection Hcl as _ <- _ _ _. exact H.
Defined.
End witnesses.
End KVProgress.
