(* ===== verification/KVSrv.v ===== *)
(** The single-server key/value service (src/kvsrv): the server with its memory
    of each client's last request, and the clerk that repeats a request until an
    answer arrives.  Retried requests are executed exactly once. *)
From S2P Require Import Prelude.

Module KVSrv.

(** ** Messages (common.go) *)

Record PutAppendArgs := mkPutAppendArgs {
  pa_Key : string; pa_Value : string; pa_ClientId : Z; pa_RequestId : Z }.

Record PutAppendReply := mkPutAppendReply { par_Value : string }.

Record GetArgs := mkGetArgs { ga_Key : string; ga_ClientId : Z; ga_RequestId : Z }.

Record GetReply := mkGetReply { gr_Value : string }.

(** ** The server (server.go) *)

Record ClientRequest := mkClientRequest { RequestId : Z; Response : string }.

Record KVServer := mkKVServer {
  data : gmap string string;
  lastRequest : gmap Z ClientRequest }.

Definition Get (args : GetArgs) (kv : KVServer) : KVServer * GetReply :=
  (kv, match data kv !! ga_Key args with
       | Some value => mkGetReply value
       | None => mkGetReply ""
       end).

(** The answer kept for this very request. *)
Definition cached (args : PutAppendArgs) (kv : KVServer) : option string :=
  match lastRequest kv !! pa_ClientId args with
  | Some lastReq => if RequestId lastReq =? pa_RequestId args then Some (Response lastReq) else None
  | None => None
  end.

Definition Put (args : PutAppendArgs) (kv : KVServer) : KVServer * PutAppendReply :=
  match cached args kv with
  | Some response => (kv, mkPutAppendReply response)
  | None =>
      (mkKVServer (<[pa_Key args := pa_Value args]> (data kv))
         (<[pa_ClientId args := mkClientRequest (pa_RequestId args) ""]> (lastRequest kv)),
       mkPutAppendReply "")
  end.

Definition Append (args : PutAppendArgs) (kv : KVServer) : KVServer * PutAppendReply :=
  match cached args kv with
  | Some response => (kv, mkPutAppendReply response)
  | None =>
      let oldValue := default ""%string (data kv !! pa_Key args) in
      (mkKVServer (<[pa_Key args := (oldValue ++ pa_Value args)%string]> (data kv))
         (<[pa_ClientId args := mkClientRequest (pa_RequestId args) oldValue]> (lastRequest kv)),
       mkPutAppendReply oldValue)
  end.

Definition StartKVServer : KVServer := mkKVServer ∅ ∅.

(** ** The clerk (client.go) *)

Record Clerk := mkClerk { clientId : Z; requestId : Z }.

Definition MakeClerk (nrand : Z) : Clerk := mkClerk nrand 0.

(** A request on its way to the server. *)
Inductive call :=
  | CGet (args : GetArgs)
  | CPut (args : PutAppendArgs)
  | CAppend (args : PutAppendArgs).

(** The handler a request is dispatched to, and the string it answers. *)
Definition handle (c : call) (kv : KVServer) : KVServer * string :=
  match c with
  | CGet args => let '(kv, r) := Get args kv in (kv, gr_Value r)
  | CPut args => let '(kv, r) := Put args kv in (kv, par_Value r)
  | CAppend args => let '(kv, r) := Append args kv in (kv, par_Value r)
  end.

Definition handle_all (cs : list call) (kv : KVServer) : KVServer :=
  foldl (fun kv c => (handle c kv).1) kv cs.

(** What becomes of one [Call]: the request is lost, or the server handles it
    and the reply is lost, or the reply arrives. *)
Inductive fate := RequestLost | ReplyLost | Arrives.

(** One attempt of the loop: the requests of other clients the server handles
    first, and the fate of the call. *)
Record attempt := mkAttempt { at_others : list call; at_fate : fate }.

(** The retry loop.  [None]: the attempts ran out, the clerk is still trying. *)
Fixpoint retry (c : call) (net : list attempt) (kv : KVServer) : option (KVServer * string) :=
  match net with
  | [] => None
  | a :: net =>
      let kv := handle_all (at_others a) kv in
      match at_fate a with
      | RequestLost => retry c net kv
      | ReplyLost => retry c net (handle c kv).1
      | Arrives => Some (handle c kv)
      end
  end.

(** [atomic.AddInt64(&ck.requestId, 1)] on 64 bits. *)
Definition next_id (ck : Clerk) : Clerk :=
  mkClerk (clientId ck) (wrap64 (requestId ck + 1)).

Definition clerk_Get_args (ck : Clerk) (key : string) : Clerk * GetArgs :=
  let ck := next_id ck in (ck, mkGetArgs key (clientId ck) (requestId ck)).

Definition clerk_PutAppend_args (ck : Clerk) (key value : string) : Clerk * PutAppendArgs :=
  let ck := next_id ck in (ck, mkPutAppendArgs key value (clientId ck) (requestId ck)).

Definition clerk_Get (ck : Clerk) (key : string) (net : list attempt) (kv : KVServer) :
    Clerk * option (KVServer * string) :=
  let '(ck, args) := clerk_Get_args ck key in (ck, retry (CGet args) net kv).

(** [op] is the name of the method called: a Put or an Append. *)
Definition clerk_PutAppend (ck : Clerk) (key value : string) (op : PutAppendArgs -> call)
    (net : list attempt) (kv : KVServer) : Clerk * option (KVServer * string) :=
  let '(ck, args) := clerk_PutAppend_args ck key value in (ck, retry (op args) net kv).

Definition clerk_Put (ck : Clerk) (key value : string) net kv :=
  clerk_PutAppend ck key value CPut net kv.

Definition clerk_Append (ck : Clerk) (key value : string) net kv :=
  clerk_PutAppend ck key value CAppend net kv.

(** ** Requests and their clients *)

(** The client of a request that changes the server. *)
Definition client_of (c : call) : option Z :=
  match c with
  | CGet _ => None
  | CPut args | CAppend args => Some (pa_ClientId args)
  end.

Lemma handle_other c cid kv :
  client_of c <> Some cid -> lastRequest (handle c kv).1 !! cid = lastRequest kv !! cid.
Proof.
  destruct c as [args|args|args]; simpl; [done|..]; intros Hne; unfold Put, Append;
    destruct (cached args kv); simpl; try done; by rewrite lookup_insert_ne by congruence.
Qed.

Lemma handle_all_other cs cid kv :
  Forall (fun c => client_of c <> Some cid) cs ->
  lastRequest (handle_all cs kv) !! cid = lastRequest kv !! cid.
Proof.
  intros Hcs. unfold handle_all. revert kv. induction Hcs as [|c cs Hc _ IH]; intros kv; [done|].
  simpl. rewrite IH. by apply handle_other.
Qed.

(** A request is executed: nothing is cached for it. *)
Definition executed_by (c : call) (args : PutAppendArgs) : Prop := c = CPut args \/ c = CAppend args.

Lemma handle_remembers c args kv :
  executed_by c args ->
  exists resp, lastRequest (handle c kv).1 !! pa_ClientId args =
      Some (mkClientRequest (pa_RequestId args) resp) /\ resp = (handle c kv).2.
Proof.
  assert (forall resp, cached args kv = Some resp ->
    lastRequest kv !! pa_ClientId args = Some (mkClientRequest (pa_RequestId args) resp)) as Hc.
  { intros resp. unfold cached. destruct (lastRequest kv !! pa_ClientId args) as [[r s]|]; [|done].
    simpl. destruct (r =? pa_RequestId args) eqn:E; bsimp; [|done]. intros [= <-]. by rewrite E. }
  intros [->| ->]; simpl; unfold Put, Append; (destruct (cached args kv) as [r|] eqn:E; simpl;
    [rewrite (Hc r eq_refl); by eexists|rewrite lookup_insert_eq; by eexists]).
Qed.

Lemma handle_cached c args kv resp :
  executed_by c args ->
  lastRequest kv !! pa_ClientId args = Some (mkClientRequest (pa_RequestId args) resp) ->
  handle c kv = (kv, resp).
Proof.
  intros Hex Hl. assert (cached args kv = Some resp) as Hc.
  { unfold cached. rewrite Hl. simpl. by rewrite Z.eqb_refl. }
  destruct Hex as [->| ->]; simpl; unfold Put, Append; by rewrite Hc.
Qed.

Lemma handle_all_app cs cs' kv : handle_all (cs ++ cs') kv = handle_all cs' (handle_all cs kv).
Proof. apply foldl_app. Qed.

(** After the request was executed once, the loop only runs the others. *)
Lemma retry_cached c args net kv resp kv' r :
  executed_by c args ->
  Forall (fun a => Forall (fun c => client_of c <> Some (pa_ClientId args)) (at_others a)) net ->
  lastRequest kv !! pa_ClientId args = Some (mkClientRequest (pa_RequestId args) resp) ->
  retry c net kv = Some (kv', r) ->
  exists after, after `prefix_of` concat (map at_others net) /\
    kv' = handle_all after kv /\ r = resp.
Proof.
  intros Hex Hnet. revert kv. induction Hnet as [|a net Ha _ IH]; intros kv Hl Hr; [done|].
  simpl in Hr.
  assert (lastRequest (handle_all (at_others a) kv) !! pa_ClientId args =
    Some (mkClientRequest (pa_RequestId args) resp)) as Hl' by (by rewrite handle_all_other).
  rewrite (handle_cached c args _ resp Hex Hl') in Hr. simpl in Hr.
  assert (retry c net (handle_all (at_others a) kv) = Some (kv', r) \/
    Some (handle_all (at_others a) kv, resp) = Some (kv', r)) as [Hrec|Heq].
  { destruct (at_fate a); auto. }
  - destruct (IH _ Hl' Hrec) as (after & Hp & -> & ->).
    exists (at_others a ++ after). simpl. split; [by apply prefix_app|].
    by rewrite handle_all_app.
  - injection Heq as <- <-. exists (at_others a). split; [|done]. simpl. by eexists.
Qed.

(** ** Exactly once *)

Section exactly_once.
Implicit Types (kv : KVServer) (net : list attempt).

(** The other clients have other identifiers. *)
Definition foreign (cid : Z) net : Prop :=
  Forall (fun a => Forall (fun c => client_of c <> Some cid) (at_others a)) net.

Lemma retry_exactly_once c args net kv kv' r :
  executed_by c args -> cached args kv = None -> foreign (pa_ClientId args) net ->
  retry c net kv = Some (kv', r) ->
  exists before after, before ++ after `prefix_of` concat (map at_others net) /\
    cached args (handle_all before kv) = None /\
    kv' = handle_all after (handle c (handle_all before kv)).1 /\
    r = (handle c (handle_all before kv)).2.
Proof.
  intros Hex Hc Hnet. revert kv Hc. induction Hnet as [|a net Ha Hnet IH]; intros kv Hc Hr;
    [done|]. simpl in Hr.
  assert (cached args (handle_all (at_others a) kv) = None) as Hc'.
  { unfold cached. rewrite (handle_all_other _ _ _ Ha). exact Hc. }
  destruct (at_fate a).
  - destruct (IH _ Hc' Hr) as (before & after & Hp & Hcb & -> & ->).
    exists (at_others a ++ before), after. rewrite handle_all_app. split; [|done].
    rewrite <- app_assoc. simpl. by apply prefix_app.
  - destruct (handle_remembers c args (handle_all (at_others a) kv) Hex) as (resp & Hl & ->).
    destruct (retry_cached c args net _ _ _ _ Hex Hnet Hl Hr) as (after & Hp & -> & ->).
    exists (at_others a), after. split; [|done]. simpl. by apply prefix_app.
  - injection Hr as Heq. exists (at_others a), []. rewrite app_nil_r. split; [by eexists|].
    split; [done|]. by rewrite Heq.
Qed.

(** The loop ends with the first attempt that gets through. *)
Lemma retry_returns c net kv :
  Exists (fun a => at_fate a = Arrives) net -> is_Some (retry c net kv).
Proof.
  intros Hex. revert kv. induction Hex as [a net Ha|a net _ IH]; intros kv; simpl.
  - rewrite Ha. by eexists.
  - destruct (at_fate a); [apply IH..|by eexists].
Qed.

(** C18. Whatever requests and replies are lost, and whatever other clients, which
    have other identifiers, do in between, a new Put or Append returns as soon as one of its attempts gets
    through, and it was then executed exactly once: the server is in the state
    reached by the others' requests with this one executed once among them,
    and the answer is the one of that execution. *)
Theorem retried_exactly_once c args net kv :
  executed_by c args -> cached args kv = None -> foreign (pa_ClientId args) net ->
  Exists (fun a => at_fate a = Arrives) net ->
  exists kv' r before after, retry c net kv = Some (kv', r) /\
    before ++ after `prefix_of` concat (map at_others net) /\
    cached args (handle_all before kv) = None /\
    kv' = handle_all after (handle c (handle_all before kv)).1 /\
    r = (handle c (handle_all before kv)).2.
Proof.
  intros Hex Hc Hnet Har. destruct (retry_returns c net kv Har) as [[kv' r] Hr].
  destruct (retry_exactly_once c args net kv kv' r Hex Hc Hnet Hr) as (before & after & H).
  by exists kv', r, before, after.
Qed.

(** An Append answers the value before it, and the value grows by one copy. *)
Theorem Append_once ck key value net kv :
  int64_range (requestId ck + 1) -> foreign (clientId ck) net ->
  (forall q, lastRequest kv !! clientId ck = Some q -> RequestId q <> requestId ck + 1) ->
  Exists (fun a => at_fate a = Arrives) net ->
  exists ck' kv' r before after, clerk_Append ck key value net kv = (ck', Some (kv', r)) /\
    requestId ck' = requestId ck + 1 /\
    before ++ after `prefix_of` concat (map at_others net) /\
    let kv1 := handle_all before kv in
    r = default ""%string (data kv1 !! key) /\
    exists kv2, data kv2 = <[key := (r ++ value)%string]> (data kv1) /\ kv' = handle_all after kv2.
Proof.
  intros Hrange Hnet Hfresh Har.
  set (args := mkPutAppendArgs key value (clientId ck) (requestId ck + 1)).
  destruct (retry_returns (CAppend args) net kv Har) as [[kv' r] Hr].
  destruct (retry_exactly_once (CAppend args) args net kv kv' r) as
    (before & after & Hp & Hc & -> & ->); try done.
  - by right.
  - unfold cached. simpl. destruct (lastRequest kv !! clientId ck) as [q|] eqn:E; [|done].
    destruct (RequestId q =? requestId ck + 1) eqn:E2; bsimp; [|done]. by destruct (Hfresh q).
  - eexists _, _, _, before, after. unfold clerk_Append, clerk_PutAppend, clerk_PutAppend_args, next_id.
    rewrite wrap64_id by done. cbn [clientId requestId]. fold args. rewrite Hr.
    split; [done|]. split; [done|]. split; [done|]. simpl in *. unfold Append. rewrite Hc. simpl.
    split; [done|]. eexists. split; [|reflexivity]. done.
Qed.

(** The server remembers one request per client: with two requests of the same
    clerk under way, the retry of the first after the second is executed again. *)
Theorem two_outstanding_requests :
  let a := CAppend (mkPutAppendArgs "x" "a" 1 1) in
  let b := CAppend (mkPutAppendArgs "x" "b" 1 2) in
  data (handle_all [a; b; a] StartKVServer) !! "x"%string = Some "aba"%string.
Proof. by vm_compute. Qed.
End exactly_once.

Section witnesses.
Definition other : call := CAppend (mkPutAppendArgs "x" "z" 2 1).

Definition lossy : list attempt :=
  [mkAttempt [other] RequestLost; mkAttempt [] ReplyLost; mkAttempt [other] Arrives].

Lemma retried_exactly_once_witness :
  let args := mkPutAppendArgs "x" "a" 1 1 in
  exists kv' r before after, retry (CAppend args) lossy StartKVServer = Some (kv', r) /\
    before ++ after `prefix_of` [other; other] /\
    r = (handle (CAppend args) (handle_all before StartKVServer)).2.
Proof.
  destruct (retried_exactly_once (CAppend (mkPutAppendArgs "x" "a" 1 1))
    (mkPutAppendArgs "x" "a" 1 1) lossy StartKVServer)
    as (kv' & r & before & after & Hr & Hp & _ & _ & Hres); [by right|done| |by repeat constructor|].
  - repeat constructor; simpl; congruence.
  - by exists kv', r, before, after.
Defined.

Lemma Append_once_witness :
  exists ck' kv' r, clerk_Append (MakeClerk 1) "x" "a" lossy StartKVServer =
      (ck', Some (kv', r)) /\ requestId ck' = 1.
Proof.
  destruct (Append_once (MakeClerk 1) "x" "a" lossy StartKVServer)
    as (ck' & kv' & r & before & after & Hr & Hid & _); [done| |done|by repeat constructor|].
  - repeat constructor; simpl; congruence.
  - by exists ck', kv', r.
Defined.
End witnesses.
End KVSrv.
