(* ===== verification/LabRpc.v ===== *)
(** The simulated network (src/labrpc/labrpc.go): end points, servers and
    connections, the phases of a request with the loss, delay and shutdown
    decisions of [processReq], and the dispatch of a request to a method.  The
    random numbers are inputs; the handlers are the services' code. *)
From S2P Require Import Prelude Persister.
From Stdlib Require Import Ascii.
Import Persister.

Module LabRpc.

Section rpc.
(** [Name]: the dynamic values used as names of ends and servers; [W]: the
    state of the services behind the servers. *)
Context {Name W : Type} `{Countable Name}.

Record reqMsg := mkReq { endname : Name; svcMeth : string; args : bytes }.

Record replyMsg := mkReply { ok : bool; reply : bytes }.

(** ** Services *)

(** A method found by reflection: its package path (empty when exported), the
    number of its inputs, whether the third one is a pointer, the number of its
    results, and the code, on encoded arguments and reply. *)
Record method := mkMethod {
  PkgPath : string; NumIn : Z; In2Ptr : bool; NumOut : Z;
  code : W -> bytes -> W * bytes }.

Record Service := mkService { name : string; methods : gmap string method }.

(** The test of [MakeService] for a handler. *)
Definition suitable (m : method) : bool :=
  negb (negb (String.eqb (PkgPath m) "") || negb (NumIn m =? 3) || negb (In2Ptr m)
        || negb (NumOut m =? 0)).

Definition MakeService (name : string) (ms : list (string * method)) : Service :=
  mkService name (list_to_map (filter (fun p => suitable p.2 = true) ms)).

(** The reflective call: decode the argument (the zero value if it does not
    decode), run the handler, encode the reply. *)
Definition handler {A R} `{!Gob A, !Gob R} (zero : A) (f : W -> A -> W * R) (w : W) (b : bytes) :
    W * bytes :=
  let a := match dec b with Some (a, _) => a | None => zero end in
  let '(w, r) := f w a in (w, enc r).

(** [None]: the process exits, the method is unknown. *)
Definition Service_dispatch (svc : Service) (methname : string) (req : reqMsg) (w : W) :
    option (W * replyMsg) :=
  m ← methods svc !! methname;
  let '(w, b) := code m w (args req) in Some (w, mkReply true b).

(** ** Servers *)

Record Server := mkServer { services : gmap string Service; count : Z }.

Definition MakeServer : Server := mkServer ∅ 0.

Definition AddService (rs : Server) (svc : Service) : Server :=
  mkServer (<[name svc := svc]> (services rs)) (count rs).

(** [strings.LastIndex(s, ".")] *)
Fixpoint LastIndex (s : string) (i : Z) (found : Z) : Z :=
  match s with
  | EmptyString => found
  | String c s => LastIndex s (i + 1) (if Ascii.eqb c "."%char then i else found)
  end.

(** [s[:i]] and [s[i:]] for an index inside the string. *)
Definition str_upto (s : string) (i : Z) : option string :=
  if (0 <=? i) && (i <=? Z.of_nat (String.length s))
  then Some (String.substring 0 (Z.to_nat i) s) else None.
Definition str_from (s : string) (i : Z) : option string :=
  if (0 <=? i) && (i <=? Z.of_nat (String.length s))
  then Some (String.substring (Z.to_nat i) (String.length s - Z.to_nat i) s) else None.

Definition Server_dispatch (rs : Server) (req : reqMsg) (w : W) :
    option (Server * W * replyMsg) :=
  let rs := mkServer (services rs) (count rs + 1) in
  let dot := LastIndex (svcMeth req) 0 (-1) in
  serviceName ← str_upto (svcMeth req) dot;
  methodName ← str_from (svcMeth req) (dot + 1);
  service ← services rs !! serviceName;
  '(w, r) ← Service_dispatch service methodName req w;
  Some (rs, w, r).

Definition Server_GetCount (rs : Server) : Z := count rs.

(** ** The network *)

(** Servers are pointers into [heap]; a deleted server is a nil pointer in
    [servers].  [net_count] and [net_bytes] are the statistics; [destroyed]: the
    channel [done] is closed. *)
Record Network := mkNetwork {
  reliable : bool; longDelays : bool; longReordering : bool;
  ends : gmap Name unit;
  enabled : gmap Name bool;
  servers : gmap Name (option nat);
  connections : gmap Name (option Name);
  heap : list Server;
  net_count : Z; net_bytes : Z;
  destroyed : bool }.

Definition MakeNetwork : Network := mkNetwork true false false ∅ ∅ ∅ ∅ [] 0 0 false.

Definition Reliable (yes : bool) (rn : Network) : Network :=
  mkNetwork yes (longDelays rn) (longReordering rn) (ends rn) (enabled rn) (servers rn)
    (connections rn) (heap rn) (net_count rn) (net_bytes rn)
    (destroyed rn).

Definition LongReordering (yes : bool) (rn : Network) : Network :=
  mkNetwork (reliable rn) (longDelays rn) yes (ends rn) (enabled rn) (servers rn)
    (connections rn) (heap rn) (net_count rn) (net_bytes rn)
    (destroyed rn).

Definition LongDelays (yes : bool) (rn : Network) : Network :=
  mkNetwork (reliable rn) yes (longReordering rn) (ends rn) (enabled rn) (servers rn)
    (connections rn) (heap rn) (net_count rn) (net_bytes rn)
    (destroyed rn).

Definition set_ends e en c (rn : Network) : Network :=
  mkNetwork (reliable rn) (longDelays rn) (longReordering rn) e en (servers rn) c (heap rn)
    (net_count rn) (net_bytes rn) (destroyed rn).

Definition set_servers s (rn : Network) : Network :=
  mkNetwork (reliable rn) (longDelays rn) (longReordering rn) (ends rn) (enabled rn) s
    (connections rn) (heap rn) (net_count rn) (net_bytes rn)
    (destroyed rn).

Definition add_stats dc db (rn : Network) : Network :=
  mkNetwork (reliable rn) (longDelays rn) (longReordering rn) (ends rn) (enabled rn)
    (servers rn) (connections rn) (heap rn) (net_count rn + dc) (net_bytes rn + db)
    (destroyed rn).

(** [None]: closing a closed channel panics. *)
Definition Cleanup (rn : Network) : option Network :=
  if destroyed rn then None
  else Some (mkNetwork (reliable rn) (longDelays rn) (longReordering rn) (ends rn) (enabled rn)
               (servers rn) (connections rn) (heap rn) (net_count rn) (net_bytes rn) true).

(** [None]: the process exits, the end exists already. *)
Definition MakeEnd (e : Name) (rn : Network) : option Network :=
  match ends rn !! e with
  | Some _ => None
  | None => Some (set_ends (<[e := tt]> (ends rn)) (<[e := false]> (enabled rn))
                    (<[e := None]> (connections rn)) rn)
  end.

Definition DeleteEnd (e : Name) (rn : Network) : option Network :=
  match ends rn !! e with
  | None => None
  | Some _ => Some (set_ends (delete e (ends rn)) (delete e (enabled rn))
                      (delete e (connections rn)) rn)
  end.

Definition AddServer (s : Name) (rs : nat) (rn : Network) : Network :=
  set_servers (<[s := Some rs]> (servers rn)) rn.

Definition DeleteServer (s : Name) (rn : Network) : Network :=
  set_servers (<[s := None]> (servers rn)) rn.

Definition Connect (e s : Name) (rn : Network) : Network :=
  set_ends (ends rn) (enabled rn) (<[e := Some s]> (connections rn)) rn.

Definition Enable (e : Name) (yes : bool) (rn : Network) : Network :=
  set_ends (ends rn) (<[e := yes]> (enabled rn)) (connections rn) rn.

Definition GetTotalCount (rn : Network) : Z := net_count rn.
Definition GetTotalBytes (rn : Network) : Z := net_bytes rn.

(** [None]: the nil server is dereferenced. *)
Definition GetCount (s : Name) (rn : Network) : option Z :=
  p ← default None (servers rn !! s);
  rs ← heap rn !! p;
  Some (Server_GetCount rs).

(** A missing key of a map of pointers or booleans reads as nil or false. *)
Definition readEndnameInfo (e : Name) (rn : Network) :
    bool * option Name * option nat * bool * bool :=
  let enabled := default false (enabled rn !! e) in
  let servername := default None (connections rn !! e) in
  let server := match servername with
                | Some s => default None (servers rn !! s)
                | None => None
                end in
  (enabled, servername, server, reliable rn, longReordering rn).

Definition isServerDead (e s : Name) (server : nat) (rn : Network) : bool :=
  negb (default false (enabled rn !! e))
  || negb (bool_decide (default None (servers rn !! s) = Some server)).

(** The random numbers of one request. *)
Record dice := mkDice {
  d_delay : Z; d_drop : Z; d_dropReply : Z; d_reorder : Z; d_reorderMs : Z; d_noServer : Z }.

(** What [processReq] decided so far.  Times in milliseconds. *)
Inductive progress :=
  | Answered (after : Z) (r : replyMsg)
  | Executing (after : Z) (s : Name) (server : nat) (reliable longreordering : bool).

(** Up to the call of the handler. *)
Definition process_begin (req : reqMsg) (d : dice) (rn : Network) : progress :=
  let '(enabled, servername, server, reliable, longreordering) :=
    readEndnameInfo (endname req) rn in
  match enabled, servername, server with
  | true, Some s, Some p =>
      let ms := if negb reliable then d_delay d `mod` 27 else 0 in
      if negb reliable && (d_drop d `mod` 1000 <? 100) then Answered ms (mkReply false [])
      else Executing ms s p reliable longreordering
  | _, _, _ =>
      Answered (if longDelays rn then d_noServer d `mod` 7000 else d_noServer d `mod` 100)
        (mkReply false [])
  end.

(** The handler runs, in its own goroutine. *)
Definition process_execute (server : nat) (req : reqMsg) (rn : Network) (w : W) :
    option (Network * W * replyMsg) :=
  rs ← heap rn !! server;
  '(rs, w, r) ← Server_dispatch rs req w;
  Some (mkNetwork (reliable rn) (longDelays rn) (longReordering rn) (ends rn) (enabled rn)
          (servers rn) (connections rn) (<[server := rs]> (heap rn)) (net_count rn)
          (net_bytes rn) (destroyed rn), w, r).

(** The end, when the handler returned [r], or, [None], when a check every
    100 ms found the server dead. *)
Definition process_end (e s : Name) (server : nat) (reliable longreordering : bool)
    (r : option replyMsg) (d : dice) (rn : Network) : Z * replyMsg :=
  let serverDead := isServerDead e s server rn in
  match r with
  | None => (0, mkReply false [])
  | Some r =>
      if serverDead then (0, mkReply false [])
      else if negb reliable && (d_dropReply d `mod` 1000 <? 100) then (0, mkReply false [])
      else if longreordering && (d_reorder d `mod` 900 <? 600)
      then (200 + d_reorderMs d, r)
      else (0, r)
  end.

(** The reply goes to the client, when its delay is over: its bytes are counted,
    unless it only tells that the call failed. *)
Definition send_reply (r : replyMsg) (rn : Network) : Network :=
  if ok r then add_stats 0 (zlen (reply r)) rn else rn.

(** The client's side: the request made by [Call], and what it returns. *)
Definition Call_request {A} `{!Gob A} (e : Name) (svcMeth : string) (a : A) : reqMsg :=
  mkReq e svcMeth (enc a).

(** [None]: the process exits, the reply does not decode. *)
Definition Call_return {R} `{!Gob R} (r : replyMsg) : option (option R) :=
  if ok r then '(v, _) ← dec (reply r); Some (Some v) else Some None.

(** [MakeNetwork]'s goroutine counts every request. *)
Definition receive (req : reqMsg) (rn : Network) : Network := add_stats 1 (zlen (args req)) rn.

(** The two selects of a call: the request is received, or [None], [Call]
    returns false at once.  Once the network is destroyed either may happen,
    [gone] telling which. *)
Definition Call_send (gone : bool) (req : reqMsg) (rn : Network) : option Network :=
  if destroyed rn && gone then None else Some (receive req rn).

(** ** Lemmas *)

(** A network that was not destroyed takes every request and counts it. *)
Lemma Call_send_open gone req rn :
  destroyed rn = false ->
  exists rn', Call_send gone req rn = Some rn' /\
    GetTotalCount rn' = GetTotalCount rn + 1 /\
    GetTotalBytes rn' = GetTotalBytes rn + zlen (args req) /\ destroyed rn' = false.
Proof. intros Hd. unfold Call_send. rewrite Hd. simpl. by eexists. Qed.

Lemma isServerDead_false e s p rn :
  isServerDead e s p rn = false <-> enabled rn !! e = Some true /\ servers rn !! s = Some (Some p).
Proof.
  unfold isServerDead. rewrite orb_false_iff, !negb_false_iff, bool_decide_eq_true.
  destruct (enabled rn !! e) as [[]|], (servers rn !! s) as [[]|]; naive_solver.
Qed.

Lemma LastIndex_app a b i f :
  LastIndex (a ++ String "." b)%string i f =
    LastIndex b (i + Z.of_nat (String.length a) + 1) (i + Z.of_nat (String.length a)).
Proof.
  revert i f. induction a as [|c a IH]; intros i f; simpl.
  - f_equal; lia.
  - rewrite IH. f_equal; lia.
Qed.

(** No dot in a string. *)
Fixpoint dotless (s : string) : bool :=
  match s with EmptyString => true | String c s => negb (Ascii.eqb c "."%char) && dotless s end.

Lemma LastIndex_dotless b i f : dotless b = true -> LastIndex b i f = f.
Proof.
  revert i f. induction b as [|c b IH]; intros i f; [done|]. simpl.
  destruct (Ascii.eqb c ".") eqn:E; [done|]. simpl. apply IH.
Qed.

Lemma length_str_app a b : String.length (a ++ b)%string = (String.length a + String.length b)%nat.
Proof. induction a as [|c a IH]; [done|]. simpl. by rewrite IH. Qed.

Lemma substring_prefix a b : String.substring 0 (String.length a) (a ++ b)%string = a.
Proof. induction a as [|c a IH]; simpl; [by destruct b|by rewrite IH]. Qed.

Lemma substring_suffix a b :
  String.substring (String.length a) (String.length b) (a ++ b)%string = b.
Proof.
  induction a as [|c a IH]; [|exact IH].
  change (String.substring 0 (String.length b) b = b).
  induction b as [|c b IH]; [done|]. simpl. by rewrite IH.
Qed.

(** *** Dispatching *)

Lemma str_app_cons a c b : (a ++ String c b)%string = ((a ++ String c "") ++ b)%string.
Proof. induction a as [|x a IH]; [done|]. exact (f_equal (String x) IH). Qed.

Lemma str_upto_app a b : str_upto (a ++ b) (Z.of_nat (String.length a)) = Some a.
Proof.
  unfold str_upto. rewrite length_str_app, Nat2Z.inj_add.
  rewrite (proj2 (Z.leb_le _ _)), (proj2 (Z.leb_le _ _)) by lia. simpl.
  by rewrite Nat2Z.id, substring_prefix.
Qed.

Lemma str_from_app a c b :
  str_from (a ++ String c b) (Z.of_nat (String.length a) + 1) = Some b.
Proof.
  assert (Z.of_nat (String.length a) + 1 = Z.of_nat (String.length (a ++ String c ""))) as ->
    by (rewrite length_str_app; simpl; lia).
  rewrite str_app_cons. unfold str_from.
  rewrite (length_str_app (a ++ String c "") b), Nat2Z.inj_add.
  rewrite (proj2 (Z.leb_le _ _)), (proj2 (Z.leb_le _ _)) by lia. simpl.
  rewrite Nat2Z.id. rewrite Nat.add_comm, Nat.add_sub. by rewrite substring_suffix.
Qed.

Lemma Server_dispatch_app (rs : Server) svc sname mname m e (b : bytes) (w : W) :
  dotless mname = true -> services rs !! sname = Some svc -> methods svc !! mname = Some m ->
  Server_dispatch rs (mkReq e (sname ++ String "." mname)%string b) w =
    Some (mkServer (services rs) (count rs + 1), (code m w b).1,
          mkReply true (code m w b).2).
Proof.
  intros Hd Hs Hm. unfold Server_dispatch. simpl.
  rewrite LastIndex_app, LastIndex_dotless by done.
  rewrite Z.add_0_l, str_upto_app. simpl. rewrite str_from_app. simpl. rewrite Hs. simpl.
  unfold Service_dispatch. rewrite Hm. simpl. by destruct (code m w b).
Qed.

(** What [Call] encodes reaches the handler, and [Call] decodes its answer. *)
Lemma handler_enc {A R} `{!Gob A, !Gob R} (zero : A) (f : W -> A -> W * R) a w :
  handler zero f w (enc a) = ((f w a).1, enc (f w a).2).
Proof.
  unfold handler. rewrite <- (app_nil_r (enc a)), dec_enc. by destruct (f w a).
Qed.

Lemma Call_return_enc {R} `{!Gob R} (v : R) : Call_return (mkReply true (enc v)) = Some (Some v).
Proof. unfold Call_return. simpl. by rewrite <- (app_nil_r (enc _)), dec_enc. Qed.

(** ** What the network guarantees *)

(** A client sees a reply only if, when it was sent, its end was enabled and
    connected to the very server that ran the handler: a reply of a server that
    was deleted, replaced, or cut off in the meantime is withheld. *)
Theorem reply_from_live_server e s p rel reord r d rn after rep :
  process_end e s p rel reord r d rn = (after, rep) -> ok rep = true ->
  enabled rn !! e = Some true /\ servers rn !! s = Some (Some p) /\ r = Some rep.
Proof.
  unfold process_end. destruct r as [r|]; [|by intros [= <- <-]].
  destruct (isServerDead e s p rn) eqn:E; [by intros [= <- <-]|].
  apply isServerDead_false in E as [He Hs].
  repeat case_match; intros [= <- <-]; done.
Qed.

(** A handler runs only for an enabled end connected to a live server. *)
Theorem execute_only_when_connected req d rn after s p rel reord :
  process_begin req d rn = Executing after s p rel reord ->
  enabled rn !! endname req = Some true /\ connections rn !! endname req = Some (Some s) /\
  servers rn !! s = Some (Some p) /\ rel = reliable rn /\ reord = longReordering rn.
Proof.
  unfold process_begin, readEndnameInfo.
  destruct (enabled rn !! endname req) as [[]|] eqn:E1; simpl; try done.
  destruct (connections rn !! endname req) as [[s'|]|] eqn:E2; simpl; try done.
  destruct (servers rn !! s') as [[p'|]|] eqn:E3; simpl; try done.
  repeat case_match; intros [= <- <- <- <- <-]; done.
Qed.

(** On a reliable network without reordering a request to a live server is
    never lost, neither on the way nor on the way back. *)
Theorem reliable_delivers req d d' rn s p r :
  reliable rn = true -> longReordering rn = false ->
  enabled rn !! endname req = Some true -> connections rn !! endname req = Some (Some s) ->
  servers rn !! s = Some (Some p) ->
  process_begin req d rn = Executing 0 s p true false /\
  process_end (endname req) s p true false (Some r) d' rn = (0, r).
Proof.
  intros Hrel Hre He Hc Hs. split.
  - unfold process_begin, readEndnameInfo. by rewrite He, Hc, Hrel, Hre; simpl; rewrite Hs.
  - unfold process_end. assert (isServerDead (endname req) s p rn = false) as ->; [|done].
    by apply isServerDead_false.
Qed.

(** Delays stay in the ranges of the code. *)
Theorem delays_bounded req d rn after rep :
  process_begin req d rn = Answered after rep -> ok rep = false /\
  0 <= after < (if longDelays rn then 7000 else 100).
Proof.
  unfold process_begin, readEndnameInfo.
  assert (0 <= d_delay d `mod` 27 < 27) by (apply Z.mod_pos_bound; lia).
  assert (0 <= d_noServer d `mod` 7000 < 7000) by (apply Z.mod_pos_bound; lia).
  assert (0 <= d_noServer d `mod` 100 < 100) by (apply Z.mod_pos_bound; lia).
  repeat case_match; intros; simplify_eq/=; (split; [done|lia]).
Qed.

(** A request "Service.Method" reaches that method of that service, and the
    count of the server grows by one. *)
Theorem dispatch_finds_method (rs : Server) svc sname mname m e (b : bytes) (w : W) :
  dotless mname = true -> services rs !! sname = Some svc -> methods svc !! mname = Some m ->
  Server_dispatch rs (mkReq e (sname ++ String "." mname)%string b) w =
    Some (mkServer (services rs) (count rs + 1), (code m w b).1,
          mkReply true (code m w b).2).
Proof. apply Server_dispatch_app. Qed.

(** End to end: what [Call] encodes is what the handler receives, and what the
    handler answers is what [Call] returns. *)
Theorem call_roundtrip {A R} `{!Gob A, !Gob R} (zero : A) (f : W -> A -> W * R)
    (rs : Server) svc sname mname m e (a : A) (w : W) :
  dotless mname = true -> services rs !! sname = Some svc -> methods svc !! mname = Some m ->
  code m = handler zero f ->
  exists rs' r, Server_dispatch rs (Call_request e (sname ++ String "." mname)%string a) w =
      Some (rs', (f w a).1, r) /\ Call_return r = Some (Some (f w a).2).
Proof.
  intros Hd Hs Hm Hc.
  unfold Call_request. rewrite (Server_dispatch_app rs svc sname mname m e (enc a) w Hd Hs Hm).
  rewrite Hc, handler_enc. eexists _, _. split; [done|]. apply Call_return_enc.
Qed.
End rpc.

(** ** A small network *)

Section witnesses.
#[local] Instance Z_gob : Gob Z := countable_gob.

(** A service with one counter. *)
Definition add_method : method (W:=Z) :=
  mkMethod "" 3 true 0 (handler 0 (fun w a => (w + a, w))).
Definition counter : Service (W:=Z) :=
  MakeService "Counter" [("Add"%string, add_method); ("hidden"%string, mkMethod "labrpc" 3 true 0
    (fun w b => (w, b)))].
Definition server : Server (W:=Z) := AddService MakeServer counter.

Definition net : Network (Name:=Z) (W:=Z) :=
  let rn := mkNetwork true false false ∅ ∅ ∅ ∅ [server] 0 0 false in
  Enable 1 true (Connect 1 10 (AddServer 10 0 (default rn (MakeEnd 1 rn)))).

Definition req : reqMsg (Name:=Z) := Call_request 1 "Counter.Add" 5.
Definition dice0 : dice := mkDice 0 0 0 0 0 0.

Lemma reply_from_live_server_witness :
  enabled net !! 1 = Some true /\ servers net !! 10 = Some (Some 0%nat) /\
  Some (mkReply true []) = Some (mkReply true []).
Proof.
  by apply (reply_from_live_server 1 10 0 true false (Some (mkReply true [])) dice0 net 0
    (mkReply true [])).
Defined.

Lemma execute_only_when_connected_witness :
  enabled net !! endname req = Some true /\ connections net !! endname req = Some (Some 10) /\
  servers net !! 10 = Some (Some 0%nat) /\ true = reliable net /\ false = longReordering net.
Proof. by apply (execute_only_when_connected req dice0 net 0 10 0 true false). Defined.

Lemma reliable_delivers_witness :
  process_begin req dice0 net = Executing 0 10 0 true false /\
  process_end 1 10 0 true false (Some (mkReply true [])) dice0 net = (0, mkReply true []).
Proof. by apply (reliable_delivers req dice0 dice0 net 10 0). Defined.

Lemma delays_bounded_witness :
  let rn := DeleteServer 10 net in
  exists after rep, process_begin req (mkDice 0 0 0 0 0 1234) rn = Answered after rep /\
    ok rep = false /\ 0 <= after < (if longDelays rn then 7000 else 100).
Proof.
  eexists _, _. split; [by vm_compute|].
  by apply (delays_bounded req (mkDice 0 0 0 0 0 1234) (DeleteServer 10 net)).
Defined.

Lemma dispatch_finds_method_witness :
  exists m, methods counter !! "Add"%string = Some m /\
  Server_dispatch server (mkReq 1 ("Counter" ++ String "." "Add")%string (enc 5)) 7 =
    Some (mkServer (services server) 1, (code m 7 (enc 5)).1, mkReply true (code m 7 (enc 5)).2).
Proof.
  exists add_method. split; [done|].
  by apply (dispatch_finds_method server counter "Counter" "Add" add_method 1 (enc 5) 7).
Defined.

Lemma call_roundtrip_witness :
  exists rs' r, Server_dispatch server (Call_request 1 ("Counter" ++ String "." "Add")%string 5) 7 =
    Some (rs', 12, r) /\ Call_return r = Some (Some 7).
Proof.
  by apply (call_roundtrip 0 (fun w a => (w + a, w)) server counter "Counter" "Add" add_method
    1 5 7).
Defined.
End witnesses.
End LabRpc.
