(* ===== verification/LabGob.v ===== *)
(** The checks of src/labgob/labgob.go around the encoder: the walk over the
    types, which complains once about a field gob would skip, and the walk over a
    value to be decoded into, which complains about what gob would not reset.
    LabGobCodec.v puts them around the encoder. *)
From S2P Require Import Prelude.

Module LabGob.

(** A type descriptor ([reflect.Type]), named by a number: comparing types
    compares the numbers.  A struct has fields with a name and a type. *)
Abbreviation tyid := nat.

Inductive ty :=
  | TStruct (fields : list (string * tyid))
  | TSlice (elem : tyid)
  | TArray (elem : tyid)
  | TPtr (elem : tyid)
  | TMap (elem key : tyid)
  | TOther.

(** The package's variables: [checked] and [errorCount]. *)
Record gstate := mkG { checked : gset tyid; errorCount : Z }.

Section check.
(** The types of the program, and [unicode.IsUpper] of a name's first rune. *)
Context (types : tyid -> ty) (isUpper : string -> bool).

Definition addError (b : bool) (g : gstate) : gstate :=
  mkG (checked g) (if b then errorCount g + 1 else errorCount g).

(** [checkType].  The loop over the fields is the local [fields]. *)
Fixpoint checkType (fuel : nat) (t : tyid) (g : gstate) : result gstate :=
  match fuel with
  | O => NoFuel
  | S fuel =>
      if bool_decide (t ∈ checked g) then Ret g
      else
        let g := mkG ({[t]} ∪ checked g) (errorCount g) in
        match types t with
        | TStruct fs =>
            (fix fields (fs : list (string * tyid)) (g : gstate) : result gstate :=
               match fs with
               | [] => Ret g
               | (name, ft) :: fs =>
                   let g := addError (negb (isUpper name)) g in
                   g ← checkType fuel ft g;
                   fields fs g
               end) fs g
        | TSlice e | TArray e | TPtr e => checkType fuel e g
        | TMap e k => g ← checkType fuel e g; checkType fuel k g
        | TOther => Ret g
        end
  end.

Definition checkValue (fuel : nat) (t : tyid) (g : gstate) : result gstate := checkType fuel t g.

(** [Register] and [RegisterName] check the type and pass it on to gob. *)
Definition Register (fuel : nat) (t : tyid) (g : gstate) : result gstate := checkValue fuel t g.
Definition RegisterName (fuel : nat) (name : string) (t : tyid) (g : gstate) : result gstate :=
  checkValue fuel t g.

(** The loop over the fields, on its own. *)
Fixpoint checkFields (fuel : nat) (fs : list (string * tyid)) (g : gstate) : result gstate :=
  match fs with
  | [] => Ret g
  | (name, ft) :: fs =>
      let g := addError (negb (isUpper name)) g in
      g ← checkType fuel ft g;
      checkFields fuel fs g
  end.

Lemma checkType_S fuel t g :
  checkType (S fuel) t g =
    if bool_decide (t ∈ checked g) then Ret g
    else
      let g := mkG ({[t]} ∪ checked g) (errorCount g) in
      match types t with
      | TStruct fs => checkFields fuel fs g
      | TSlice e | TArray e | TPtr e => checkType fuel e g
      | TMap e k => g ← checkType fuel e g; checkType fuel k g
      | TOther => Ret g
      end.
Proof.
  simpl. destruct (bool_decide _); [done|]. destruct (types t) as [fs| | | | |]; try done.
  generalize (mkG ({[t]} ∪ checked g) (errorCount g)) as g1.
  induction fs as [|[n ft] fs IH]; intros g1; simpl; [done|].
  destruct (checkType fuel ft _); simpl; [apply IH|done|done].
Qed.

(** The lower-case fields of a type. *)
Definition bad_fields (t : tyid) : Z :=
  match types t with
  | TStruct fs => zlen (filter (fun f => isUpper f.1 = false) fs)
  | _ => 0
  end.

(** The types a type mentions. *)
Definition mentions (t : tyid) : list tyid :=
  match types t with
  | TStruct fs => fs.*2
  | TSlice e | TArray e | TPtr e => [e]
  | TMap e k => [e; k]
  | TOther => []
  end.

(** The universe is finite: a set closed under [mentions]. *)
Definition closed (U : gset tyid) : Prop := forall t t', t ∈ U -> t' ∈ mentions t -> t' ∈ U.

Definition total_bad (X : gset tyid) : Z := set_fold (fun t n => bad_fields t + n) 0 X.

(** The types of [U] not seen yet. *)
Definition unseen (U : gset tyid) (g : gstate) : nat := size (U ∖ checked g).

(** What a check leaves: more types checked, all of them of [U]. *)
Definition grows (U : gset tyid) (g g' : gstate) : Prop :=
  checked g ⊆ checked g' /\ checked g' ⊆ checked g ∪ U /\ errorCount g <= errorCount g'.

Lemma grows_trans U g1 g2 g3 : grows U g1 g2 -> grows U g2 g3 -> grows U g1 g3.
Proof. unfold grows. intros (? & ? & ?) (? & ? & ?). split_and!; [set_solver..|lia]. Qed.

Lemma unseen_mono U g g' : checked g ⊆ checked g' -> (unseen U g' <= unseen U g)%nat.
Proof. intros. unfold unseen. apply subseteq_size. set_solver. Qed.

Lemma checkFields_ok U fuel fs g :
  (forall t g, t ∈ U -> (unseen U g < fuel)%nat -> exists g', checkType fuel t g = Ret g' /\
     grows U g g' /\ t ∈ checked g') ->
  Forall (fun f => f.2 ∈ U) fs -> (unseen U g < fuel)%nat ->
  exists g', checkFields fuel fs g = Ret g' /\ grows U g g'.
Proof.
  intros IH Hfs. revert g. induction Hfs as [|[n ft] fs Hft _ IHfs]; intros g Hf; simpl.
  { exists g. split; [done|]. split_and!; [set_solver..|lia]. }
  set (g1 := addError _ g).
  assert (grows U g g1) as Hg1.
  { unfold g1, addError. split_and!; [set_solver..|]. simpl. case_match; lia. }
  destruct (IH ft g1) as (g2 & -> & Hg2 & _); [done|exact Hf|]. simpl.
  destruct (IHfs g2) as (g3 & -> & Hg3).
  { pose proof (unseen_mono U g1 g2 (proj1 Hg2)).
    change (unseen U g1) with (unseen U g) in *. lia. }
  exists g3. split; [done|]. eauto using grows_trans.
Qed.

Lemma checkType_ok U fuel t g :
  closed U -> t ∈ U -> (unseen U g < fuel)%nat ->
  exists g', checkType fuel t g = Ret g' /\ grows U g g' /\ t ∈ checked g'.
Proof.
  intros HU. revert t g. induction fuel as [|fuel IH]; intros t g Ht Hf; [lia|].
  rewrite checkType_S. case_bool_decide as Hin.
  { exists g. split; [done|]. split; [|done]. split_and!; [set_solver..|lia]. }
  set (g1 := mkG ({[t]} ∪ checked g) (errorCount g)).
  assert (grows U g g1) as Hg1 by (split_and!; simpl; [set_solver..|lia]).
  assert (unseen U g1 < fuel)%nat as Hf1.
  { assert (unseen U g1 < unseen U g)%nat; [|lia]. unfold unseen. apply subset_size.
    split; [set_solver|]. intros Hsub. specialize (Hsub t). set_solver. }
  assert (forall e g, e ∈ mentions t -> (unseen U g < fuel)%nat ->
    exists g', checkType fuel e g = Ret g' /\ grows U g g' /\ e ∈ checked g') as Hrec.
  { intros e g0 He Hf0. apply IH; [by eapply HU|done]. }
  assert (exists g', match types t with
      | TStruct fs => checkFields fuel fs g1
      | TSlice e | TArray e | TPtr e => checkType fuel e g1
      | TMap e k => g ← checkType fuel e g1; checkType fuel k g
      | TOther => Ret g1
      end = Ret g' /\ grows U g1 g') as (g' & Heq & Hg').
  { unfold mentions in Hrec. pose proof (HU t) as Hmen. unfold mentions in Hmen.
    destruct (types t) as [fs|e|e|e|e k|].
    - apply (checkFields_ok U fuel fs g1 IH); [|done]. apply Forall_forall. intros f Hf0.
      apply Hmen; [done|]. by apply list_elem_of_fmap_2.
    - destruct (Hrec e g1) as (g' & ? & ? & _); [set_solver|done|]. eauto.
    - destruct (Hrec e g1) as (g' & ? & ? & _); [set_solver|done|]. eauto.
    - destruct (Hrec e g1) as (g' & ? & ? & _); [set_solver|done|]. eauto.
    - destruct (Hrec e g1) as (g2 & -> & Hg2 & _); [set_solver|done|]. simpl.
      destruct (Hrec k g2) as (g3 & ? & ? & _); [set_solver| |].
      { pose proof (unseen_mono U g1 g2 (proj1 Hg2)). lia. }
      exists g3. split; [done|]. eauto using grows_trans.
    - exists g1. split; [done|]. split_and!; [set_solver..|lia]. }
  exists g'. split; [exact Heq|]. split; [eauto using grows_trans|].
  apply (proj1 Hg'). simpl. set_solver.
Qed.

(** *** What a check has looked at *)

(** Between [g] and [g'] types were checked together with all they mention, and a
    lower-case field among them raised the count. *)
Record marks (g g' : gstate) : Prop := {
  mk_more : checked g ⊆ checked g';
  mk_count : errorCount g <= errorCount g';
  mk_closed u u' : u ∈ checked g' -> u ∉ checked g -> u' ∈ mentions u -> u' ∈ checked g';
  mk_bad u : u ∈ checked g' -> u ∉ checked g -> errorCount g' = errorCount g -> bad_fields u = 0 }.

Lemma marks_refl g : marks g g.
Proof. split; [done|lia|done|done]. Qed.

Lemma marks_trans g1 g2 g3 : marks g1 g2 -> marks g2 g3 -> marks g1 g3.
Proof.
  intros [M1 C1 L1 B1] [M2 C2 L2 B2]. split; [set_solver|lia|..].
  - intros u u' Hu Hn Hm. destruct (decide (u ∈ checked g2)) as [H2|H2]; [|by eapply L2].
    by eapply M2, L1.
  - intros u Hu Hn Heq. destruct (decide (u ∈ checked g2)) as [H2|H2]; [apply B1|apply B2]; done || lia.
Qed.

Lemma checkFields_marks fuel fs g g' :
  (forall t g g', checkType fuel t g = Ret g' -> marks g g' /\ t ∈ checked g') ->
  checkFields fuel fs g = Ret g' ->
  marks g g' /\ (forall t, t ∈ fs.*2 -> t ∈ checked g') /\
    zlen (filter (fun f => isUpper f.1 = false) fs) <= errorCount g' - errorCount g.
Proof.
  intros IH. revert g. induction fs as [|[name ft] fs IHfs]; intros g; simpl.
  { intros [= <-]. split; [apply marks_refl|]. split; [set_solver|]. rewrite filter_nil. unfold zlen. simpl. lia. }
  set (g1 := addError (negb (isUpper name)) g). destruct (checkType fuel ft g1) as [g2| |] eqn:Hc; [|done..].
  simpl. intros (Hm3 & Hin & Hn)%IHfs. destruct (IH _ _ _ Hc) as [Hm2 Hft].
  pose proof (mk_count _ _ Hm2) as C2. pose proof (mk_count _ _ Hm3) as C3.
  assert (marks g g1) as Hm1.
  { split; [done|simpl; case_match; lia|..]; intros u; simpl; by intros. }
  split; [by eapply marks_trans, marks_trans|]. split.
  - intros t [->|Ht]%elem_of_cons; [by apply (mk_more _ _ Hm3)|by apply Hin].
  - rewrite filter_cons. simpl. unfold g1 in C2. simpl in C2.
    destruct (isUpper name); simpl in *; [lia|].
    rewrite zlen_cons. lia.
Qed.

Lemma checkType_marks fuel t g g' : checkType fuel t g = Ret g' -> marks g g' /\ t ∈ checked g'.
Proof.
  revert t g g'. induction fuel as [|fuel IH]; intros t g g'; [done|]. rewrite checkType_S.
  case_bool_decide as Hin; [intros [= <-]; by split; [apply marks_refl|]|].
  cbv zeta. set (g1 := mkG ({[t]} ∪ checked g) (errorCount g)). intros Hrun.
  assert (marks g1 g' /\ (forall u, u ∈ mentions t -> u ∈ checked g') /\
      (errorCount g' = errorCount g -> bad_fields t = 0)) as ([M C L B] & Hmen & Hbad).
  { unfold mentions, bad_fields. destruct (types t) as [fs|e|e|e|e k|].
    - destruct (checkFields_marks _ _ _ _ IH Hrun) as (? & ? & Hn). split; [done|]. split; [done|].
      pose proof (zlen_nonneg (filter (fun f : string * tyid => isUpper f.1 = false) fs)). simpl in Hn. lia.
    - destruct (IH _ _ _ Hrun). split; [done|]. split; [set_solver|done].
    - destruct (IH _ _ _ Hrun). split; [done|]. split; [set_solver|done].
    - destruct (IH _ _ _ Hrun). split; [done|]. split; [set_solver|done].
    - destruct (checkType fuel e g1) as [g2| |] eqn:He; [|done..]. simpl in Hrun.
      destruct (IH _ _ _ He) as [Hm1 ?]. destruct (IH _ _ _ Hrun) as [Hm2 ?].
      pose proof (mk_more _ _ Hm2). split; [by eapply marks_trans|]. split; [set_solver|done].
    - injection Hrun as <-. split; [apply marks_refl|]. split; [set_solver|done]. }
  simpl in *. split; [|set_solver]. split; [set_solver|done|..].
  - intros u u' Hu Hn Hm. destruct (decide (u = t)) as [->|]; [by apply Hmen|]. eapply L; set_solver.
  - intros u Hu Hn Heq. destruct (decide (u = t)) as [->|]; [by apply Hbad|]. apply B; set_solver.
Qed.

(** The states of the package that its functions leave. *)
Inductive used : gstate -> Prop :=
  | used_new : used (mkG ∅ 0)
  | used_type fuel t g g' : used g -> checkValue fuel t g = Ret g' -> used g'
  | used_warned k g : used g -> 0 <= k -> used (mkG (checked g) (errorCount g + k)).

(** While nothing was complained about, no type seen has a lower-case field, nor
    has one that it mentions. *)
Lemma used_silent g :
  used g -> 0 <= errorCount g /\ (forall u u', u ∈ checked g -> u' ∈ mentions u -> u' ∈ checked g) /\
    (errorCount g = 0 -> forall u, u ∈ checked g -> bad_fields u = 0).
Proof.
  induction 1 as [|fuel t g g' _ (H0 & Hc & Hb) Hrun|k g _ (H0 & Hc & Hb) Hk]; simpl.
  - split; [lia|]. split; intros; set_solver.
  - destruct (checkType_marks _ _ _ _ Hrun) as [[M C L B] _]. split; [lia|]. split.
    + intros u u' Hu Hm. destruct (decide (u ∈ checked g)) as [Hg|Hg]; [by eapply M, Hc|by eapply L].
    + intros Hz u Hu. destruct (decide (u ∈ checked g)) as [Hg|Hg]; [apply Hb|apply B]; done || lia.
  - split; [lia|]. split; [done|]. intros Hz. apply Hb. lia.
Qed.

(** C39. The walk over the types ends, even when types refer to themselves: one more
    unit of fuel than the number of types not seen yet is enough.  It visits
    the type it is given and never forgets one. *)
Theorem checkType_terminates U fuel t g :
  closed U -> t ∈ U -> (unseen U g < fuel)%nat ->
  exists g', checkType fuel t g = Ret g' /\ t ∈ checked g' /\ checked g ⊆ checked g' /\
    checked g' ⊆ checked g ∪ U /\ errorCount g <= errorCount g'.
Proof.
  intros HU Ht Hf. destruct (checkType_ok U fuel t g HU Ht Hf) as (g' & ? & (? & ? & ?) & ?).
  exists g'. done.
Qed.

(** "only complain once": checking a type again changes nothing. *)
Theorem checkType_once U fuel fuel' t g g' :
  closed U -> t ∈ U -> (unseen U g < fuel)%nat -> checkType fuel t g = Ret g' ->
  checkType (S fuel') t g' = Ret g'.
Proof.
  intros HU Ht Hf Hc. destruct (checkType_ok U fuel t g HU Ht Hf) as (g1 & Heq & _ & Hin).
  rewrite Hc in Heq. injection Heq as <-. rewrite checkType_S.
  by rewrite bool_decide_eq_true_2.
Qed.
End check.

(** ** Decoding into a value *)

(** A value: a struct, a nil pointer, a pointer, a value of a basic kind, with
    whether it is the zero value, or of a kind that is not looked at. *)
#[local] Unset Elimination Schemes.
Inductive value :=
  | VStruct (fields : list value)
  | VNil
  | VPtr (v : value)
  | VBasic (isZero : bool)
  | VOther.
#[local] Set Elimination Schemes.

(** [checkDefault1]: the number of warnings counted. *)
Fixpoint checkDefault1 (v : value) (depth : Z) : Z :=
  if 3 <? depth then 0
  else
    match v with
    | VStruct fs => (fix go (fs : list value) : Z :=
                       match fs with [] => 0 | f :: fs => checkDefault1 f (depth + 1) + go fs end) fs
    | VNil => 0
    | VPtr v => checkDefault1 v (depth + 1)
    | VBasic isZero => if isZero then 0 else 1
    | VOther => 0
    end.

Definition checkDefault (v : option value) (g : gstate) : gstate :=
  match v with
  | None => g
  | Some v => mkG (checked g) (errorCount g + checkDefault1 v 1)
  end.

(** Every basic value inside is zero. *)
Fixpoint all_zero (v : value) : bool :=
  match v with
  | VStruct fs => forallb all_zero fs
  | VNil => true
  | VPtr v => all_zero v
  | VBasic isZero => isZero
  | VOther => true
  end.

Fixpoint height (v : value) : Z :=
  match v with
  | VStruct fs => 1 + foldr (fun f n => Z.max (height f) n) 0 fs
  | VPtr v => 1 + height v
  | _ => 1
  end.

(** Induction over values, with the fields of structs. *)
Lemma value_ind' (P : value -> Prop) :
  (forall fs, Forall P fs -> P (VStruct fs)) -> P VNil ->
  (forall v, P v -> P (VPtr v)) -> (forall b, P (VBasic b)) -> P VOther ->
  forall v, P v.
Proof.
  intros Hs Hn Hp Hb Ho. fix IH 1. intros [fs| |v|b|]; [|exact Hn|apply Hp, IH|apply Hb|exact Ho].
  apply Hs. induction fs as [|f fs IHfs]; constructor; [apply IH|exact IHfs].
Qed.

Lemma height_pos v : 1 <= height v.
Proof.
  induction v as [fs _| |v IH|b|] using value_ind'; simpl; try lia.
  induction fs as [|f fs IH]; simpl; lia.
Qed.

Lemma checkDefault1_fields fs depth :
  depth <= 3 -> checkDefault1 (VStruct fs) depth =
    foldr (fun f n => checkDefault1 f (depth + 1) + n) 0 fs.
Proof.
  intros Hd. simpl. destruct (3 <? depth) eqn:E; bsimp; [lia|].
  induction fs as [|f fs IH]; simpl; [done|]. by rewrite IH.
Qed.

Lemma checkDefault1_nonneg v depth : 0 <= checkDefault1 v depth.
Proof.
  revert depth. induction v as [fs IH| |v IH|b|] using value_ind'; intros depth.
  - destruct (Z_lt_le_dec 3 depth).
    + simpl. destruct (3 <? depth) eqn:E; bsimp; lia.
    + rewrite checkDefault1_fields by done. induction IH as [|f fs Hf _ IHfs]; simpl; [lia|].
      specialize (Hf (depth + 1)). lia.
  - simpl. case_match; lia.
  - simpl. case_match; [lia|apply IH].
  - simpl. repeat case_match; lia.
  - simpl. case_match; lia.
Qed.

(** A value of at most three levels draws no warning exactly when all its basic
    values are zero; deeper values are not looked at. *)
Theorem checkDefault1_exact v depth :
  1 <= depth -> depth + height v <= 4 -> (checkDefault1 v depth = 0 <-> all_zero v = true).
Proof.
  revert depth. induction v as [fs IH| |v IH|b|] using value_ind'; intros depth H1 Hh.
  - simpl in Hh.
    assert (0 <= foldr (fun f n => Z.max (height f) n) 0 fs) as Hnn.
    { clear. induction fs as [|f fs IHf]; simpl; lia. }
    rewrite checkDefault1_fields by lia. simpl.
    clear Hnn. induction IH as [|f fs Hf _ IHfs]; simpl in *; [done|].
    assert (0 <= foldr (fun f n => checkDefault1 f (depth + 1) + n) 0 fs) as Hnn.
    { clear. induction fs as [|f fs IHf]; simpl; [lia|].
      pose proof (checkDefault1_nonneg f (depth + 1)). lia. }
    pose proof (checkDefault1_nonneg f (depth + 1)) as Hf0.
    rewrite andb_true_iff. rewrite <- (Hf (depth + 1)) by lia. rewrite <- IHfs by lia.
    split; [intros Heq; split; lia|lia].
  - simpl. case_match; done.
  - simpl in *. pose proof (height_pos v).
    destruct (3 <? depth) eqn:E; bsimp; [lia|]. apply IH; lia.
  - simpl in *. destruct (3 <? depth) eqn:E; bsimp; [lia|]. by destruct b.
  - simpl. case_match; done.
Qed.

(** ** A recursive type *)

Section witnesses.
(** [type Node struct { Key string; next *Node }] *)
Definition node_types (t : tyid) : ty :=
  match t with
  | 0%nat => TStruct [("Key"%string, 2%nat); ("next"%string, 1%nat)]
  | 1%nat => TPtr 0%nat
  | _ => TOther
  end.
Definition upper (s : string) : bool := String.eqb s "Key".
Definition node_universe : gset tyid := {[0%nat; 1%nat; 2%nat]}.

Lemma node_closed : closed node_types node_universe.
Proof.
  intros t t'. unfold node_universe. rewrite !elem_of_union, !elem_of_singleton.
  intros [[->| ->]| ->]; simpl; set_solver.
Qed.

Lemma checkType_terminates_witness :
  exists g', checkType node_types upper 4 0 (mkG ∅ 0) = Ret g' /\ (0%nat ∈ checked g').
Proof.
  destruct (checkType_terminates node_types upper node_universe 4 0 (mkG ∅ 0)) as
    (g' & Hc & Hin & _); [apply node_closed|unfold node_universe; set_solver|by vm_compute; lia|].
  by exists g'.
Defined.

Lemma checkType_once_witness :
  exists g', checkType node_types upper 4 0 (mkG ∅ 0) = Ret g' /\
    checkType node_types upper 1 0 g' = Ret g' /\ errorCount g' = 1.
Proof.
  destruct (checkType node_types upper 4 0 (mkG ∅ 0)) as [g'| |] eqn:Hc; [|by vm_compute in Hc..].
  exists g'. split; [done|]. split.
  - apply (checkType_once node_types upper node_universe 4 0 0 (mkG ∅ 0) g');
      [apply node_closed|unfold node_universe; set_solver|by vm_compute; lia|done].
  - assert (Ret g' = Ret (mkG ({[2%nat; 1%nat; 0%nat]}) 1)) as [= ->]; [|done].
    rewrite <- Hc. by vm_compute.
Defined.

Lemma checkDefault1_exact_witness :
  checkDefault1 (VPtr (VStruct [VBasic true; VBasic false])) 1 = 0 <->
  all_zero (VPtr (VStruct [VBasic true; VBasic false])) = true.
Proof. apply checkDefault1_exact; vm_compute; done. Defined.
End witnesses.
End LabGob.
