(* ===== verification/LabGobCodec.v ===== *)
(** The encoder and the decoder of src/labgob/labgob.go: the checks of LabGob.v
    around those of encoding/gob, whose contract is a class.  What the warnings
    are for is a theorem: when none was counted, decoding gives back what was
    encoded, for basic values and structs of basic values. *)
From S2P Require Import Prelude Persister LabGob.
Import Persister LabGob.

Module LabGobCodec.

(** ** What reflection and encoding/gob provide *)

(** [reflect.TypeOf] of a value of type [A] and of a pointer to one, and what
    [checkDefault1] sees of the value, field by field. *)
Class Reflect (types : tyid -> ty) (A : Type) := {
  TypeOf : tyid;
  PtrTo : tyid;
  ValueOf : A -> value;
  PtrTo_elem : types PtrTo = TPtr TypeOf;
  ValueOf_fields a vs : ValueOf a = VStruct vs ->
    exists fs, types TypeOf = TStruct fs /\ length fs = length vs }.
#[global] Hint Mode Reflect - ! : typeclass_instances.
#[global] Arguments TypeOf {types} A {_}.
#[global] Arguments PtrTo {types} A {_}.
#[global] Arguments ValueOf {types A _} _.

Definition basic (v : value) : bool := match v with VBasic _ => true | _ => false end.

(** A value of a basic kind, or a struct of such values with a field at least. *)
Definition flat (v : value) : bool :=
  match v with
  | VBasic _ => true
  | VStruct fs => negb (bool_decide (fs = [])) && forallb basic fs
  | _ => false
  end.

Lemma flat_height v : flat v = true -> height v <= 2.
Proof.
  destruct v as [fs| | | |]; simpl; try done. intros [_ Hfs]%andb_true_iff.
  enough (foldr (fun f n => Z.max (height f) n) 0 fs <= 1) by lia.
  induction fs as [|f fs IH]; simpl in *; [done|]. apply andb_true_iff in Hfs as [Hf Hfs].
  destruct f; try done. simpl. specialize (IH Hfs). lia.
Qed.

(** A stream of gob has a state on either side: the types already described. *)
Class GobStream := {
  enc_state : Type;
  dec_state : Type;
  enc_new : enc_state;
  dec_new : dec_state;
  in_step : enc_state -> dec_state -> Prop;
  in_step_new : in_step enc_new dec_new }.

Section codec.
Context (types : tyid -> ty) (isUpper : string -> bool).

(** [Encode] of a value, with the bytes it writes and whether there was no error,
    and [Decode] into a variable that holds [old], with what it holds afterwards
    and what is left of the bytes.

    gob sends exported fields only, and none that is zero, so that the variable
    keeps what it holds there.  The law is about a type all of whose fields are
    exported, flat values and a variable that holds zero values.  Pointers, which
    gob flattens, are not flat.  Values are compared as by Go's [==], for which the
    two zeros of a float are the same, and [A] has no encoding of its own
    ([GobEncoder]). *)
Class GobInto `{!GobStream} (A : Type) `{!Reflect types A} := {
  gob_enc : enc_state -> A -> enc_state * bytes * bool;
  gob_dec : dec_state -> A -> bytes -> dec_state * A * bytes * bool;
  gob_dec_enc es ds old a :
    in_step es ds -> bad_fields types isUpper (TypeOf A) = 0 ->
    flat (ValueOf a) = true -> flat (ValueOf old) = true -> all_zero (ValueOf old) = true ->
    exists es' b ds', gob_enc es a = (es', b, true) /\ b <> [] /\ in_step es' ds' /\
      forall rest, gob_dec ds old (b ++ rest) = (ds', a, rest, true) }.

(** ** The wrappers *)

Context (fuel : nat) `{!GobStream}.

(** gob's encoder with the bytes written so far, and its decoder with those still
    to be read. *)
Record LabEncoder := mkLabEncoder { enc_gob : enc_state; written : bytes }.
Record LabDecoder := mkLabDecoder { dec_gob : dec_state; unread : bytes }.

Definition NewEncoder (w : bytes) : LabEncoder := mkLabEncoder enc_new w.
Definition NewDecoder (r : bytes) : LabDecoder := mkLabDecoder dec_new r.

Context {A : Type} `{!Reflect types A, !GobInto A}.

Definition Encode (e : A) (enc : LabEncoder) (g : gstate) : result (gstate * LabEncoder * bool) :=
  g ← checkValue types isUpper fuel (TypeOf A) g;
  let '(es, b, ok) := gob_enc (enc_gob enc) e in
  Ret (g, mkLabEncoder es (written enc ++ b), ok).

(** [value.Interface()] is the value [Encode] gets. *)
Definition EncodeValue (value : A) (enc : LabEncoder) (g : gstate) :
    result (gstate * LabEncoder * bool) :=
  g ← checkValue types isUpper fuel (TypeOf A) g;
  let '(es, b, ok) := gob_enc (enc_gob enc) value in
  Ret (g, mkLabEncoder es (written enc ++ b), ok).

(** [Decode(&e)], for a variable that holds [old]: what it holds afterwards, and
    whether gob returned no error. *)
Definition Decode (old : A) (dec : LabDecoder) (g : gstate) :
    result (gstate * LabDecoder * A * bool) :=
  g ← checkValue types isUpper fuel (PtrTo A) g;
  let g := checkDefault (Some (VPtr (ValueOf old))) g in
  let '(ds, e, rest, ok) := gob_dec (dec_gob dec) old (unread dec) in
  Ret (g, mkLabDecoder ds rest, e, ok).

(** [Encode] of several values, one after the other, and [Decode] into several
    variables. *)
Fixpoint Encode_all (es : list A) (enc : LabEncoder) (g : gstate) :
    result (gstate * LabEncoder * list bool) :=
  match es with
  | [] => Ret (g, enc, [])
  | e :: es =>
      '(g, enc, ok) ← Encode e enc g;
      '(g, enc, l) ← Encode_all es enc g;
      Ret (g, enc, ok :: l)
  end.

Fixpoint Decode_all (olds : list A) (dec : LabDecoder) (g : gstate) :
    result (gstate * LabDecoder * list (A * bool)) :=
  match olds with
  | [] => Ret (g, dec, [])
  | old :: olds =>
      '(g, dec, e, ok) ← Decode old dec g;
      '(g, dec, l) ← Decode_all olds dec g;
      Ret (g, dec, (e, ok) :: l)
  end.

(** ** What they do *)

Context (U : gset tyid) (HU : closed types U) (Hfuel : (size U < fuel)%nat).
Context (Hval : TypeOf A ∈ U) (Hptr : PtrTo A ∈ U).

#[local] Abbreviation used := (LabGob.used types isUpper).

Lemma checkValue_ok t g : t ∈ U -> used g ->
  exists g', checkValue types isUpper fuel t g = Ret g' /\ used g' /\ t ∈ checked g'.
Proof.
  intros Ht Hg. destruct (checkType_ok types isUpper U fuel t g HU Ht) as (g' & Hc & _ & Hin).
  { assert (unseen U g <= size U)%nat; [|lia]. apply subseteq_size. set_solver. }
  exists g'. split; [done|]. split; [by eapply used_type|done].
Qed.

Lemma Encode_ok e enc g : used g ->
  exists g', Encode e enc g =
      (let '(es, b, ok) := gob_enc (enc_gob enc) e in
       Ret (g', mkLabEncoder es (written enc ++ b), ok)) /\ used g'.
Proof.
  intros Hg. destruct (checkValue_ok _ g Hval Hg) as (g' & Hc & Hg' & _).
  exists g'. unfold Encode. by rewrite Hc.
Qed.

(** No complaint by the end of a [Decode] into a flat variable means that the type
    has no lower-case field and that the variable holds zero values. *)
Lemma Decode_ok old dec g : used g -> flat (ValueOf old) = true ->
  exists g', Decode old dec g =
      (let '(ds, e, rest, ok) := gob_dec (dec_gob dec) old (unread dec) in
       Ret (g', mkLabDecoder ds rest, e, ok)) /\ used g' /\
    (errorCount g' = 0 -> bad_fields types isUpper (TypeOf A) = 0 /\ all_zero (ValueOf old) = true).
Proof.
  intros Hg Hflat. destruct (checkValue_ok _ g Hptr Hg) as (g1 & Hc & Hg1 & Hin).
  pose proof (checkDefault1_nonneg (VPtr (ValueOf old)) 1) as Hnn.
  eexists. unfold Decode. rewrite Hc. split; [done|]. split; [by apply used_warned|].
  cbn [checkDefault errorCount]. intros Hz.
  destruct (used_silent types isUpper g1 Hg1) as (H0 & Hcl & Hbad). split.
  - apply Hbad; [lia|]. apply (Hcl (PtrTo A)); [done|]. unfold mentions. rewrite PtrTo_elem. set_solver.
  - apply (checkDefault1_exact (VPtr (ValueOf old)) 1); [lia| |lia].
    pose proof (flat_height _ Hflat). simpl height. lia.
Qed.

(** C36. For a type of basic kind or a struct of basic fields: when a value is
    encoded and later decoded in step, at any moments of a program that uses the
    package, then both calls return and either the package has counted a warning
    by then - about a lower-case field, once per type, or about a variable that did
    not hold zero values - or neither reported an error, the variable holds the
    value that was encoded, and the decoder stands in step at what follows. *)
Theorem Decode_warns_or_restores a old es ds w rest ge gd :
  used ge -> used gd -> in_step es ds ->
  flat (ValueOf a) = true -> flat (ValueOf old) = true ->
  exists ge' es' b ok, Encode a (mkLabEncoder es w) ge = Ret (ge', mkLabEncoder es' (w ++ b), ok) /\
    exists gd' dec e ok', Decode old (mkLabDecoder ds (b ++ rest)) gd = Ret (gd', dec, e, ok') /\
      (0 < errorCount gd' \/
       ok = true /\ ok' = true /\ e = a /\ unread dec = rest /\ in_step es' (dec_gob dec)).
Proof.
  intros Hge Hgd Hs Ha Ho. destruct (Encode_ok a (mkLabEncoder es w) ge Hge) as (ge' & He & _).
  cbn [enc_gob written] in He. destruct (gob_enc es a) as [[es' b] ok] eqn:Henc.
  exists ge', es', b, ok. split; [done|].
  destruct (Decode_ok old (mkLabDecoder ds (b ++ rest)) gd Hgd Ho) as (gd' & Hd & Hgd' & Hquiet).
  cbn [dec_gob unread] in Hd. destruct (used_silent _ _ _ Hgd') as (Hnn & _).
  destruct (decide (errorCount gd' = 0)) as [Hz|Hz].
  - destruct (Hquiet Hz) as [Hbad Hzero].
    destruct (gob_dec_enc es ds old a Hs Hbad Ha Ho Hzero) as (es1 & b1 & ds' & He1 & _ & Hs' & Hd1).
    rewrite He1 in Henc. injection Henc as <- <- <-. rewrite Hd1 in Hd.
    eexists _, _, _, _. split; [exact Hd|]. by right.
  - destruct (gob_dec ds old (b ++ rest)) as [[[ds' e] rest'] ok'].
    eexists _, _, _, _. split; [exact Hd|]. left. lia.
Qed.

Lemma Decode_Encode_all l olds es ds w ge :
  used ge -> in_step es ds -> bad_fields types isUpper (TypeOf A) = 0 ->
  Forall2 (fun e old => flat (ValueOf e) = true /\ flat (ValueOf old) = true /\
    all_zero (ValueOf old) = true) l olds ->
  exists ge' es' b, Encode_all l (mkLabEncoder es w) ge =
      Ret (ge', mkLabEncoder es' (w ++ b), (fun _ => true) <$> l) /\
    forall gd, used gd -> exists gd' ds', Decode_all olds (mkLabDecoder ds b) gd =
      Ret (gd', mkLabDecoder ds' [], (fun e => (e, true)) <$> l) /\ in_step es' ds'.
Proof.
  intros Hge Hs Hbad Hl. revert es ds w ge Hge Hs.
  induction Hl as [|e old l olds (He & Ho & Hz) _ IH]; intros es ds w ge Hge Hs; simpl.
  { exists ge, es, []. rewrite app_nil_r. split; [done|]. intros gd _. by exists gd, ds. }
  destruct (gob_dec_enc es ds old e Hs Hbad He Ho Hz) as (es1 & b1 & ds1 & Henc & _ & Hs1 & Hdec).
  destruct (Encode_ok e (mkLabEncoder es w) ge Hge) as (ge1 & -> & Hge1). simpl. rewrite Henc. simpl.
  destruct (IH es1 ds1 (w ++ b1) ge1 Hge1 Hs1) as (ge2 & es2 & b2 & -> & Hall). simpl.
  eexists _, _, (b1 ++ b2). rewrite app_assoc. split; [done|]. intros gd Hgd.
  destruct (Decode_ok old (mkLabDecoder ds (b1 ++ b2)) gd Hgd Ho) as (gd1 & -> & Hgd1 & _).
  simpl. rewrite Hdec. simpl. destruct (Hall gd1 Hgd1) as (gd2 & ds2 & -> & Hs2). simpl. eauto.
Qed.

(** The wrappers round-trip: flat values of a type without lower-case fields,
    encoded one after the other to a new encoder, are what a new decoder on its
    bytes gives, into variables that hold zero values, and neither side runs for
    ever. *)
Theorem encode_decode_roundtrip l olds g :
  used g -> bad_fields types isUpper (TypeOf A) = 0 ->
  Forall2 (fun e old => flat (ValueOf e) = true /\ flat (ValueOf old) = true /\
    all_zero (ValueOf old) = true) l olds ->
  exists g1 enc, Encode_all l (NewEncoder []) g = Ret (g1, enc, (fun _ => true) <$> l) /\
    exists g2 dec, Decode_all olds (NewDecoder (written enc)) g =
        Ret (g2, dec, (fun e => (e, true)) <$> l) /\ unread dec = [].
Proof.
  intros Hg Hbad Hl. destruct (Decode_Encode_all l olds enc_new dec_new [] g Hg in_step_new Hbad Hl)
    as (g1 & es & b & He & Hd). destruct (Hd g Hg) as (g2 & ds & Hd2 & _).
  exists g1, (mkLabEncoder es b). split; [exact He|]. by exists g2, (mkLabDecoder ds []).
Qed.
End codec.

(** A message is a stream of its own that holds one value: decoding it into a new
    variable is the codec the other packages rely on. *)
Program Definition fresh_Gob {types isUpper A} `{!GobStream, !Reflect types A}
    `{!GobInto types isUpper A} (zero : A)
    (Hb : bad_fields types isUpper (TypeOf A) = 0) (Hf : forall a : A, flat (ValueOf a) = true)
    (Hz : all_zero (ValueOf zero) = true) : Gob A := {|
  enc a := (gob_enc types isUpper enc_new a).1.2;
  dec b := let '(_, a, rest, ok) := gob_dec types isUpper dec_new zero b in
           if ok then Some (a, rest) else None |}.
Next Obligation.
  intros types isUpper A ? ? ? zero Hb Hf Hz a rest. simpl.
  destruct (gob_dec_enc types isUpper enc_new dec_new zero a in_step_new Hb (Hf a) (Hf zero) Hz)
    as (es & b & ds & -> & _ & _ & Hd). simpl. by rewrite Hd.
Qed.
Next Obligation.
  intros types isUpper A ? ? ? zero Hb Hf Hz a. simpl.
  by destruct (gob_dec_enc types isUpper enc_new dec_new zero a in_step_new Hb (Hf a) (Hf zero) Hz)
    as (es & b & ds & -> & ? & _).
Qed.

(** ** A reply with two fields *)

Section witnesses.
(** [type Reply struct { Term, Index int }] and a pointer to it.  A stream starts
    with a description of the type, one byte; then a reply is written field by
    field, a field that is zero as one byte. *)
Definition reply_types (t : tyid) : ty :=
  match t with
  | 0%nat => TStruct [("Term"%string, 2%nat); ("Index"%string, 2%nat)]
  | 1%nat => TPtr 0%nat
  | _ => TOther
  end.
Definition reply_universe : gset tyid := {[0%nat; 1%nat; 2%nat]}.
Definition reply : Type := Z * Z.

#[local, program] Instance reply_Reflect : Reflect reply_types reply := {|
  TypeOf := 0%nat; PtrTo := 1%nat;
  ValueOf r := VStruct [VBasic (r.1 =? 0); VBasic (r.2 =? 0)] |}.
Next Obligation. done. Qed.
Next Obligation. intros r vs [= <-]. by eexists. Qed.

#[local] Instance Z_gob : Gob Z := countable_gob.

Definition put_field (z : Z) : bytes := if z =? 0 then [Init.Byte.x00] else Init.Byte.x01 :: enc z.

(** A zero field leaves [old] as it is. *)
Definition get_field (old : Z) (b : bytes) : option (Z * bytes) :=
  match b with
  | [] => None
  | d :: b => if Byte.eqb d Init.Byte.x00 then Some (old, b) else dec b
  end.

Lemma get_put z rest : get_field 0 (put_field z ++ rest) = Some (z, rest).
Proof.
  unfold put_field. destruct (Z.eqb_spec z 0) as [->|]; [done|].
  transitivity (dec (A := Z) (enc z ++ rest)); [done|apply dec_enc].
Qed.

Definition put_reply (r : reply) : bytes := put_field r.1 ++ put_field r.2.
Definition get_reply (old : reply) (b : bytes) : option (reply * bytes) :=
  '(x, b) ← get_field old.1 b; '(y, b) ← get_field old.2 b; Some ((x, y), b).

Lemma get_put_reply (r : reply) rest : get_reply (0, 0) (put_reply r ++ rest) = Some (r, rest).
Proof.
  destruct r as [x y]. unfold get_reply, put_reply. rewrite <- app_assoc. simpl.
  rewrite get_put. simpl. by rewrite get_put.
Qed.

(** The state on either side: whether the type was described. *)
#[local, program] Instance reply_GobStream : GobStream := {|
  enc_state := bool; dec_state := bool; enc_new := false; dec_new := false;
  in_step es ds := es = ds |}.
Next Obligation. done. Qed.

Definition reply_enc (es : bool) (r : reply) : bool * bytes * bool :=
  (true, (if es then [] else [Init.Byte.x02]) ++ put_reply r, true).

Definition reply_dec (ds : bool) (old : reply) (b : bytes) : bool * reply * bytes * bool :=
  let body := if ds then Some b
              else match b with d :: b => if Byte.eqb d Init.Byte.x02 then Some b else None | [] => None end in
  match body ≫= get_reply old with
  | Some (r, rest) => (true, r, rest, true)
  | None => (ds, old, b, false)
  end.

#[local, program] Instance reply_GobInto isUpper : GobInto reply_types isUpper reply := {|
  gob_enc := reply_enc; gob_dec := reply_dec |}.
Next Obligation.
  intros isUpper es ds [u v] r -> _ _ _ Hz. simpl in Hz. rewrite andb_true_r in Hz.
  apply andb_true_iff in Hz as [->%Z.eqb_eq ->%Z.eqb_eq].
  eexists _, _, true. split; [done|]. split; [|split; [done|]].
  - destruct ds; [|done]. simpl. unfold put_reply, put_field. by case_match.
  - intros rest. unfold reply_dec. destruct ds; simpl; by rewrite get_put_reply.
Qed.

Lemma reply_closed : closed reply_types reply_universe.
Proof.
  intros t t'. unfold reply_universe. rewrite !elem_of_union, !elem_of_singleton.
  intros [[->| ->]| ->]; simpl; set_solver.
Qed.

Definition all_upper (_ : string) : bool := true.

Lemma encode_decode_roundtrip_witness :
  exists g1 enc, Encode_all reply_types all_upper 4 [(5, 0); (0, 7)] (NewEncoder []) (mkG ∅ 0) =
      Ret (g1, enc, [true; true]) /\
    exists g2 dec, Decode_all reply_types all_upper 4 [(0, 0); (0, 0)] (NewDecoder (written enc)) (mkG ∅ 0) =
        Ret (g2, dec, [((5, 0), true); ((0, 7), true)]) /\ unread dec = [].
Proof.
  apply (encode_decode_roundtrip (A := reply) reply_types all_upper 4 reply_universe reply_closed
    ltac:(by vm_compute; lia) ltac:(unfold reply_universe; set_solver)
    ltac:(unfold reply_universe; set_solver) [(5, 0); (0, 7)] [(0, 0); (0, 0)] (mkG ∅ 0));
    [constructor|done|by repeat constructor].
Defined.

(** The second value of a stream, into a variable that is in use. *)
Lemma Decode_warns_or_restores_witness :
  exists ge' es' b ok, Encode reply_types all_upper 4 (5, 0) (mkLabEncoder true []) (mkG ∅ 0) =
      Ret (ge', mkLabEncoder es' ([] ++ b), ok) /\
    exists gd' dec e ok', Decode reply_types all_upper 4 (3, 4) (mkLabDecoder true (b ++ [])) (mkG ∅ 0) =
        Ret (gd', dec, e, ok') /\
      (0 < errorCount gd' \/
       ok = true /\ ok' = true /\ e = (5, 0) /\ unread dec = [] /\ es' = dec_gob dec).
Proof.
  apply (Decode_warns_or_restores (A := reply) reply_types all_upper 4 reply_universe reply_closed
    ltac:(by vm_compute; lia) ltac:(unfold reply_universe; set_solver)
    ltac:(unfold reply_universe; set_solver) (5, 0) (3, 4) true true [] [] (mkG ∅ 0) (mkG ∅ 0));
    [constructor|constructor|done|done|done].
Defined.

(** What the warning is about: a reply decoded into a variable that is in use
    keeps the fields that were sent as zero. *)
Example stale_field :
  match Decode reply_types all_upper 4 (3, 4) (mkLabDecoder true (put_reply (5, 0))) (mkG ∅ 0) with
  | Ret (g, _, r, ok) => errorCount g = 2 /\ r = (5, 4) /\ ok = true
  | _ => False
  end.
Proof. by vm_compute. Qed.
End witnesses.
End LabGobCodec.
