(* ===== verification/MapReduce.v ===== *)
(** MapReduce (src/mr, src/main/mrsequential.go, src/mrapps): the hash that
    assigns keys to reduce tasks, the sequential driver with its grouping loop,
    and the applications. *)
From S2P Require Import Prelude.
From stdpp Require Import pretty.
From Stdlib Require Import Ascii.
#[local] Open Scope Z_scope.

Module MapReduce.

(** ** mr/worker.go *)

Record KeyValue := mkKV { kv_Key : string; kv_Value : string }.

(** FNV-1a on 32 bits ([hash/fnv]). *)
Definition fnv_step (h : Z) (c : ascii) : Z :=
  u32 (Z.lxor h (Z.of_N (N_of_ascii c)) * 16777619).

Fixpoint fnv32a (h : Z) (s : string) : Z :=
  match s with EmptyString => h | String c s => fnv32a (fnv_step h c) s end.

Definition ihash (key : string) : Z := Z.land (fnv32a 2166136261 key) 0x7fffffff.

(** The example RPC (mr/coordinator.go, mr/rpc.go), and the skeleton. *)
Record ExampleArgs := mkExampleArgs { X : Z }.
Record ExampleReply := mkExampleReply { Y : Z }.

Definition Example_ (args : ExampleArgs) (reply : ExampleReply) : ExampleReply :=
  mkExampleReply (wrap64 (X args + 1)).

(** [Done] never reports the end of the job. *)
Definition Done : bool := let ret := false in ret.

(** [CallExample], given the RPC: what it prints. *)
Definition CallExample (call : ExampleArgs -> option ExampleReply) : string :=
  match call (mkExampleArgs 99) with
  | Some reply => "reply.Y " ++ pretty (Y reply)
  | None => "call failed!"
  end.

(** ** mrsequential.go *)

Section sequential.
Context {GS : GoSort}.
Context (mapf : string -> string -> list KeyValue) (reducef : string -> list string -> string).

(** [ByKey.Less] *)
Definition Less (a b : KeyValue) : bool := String.ltb (kv_Key a) (kv_Key b).

(** The first loop, over the files and their contents. *)
Fixpoint map_files (files : list (string * string)) (intermediate : list KeyValue) :
    list KeyValue :=
  match files with
  | [] => intermediate
  | (filename, content) :: files =>
      let kva := mapf filename content in
      map_files files (intermediate ++ kva)
  end.

(** [for j < len(intermediate) && intermediate[j].Key == intermediate[i].Key] *)
Fixpoint scan (fuel : nat) (l : list KeyValue) (key : string) (j : Z) : result Z :=
  match fuel with
  | O => NoFuel
  | S fuel =>
      if j <? zlen l then
        kv ← of_option (zget l j);
        if String.eqb (kv_Key kv) key then scan fuel l key (j + 1) else Ret j
      else Ret j
  end.

(** The loop over the groups: the lines written. *)
Fixpoint reduce_groups (fuel : nat) (l : list KeyValue) (i : Z) : result (list (string * string)) :=
  match fuel with
  | O => NoFuel
  | S fuel =>
      if i <? zlen l then
        kvi ← of_option (zget l i);
        j ← scan fuel l (kv_Key kvi) (i + 1);
        values ← of_option (option_map (map kv_Value) (zslice l i j));
        let output := reducef (kv_Key kvi) values in
        lines ← reduce_groups fuel l j;
        mret ((kv_Key kvi, output) :: lines)
      else mret []
  end.

(** The lines of mr-out-0, as pairs key and output. *)
Definition mrsequential (fuel : nat) (files : list (string * string)) :
    result (list (string * string)) :=
  let intermediate := gosort Less (map_files files []) in
  reduce_groups fuel intermediate 0.
End sequential.

(** ** mrapps *)

Section apps.
Context {GS : GoSort}.

(** [unicode.IsLetter]; a text is a string of one-byte characters. *)
Context (IsLetter : ascii -> bool).

(** [strings.FieldsFunc(s, f)]: the maximal runs without separators; [cur] is
    the run being read, reversed. *)
Fixpoint FieldsFunc_from (f : ascii -> bool) (s : string) (cur : list ascii) : list string :=
  match s with
  | EmptyString => if cur is [] then [] else [String.string_of_list_ascii (rev cur)]
  | String c s =>
      if f c then (if cur is [] then [] else [String.string_of_list_ascii (rev cur)])
                  ++ FieldsFunc_from f s []
      else FieldsFunc_from f s (c :: cur)
  end.

Definition FieldsFunc (s : string) (f : ascii -> bool) : list string := FieldsFunc_from f s [].

(** [strings.Join] *)
Fixpoint Join (l : list string) (sep : string) : string :=
  match l with
  | [] => ""
  | [x] => x
  | x :: l => x ++ sep ++ Join l sep
  end.

Definition Itoa (n : Z) : string := pretty n.

Definition words (contents : string) : list string :=
  FieldsFunc contents (fun r => negb (IsLetter r)).

(** wc.go *)
Definition wc_Map (filename contents : string) : list KeyValue :=
  map (fun w => mkKV w "1") (words contents).
Definition wc_Reduce (key : string) (values : list string) : string := Itoa (zlen values).

(** indexer.go: the order in which the map gives its keys is unspecified. *)
Definition indexer_Map (document value : string) : list KeyValue :=
  map (fun w => mkKV w document) (elements (list_to_set (words value) : gset string)).
Definition indexer_Reduce (key : string) (values : list string) : string :=
  let values := gosort String.ltb values in
  Itoa (zlen values) ++ " " ++ Join values ",".

(** crash.go: [rr] is the random number of [maybeCrash]. *)
Inductive mood := Crash | Delay | Continue.
Definition maybeCrash (rr : Z) : mood :=
  if rr <? 330 then Crash else if rr <? 660 then Delay else Continue.
Definition crash_pairs (filename contents : string) : list KeyValue :=
  [mkKV "a" filename; mkKV "b" (Itoa (Z.of_nat (String.length filename)));
   mkKV "c" (Itoa (Z.of_nat (String.length contents))); mkKV "d" "xyzzy"].
Definition crash_Map (rr : Z) (filename contents : string) : option (list KeyValue) :=
  match maybeCrash rr with Crash => None | _ => Some (crash_pairs filename contents) end.
Definition sorted_join (values : list string) : string := Join (gosort String.ltb values) " ".
Definition crash_Reduce (rr : Z) (key : string) (values : list string) : option string :=
  match maybeCrash rr with Crash => None | _ => Some (sorted_join values) end.

(** nocrash.go *)
Definition nocrash_maybeCrash (rr : Z) : mood := if false && (rr <? 500) then Crash else Continue.
Definition nocrash_Map (rr : Z) (filename contents : string) : option (list KeyValue) :=
  match nocrash_maybeCrash rr with Crash => None | _ => Some (crash_pairs filename contents) end.
Definition nocrash_Reduce (rr : Z) (key : string) (values : list string) : option string :=
  match nocrash_maybeCrash rr with Crash => None | _ => Some (sorted_join values) end.

(** early_exit.go; the sleep has no effect on the result. *)
Definition early_exit_Map (filename contents : string) : list KeyValue := [mkKV filename "1"].
Definition early_exit_Reduce (key : string) (values : list string) : string :=
  Itoa (zlen values).

(** rtiming.go and jobcount.go, the parts that are not about the system. *)
Definition rtiming_Map (filename contents : string) : list KeyValue :=
  map (fun k => mkKV k "1") ["a"; "b"; "c"; "d"; "e"; "f"; "g"; "h"; "i"; "j"].
Definition mtiming_Reduce (key : string) (values : list string) : string := sorted_join values.

(** [nparallel]: the workers of the phase that are alive; [scanned] is the
    result of [Sscanf] on each file name, [alive] the result of the signal. *)
Definition nparallel (names : list string) (scanned : string -> option Z) (alive : Z -> bool) : Z :=
  foldl (fun ret name =>
    match scanned name with
    | Some xpid => if alive xpid then ret + 1 else ret
    | None => ret
    end) 0 names.
(** mtiming.go has the same function; [names] holds the worker's own file, which
    it wrote, and [ts] is the time, printed. *)
Definition mtiming_nparallel (names : list string) (scanned : string -> option Z)
    (alive : Z -> bool) : Z := nparallel names scanned alive.
Definition mtiming_Map (names : list string) (scanned : string -> option Z) (alive : Z -> bool)
    (pid : Z) (ts : string) (filename contents : string) : list KeyValue :=
  let n := mtiming_nparallel names scanned alive in
  [mkKV ("times-" ++ Itoa pid) ts; mkKV ("parallel-" ++ Itoa pid) (Itoa n)].
Definition rtiming_Reduce (names : list string) (scanned : string -> option Z) (alive : Z -> bool)
    (key : string) (values : list string) : string := Itoa (nparallel names scanned alive).

(** jobcount.go: [names] is the directory. *)
Definition jobcount_Map (filename contents : string) : list KeyValue := [mkKV "a" "x"].
Definition jobcount_Reduce (names : list string) (key : string) (values : list string) : string :=
  Itoa (foldl (fun n f => if String.prefix "mr-worker-jobcount" f then n + 1 else n) 0 names).
End apps.

(** ** The order on strings *)

Lemma compare_cons c a d b :
  String.compare (String c a) (String d b) =
    match N.compare (N_of_ascii c) (N_of_ascii d) with Eq => String.compare a b | r => r end.
Proof. done. Qed.

Lemma compare_ge_trans a b c :
  String.compare a b <> Lt -> String.compare b c <> Lt -> String.compare a c <> Lt.
Proof.
  revert b c. induction a as [|x a IH]; intros [|y b] [|z c]; try done.
  rewrite !compare_cons. intros Hab Hbc.
  destruct (N.compare_spec (N_of_ascii x) (N_of_ascii y)) as [Hxy|Hxy|Hxy]; try done;
    destruct (N.compare_spec (N_of_ascii y) (N_of_ascii z)) as [Hyz|Hyz|Hyz]; try done;
    destruct (N.compare_spec (N_of_ascii x) (N_of_ascii z)) as [Hxz|Hxz|Hxz]; try done; try lia.
  by apply (IH b c).
Qed.

Lemma ltb_weak_order : weak_order String.ltb.
Proof.
  unfold String.ltb. split.
  - intros a b. rewrite (String.compare_antisym b a). by destruct (String.compare a b).
  - intros a b c Hab Hbc. pose proof (compare_ge_trans a b c) as Ht.
    destruct (String.compare a b), (String.compare b c), (String.compare a c); try done;
      exfalso; by apply Ht.
Qed.

Lemma ltb_total a b : String.ltb a b = false -> String.ltb b a = false -> a = b.
Proof.
  unfold String.ltb. rewrite (String.compare_antisym b a). intros Hab Hba.
  apply String.compare_eq_iff. by destruct (String.compare a b).
Qed.

Lemma Less_weak_order : weak_order Less.
Proof.
  destruct ltb_weak_order as [Ha Ht]. split; unfold Less.
  - intros a b. apply Ha.
  - intros a b c. apply Ht.
Qed.

(** ** Assigning keys to reduce tasks *)

Lemma fnv32a_range h s : 0 <= h < 2 ^ 32 -> 0 <= fnv32a h s < 2 ^ 32.
Proof.
  revert h. induction s as [|c s IH]; intros h Hh; [done|]. simpl. apply IH.
  unfold fnv_step, u32. by apply Z.mod_pos_bound.
Qed.

(** [ihash(key) % NReduce] is a task number: the hash is not negative, so the
    remainder of the code is in range. *)
Theorem ihash_task key nReduce :
  0 < nReduce -> 0 <= ihash key < 2 ^ 31 /\ 0 <= Z.rem (ihash key) nReduce < nReduce.
Proof.
  intros Hn. assert (0 <= ihash key < 2 ^ 31) as Hr.
  { unfold ihash. change 0x7fffffff with (Z.ones 31). rewrite Z.land_ones by lia.
    apply Z.mod_pos_bound. lia. }
  split; [done|]. rewrite Z.rem_mod_nonneg by lia. apply Z.mod_pos_bound. lia.
Qed.

(** ** The grouping loop *)

Section grouping.
Context (reducef : string -> list string -> string).
Implicit Types (l rest r : list KeyValue).

(** The longest prefix with the given key, and the rest. *)
Fixpoint run (key : string) l : list KeyValue * list KeyValue :=
  match l with
  | [] => ([], [])
  | kv :: l' => if String.eqb (kv_Key kv) key
                then let '(r, rest) := run key l' in (kv :: r, rest) else ([], l)
  end.

Lemma run_app key l : (run key l).1 ++ (run key l).2 = l.
Proof.
  induction l as [|kv l IH]; [done|]. simpl. destruct (String.eqb _ _); [|done].
  destruct (run key l) as [r rest]. simpl in *. by rewrite IH.
Qed.

Lemma run_keys key l : Forall (fun kv => kv_Key kv = key) (run key l).1.
Proof.
  induction l as [|kv l IH]; simpl; [constructor|].
  destruct (String.eqb_spec (kv_Key kv) key); [|constructor].
  destruct (run key l) as [r rest]. by constructor.
Qed.

Lemma run_head key l kv rest : (run key l).2 = kv :: rest -> kv_Key kv <> key.
Proof.
  induction l as [|kv' l IH]; simpl; [done|].
  destruct (String.eqb_spec (kv_Key kv') key); [|by intros [= <- <-]].
  destruct (run key l) as [r rest']. exact IH.
Qed.

Lemma scan_run key pre rest fuel :
  (length rest < fuel)%nat ->
  scan fuel (pre ++ rest) key (zlen pre) = Ret (zlen pre + zlen (run key rest).1).
Proof.
  revert pre rest. induction fuel as [|fuel IH]; intros pre rest Hf; [lia|]. simpl.
  rewrite zlen_app. destruct rest as [|kv rest]; simpl in *.
  { change (zlen []) with 0. rewrite Z.ltb_irrefl || (rewrite Z.add_0_r, Z.ltb_irrefl); f_equal; lia. }
  pose proof (zlen_nonneg rest). rewrite zlen_cons.
  destruct (zlen pre <? zlen pre + (zlen rest + 1)) eqn:E; bsimp; [|lia].
  rewrite zget_app_r, Z.sub_diag by lia. simpl.
  destruct (String.eqb_spec (kv_Key kv) key) as [Heq|Hne].
  - replace (pre ++ kv :: rest) with ((pre ++ [kv]) ++ rest) by (by rewrite <- app_assoc).
    replace (zlen pre + 1) with (zlen (pre ++ [kv])) by (by rewrite zlen_app).
    rewrite IH by lia. destruct (run key rest) as [r rest']. unfold zlen. simpl.
    rewrite length_app. f_equal. simpl. lia.
  - cbn [fst]. unfold zlen. f_equal. simpl. lia.
Qed.

(** What the loop computes on a list sorted by key. *)
Definition grouped l (lines : list (string * string)) : Prop :=
  NoDup lines.*1 /\ sorted_by String.ltb lines.*1 /\
  (forall k, k ∈ lines.*1 <-> k ∈ map kv_Key l) /\
  Forall (fun p => p.2 = reducef p.1 (map kv_Value (filter (fun kv => kv_Key kv = p.1) l))) lines.

Lemma sorted_by_app_r {A} (less : A -> A -> bool) (r l : list A) :
  sorted_by less (r ++ l) -> sorted_by less l.
Proof.
  induction r as [|z r IH]; [done|]. intros Hs. apply IH. by apply sorted_by_cons in Hs as [_ ?].
Qed.

Lemma sorted_tail_keys kv r rest :
  sorted_by Less (kv :: r ++ rest) -> Forall (fun x => kv_Key x = kv_Key kv) r ->
  (forall x xs, rest = x :: xs -> kv_Key x <> kv_Key kv) ->
  forall x, x ∈ rest -> kv_Key x <> kv_Key kv.
Proof.
  intros Hs Hr Hhd x Hx Heq. destruct rest as [|y rest]; [by apply elem_of_nil in Hx|].
  specialize (Hhd y rest eq_refl). apply sorted_by_cons in Hs as [Hall Hs].
  assert (Less y kv = false) as Hyk.
  { rewrite Forall_forall in Hall. apply Hall. set_solver. }
  apply Hhd, ltb_total; [exact Hyk|].
  apply elem_of_cons in Hx as [->|Hx]; [done|].
  rewrite <- Heq.
  apply sorted_by_app_r in Hs.
  apply sorted_by_cons in Hs as [Hy _]. rewrite Forall_forall in Hy. by apply Hy.
Qed.

Lemma filter_none {A} (P : A -> Prop) `{!forall x, Decision (P x)} (l : list A) :
  (forall x, x ∈ l -> ~ P x) -> filter P l = [].
Proof.
  induction l as [|x l IH]; intros Hn; [done|].
  rewrite filter_cons_False by (apply Hn; set_solver). apply IH. set_solver.
Qed.

Lemma filter_every {A} (P : A -> Prop) `{!forall x, Decision (P x)} (l : list A) :
  Forall P l -> filter P l = l.
Proof. induction 1 as [|x l Hx _ IH]; [done|]. by rewrite filter_cons_True, IH. Qed.

(** A run of one key, and the groups of the rest. *)
Lemma grouped_cons kv r rest lines :
  Forall (fun x => kv_Key x = kv_Key kv) r -> (forall x, x ∈ rest -> kv_Key x <> kv_Key kv) ->
  (forall x, x ∈ rest -> Less x kv = false) -> grouped rest lines ->
  grouped (kv :: r ++ rest) ((kv_Key kv, reducef (kv_Key kv) (map kv_Value (kv :: r))) :: lines).
Proof.
  intros Hr Hne Hle (Hnd & Hsl & Hdom & Hval). rewrite Forall_forall in Hr.
  split; [|split; [|split]].
  - simpl. constructor; [|done]. rewrite Hdom. intros (x & Hk & Hx)%list_elem_of_fmap.
    by apply (Hne x).
  - simpl. apply sorted_by_cons. split; [|done]. apply Forall_forall. intros k Hk.
    apply Hdom, list_elem_of_fmap in Hk as (x & -> & Hx). by apply (Hle x).
  - intros k. simpl. rewrite elem_of_cons, Hdom, map_app, elem_of_cons, elem_of_app.
    split; [naive_solver|]. intros [|[Hin|]]; [naive_solver| |naive_solver].
    apply list_elem_of_fmap in Hin as (x & -> & Hx). left. by apply Hr.
  - constructor.
    + simpl. rewrite filter_cons_True by done. rewrite filter_app.
      rewrite (filter_every _ r) by by apply Forall_forall. by rewrite filter_none, app_nil_r.
    + apply Forall_forall. intros [k out] Hp. rewrite Forall_forall in Hval.
      specialize (Hval _ Hp). simpl in *.
      assert (k <> kv_Key kv) as Hk.
      { assert (k ∈ lines.*1) as Hin by (by apply (list_elem_of_fmap_2 fst) in Hp).
        apply Hdom in Hin. apply list_elem_of_fmap in Hin as (x & -> & Hx). by apply Hne. }
      rewrite filter_cons_False by congruence. rewrite filter_app, (filter_none _ r); [done|].
      intros x Hx Heq. apply Hk. rewrite <- Heq. by apply Hr.
Qed.

Lemma zslice_middle {A} (pre mid rest : list A) i j :
  i = zlen pre -> j = zlen pre + zlen mid -> zslice (pre ++ mid ++ rest) i j = Some mid.
Proof.
  intros -> ->. apply zslice_Some. pose proof (zlen_nonneg pre). pose proof (zlen_nonneg mid).
  pose proof (zlen_nonneg rest). rewrite !zlen_app. split; [lia|]. split; [lia|].
  replace (Z.to_nat (zlen pre)) with (length pre) by (unfold zlen; lia). rewrite drop_app_length.
  replace (Z.to_nat (zlen pre + zlen mid - zlen pre)) with (length mid) by (unfold zlen; lia).
  by rewrite take_app_length.
Qed.

Lemma reduce_groups_spec pre rest fuel :
  sorted_by Less rest -> (length rest < fuel)%nat ->
  exists lines, reduce_groups reducef fuel (pre ++ rest) (zlen pre) = Ret lines /\
    grouped rest lines.
Proof.
  revert pre rest. induction fuel as [|fuel IH]; intros pre rest Hs Hf; [lia|]. simpl.
  rewrite zlen_app. destruct rest as [|kv rest]; simpl in *.
  { change (zlen []) with 0. rewrite Z.add_0_r, Z.ltb_irrefl. exists [].
    split; [done|]. split; [constructor|]. split; [apply sorted_by_nil|].
    split; [done|constructor]. }
  pose proof (zlen_nonneg rest) as Hpos. rewrite zlen_cons.
  destruct (zlen pre <? zlen pre + (zlen rest + 1)) eqn:E; bsimp; [|lia]. clear E Hpos.
  rewrite zget_app_r, Z.sub_diag by lia. simpl.
  pose proof (scan_run (kv_Key kv) (pre ++ [kv]) rest fuel ltac:(lia)) as Hscan.
  rewrite <- app_assoc, zlen_app in Hscan. change (zlen [kv]) with 1 in Hscan. simpl in Hscan.
  rewrite Hscan. clear Hscan. simpl.
  pose proof (run_app (kv_Key kv) rest) as Hrest. pose proof (run_keys (kv_Key kv) rest) as Hr.
  pose proof (run_head (kv_Key kv) rest) as Hhd.
  destruct (run (kv_Key kv) rest) as [r rest']. simpl in *. subst rest.
  rewrite (zslice_middle pre (kv :: r) rest') by (rewrite ?zlen_cons; lia). simpl.
  pose proof (proj1 (sorted_by_cons Less kv (r ++ rest')) Hs) as [Hle Hs'].
  apply Forall_app in Hle as [_ Hle]. rewrite Forall_forall in Hle. apply sorted_by_app_r in Hs'.
  destruct (IH (pre ++ kv :: r) rest' Hs') as (lines & Hl & Hgr).
  { rewrite length_app in Hf. lia. }
  rewrite <- app_assoc, zlen_app, zlen_cons in Hl. simpl in Hl.
  replace (zlen pre + 1 + zlen r) with (zlen pre + (zlen r + 1)) by lia. rewrite Hl. simpl.
  eexists. split; [done|]. apply grouped_cons; try done.
  by apply (sorted_tail_keys kv r rest').
Qed.
End grouping.

(** ** The sequential driver *)

(** All the pairs of the map phase. *)
Definition emitted (mapf : string -> string -> list KeyValue) (files : list (string * string)) :
    list KeyValue := flat_map (fun f => mapf f.1 f.2) files.

Lemma map_files_emitted mapf files pre :
  map_files mapf files pre = pre ++ emitted mapf files.
Proof.
  revert pre. induction files as [|[f c] files IH]; intros pre; simpl; [by rewrite app_nil_r|].
  by rewrite IH, <- app_assoc.
Qed.

Section driver.
Context {GS : GoSort}.

Lemma mrsequential_lines mapf reducef files fuel :
  (length (emitted mapf files) < fuel)%nat ->
  exists lines, mrsequential mapf reducef fuel files = Ret lines /\
    NoDup lines.*1 /\ sorted_by String.ltb lines.*1 /\
    (forall k, k ∈ lines.*1 <-> k ∈ map kv_Key (emitted mapf files)) /\
    forall k out, (k, out) ∈ lines -> exists values,
      values ≡ₚ map kv_Value (filter (fun kv => kv_Key kv = k) (emitted mapf files)) /\
      out = reducef k values.
Proof.
  intros Hf. unfold mrsequential. rewrite map_files_emitted. simpl.
  pose proof (gosort_perm _ Less (emitted mapf files)) as Hp.
  pose proof (gosort_sorted _ Less (emitted mapf files) Less_weak_order) as Hs.
  destruct (reduce_groups_spec reducef [] _ fuel Hs) as (lines & Hl & Hnd & Hsl & Hd & Hv).
  { by rewrite Hp. }
  exists lines. split; [exact Hl|]. split; [done|]. split; [done|]. split.
  - intros k. rewrite Hd. by rewrite Hp.
  - intros k out Hin. rewrite Forall_forall in Hv. specialize (Hv _ Hin). simpl in Hv.
    eexists. split; [|exact Hv]. by rewrite Hp.
Qed.

(** [mrsequential] ends, and mr-out-0 holds one line for each key that the map
    calls emitted, sorted by key; the output of a key is [reducef] of the key
    and of the values that were emitted with it over all the files, every one
    exactly once. *)
Theorem mrsequential_spec mapf reducef files fuel :
  (length (emitted mapf files) < fuel)%nat ->
  exists lines, mrsequential mapf reducef fuel files = Ret lines /\
    NoDup lines.*1 /\ sorted_by String.ltb lines.*1 /\
    (forall k, k ∈ lines.*1 <-> k ∈ map kv_Key (emitted mapf files)) /\
    forall k out, (k, out) ∈ lines -> exists values,
      values ≡ₚ map kv_Value (filter (fun kv => kv_Key kv = k) (emitted mapf files)) /\
      out = reducef k values.
Proof. apply mrsequential_lines. Qed.

(** ** Word count *)

Context (IsLetter : ascii -> bool).

Lemma FieldsFunc_from_fields f s cur :
  Forall (fun c => f c = false) cur ->
  Forall (fun w => w <> EmptyString /\
                   Forall (fun c => f c = false) (String.list_ascii_of_string w))
    (FieldsFunc_from f s cur).
Proof.
  assert (forall cur, Forall (fun c => f c = false) cur ->
    Forall (fun w => w <> EmptyString /\
              Forall (fun c => f c = false) (String.list_ascii_of_string w))
      (if cur is [] then [] else [String.string_of_list_ascii (rev cur)])) as Hflush.
  { intros [|c cur'] Hc; [constructor|]. constructor; [|constructor].
    rewrite String.list_ascii_of_string_of_list_ascii. split.
    - intros Heq. apply (f_equal String.list_ascii_of_string) in Heq.
      rewrite String.list_ascii_of_string_of_list_ascii in Heq. simpl in Heq.
      by destruct (rev cur').
    - by apply Forall_rev. }
  revert cur. induction s as [|c s IH]; intros cur Hc; simpl; [by apply Hflush|].
  destruct (f c) eqn:E; [|apply IH; by constructor].
  apply Forall_app. split; [by apply Hflush|]. apply IH. constructor.
Qed.

Definition all_words (files : list (string * string)) : list string :=
  flat_map (fun f => words IsLetter f.2) files.

Lemma emitted_wc files :
  emitted (wc_Map IsLetter) files = map (fun w => mkKV w "1") (all_words files).
Proof.
  unfold emitted, all_words. induction files as [|[f c] files IH]; [done|]. simpl.
  rewrite IH. by rewrite map_app.
Qed.

Lemma filter_wc k l :
  length (filter (fun kv => kv_Key kv = k) (map (fun w => mkKV w "1") l)) =
  length (filter (fun w => w = k) l).
Proof.
  induction l as [|w l IH]; [done|]. cbn [map]. rewrite !filter_cons. simpl.
  destruct (decide (w = k)); simpl; lia.
Qed.

(** The word count: every line is a word of the inputs - a nonempty run of
    letters -, every word has one, and its number, in decimal, is that of the
    word's occurrences over all the files. *)
Theorem wc_counts files fuel :
  (length (all_words files) < fuel)%nat ->
  exists lines, mrsequential (wc_Map IsLetter) wc_Reduce fuel files = Ret lines /\
    NoDup lines.*1 /\ (forall w, w ∈ lines.*1 <-> w ∈ all_words files) /\
    forall w out, (w, out) ∈ lines ->
      out = Itoa (zlen (filter (fun x => x = w) (all_words files))) /\
      w <> EmptyString /\
      Forall (fun c => IsLetter c = true) (String.list_ascii_of_string w).
Proof.
  intros Hf. destruct (mrsequential_lines (wc_Map IsLetter) wc_Reduce files fuel)
    as (lines & Hl & Hnd & _ & Hd & Hv).
  { by rewrite emitted_wc, length_map. }
  assert (forall w, w ∈ lines.*1 <-> w ∈ all_words files) as Hdom.
  { intros w. rewrite Hd, emitted_wc, map_map. simpl. by rewrite map_id. }
  exists lines. split; [done|]. split; [done|]. split; [done|]. intros w out Hin.
  split.
  - destruct (Hv _ _ Hin) as (values & Hp & ->). unfold wc_Reduce, zlen. f_equal.
    by rewrite Hp, length_map, emitted_wc, filter_wc.
  - assert (w ∈ all_words files) as Hw by (apply Hdom, (list_elem_of_fmap_2 fst _ _ Hin)).
    unfold all_words in Hw. apply list_elem_of_In, in_flat_map in Hw as (f & _ & Hw).
    apply list_elem_of_In in Hw.
    pose proof (FieldsFunc_from_fields (fun r => negb (IsLetter r)) f.2 []
      ltac:(constructor)) as Hff.
    rewrite Forall_forall in Hff. destruct (Hff _ Hw) as [Hne Hl']. split; [done|].
    eapply Forall_impl; [exact Hl'|]. simpl. intros c Hc. by destruct (IsLetter c).
Qed.
End driver.

Section witnesses.
#[local] Existing Instance isort_GoSort.

Definition sample_letter (c : ascii) : bool := (96 <? N_of_ascii c)%N.
Definition sample_files : list (string * string) :=
  [("f", "to be or"); ("g", "not to be")].

Lemma ihash_task_witness : 0 < 10 /\ 0 <= Z.rem (ihash "alpha") 10 < 10.
Proof. split; [done|]. apply (ihash_task "alpha" 10). done. Defined.

Lemma mrsequential_spec_witness :
  exists lines, mrsequential (wc_Map sample_letter) wc_Reduce 20 sample_files = Ret lines /\
    NoDup lines.*1.
Proof.
  destruct (mrsequential_spec (wc_Map sample_letter) wc_Reduce sample_files 20)
    as (lines & Hl & Hnd & _); [vm_compute; lia|]. by exists lines.
Defined.

Lemma wc_counts_witness :
  exists lines, mrsequential (wc_Map sample_letter) wc_Reduce 20 sample_files = Ret lines /\
    NoDup lines.*1.
Proof.
  destruct (wc_counts sample_letter sample_files 20)
    as (lines & Hl & Hnd & _); [vm_compute; lia|]. by exists lines.
Defined.

Example sample_output :
  mrsequential (wc_Map sample_letter) wc_Reduce 20 sample_files =
  Ret [("be", "2"); ("not", "1"); ("or", "1"); ("to", "2")].
Proof. reflexivity. Qed.
End witnesses.
End MapReduce.
