(* ===== verification/MapReduceMain.v ===== *)
(** The MapReduce processes: main/mrsequential.go with its plugin and its files,
    main/mrcoordinator.go and main/mrworker.go with the skeleton of src/mr.
    Plugins, files, sockets and the RPC package are parameters. *)
From S2P Require Import Prelude MapReduce.
Import MapReduce.
#[local] Open Scope string_scope.
#[local] Open Scope Z_scope.

Module MapReduceMain.

(** How a process goes: it ends normally, with status 1 and a message, in a
    panic, or is still running when the fuel is spent. *)
Inductive process (A : Type) :=
  | Ends (a : A)
  | Fails (message : string)
  | Panics
  | Running.
#[global] Arguments Ends {A} _.
#[global] Arguments Fails {A} _.
#[global] Arguments Panics {A}.
#[global] Arguments Running {A}.

#[export] Instance process_bind : MBind process := fun A B f r =>
  match r with Ends a => f a | Fails m => Fails m | Panics => Panics | Running => Running end.

Definition of_result {A} (r : result A) : process A :=
  match r with Ret a => Ends a | Panic => Panics | NoFuel => Running end.

(** ** Plugins *)

Abbreviation mapper := (string -> string -> list KeyValue).
Abbreviation reducer := (string -> list string -> string).

(** What a plugin can export under a name, by its type. *)
Inductive symbol := SMap (f : mapper) | SReduce (f : reducer) | SOther.

Definition plugin := string -> option symbol.

(** The two programs have the same function. *)
Definition loadPlugin (Open : string -> option plugin) (filename : string) :
    process (mapper * reducer) :=
  match Open filename with
  | None => Fails ("cannot load plugin " ++ filename)
  | Some p =>
      match p "Map" with
      | None => Fails ("cannot find Map in " ++ filename)
      | Some (SMap mapf) =>
          match p "Reduce" with
          | None => Fails ("cannot find Reduce in " ++ filename)
          | Some (SReduce reducef) => Ends (mapf, reducef)
          | Some _ => Panics
          end
      | Some _ => Panics
      end
  end.

(** ** The sequential program *)

Section sequential.
Context {GS : GoSort}.

(** [files]: [None] if the file cannot be opened, [Some None] if it cannot be
    read. *)
Context (Open : string -> option plugin) (files : string -> option (option string)).

Fixpoint read_files (names : list string) : process (list (string * string)) :=
  match names with
  | [] => Ends []
  | filename :: names =>
      match files filename with
      | None => Fails ("cannot open " ++ filename)
      | Some None => Fails ("cannot read " ++ filename)
      | Some (Some content) =>
          rest ← read_files names; Ends ((filename, content) :: rest)
      end
  end.

Definition newline : string := String (Ascii.ascii_of_nat 10) "".

(** [fmt.Fprintf(ofile, "%v %v\n", key, output)], for all the lines. *)
Definition format (lines : list (string * string)) : string :=
  foldr (fun l text => l.1 ++ " " ++ l.2 ++ newline ++ text) "" lines.

(** [main]: the contents of mr-out-0. *)
Definition mrsequential_main (fuel : nat) (Args : list string) : process string :=
  match Args with
  | _ :: sofile :: name :: names =>
      '(mapf, reducef) ← loadPlugin Open sofile;
      contents ← read_files (name :: names);
      lines ← of_result (mrsequential mapf reducef fuel contents);
      Ends (format lines)
  | _ => Fails "Usage: mrsequential xxx.so inputfiles..."
  end.

Lemma read_files_all (contents : list (string * string)) :
  Forall (fun f => files f.1 = Some (Some f.2)) contents ->
  read_files contents.*1 = Ends contents.
Proof.
  induction 1 as [|[name content] contents Hf _ IH]; [done|].
  cbn [fmap list_fmap fst snd read_files] in *. rewrite Hf. fold (contents.*1). by rewrite IH.
Qed.

(** C28. With a plugin that exports the two functions and one file or more, all of
    which can be read, the program writes one line per key that the map calls emitted, in the order of
    the keys, with what [Reduce] makes of all the values of the key. *)
Theorem mrsequential_main_writes prog sofile contents p mapf reducef fuel :
  Open sofile = Some p -> p "Map" = Some (SMap mapf) -> p "Reduce" = Some (SReduce reducef) ->
  contents <> [] -> Forall (fun f => files f.1 = Some (Some f.2)) contents ->
  (length (emitted mapf contents) < fuel)%nat ->
  exists lines, mrsequential_main fuel (prog :: sofile :: contents.*1) = Ends (format lines) /\
    NoDup lines.*1 /\ sorted_by String.ltb lines.*1 /\
    (forall k, k ∈ lines.*1 <-> k ∈ map kv_Key (emitted mapf contents)) /\
    forall k out, (k, out) ∈ lines -> exists values,
      values ≡ₚ map kv_Value (filter (fun kv => kv_Key kv = k) (emitted mapf contents)) /\
      out = reducef k values.
Proof.
  intros Hp Hm Hr Hne Hf Hfuel.
  destruct (mrsequential_lines mapf reducef contents fuel Hfuel) as (lines & Hseq & Hrest).
  exists lines. split; [|exact Hrest]. pose proof (read_files_all contents Hf) as Hread.
  destruct contents as [|f contents]; [done|]. unfold mrsequential_main.
  change ((f :: contents).*1) with (f.1 :: contents.*1) in *. cbn iota.
  unfold loadPlugin. rewrite Hp, Hm, Hr. cbn [mbind process_bind]. rewrite Hread.
  cbn [mbind process_bind]. by rewrite Hseq.
Qed.
End sequential.

(** ** The coordinator and the workers *)

(** The struct of the skeleton is empty. *)
Record Coordinator := mkCoordinator {}.

Definition coordinatorSock (uid : Z) : string := "/var/tmp/5840-mr-" ++ Itoa uid.

(** [net.Listen] on a socket that was removed before. *)
Definition server (listen : string -> bool) (uid : Z) (c : Coordinator) : process unit :=
  let sockname := coordinatorSock uid in
  if listen sockname then Ends tt else Fails "listen error:".

Definition MakeCoordinator (listen : string -> bool) (uid : Z) (files : list string) (nReduce : Z) :
    process Coordinator :=
  let c := mkCoordinator in
  _ ← server listen uid c; Ends c.

(** [dial]: the connection, as the function that performs a call. *)
Definition call {A R : Type} (dial : string -> option (string -> A -> option R)) (uid : Z)
    (rpcname : string) (args : A) : process (option R) :=
  let sockname := coordinatorSock uid in
  match dial sockname with
  | None => Fails "dialing:"
  | Some c => Ends (c rpcname args)
  end.

(** [Worker] has an empty body. *)
Definition Worker (mapf : mapper) (reducef : reducer) : unit := tt.

(** The loop [for m.Done() == false]. *)
Fixpoint wait_done (fuel : nat) : process unit :=
  if Done then Ends tt else match fuel with O => Running | S fuel => wait_done fuel end.

Definition mrcoordinator_main (listen : string -> bool) (uid : Z) (fuel : nat) (Args : list string) :
    process unit :=
  if zlen Args <? 2 then Fails "Usage: mrcoordinator inputfiles..."
  else
    _ ← MakeCoordinator listen uid (drop 1 Args) 10;
    wait_done fuel.

Definition mrworker_main (Open : string -> option plugin) (Args : list string) : process unit :=
  match Args with
  | [_; sofile] => '(mapf, reducef) ← loadPlugin Open sofile; Ends (Worker mapf reducef)
  | _ => Fails "Usage: mrworker xxx.so"
  end.

(** The coordinator of the skeleton never exits: with inputs and a socket it can
    listen on, it still runs after any number of rounds. *)
Theorem mrcoordinator_never_exits listen uid fuel Args :
  2 <= zlen Args -> listen (coordinatorSock uid) = true ->
  mrcoordinator_main listen uid fuel Args = Running.
Proof.
  intros Hlen Hl. unfold mrcoordinator_main. destruct (zlen Args <? 2) eqn:E; bsimp; [lia|].
  unfold MakeCoordinator, server. rewrite Hl. simpl. by induction fuel.
Qed.

(** The RPC server of a coordinator that listens for user [uid]. *)
Definition serving (uid : Z) (sockname : string) : option (string -> ExampleArgs -> option ExampleReply) :=
  if String.eqb sockname (coordinatorSock uid) then
    Some (fun rpcname args =>
      if String.eqb rpcname "Coordinator.Example" then Some (Example_ args (mkExampleReply 0)) else None)
  else None.

(** The example call reaches the example handler: the reply is 100. *)
Theorem example_call uid :
  (r ← call (serving uid) uid "Coordinator.Example" (mkExampleArgs 99); Ends (CallExample (fun _ => r))) =
    Ends "reply.Y 100".
Proof. unfold call, serving. by rewrite String.eqb_refl. Qed.

Section witnesses.
#[local] Existing Instance isort_GoSort.
Definition wc_plugin (name : string) : option symbol :=
  if String.eqb name "Map" then Some (SMap (wc_Map sample_letter))
  else if String.eqb name "Reduce" then Some (SReduce wc_Reduce) else None.

Lemma mrcoordinator_never_exits_witness :
  mrcoordinator_main (fun _ => true) 1000 5 ["mrcoordinator"; "pg-being_ernest.txt"] = Running.
Proof. apply mrcoordinator_never_exits; [by vm_compute|done]. Defined.

Lemma mrsequential_main_writes_witness :
  exists lines, mrsequential_main (fun _ => Some wc_plugin) (fun _ => Some (Some "a b a")) 4
    ["mrsequential"; "wc.so"; "f"] = Ends (format lines) /\ NoDup lines.*1.
Proof.
  destruct (mrsequential_main_writes (fun _ => Some wc_plugin) (fun _ => Some (Some "a b a"))
    "mrsequential" "wc.so" [("f", "a b a")] wc_plugin (wc_Map sample_letter) wc_Reduce 4)
    as (lines & Hrun & Hnd & _); [done|done|done|done|by repeat constructor|by vm_compute; lia|].
  by exists lines.
Defined.
End witnesses.
End MapReduceMain.
