(* ===== verification/ShardCtrler.v ===== *)
(** ShardCtrler (src/shardctrler): the configurations, the server - whose
    handlers are empty in this commit - and the clerk's retry loops. *)
From S2P Require Import Prelude Persister RaftNode.
Import Persister Raft.

Module ShardCtrler.

(** ** common.go *)

Definition NShards : Z := 10.

(** [Shards] is an array of [NShards] group numbers. *)
Record Config := mkConfig { Num : Z; Shards : list Z; Groups : gmap Z (list string) }.

(** The zero value, and what it says of lookups in a nil map. *)
Definition zero_Config : Config := mkConfig 0 (replicate (Z.to_nat NShards) 0) ∅.

Record JoinArgs := mkJoinArgs { Servers : gmap Z (list string) }.
Record LeaveArgs := mkLeaveArgs { GIDs : list Z }.
Record MoveArgs := mkMoveArgs { Shard : Z; GID : Z }.
Record QueryArgs := mkQueryArgs { qa_Num : Z }.

(** [JoinReply], [LeaveReply] and [MoveReply] have the same fields. *)
Record StatusReply := mkStatus { sr_WrongLeader : bool; sr_Err : string }.
Record QueryReply := mkQueryReply {
  qr_WrongLeader : bool; qr_Err : string; qr_Config : Config }.

Definition zero_StatusReply : StatusReply := mkStatus false "".
Definition zero_QueryReply : QueryReply := mkQueryReply false "" zero_Config.

(** ** server.go *)

(** [Op] has no field. *)
Record ShardCtrler := mkShardCtrler { sc_me : Z; sc_rf : Raft unit; configs : list Config }.

(** The handlers are empty: the state and the reply are as they were. *)
Definition Join_handler (args : JoinArgs) (reply : StatusReply) (sc : ShardCtrler) := (sc, reply).
Definition Leave_handler (args : LeaveArgs) (reply : StatusReply) (sc : ShardCtrler) := (sc, reply).
Definition Move_handler (args : MoveArgs) (reply : StatusReply) (sc : ShardCtrler) := (sc, reply).
Definition Query_handler (args : QueryArgs) (reply : QueryReply) (sc : ShardCtrler) := (sc, reply).

Definition Kill_ctrler (sc : ShardCtrler) : ShardCtrler :=
  mkShardCtrler (sc_me sc) (Kill (sc_rf sc)) (configs sc).

Section start.
Context `{!Gob Z, !Gob (list (LogEntry unit))}.

Definition StartServer (servers me : Z) (persister : Persister) (k : tick) :
    ShardCtrler * list spawn :=
  let '(rf, sp) := Make servers me persister k in
  (mkShardCtrler me rf [zero_Config], sp).
End start.

(** ** client.go *)

Section clerk.
(** A client end. *)
Context {E : Type}.

Record Clerk := mkClerk { ck_servers : list E }.

Definition MakeClerk (servers : list E) : Clerk := mkClerk servers.

Section retry.
Context {R : Type}.
(** [call srv n] is what the [n]-th RPC, sent on [srv], brings back. *)
Context (call : E -> nat -> option R) (WrongLeader : R -> bool).

(** [for _, srv := range ck.servers]; the number of the next call. *)
Fixpoint try_each (servers : list E) (n : nat) : nat * option R :=
  match servers with
  | [] => (n, None)
  | srv :: servers =>
      match call srv n with
      | Some reply => if WrongLeader reply then try_each servers (S n) else (S n, Some reply)
      | None => try_each servers (S n)
      end
  end.

(** [for { ... time.Sleep(...) }] *)
Fixpoint try_forever (fuel : nat) (ck : Clerk) (n : nat) : result (nat * R) :=
  match fuel with
  | O => NoFuel
  | S fuel =>
      let '(n, r) := try_each (ck_servers ck) n in
      match r with
      | Some reply => Ret (n, reply)
      | None => try_forever fuel ck n
      end
  end.
End retry.

Definition Query (fuel : nat) (call : QueryArgs -> E -> nat -> option QueryReply) (ck : Clerk)
    (num : Z) (n : nat) : result (nat * Config) :=
  '(n, reply) ← try_forever (call (mkQueryArgs num)) qr_WrongLeader fuel ck n;
  mret (n, qr_Config reply).

Definition Join (fuel : nat) (call : JoinArgs -> E -> nat -> option StatusReply) (ck : Clerk)
    (servers : gmap Z (list string)) (n : nat) : result nat :=
  '(n, _) ← try_forever (call (mkJoinArgs servers)) sr_WrongLeader fuel ck n;
  mret n.

Definition Leave (fuel : nat) (call : LeaveArgs -> E -> nat -> option StatusReply) (ck : Clerk)
    (gids : list Z) (n : nat) : result nat :=
  '(n, _) ← try_forever (call (mkLeaveArgs gids)) sr_WrongLeader fuel ck n;
  mret n.

Definition Move (fuel : nat) (call : MoveArgs -> E -> nat -> option StatusReply) (ck : Clerk)
    (shard gid : Z) (n : nat) : result nat :=
  '(n, _) ← try_forever (call (mkMoveArgs shard gid)) sr_WrongLeader fuel ck n;
  mret n.
End clerk.
Arguments Clerk : clear implicits.

(** ** The retry loop *)

Section retry.
Context {E R : Type} (call : E -> nat -> option R) (WrongLeader : R -> bool).
Implicit Types (servers : list E) (ck : Clerk E).

(** The answer the loop accepts. *)
Definition accepted (srv : E) (n : nat) : option R :=
  match call srv n with
  | Some reply => if WrongLeader reply then None else Some reply
  | None => None
  end.

(** The loop sends its [m]-th call to server [m mod len(servers)]. *)
Definition round_robin servers (n m : nat) : option R :=
  srv ← servers !! (m mod length servers)%nat; accepted srv (n + m).

Lemma try_each_none servers n :
  (forall i srv, servers !! i = Some srv -> accepted srv (n + i) = None) ->
  try_each call WrongLeader servers n = ((n + length servers)%nat, None).
Proof.
  revert n. induction servers as [|srv servers IH]; intros n Hno; simpl.
  { by rewrite Nat.add_0_r. }
  rewrite Nat.add_succ_r, <- Nat.add_succ_l. rewrite <- (IH (S n)).
  - specialize (Hno 0%nat srv eq_refl). unfold accepted in Hno. rewrite Nat.add_0_r in Hno.
    destruct (call srv n) as [r|]; [|done]. by destruct (WrongLeader r).
  - intros i srv' Hi. specialize (Hno (S i) srv' Hi). by rewrite Nat.add_succ_r in Hno.
Qed.

Lemma try_each_some servers n i srv r :
  (forall j srv, (j < i)%nat -> servers !! j = Some srv -> accepted srv (n + j) = None) ->
  servers !! i = Some srv -> accepted srv (n + i) = Some r ->
  try_each call WrongLeader servers n = (S (n + i), Some r).
Proof.
  revert n i. induction servers as [|s servers IH]; intros n [|i] Hno Hi Hr; simpl; try done.
  - injection Hi as ->. rewrite Nat.add_0_r in Hr. unfold accepted in Hr.
    destruct (call srv n) as [r'|]; [|done]. destruct (WrongLeader r'); [done|].
    injection Hr as ->. by rewrite Nat.add_0_r.
  - rewrite Nat.add_succ_r, <- Nat.add_succ_l. rewrite <- (IH (S n) i).
    + specialize (Hno 0%nat s ltac:(lia) eq_refl). unfold accepted in Hno.
      rewrite Nat.add_0_r in Hno.
      destruct (call s n) as [r'|]; [|done]. by destruct (WrongLeader r').
    + intros j srv' Hj Hl. rewrite Nat.add_succ_l, <- Nat.add_succ_r.
      apply (Hno (S j)); [lia|done].
    + done.
    + by rewrite Nat.add_succ_l, <- Nat.add_succ_r.
Qed.

Lemma try_forever_first ck n m r fuel :
  ck_servers ck <> [] ->
  (forall k, (k < m)%nat -> round_robin (ck_servers ck) n k = None) ->
  round_robin (ck_servers ck) n m = Some r -> (m / length (ck_servers ck) < fuel)%nat ->
  try_forever call WrongLeader fuel ck n = Ret (S (n + m), r).
Proof.
  intros Hne. destruct ck as [servers]. simpl in *.
  assert (length servers <> 0%nat) as Hl by (by destruct servers).
  revert n m. induction fuel as [|fuel IH]; intros n m Hno Hr Hf; [lia|]. simpl.
  destruct (decide (m < length servers)%nat) as [Hm|Hm].
  - unfold round_robin in Hr. rewrite Nat.mod_small in Hr by done.
    destruct (servers !! m) as [srv|] eqn:Es; [|done]. simpl in Hr.
    rewrite (try_each_some servers n m srv r); [done| |done|done].
    intros j s Hj Hs. specialize (Hno j Hj). unfold round_robin in Hno.
    rewrite Nat.mod_small in Hno by lia. by rewrite Hs in Hno.
  - rewrite try_each_none.
    + assert (forall k, round_robin servers (n + length servers) k =
        round_robin servers n (k + length servers)) as Hshift.
      { intros k. unfold round_robin. rewrite <- (Nat.Div0.add_mod_idemp_r k).
        rewrite Nat.Div0.mod_same, Nat.add_0_r.
        by replace (n + length servers + k)%nat with (n + (k + length servers))%nat by lia. }
      rewrite (IH _ (m - length servers)%nat).
      * f_equal. f_equal. lia.
      * intros k Hk. rewrite Hshift. apply Hno. lia.
      * rewrite Hshift. by replace (m - length servers + length servers)%nat with m by lia.
      * replace m with (m - length servers + 1 * length servers)%nat in Hf by lia.
        rewrite Nat.div_add in Hf by done. lia.
    + intros i srv Hi. specialize (Hno i). unfold round_robin in Hno.
      pose proof (lookup_lt_Some _ _ _ Hi). rewrite Nat.mod_small in Hno by done.
      rewrite Hi in Hno. apply Hno. lia.
Qed.

Lemma try_forever_never ck n fuel :
  (forall k, round_robin (ck_servers ck) n k = None) ->
  try_forever call WrongLeader fuel ck n = NoFuel.
Proof.
  destruct ck as [servers]. simpl. revert n. induction fuel as [|fuel IH]; intros n Hno; [done|].
  simpl. rewrite try_each_none.
  - apply IH. intros k. specialize (Hno (k + length servers)%nat). unfold round_robin in *.
    destruct (decide (length servers = 0%nat)) as [Hz|Hz].
    { by destruct servers. }
    rewrite <- (Nat.Div0.add_mod_idemp_r k), Nat.Div0.mod_same, Nat.add_0_r in Hno.
    by replace (n + length servers + k)%nat with (n + (k + length servers))%nat by lia.
  - intros i srv Hi. specialize (Hno i). unfold round_robin in Hno.
    rewrite Nat.mod_small in Hno by (by apply lookup_lt_Some in Hi). by rewrite Hi in Hno.
Qed.
End retry.

(** ** What the clerk promises *)

(** A query returns the configuration of the first reply, in the order of the
    calls - round robin over the servers -, that is not from a wrong leader;
    rounds without one are retried, and while there is none it does not
    return. *)
Theorem Query_first {E} (call : QueryArgs -> E -> nat -> option QueryReply) ck num n fuel :
  let answer := round_robin (call (mkQueryArgs num)) qr_WrongLeader (ck_servers ck) n in
  ck_servers ck <> [] ->
  ((forall k, answer k = None) -> Query fuel call ck num n = NoFuel) /\
  (forall m r, (forall k, (k < m)%nat -> answer k = None) -> answer m = Some r ->
     (m / length (ck_servers ck) < fuel)%nat ->
     Query fuel call ck num n = Ret (S (n + m), qr_Config r)).
Proof.
  intros answer Hne. unfold Query. split.
  - intros Hno. by rewrite try_forever_never.
  - intros m r Hno Hr Hf. by rewrite (try_forever_first _ _ _ _ m r).
Qed.

(** What a server of this commit answers to a query: the reply of the client's
    declaration, untouched. *)
Definition serve_Query (sc : ShardCtrler) (args : QueryArgs) : QueryReply :=
  (Query_handler args zero_QueryReply sc).2.

Section witnesses.
(** Server 0 is cut off, server 1 is not the leader, server 2 knows. *)
Definition answers (args : QueryArgs) (srv : Z) (n : nat) : option QueryReply :=
  if srv =? 0 then None
  else if srv =? 1 then Some (mkQueryReply true "" zero_Config)
  else if (n <? 3)%nat then None
  else Some (mkQueryReply false "OK" (mkConfig (qa_Num args) [1] ∅)).

Lemma Query_first_witness :
  Query 2 answers (mkClerk [0; 1; 2]) 7 0 = Ret (6%nat, mkConfig 7 [1] ∅).
Proof.
  eapply (proj2 (Query_first answers (mkClerk [0; 1; 2]) 7 0 2 ltac:(done)) 5%nat
    (mkQueryReply false "OK" (mkConfig 7 [1] ∅))).
  - intros k Hk. by do 5 (destruct k as [|k]; [done|]); lia.
  - done.
  - by apply Nat.ltb_lt.
Defined.
End witnesses.
End ShardCtrler.
