(* ===== verification/ShardKV.v ===== *)
(** ShardKV (src/shardkv): the shard of a key, the server - whose handlers are
    empty in this commit - and the clerk, which follows the configurations of
    the shard controller. *)
From S2P Require Import Prelude Persister RaftNode ShardCtrler.
From Stdlib Require Import Ascii.
Import Persister Raft.
Import ShardCtrler(NShards, Config, Shards, Groups, zero_Config, QueryArgs, mkQueryArgs,
  QueryReply, qr_WrongLeader, qr_Config, Query, round_robin, ck_servers, serve_Query,
  zero_QueryReply).
#[local] Open Scope Z_scope.

Module ShardKV.

(** ** common.go; [Err] is a string *)

Definition OK : string := "OK".
Definition ErrNoKey : string := "ErrNoKey".
Definition ErrWrongGroup : string := "ErrWrongGroup".
Definition ErrWrongLeader : string := "ErrWrongLeader".

Record PutAppendArgs := mkPutAppendArgs { pa_Key : string; pa_Value : string; pa_Op : string }.
Record PutAppendReply := mkPutAppendReply { par_Err : string }.
Record GetArgs := mkGetArgs { ga_Key : string }.
Record GetReply := mkGetReply { gr_Err : string; gr_Value : string }.

(** ** server.go *)

Record ShardKV (E : Type) := mkShardKV {
  skv_me : Z; skv_rf : Raft unit; skv_gid : Z; skv_ctrlers : list E; skv_maxraftstate : Z }.
Arguments mkShardKV {E}.
Arguments skv_me {E}.
Arguments skv_rf {E}.
Arguments skv_gid {E}.
Arguments skv_ctrlers {E}.
Arguments skv_maxraftstate {E}.

Section server.
Context {E : Type}.

(** The handlers are empty: the state and the reply are as they were. *)
Definition Get_handler (args : GetArgs) (reply : GetReply) (kv : ShardKV E) := (kv, reply).
Definition PutAppend_handler (args : PutAppendArgs) (reply : PutAppendReply) (kv : ShardKV E) :=
  (kv, reply).

Definition Kill_skv (kv : ShardKV E) : ShardKV E :=
  mkShardKV (skv_me kv) (Kill (skv_rf kv)) (skv_gid kv) (skv_ctrlers kv) (skv_maxraftstate kv).

Context `{!Gob Z, !Gob (list (LogEntry unit))}.

Definition StartServer (servers me : Z) (persister : Persister) (maxraftstate gid : Z)
    (ctrlers : list E) (k : tick) : ShardKV E * list spawn :=
  let '(rf, sp) := Make servers me persister k in
  (mkShardKV me rf gid ctrlers maxraftstate, sp).
End server.

(** ** client.go *)

Definition key2shard (key : string) : Z :=
  let shard := match key with String c _ => Z.of_N (N_of_ascii c) | EmptyString => 0 end in
  Z.rem shard NShards.

Section clerk.
Context {E : Type}.

Record Clerk := mkClerk {
  sm : ShardCtrler.Clerk E; config : Config; make_end : string -> E }.

Definition MakeClerk (ctrlers : list E) (make_end : string -> E) : Clerk :=
  mkClerk (ShardCtrler.MakeClerk ctrlers) zero_Config make_end.

Definition set_config (c : Config) (ck : Clerk) : Clerk := mkClerk (sm ck) c (make_end ck).

(** What the calls bring back, by their number: queries of the controllers,
    and the RPCs of the group. *)
Context (query : QueryArgs -> E -> nat -> option QueryReply).

Section calls.
Context {R A : Type}.
Context (call : E -> nat -> option R).
(** How the loop reads a reply: a result, a change of group, or the next server. *)
Context (done : R -> option A) (wrong_group : R -> bool).

(** [for si := 0; si < len(servers); si++]; the number of the next call. *)
Fixpoint try_group (mk : string -> E) (servers : list string) (n : nat) : nat * option A :=
  match servers with
  | [] => (n, None)
  | s :: servers =>
      match call (mk s) n with
      | Some reply =>
          match done reply with
          | Some v => (S n, Some v)
          | None => if wrong_group reply then (S n, None) else try_group mk servers (S n)
          end
      | None => try_group mk servers (S n)
      end
  end.

(** The outer loop.  Indexing [Shards] out of range panics; the fuel bounds
    the rounds of this loop and of each query. *)
Fixpoint clerk_loop (fuel : nat) (key : string) (ck : Clerk) (n : nat) :
    result (Clerk * nat * A) :=
  match fuel with
  | O => NoFuel
  | S fuel' =>
      let shard := key2shard key in
      gid ← of_option (zget (Shards (config ck)) shard);
      let '(n, r) :=
        match Groups (config ck) !! gid with
        | Some servers => try_group (make_end ck) servers n
        | None => (n, None)
        end in
      match r with
      | Some v => Ret (ck, n, v)
      | None =>
          '(n, c) ← Query fuel query (sm ck) (-1) n;
          clerk_loop fuel' key (set_config c ck) n
      end
  end.
End calls.

Definition Get_done (reply : GetReply) : option string :=
  if String.eqb (gr_Err reply) OK || String.eqb (gr_Err reply) ErrNoKey
  then Some (gr_Value reply) else None.

Definition Get (fuel : nat) (call : GetArgs -> E -> nat -> option GetReply) (ck : Clerk)
    (key : string) (n : nat) : result (Clerk * nat * string) :=
  let args := mkGetArgs key in
  clerk_loop (call args) Get_done (fun r => String.eqb (gr_Err r) ErrWrongGroup) fuel key ck n.

Definition PutAppend_done (reply : PutAppendReply) : option unit :=
  if String.eqb (par_Err reply) OK then Some tt else None.

Definition PutAppend (fuel : nat) (call : PutAppendArgs -> E -> nat -> option PutAppendReply)
    (ck : Clerk) (key value op : string) (n : nat) : result (Clerk * nat * unit) :=
  let args := mkPutAppendArgs key value op in
  clerk_loop (call args) PutAppend_done (fun r => String.eqb (par_Err r) ErrWrongGroup)
    fuel key ck n.

Definition Put fuel call ck key value n := PutAppend fuel call ck key value "Put" n.
Definition Append fuel call ck key value n := PutAppend fuel call ck key value "Append" n.
End clerk.
Arguments Clerk : clear implicits.

(** ** The shard of a key *)

Lemma key2shard_range key : 0 <= key2shard key < NShards.
Proof.
  unfold key2shard, NShards. set (s := match key with String _ _ => _ | _ => _ end).
  assert (0 <= s) by (unfold s; destruct key; lia).
  rewrite Z.rem_mod_nonneg by lia. apply Z.mod_pos_bound. lia.
Qed.

(** A configuration as the wire can carry it: [Shards] is an array. *)
Definition config_ok (c : Config) : Prop := zlen (Shards c) = NShards.

Lemma config_ok_zero : config_ok zero_Config.
Proof. done. Qed.

(** The servers in charge of a key. *)
Definition servers_for (c : Config) (key : string) : option (list string) :=
  gid ← zget (Shards c) (key2shard key); Groups c !! gid.

(** ** Routing *)

Section routing.
Context {E : Type} (query : QueryArgs -> E -> nat -> option QueryReply).

(** The configurations a clerk of these controllers can hold. *)
Inductive held (ck : Clerk E) : Config -> Prop :=
  | held_now : held ck (config ck)
  | held_query srv n r : srv ∈ ck_servers (sm ck) ->
      query (mkQueryArgs (-1)) srv n = Some r -> qr_WrongLeader r = false ->
      held ck (qr_Config r).

Lemma try_each_Some {R} (call : E -> nat -> option R) wl servers n n' r :
  ShardCtrler.try_each call wl servers n = (n', Some r) ->
  exists srv k, srv ∈ servers /\ call srv k = Some r /\ wl r = false.
Proof.
  revert n. induction servers as [|s servers IH]; intros n; simpl; [done|].
  destruct (call s n) as [r'|] eqn:Ec; [destruct (wl r') eqn:Ew|].
  - intros (srv & k & Hin & Hc)%IH. exists srv, k. split; [by right|done].
  - intros [= <- <-]. exists s, n. split; [left|done].
  - intros (srv & k & Hin & Hc)%IH. exists srv, k. split; [by right|done].
Qed.

Lemma Query_held fuel cl num n n' c :
  Query fuel query cl num n = Ret (n', c) ->
  exists srv k r, srv ∈ ck_servers cl /\ query (mkQueryArgs num) srv k = Some r /\
    qr_WrongLeader r = false /\ c = qr_Config r.
Proof.
  unfold Query. revert n. induction fuel as [|fuel IH]; intros n; simpl; [done|].
  destruct (ShardCtrler.try_each _ _ _ n) as [m [r|]] eqn:Et; simpl; [|apply IH].
  intros [= <- <-]. apply try_each_Some in Et as (srv & k & Hin & Hc & Hw). by exists srv, k, r.
Qed.

Context {R A : Type} (call : E -> nat -> option R) (done : R -> option A) (wg : R -> bool).

Lemma try_group_Some mk servers n n' v :
  try_group call done wg mk servers n = (n', Some v) ->
  exists s k r, s ∈ servers /\ call (mk s) k = Some r /\ done r = Some v.
Proof.
  revert n. induction servers as [|s servers IH]; intros n; simpl; [by intros|].
  destruct (call (mk s) n) as [r|] eqn:Ec; [destruct (done r) as [v'|] eqn:Ed|].
  - intros [= <- <-]. exists s, n, r. split; [left|by split].
  - destruct (wg r); [by intros|].
    intros (s' & k & r' & Hin & Hc)%IH. exists s', k, r'. split; [by right|by idtac].
  - intros (s' & k & r' & Hin & Hc)%IH. exists s', k, r'. split; [by right|by idtac].
Qed.

(** A server whose reply ends the loop, behind servers that only make it go on. *)
Lemma try_group_first mk servers n i s r v :
  (forall j s' r', (j < i)%nat -> servers !! j = Some s' -> call (mk s') (n + j) = Some r' ->
     done r' = None /\ wg r' = false) ->
  servers !! i = Some s -> call (mk s) (n + i) = Some r -> done r = Some v ->
  try_group call done wg mk servers n = (S (n + i), Some v).
Proof.
  revert n i. induction servers as [|s0 servers IH]; intros n i Hno Hi Hc Hd; [by destruct i|].
  simpl. destruct i as [|i]; simpl in Hi.
  - injection Hi as ->. rewrite Nat.add_0_r in *. by rewrite Hc, Hd.
  - assert (try_group call done wg mk servers (S n) = (S (S n + i), Some v)) as Hrec.
    { apply IH; try assumption; [|by rewrite Nat.add_succ_l, <- Nat.add_succ_r].
      intros j s' r' Hj Hs' Hc'. apply (Hno (S j) s'); [lia|exact Hs'|].
      by rewrite Nat.add_succ_r. }
    rewrite Nat.add_succ_l, <- Nat.add_succ_r in Hrec.
    destruct (call (mk s0) n) as [r'|] eqn:Ec; [|exact Hrec].
    destruct (Hno 0%nat s0 r') as [-> ->]; [lia|reflexivity|by rewrite Nat.add_0_r|exact Hrec].
Qed.

(** One round is enough when the configuration held leads to such a server. *)
Lemma clerk_loop_first fuel key ck n servers i s r v :
  servers_for (config ck) key = Some servers ->
  (forall j s' r', (j < i)%nat -> servers !! j = Some s' ->
     call (make_end ck s') (n + j) = Some r' -> done r' = None /\ wg r' = false) ->
  servers !! i = Some s -> call (make_end ck s) (n + i) = Some r -> done r = Some v ->
  clerk_loop query call done wg (S fuel) key ck n = Ret (ck, S (n + i), v).
Proof.
  intros Hs Hno Hi Hc Hd. cbn [clerk_loop]. unfold servers_for in Hs.
  destruct (zget (Shards (config ck)) (key2shard key)) as [gid|]; [|by discriminate Hs].
  change (of_option (Some gid)) with (Ret gid : result Z). cbn [mbind result_bind] in *.
  simpl in Hs. rewrite Hs. by rewrite (try_group_first _ _ _ i s r v).
Qed.

Lemma clerk_loop_sound fuel key ck0 ck n ck' n' v :
  held ck0 (config ck) -> sm ck = sm ck0 -> make_end ck = make_end ck0 ->
  clerk_loop query call done wg fuel key ck n = Ret (ck', n', v) ->
  exists servers s k r, held ck0 (config ck') /\ servers_for (config ck') key = Some servers /\
    s ∈ servers /\ call (make_end ck0 s) k = Some r /\ done r = Some v.
Proof.
  revert ck n. induction fuel as [|fuel IH]; intros ck n Hh Hs Hm; [by intros|].
  cbn [clerk_loop].
  destruct (zget (Shards (config ck)) (key2shard key)) as [gid|] eqn:Eg; [|by intros].
  change (of_option (Some gid)) with (Ret gid : result Z). cbn [mbind result_bind].
  assert (forall m c, Query (S fuel) query (sm ck) (-1) m = Ret c ->
    clerk_loop query call done wg fuel key (set_config c.2 ck) c.1 = Ret (ck', n', v) ->
    exists servers s k r, held ck0 (config ck') /\ servers_for (config ck') key = Some servers /\
      s ∈ servers /\ call (make_end ck0 s) k = Some r /\ done r = Some v) as Hnext.
  { intros m [m' c] Hq. apply IH; [|done..]. simpl.
    apply Query_held in Hq as (srv & k & r & Hin & Hc & Hw & ->). rewrite Hs in Hin.
    by eapply held_query. }
  assert (forall m, Query (S fuel) query (sm ck) (-1) m ≫=
      (fun '(n1, c) => clerk_loop query call done wg fuel key (set_config c ck) n1) =
        Ret (ck', n', v) ->
    exists servers s k r, held ck0 (config ck') /\ servers_for (config ck') key = Some servers /\
      s ∈ servers /\ call (make_end ck0 s) k = Some r /\ done r = Some v) as Hretry.
  { intros m. destruct (Query _ _ _ _ m) as [c| |] eqn:Eq; try (by intros). simpl.
    destruct c as [n1 c]. apply (Hnext m (n1, c) Eq). }
  destruct (Groups (config ck) !! gid) as [servers|] eqn:Egr; [|apply Hretry].
  destruct (try_group call done wg (make_end ck) servers n) as [m [v'|]] eqn:Et;
    [|apply Hretry].
  intros [= <- <- <-]. apply try_group_Some in Et as (s & k & r & Hin & Hc & Hd).
  exists servers, s, k, r. rewrite Hm in Hc. split_and!; try assumption.
  unfold servers_for. by rewrite Eg.
Qed.

(** With configurations of the right shape the index is in range: no round panics. *)
Lemma clerk_loop_no_panic fuel key ck n :
  config_ok (config ck) ->
  (forall srv k r, query (mkQueryArgs (-1)) srv k = Some r -> config_ok (qr_Config r)) ->
  clerk_loop query call done wg fuel key ck n <> Panic.
Proof.
  intros Hc Hq. revert ck n Hc. induction fuel as [|fuel IH]; intros ck n Hc; [done|].
  cbn [clerk_loop].
  destruct (proj2 (zget_is_Some (Shards (config ck)) (key2shard key))) as [gid Hg].
  { rewrite Hc. apply key2shard_range. }
  rewrite Hg. change (of_option (Some gid)) with (Ret gid : result Z).
  cbn [mbind result_bind].
  assert (forall m, Query (S fuel) query (sm ck) (-1) m ≫=
      (fun '(n1, c) => clerk_loop query call done wg fuel key (set_config c ck) n1) <> Panic)
    as Hretry.
  { intros m. destruct (Query _ _ _ _ m) as [[n1 c]| |] eqn:Eq; simpl; [| |done].
    - apply IH. simpl. apply Query_held in Eq as (srv & k & r & _ & Hc' & _ & ->).
      by eapply Hq.
    - exfalso. revert Eq. unfold Query. clear. generalize (S fuel) as f. intros f. revert m.
      induction f as [|f IHf]; intros m; simpl; [done|].
      destruct (ShardCtrler.try_each _ _ _ m) as [m' [r|]]; simpl; [done|]. apply IHf. }
  destruct (Groups (config ck) !! gid) as [servers|]; [|apply Hretry].
  destruct (try_group _ _ _ _ _ n) as [m [v|]]; [done|apply Hretry].
Qed.

(** No group for the key, now or ever: the loop does not end. *)
Lemma clerk_loop_never fuel key ck n :
  config_ok (config ck) -> Groups (config ck) = ∅ ->
  (forall srv k r, query (mkQueryArgs (-1)) srv k = Some r ->
    config_ok (qr_Config r) /\ Groups (qr_Config r) = ∅) ->
  clerk_loop query call done wg fuel key ck n = NoFuel.
Proof.
  intros Hc Hg Hq. revert ck n Hc Hg. induction fuel as [|fuel IH]; intros ck n Hc Hg; [done|].
  pose proof (clerk_loop_no_panic (S fuel) key ck n Hc ltac:(naive_solver)) as Hp.
  cbn [clerk_loop] in *.
  destruct (zget (Shards (config ck)) (key2shard key)) as [gid|]; [|done].
  change (of_option (Some gid)) with (Ret gid : result Z) in *. cbn [mbind result_bind] in *.
  rewrite Hg, lookup_empty in *.
  destruct (Query _ _ _ _ n) as [[n1 c]| |] eqn:Eq; simpl in *; [|done|done].
  apply Query_held in Eq as (srv & k & r & _ & Hc' & _ & ->). apply Hq in Hc' as [??].
  by apply IH.
Qed.
End routing.

(** ** What the clerk promises *)

(** C40. A [Get] returns when, behind servers that are only unreachable or not
    leaders, it meets one of the key's group that has an answer; and what it
    returns is always the value of a server that answered OK or ErrNoKey and that
    belongs to the group which, in a configuration the clerk held - its own or
    one a controller gave -, serves the key's shard. *)
Theorem Get_routed {E} query fuel (call : GetArgs -> E -> nat -> option GetReply) ck key
    (n : nat) :
  (forall servers i s r v,
     servers_for (config ck) key = Some servers ->
     (forall j s' r', (j < i)%nat -> servers !! j = Some s' ->
        call (mkGetArgs key) (make_end ck s') (n + j)%nat = Some r' -> gr_Err r' = ErrWrongLeader) ->
     servers !! i = Some s -> call (mkGetArgs key) (make_end ck s) (n + i)%nat = Some r ->
     Get_done r = Some v -> (0 < fuel)%nat ->
     Get query fuel call ck key n = Ret (ck, S (n + i)%nat, v)) /\
  (forall ck' n' v,
     Get query fuel call ck key n = Ret (ck', n', v) ->
     exists servers s k r, held query ck (config ck') /\
       servers_for (config ck') key = Some servers /\ s ∈ servers /\
       call (mkGetArgs key) (make_end ck s) k = Some r /\
       gr_Value r = v /\ (gr_Err r = OK \/ gr_Err r = ErrNoKey)).
Proof.
  split.
  { intros servers i s r v Hs Hno Hi Hc Hd Hf. destruct fuel as [|fuel]; [lia|].
    unfold Get. apply (clerk_loop_first query _ _ _ fuel key ck n servers i s r v); try done.
    intros j s' [e w] Hj Hs' Hc'. specialize (Hno j s' _ Hj Hs' Hc'). simpl in Hno. by subst e. }
  intros ck' n' v H. eapply clerk_loop_sound in H; [|constructor|done|done].
  destruct H as (servers & s & k & r & Hh & Hs & Hin & Hc & Hd).
  exists servers, s, k, r. split_and!; try done; unfold Get_done in Hd;
    destruct (String.eqb_spec (gr_Err r) OK), (String.eqb_spec (gr_Err r) ErrNoKey); simpl in Hd;
    try done; try (by injection Hd); auto.
Qed.

(** A [Put] or [Append] that returns was acknowledged with OK, by a server of
    the group that serves the key in a configuration the clerk held, for these
    very arguments. *)
Theorem PutAppend_routed {E} query fuel (call : PutAppendArgs -> E -> nat -> option PutAppendReply)
    ck key value op n ck' n' :
  PutAppend query fuel call ck key value op n = Ret (ck', n', tt) ->
  exists servers s k, held query ck (config ck') /\
    servers_for (config ck') key = Some servers /\ s ∈ servers /\
    call (mkPutAppendArgs key value op) (make_end ck s) k = Some (mkPutAppendReply OK).
Proof.
  intros H. eapply clerk_loop_sound in H; [|constructor|done|done].
  destruct H as (servers & s & k & [e] & Hh & Hs & Hin & Hc & Hd).
  exists servers, s, k. split_and!; try done. unfold PutAppend_done in Hd. simpl in Hd.
  destruct (String.eqb_spec e OK); by subst.
Qed.

(** The controllers of this commit leave the reply as it is, which the clerk
    takes for a configuration without groups: a [Get] of a new clerk polls them
    for ever, whatever the network and the other servers do. *)
Theorem Get_without_groups {E} (query : QueryArgs -> E -> nat -> option QueryReply) ctrlers mk
    fuel call key n :
  (forall args srv k r, query args srv k = Some r -> exists sc, r = serve_Query sc args) ->
  Get query fuel call (MakeClerk ctrlers mk) key n = NoFuel.
Proof.
  intros Hq. apply clerk_loop_never; [done|done|].
  intros srv k r Hr. by destruct (Hq _ _ _ _ Hr) as [sc ->].
Qed.

Section witnesses.
(** The controller 7 first assigns no group, then group 1 to every shard. *)
Definition ctl (args : QueryArgs) (srv : Z) (n : nat) : option QueryReply :=
  Some (ShardCtrler.mkQueryReply false "OK"
    (ShardCtrler.mkConfig 1 (replicate 10 1) {[ 1 := ["s0"; "s1"] ]})).
Definition ends (s : string) : Z := if String.eqb s "s0" then 100 else 101.
Definition kv_get (args : GetArgs) (srv : Z) (n : nat) : option GetReply :=
  if srv =? 100 then Some (mkGetReply ErrWrongLeader "") else Some (mkGetReply OK "v").
Definition kv_put (args : PutAppendArgs) (srv : Z) (n : nat) : option PutAppendReply :=
  if srv =? 100 then None else Some (mkPutAppendReply OK).
Definition ck0 : Clerk Z := MakeClerk [7] ends.
Definition ck1 : Clerk Z :=
  set_config (ShardCtrler.mkConfig 1 (replicate 10 1) {[ 1 := ["s0"; "s1"] ]}) ck0.

Lemma Get_routed_witness :
  Get ctl 5 kv_get ck0 "x" 0 = Ret (ck1, 3%nat, "v"%string) /\
  exists servers, servers_for (config ck1) "x" = Some servers.
Proof.
  assert (Get ctl 5 kv_get ck0 "x" 0 = Ret (ck1, 3%nat, "v"%string)) as H by reflexivity.
  split; [done|].
  destruct (proj2 (Get_routed ctl 5 kv_get ck0 "x" 0) ck1 3%nat "v"%string H)
    as (servers & _ & _ & _ & _ & Hs & _).
  by exists servers.
Defined.

Lemma PutAppend_routed_witness :
  PutAppend ctl 5 kv_put ck0 "x" "v" "Put" 0 = Ret (ck1, 3%nat, tt) /\
  exists servers, servers_for (config ck1) "x" = Some servers.
Proof.
  assert (PutAppend ctl 5 kv_put ck0 "x" "v" "Put" 0 = Ret (ck1, 3%nat, tt)) as H by reflexivity.
  split; [done|].
  destruct (PutAppend_routed ctl 5 kv_put ck0 "x" "v" "Put" 0 ck1 3 H)
    as (servers & _ & _ & _ & Hs & _).
  by exists servers.
Defined.

Definition empty_ctl (args : QueryArgs) (srv : Z) (n : nat) : option QueryReply :=
  if Nat.even n then None else Some (serve_Query (ShardCtrler.mkShardCtrler 0
    (mkRaft 1 (mkPersister [] []) 0 0 0 (-1) [] 0 0 None None Follower 0 0) [zero_Config]) args).

Lemma Get_without_groups_witness : Get empty_ctl 50 kv_get ck0 "x" 0 = NoFuel.
Proof.
  apply (Get_without_groups empty_ctl [7] ends 50 kv_get "x" 0).
  intros args srv k r. unfold empty_ctl. destruct (Nat.even k); intros [= <-]. by eexists.
Defined.
End witnesses.
End ShardKV.
