(* ===== verification/RaftHarness.v ===== *)
(** The test harness of Raft (src/raft/config.go): a cluster of peers on the
    simulated network, the goroutines that read the apply channels and compare
    the servers, and the checks the tests are made of.  Time, random names and
    the states of the peers at the moment they are read are inputs. *)
From S2P Require Import Prelude Persister LabRpc RaftNode.
From Stdlib Require Import Ascii.
Import Persister.

Module RaftHarness.

(** Ends are named by strings, servers by numbers. *)
Abbreviation iname := (string + Z)%type.

(** ** Failures *)

Section outcomes.
Context {Cmd : Type}.

(** What a check complains about. *)
Inductive complaint :=
  | CommitMismatch (index i : Z) (v : option Cmd) (j : Z) (old : option Cmd)
  | OutOfOrder (i index : Z)
  | NilSnapshot
  | SnapshotDecode
  | SnapshotMismatch (i : Z)
  | TooSlow
  | ManyLeaders
  | NoLeader
  | TermsDisagree
  | LeaderClaimed (i : Z)
  | ValuesDiffer (index : Z)
  | FewDecided (nd index n : Z)
  | NoAgreement
  | EndExists (e : string)
  | EndMissing (e : string)
  | LogTooBig (size : Z)
  | SnapshotNotEmpty.

(** A run-time error, [log.Fatalf], which ends the process, and [t.Fatalf],
    which ends the test. *)
Inductive fault := Panicked | Exited (why : complaint) | Failed (why : complaint).

Inductive outcome (A : Type) := Done (a : A) | Stopped (f : fault).
Arguments Done {A}.
Arguments Stopped {A}.

#[export] Instance outcome_ret : MRet outcome := fun A a => Done a.
#[export] Instance outcome_bind : MBind outcome := fun A B f x =>
  match x with Done a => f a | Stopped e => Stopped e end.

(** An index out of range, or a nil pointer. *)
Definition must {A} (o : option A) : outcome A :=
  match o with Some a => Done a | None => Stopped Panicked end.

(** [for _, x := range l]. *)
Fixpoint each {X S} (l : list X) (f : X -> S -> outcome S) (s : S) : outcome S :=
  match l with
  | [] => Done s
  | x :: l => s ← f x s; each l f s
  end.
End outcomes.

#[global] Arguments complaint : clear implicits.
#[global] Arguments fault : clear implicits.
#[global] Arguments outcome : clear implicits.
#[global] Arguments Done {Cmd A}.
#[global] Arguments Stopped {Cmd A}.

(** [for i := 0; i < n; i++]. *)
Definition range (n : Z) : list Z := map Z.of_nat (seq 0 (Z.to_nat n)).

(** ** The configuration *)

Section harness.
Context {Cmd W : Type} `{!EqDecision Cmd}.
Context `{!Gob Z, !Gob (list (Raft.LogEntry Cmd)), !Gob (list (option Cmd))}.

(** The methods reflection finds on a peer. *)
Context (raft_methods : list (string * LabRpc.method (W := W))).

Abbreviation Network := (LabRpc.Network (Name := iname) (W := W)).
Abbreviation peer := (Raft.Raft Cmd).

(** [rafts]: nil when crashed.  [endnames]: nil before the first start. *)
Record config := mkConfig {
  net : Network; n : Z;
  rafts : list (option peer); applyErr : list (option (complaint Cmd));
  connected : list bool; saved : list (option Persister);
  endnames : list (option (list string));
  logs : list (gmap Z (option Cmd)); lastApplied : list Z;
  finished : Z; start : Z;
  t0 : Z; rpcs0 : Z; cmds0 : Z; bytes0 : Z; maxIndex : Z; maxIndex0 : Z }.

Implicit Types (cfg : config).

Definition set_net v cfg := mkConfig v (n cfg) (rafts cfg) (applyErr cfg) (connected cfg)
  (saved cfg) (endnames cfg) (logs cfg) (lastApplied cfg) (finished cfg) (start cfg) (t0 cfg)
  (rpcs0 cfg) (cmds0 cfg) (bytes0 cfg) (maxIndex cfg) (maxIndex0 cfg).
Definition set_rafts v cfg := mkConfig (net cfg) (n cfg) v (applyErr cfg) (connected cfg)
  (saved cfg) (endnames cfg) (logs cfg) (lastApplied cfg) (finished cfg) (start cfg) (t0 cfg)
  (rpcs0 cfg) (cmds0 cfg) (bytes0 cfg) (maxIndex cfg) (maxIndex0 cfg).
Definition set_connected v cfg := mkConfig (net cfg) (n cfg) (rafts cfg) (applyErr cfg) v
  (saved cfg) (endnames cfg) (logs cfg) (lastApplied cfg) (finished cfg) (start cfg) (t0 cfg)
  (rpcs0 cfg) (cmds0 cfg) (bytes0 cfg) (maxIndex cfg) (maxIndex0 cfg).
Definition set_saved v cfg := mkConfig (net cfg) (n cfg) (rafts cfg) (applyErr cfg)
  (connected cfg) v (endnames cfg) (logs cfg) (lastApplied cfg) (finished cfg) (start cfg)
  (t0 cfg) (rpcs0 cfg) (cmds0 cfg) (bytes0 cfg) (maxIndex cfg) (maxIndex0 cfg).
Definition set_endnames v cfg := mkConfig (net cfg) (n cfg) (rafts cfg) (applyErr cfg)
  (connected cfg) (saved cfg) v (logs cfg) (lastApplied cfg) (finished cfg) (start cfg) (t0 cfg)
  (rpcs0 cfg) (cmds0 cfg) (bytes0 cfg) (maxIndex cfg) (maxIndex0 cfg).
Definition set_logs v cfg := mkConfig (net cfg) (n cfg) (rafts cfg) (applyErr cfg)
  (connected cfg) (saved cfg) (endnames cfg) v (lastApplied cfg) (finished cfg) (start cfg)
  (t0 cfg) (rpcs0 cfg) (cmds0 cfg) (bytes0 cfg) (maxIndex cfg) (maxIndex0 cfg).
Definition set_lastApplied v cfg := mkConfig (net cfg) (n cfg) (rafts cfg) (applyErr cfg)
  (connected cfg) (saved cfg) (endnames cfg) (logs cfg) v (finished cfg) (start cfg) (t0 cfg)
  (rpcs0 cfg) (cmds0 cfg) (bytes0 cfg) (maxIndex cfg) (maxIndex0 cfg).
Definition set_finished v cfg := mkConfig (net cfg) (n cfg) (rafts cfg) (applyErr cfg)
  (connected cfg) (saved cfg) (endnames cfg) (logs cfg) (lastApplied cfg) v (start cfg) (t0 cfg)
  (rpcs0 cfg) (cmds0 cfg) (bytes0 cfg) (maxIndex cfg) (maxIndex0 cfg).
Definition set_maxIndex v cfg := mkConfig (net cfg) (n cfg) (rafts cfg) (applyErr cfg)
  (connected cfg) (saved cfg) (endnames cfg) (logs cfg) (lastApplied cfg) (finished cfg)
  (start cfg) (t0 cfg) (rpcs0 cfg) (cmds0 cfg) (bytes0 cfg) v (maxIndex0 cfg).
Definition set_base t r c b x cfg := mkConfig (net cfg) (n cfg) (rafts cfg) (applyErr cfg)
  (connected cfg) (saved cfg) (endnames cfg) (logs cfg) (lastApplied cfg) (finished cfg)
  (start cfg) t r c b (maxIndex cfg) x.

(** ** Connections *)

Definition enable (e : string) (yes : bool) cfg : config :=
  set_net (LabRpc.Enable (inl e) yes (net cfg)) cfg.

(** [cfg.endnames[i][j]] *)
Definition endname (i j : Z) cfg : outcome Cmd string :=
  row ← must (zget (endnames cfg) i); must (zget (default [] row) j).

(** [if cfg.connected[j] { cfg.net.Enable(cfg.endnames[a][b], true) }] *)
Definition enable_if (j a b : Z) cfg : outcome Cmd config :=
  c ← must (zget (connected cfg) j);
  if (c : bool) then e ← endname a b cfg; Done (enable e true cfg) else Done cfg.

Definition connect (i : Z) cfg : outcome Cmd config :=
  cs ← must (zset (connected cfg) i true);
  let cfg := set_connected cs cfg in
  cfg ← each (range (n cfg)) (fun j => enable_if j i j) cfg;
  each (range (n cfg)) (fun j => enable_if j j i) cfg.

(** [if cfg.endnames[a] != nil { cfg.net.Enable(cfg.endnames[a][b], false) }] *)
Definition disable_if (a b : Z) cfg : outcome Cmd config :=
  row ← must (zget (endnames cfg) a);
  match row with
  | None => Done cfg
  | Some row => e ← must (zget row b); Done (enable e false cfg)
  end.

Definition disconnect (i : Z) cfg : outcome Cmd config :=
  cs ← must (zset (connected cfg) i false);
  let cfg := set_connected cs cfg in
  cfg ← each (range (n cfg)) (fun j => disable_if i j) cfg;
  each (range (n cfg)) (fun j => disable_if j i) cfg.

Definition rpcCount (server : Z) cfg : outcome Cmd Z :=
  must (LabRpc.GetCount (inr server) (net cfg)).

Definition rpcTotal cfg : Z := LabRpc.GetTotalCount (net cfg).

Definition setunreliable (unrel : bool) cfg : config :=
  set_net (LabRpc.Reliable (negb unrel) (net cfg)) cfg.

Definition bytesTotal cfg : Z := LabRpc.GetTotalBytes (net cfg).

Definition setlongreordering (longrel : bool) cfg : config :=
  set_net (LabRpc.LongReordering longrel (net cfg)) cfg.

(** ** The appliers *)

(** The scan of the servers' logs, [jl] being server [j] and its log: the last
    disagreement found. *)
Definition clash (i : Z) (m : Raft.ApplyMsg Cmd) (err : option (complaint Cmd))
    (jl : Z * gmap Z (option Cmd)) : option (complaint Cmd) :=
  match jl.2 !! Raft.CommandIndex m with
  | Some old =>
      if decide (old = Raft.Command m) then err
      else Some (CommitMismatch (Raft.CommandIndex m) i (Raft.Command m) jl.1 old)
  | None => err
  end.

Definition checkLogs (i : Z) (m : Raft.ApplyMsg Cmd) cfg :
    outcome Cmd (option (complaint Cmd) * bool * config) :=
  let err_msg := fold_left (clash i m) (zip (range (zlen (logs cfg))) (logs cfg)) None in
  l ← must (zget (logs cfg) i);
  let prevok := bool_decide (is_Some (l !! (Raft.CommandIndex m - 1))) in
  ls ← must (zset (logs cfg) i (<[Raft.CommandIndex m := Raft.Command m]> l));
  let cfg := set_logs ls cfg in
  let cfg := if maxIndex cfg <? Raft.CommandIndex m
             then set_maxIndex (Raft.CommandIndex m) cfg else cfg in
  Done (err_msg, prevok, cfg).

(** [log.Fatalf] ends the process, so the error is never recorded. *)
Definition report (err_msg : option (complaint Cmd)) cfg : outcome Cmd config :=
  match err_msg with Some e => Stopped (Exited e) | None => Done cfg end.

(** One message of [applyCh]. *)
Definition applier (i : Z) (m : Raft.ApplyMsg Cmd) cfg : outcome Cmd config :=
  if negb (Raft.CommandValid m) then Done cfg
  else
    '(err_msg, prevok, cfg) ← checkLogs i m cfg;
    let err_msg := if (1 <? Raft.CommandIndex m) && negb prevok
                   then Some (OutOfOrder i (Raft.CommandIndex m)) else err_msg in
    report err_msg cfg.

(** The messages of all servers, in the order the appliers take them. *)
Definition appliers (ms : list (Z * Raft.ApplyMsg Cmd)) cfg : outcome Cmd config :=
  each ms (fun im => applier im.1 im.2) cfg.

(** [map[int]interface{}] from a slice. *)
Definition log_of (xlog : list (option Cmd)) : gmap Z (option Cmd) :=
  list_to_map (zip (range (zlen xlog)) xlog).

(** The result is the message, or nothing; a nil snapshot reads as an empty
    one. *)
Definition ingestSnap (i : Z) (snapshot : bytes) (index : Z) cfg :
    outcome Cmd (option (complaint Cmd) * config) :=
  if decide (snapshot = []) then Stopped (Exited NilSnapshot)
  else
    match
      '(lastIncludedIndex, d) ← dec snapshot;
      '(xlog, d) ← dec d;
      Some ((lastIncludedIndex, xlog) : Z * list (option Cmd))
    with
    | None => Stopped (Exited SnapshotDecode)
    | Some (lastIncludedIndex, xlog) =>
        if negb (index =? -1) && negb (index =? lastIncludedIndex)
        then Done (Some (SnapshotMismatch i), cfg)
        else
          ls ← must (zset (logs cfg) i (log_of xlog));
          la ← must (zset (lastApplied cfg) i lastIncludedIndex);
          Done (None, set_lastApplied la (set_logs ls cfg))
    end.

Definition SnapShotInterval : Z := 10.

(** The snapshot the harness takes after index [x]. *)
Definition make_snapshot (x : Z) (l : gmap Z (option Cmd)) : bytes :=
  enc x ++ enc (map (fun j => default None (l !! j)) (range (x + 1))).

(** A command, in [applierSnap]. *)
Definition apply_command (i : Z) (m : Raft.ApplyMsg Cmd) cfg :
    outcome Cmd (option (complaint Cmd) * config) :=
  la ← must (zget (lastApplied cfg) i);
  if negb (Raft.CommandIndex m =? la + 1)
  then Done (Some (OutOfOrder i (Raft.CommandIndex m)), cfg)
  else
    '(err_msg, prevok, cfg) ← checkLogs i m cfg;
    Done (if (1 <? Raft.CommandIndex m) && negb prevok
          then Some (OutOfOrder i (Raft.CommandIndex m)) else err_msg, cfg).

(** One message of [applyCh]; [rf] is the peer, read before the loop. *)
Definition applierSnap (i : Z) (rf : peer) (m : Raft.ApplyMsg Cmd) cfg :
    outcome Cmd (config * peer) :=
  '(err_msg, cfg, rf) ←
    (if Raft.SnapshotValid m then
       '(err_msg, cfg) ← ingestSnap i (Raft.Snapshot_ m) (Raft.SnapshotIndex m) cfg;
       Done (err_msg, cfg, rf)
     else if Raft.CommandValid m then
       '(err_msg, cfg) ← apply_command i m cfg;
       la ← must (zset (lastApplied cfg) i (Raft.CommandIndex m));
       let cfg := set_lastApplied la cfg in
       if (Raft.CommandIndex m + 1) `mod` SnapShotInterval =? 0 then
         l ← must (zget (logs cfg) i);
         Done (err_msg, cfg,
               Raft.Snapshot rf (Raft.CommandIndex m) (make_snapshot (Raft.CommandIndex m) l))
       else Done (err_msg, cfg, rf)
     else Done (None, cfg, rf));
  cfg ← report err_msg cfg; Done (cfg, rf).

(** ** Starting and stopping peers *)

(** [labrpc.MakeServer] with the services; the pointer is a place in the heap. *)
Definition newServer (rs : LabRpc.Server (W := W)) (nt : Network) : nat * Network :=
  (length (LabRpc.heap nt),
   LabRpc.mkNetwork (LabRpc.reliable nt) (LabRpc.longDelays nt)
     (LabRpc.longReordering nt) (LabRpc.ends nt) (LabRpc.enabled nt) (LabRpc.servers nt)
     (LabRpc.connections nt) (LabRpc.heap nt ++ [rs]) (LabRpc.net_count nt)
     (LabRpc.net_bytes nt) (LabRpc.destroyed nt)).

(** [cfg.net.AddServer(name, srv)] for a new server. *)
Definition addServer (name : iname) (rs : LabRpc.Server (W := W)) (nt : Network) : Network :=
  let '(ptr, nt) := newServer rs nt in LabRpc.AddServer name ptr nt.

(** Peer [i] is now [rf]; [saved[i]] is the persister it was given, which it
    writes to. *)
Definition put_peer (i : Z) (rf : peer) cfg : outcome Cmd config :=
  rs ← must (zset (rafts cfg) i (Some rf));
  sv ← must (zset (saved cfg) i (Some (Raft.persister rf)));
  Done (set_saved sv (set_rafts rs cfg)).

(** The result is also the peer that was killed; its goroutines still have it. *)
Definition crash1 (i : Z) cfg : outcome Cmd (config * option peer) :=
  cfg ← disconnect i cfg;
  let cfg := set_net (LabRpc.DeleteServer (inr i) (net cfg)) cfg in
  sv ← must (zget (saved cfg) i);
  sv ← (match sv with
        | Some p => must (zset (saved cfg) i (Some (Copy p)))
        | None => Done (saved cfg)
        end);
  let cfg := set_saved sv cfg in
  rf ← must (zget (rafts cfg) i);
  rs ← (match rf with Some _ => must (zset (rafts cfg) i None) | None => Done (rafts cfg) end);
  let cfg := set_rafts rs cfg in
  sv ← must (zget (saved cfg) i);
  sv ← (match sv with
        | Some p =>
            let raftlog := ReadRaftState p in
            let snapshot := ReadSnapshot p in
            must (zset (saved cfg) i (Some (Save MakePersister raftlog snapshot)))
        | None => Done (saved cfg)
        end);
  Done (set_saved sv cfg, option_map Raft.Kill rf).

(** [cfg.net.MakeEnd(e)], connected to the server named [j]. *)
Definition make_end (je : iname * string) (nt : Network) : outcome Cmd Network :=
  match LabRpc.MakeEnd (inl je.2) nt with
  | None => Stopped (Exited (EndExists je.2))
  | Some nt => Done (LabRpc.Connect (inl je.2) je.1 nt)
  end.

(** The ends for the servers [0 .. n-1]. *)
Definition to_servers (n : Z) (names : list string) : list (iname * string) :=
  zip (map inr (range n)) names.

(** The saved state of a new instance; an old snapshot is installed at once. *)
Definition restore (i : Z) cfg : outcome Cmd config :=
  sv ← must (zget (saved cfg) i);
  match sv with
  | None => sv ← must (zset (saved cfg) i (Some MakePersister)); Done (set_saved sv cfg)
  | Some p =>
      sv ← must (zset (saved cfg) i (Some (Copy p)));
      let cfg := set_saved sv cfg in
      let snapshot := ReadSnapshot (Copy p) in
      if 0 <? zlen snapshot then
        '(err, cfg) ← ingestSnap i snapshot (-1) cfg;
        match err with Some e => Stopped (Failed e) | None => Done cfg end
      else Done cfg
  end.

(** [names]: the random strings, one per server. *)
Definition start1 (i : Z) (names : list string) (k : Raft.tick) cfg :
    outcome Cmd (config * list Raft.spawn) :=
  '(cfg, _) ← crash1 i cfg;
  en ← must (zset (endnames cfg) i (Some names));
  let cfg := set_endnames en cfg in
  nt ← each (to_servers (n cfg) names) make_end (net cfg);
  let cfg := set_net nt cfg in
  la ← must (zset (lastApplied cfg) i 0);
  let cfg := set_lastApplied la cfg in
  cfg ← restore i cfg;
  sv ← must (zget (saved cfg) i);
  p ← must sv;
  let '(rf, spawns) := Raft.Make (n cfg) i p k in
  cfg ← put_peer i rf cfg;
  let svc := LabRpc.MakeService "Raft" raft_methods in
  let srv := LabRpc.AddService LabRpc.MakeServer svc in
  Done (set_net (addServer (inr i) srv (net cfg)) cfg, spawns).

(** [names i]: the random strings of server [i]. *)
Definition make_config (n : Z) (unreliable : bool) (names : Z -> list string) (k : Raft.tick)
    (now : Z) : outcome Cmd config :=
  if n <? 0 then Stopped Panicked else
  let cnt := Z.to_nat n in
  let cfg := mkConfig LabRpc.MakeNetwork n (replicate cnt None) (replicate cnt None)
    (replicate cnt false) (replicate cnt None) (replicate cnt None) (replicate cnt ∅)
    (replicate cnt 0) 0 now 0 0 0 0 0 0 in
  let cfg := setunreliable unreliable cfg in
  let cfg := set_net (LabRpc.LongDelays true (net cfg)) cfg in
  cfg ← each (range n) (fun i cfg =>
    ls ← must (zset (logs cfg) i ∅);
    '(cfg, _) ← start1 i (names i) k (set_logs ls cfg);
    Done cfg) cfg;
  each (range n) connect cfg.

(** ** The end of a test *)

(** [passed]: nanoseconds since the start of the test. *)
Definition checkTimeout (failed : bool) (now : Z) cfg : outcome Cmd unit :=
  if negb failed && (120 * 10 ^ 9 <? now - start cfg) then Stopped (Failed TooSlow) else Done tt.

Definition checkFinished cfg : bool := negb (finished cfg =? 0).

Definition cleanup (failed : bool) (now : Z) cfg : outcome Cmd config :=
  let cfg := set_finished 1 cfg in
  let cfg := set_rafts (map (option_map Raft.Kill) (rafts cfg)) cfg in
  nt ← must (LabRpc.Cleanup (net cfg));
  let cfg := set_net nt cfg in
  _ ← checkTimeout failed now cfg; Done cfg.

Definition begin (now : Z) cfg : config :=
  set_base now (rpcTotal cfg) 0 (bytesTotal cfg) (maxIndex cfg) cfg.

(** What the end of a test prints: time, peers, calls, bytes, commands. *)
Definition end_ (failed : bool) (now : Z) cfg : outcome Cmd (option (Z * Z * Z * Z * Z)) :=
  _ ← checkTimeout failed now cfg;
  Done (if failed then None
        else Some (now - t0 cfg, n cfg, rpcTotal cfg - rpcs0 cfg, bytesTotal cfg - bytes0 cfg,
                   maxIndex cfg - maxIndex0 cfg)).

Definition LogSize cfg : outcome Cmd Z :=
  each (range (n cfg)) (fun i logsize =>
    sv ← must (zget (saved cfg) i); p ← must sv;
    let n := RaftStateSize p in Done (if logsize <? n then n else logsize)) 0.

(** ** Checks of the cluster

    The servers run while they are read: [at_ i] is the configuration at the
    moment server [i] is read. *)

Definition state_of (i : Z) cfg : outcome Cmd (Z * bool) :=
  rf ← must (zget (rafts cfg) i); rf ← must rf; Done (Raft.GetState rf).

Definition if_connected {A} (i : Z) (cfg : config) (f : outcome Cmd A) (a : A) : outcome Cmd A :=
  c ← must (zget (connected cfg) i); if (c : bool) then f else Done a.

(** The leaders of each term, in the order of the servers. *)
Definition collect_leaders (n : Z) (at_ : Z -> config) : outcome Cmd (gmap Z (list Z)) :=
  each (range n) (fun i leaders =>
    if_connected i (at_ i)
      ('(term, leader) ← state_of i (at_ i);
       Done (if (leader : bool)
             then <[term := default [] (leaders !! term) ++ [i]]> leaders else leaders))
      leaders) ∅.

(** One round; the map is ranged over in the order of [map_to_list], which
    does not matter (Go leaves it open). *)
Definition one_leader_round (n : Z) (at_ : Z -> config) : outcome Cmd (option Z) :=
  leaders ← collect_leaders n at_;
  lastTermWithLeader ← each (map_to_list leaders) (fun tl last =>
    if 1 <? zlen tl.2 then Stopped (Failed ManyLeaders)
    else Done (if last <? tl.1 then tl.1 else last)) (-1);
  if decide (leaders = ∅) then Done None
  else i ← must (zget (default [] (leaders !! lastTermWithLeader)) 0); Done (Some i).

(** [rounds]: what is read in each of the ten rounds. *)
Fixpoint checkOneLeader (n : Z) (rounds : list (Z -> config)) : outcome Cmd Z :=
  match rounds with
  | [] => Stopped (Failed NoLeader)
  | at_ :: rounds =>
      found ← one_leader_round n at_;
      match found with Some i => Done i | None => checkOneLeader n rounds end
  end.

Definition checkTerms (n : Z) (at_ : Z -> config) : outcome Cmd Z :=
  each (range n) (fun i term =>
    if_connected i (at_ i)
      ('(xterm, _) ← state_of i (at_ i);
       if term =? -1 then Done xterm
       else if negb (term =? xterm) then Stopped (Failed TermsDisagree) else Done term)
      term) (-1).

Definition checkNoLeader (n : Z) (at_ : Z -> config) : outcome Cmd unit :=
  each (range n) (fun i _ =>
    if_connected i (at_ i)
      ('(_, is_leader) ← state_of i (at_ i);
       if (is_leader : bool) then Stopped (Failed (LeaderClaimed i)) else Done tt)
      tt) tt.

Definition nCommitted (index : Z) (at_ : Z -> config) : outcome Cmd (Z * option Cmd) :=
  each (range (zlen (rafts (at_ 0)))) (fun i '(count, cmd) =>
    e ← must (zget (applyErr (at_ i)) i);
    match e with
    | Some why => Stopped (Failed why)
    | None =>
        l ← must (zget (logs (at_ i)) i);
        match l !! index with
        | None => Done (count, cmd)
        | Some cmd1 =>
            if (0 <? count) && negb (bool_decide (cmd = cmd1))
            then Stopped (Failed (ValuesDiffer index))
            else Done (count + 1, cmd1)
        end
    end) (0, None).

(** The end of [wait]. *)
Definition wait_end (index n : Z) (at_ : Z -> config) : outcome Cmd (option (option Cmd)) :=
  '(nd, cmd) ← nCommitted index at_;
  if nd <? n then Stopped (Failed (FewDecided nd index n)) else Done (Some cmd).

(** The wait of a test for [n] servers: [rounds] is what is read in each of
    the thirty rounds, [last] at the end.  [None]: a newer term was seen. *)
Fixpoint wait (index n startTerm : Z) (rounds : list (Z -> config)) (last : Z -> config) :
    outcome Cmd (option (option Cmd)) :=
  match rounds with
  | [] => wait_end index n last
  | at_ :: rounds =>
      '(nd, _) ← nCommitted index at_;
      if n <=? nd then wait_end index n last
      else
        newer ← (if -1 <? startTerm
                 then each (range (zlen (rafts (at_ 0)))) (fun i newer =>
                        if (newer : bool) then Done true
                        else '(t, _) ← state_of i (at_ i); Done (startTerm <? t)) false
                 else Done false);
        if (newer : bool) then Done None else wait index n startTerm rounds last
  end.

(** The search of [one] for a server that takes the command: [Some] the index,
    if one did, and the goroutines it started. *)
Fixpoint one_submit (cmd : Cmd) (starts : Z) (tries : nat) cfg :
    outcome Cmd (Z * option Z * config * list Raft.spawn) :=
  match tries with
  | O => Done (starts, None, cfg, [])
  | S tries =>
      let starts := (starts + 1) `mod` n cfg in
      c ← must (zget (connected cfg) starts);
      rf ← (if (c : bool) then must (zget (rafts cfg) starts) else Done None);
      match rf with
      | None => one_submit cmd starts tries cfg
      | Some rf =>
          '(rf, (index1, _, ok), sp) ← must (Raft.Start cmd rf);
          cfg ← put_peer starts rf cfg;
          if (ok : bool) then Done (starts, Some index1, cfg, sp) else one_submit cmd starts tries cfg
      end
  end.

(** The test [one] repeats for two seconds: the command is committed there. *)
Definition one_committed (cmd : Cmd) (index expectedServers : Z) (at_ : Z -> config) :
    outcome Cmd bool :=
  '(nd, cmd1) ← nCommitted index at_;
  Done ((0 <? nd) && (expectedServers <=? nd) && bool_decide (cmd1 = Some cmd)).

(** [rounds]: what is read until the two seconds are over. *)
Fixpoint one_wait (cmd : Cmd) (index expectedServers : Z) (rounds : list (Z -> config)) :
    outcome Cmd bool :=
  match rounds with
  | [] => Done false
  | at_ :: rounds =>
      ok ← one_committed cmd index expectedServers at_;
      if (ok : bool) then Done true else one_wait cmd index expectedServers rounds
  end.

(** [attempts]: for each turn of the outer loop, the configuration when the
    command is submitted and what is read then; [finished]: the test was over
    at the end.  The result is the index, and, for each attempt, the
    configuration and the goroutines its submission left. *)
Fixpoint one (cmd : Cmd) (expectedServers : Z) (retry : bool) (starts : Z)
    (attempts : list (config * list (Z -> config))) (finished : bool) :
    outcome Cmd (Z * list (config * list Raft.spawn)) :=
  match attempts with
  | [] => if finished then Done (-1, []) else Stopped (Failed NoAgreement)
  | (cfg, rounds) :: attempts =>
      '(starts, index, cfg, sp) ← one_submit cmd starts (Z.to_nat (n cfg)) cfg;
      done ← (match index with
              | None => Done None
              | Some index =>
                  ok ← one_wait cmd index expectedServers rounds;
                  if (ok : bool) then Done (Some index)
                  else if retry then Done None else Stopped (Failed NoAgreement)
              end);
      match done with
      | Some index => Done (index, [(cfg, sp)])
      | None =>
          '(index, subs) ← one cmd expectedServers retry starts attempts finished;
          Done (index, (cfg, sp) :: subs)
      end
  end.
End harness.
End RaftHarness.
