(* ===== verification/Wiring.v ===== *)
(** The wiring of the Raft tests (src/raft/config.go): the ends between two
    servers are enabled exactly when both are marked as connected, whatever the
    order of connecting, disconnecting, crashing and starting, so a test that
    disconnects servers does cut their messages, and no others. *)
From S2P Require Import Prelude Persister LabRpc RaftNode RaftHarness.
Import Persister RaftHarness.

Module Wiring.

(** ** Loops *)

Section loops.
Context {Cmd S : Type}.
Implicit Types (f : Z -> S -> outcome Cmd S) (s : S) (m : Z).

Lemma range_S (m : nat) : range (Z.of_nat (Datatypes.S m)) = range (Z.of_nat m) ++ [Z.of_nat m].
Proof. unfold range. by rewrite !Nat2Z.id, seq_S, map_app. Qed.

Lemma each_app {X} (l l' : list X) (f : X -> S -> outcome Cmd S) s :
  each (l ++ l') f s = (each l f s ≫= each l' f).
Proof. revert s. induction l as [|x l IH]; intros s; [done|]. simpl. destruct (f x s) as [s1|]; [apply IH|done]. Qed.

(** A loop that never stops keeps its invariant. *)
Lemma each_range (I : Z -> S -> Prop) f s m :
  0 <= m -> I 0 s ->
  (forall j s, 0 <= j < m -> I j s -> exists s', f j s = Done s' /\ I (j + 1) s') ->
  exists s', each (range m) f s = Done s' /\ I m s'.
Proof.
  intros Hm H0 Hstep. rewrite <- (Z2Nat.id m) in * by done. clear Hm.
  induction (Z.to_nat m) as [|k IH]; [by exists s|].
  destruct IH as (s1 & Hrun & H1); [intros j s1 Hj; apply Hstep; lia|].
  destruct (Hstep (Z.of_nat k) s1) as (s2 & Hf & H2); [lia|done|].
  exists s2. rewrite range_S, each_app, Hrun. simpl. rewrite Hf. split; [done|].
  by replace (Z.of_nat (Datatypes.S k)) with (Z.of_nat k + 1) by lia.
Qed.

Lemma each_range_done (I : Z -> S -> Prop) f s s' m :
  0 <= m -> I 0 s ->
  (forall j s s', 0 <= j < m -> I j s -> f j s = Done s' -> I (j + 1) s') ->
  each (range m) f s = Done s' -> I m s'.
Proof.
  intros Hm H0 Hstep. rewrite <- (Z2Nat.id m) in * by done. clear Hm.
  revert s'. induction (Z.to_nat m) as [|k IH]; intros s'; [by intros [= <-]|].
  rewrite range_S, each_app. destruct (each _ f s) as [s1|] eqn:E; [simpl|done].
  destruct (f _ s1) as [s2|] eqn:Hf; simpl; [|done]. intros [= <-].
  replace (Z.of_nat (Datatypes.S k)) with (Z.of_nat k + 1) by lia.
  apply (Hstep (Z.of_nat k) s1); [lia| |done]. apply IH; [|done]. intros j ? ? Hj. apply Hstep. lia.
Qed.

(** So does one that reached its end. *)
Lemma each_done {X} (I : S -> Prop) (l : list X) (f : X -> S -> outcome Cmd S) s s' :
  (forall x s s', x ∈ l -> I s -> f x s = Done s' -> I s') ->
  I s -> each l f s = Done s' -> I s'.
Proof.
  revert s. induction l as [|x l IH]; intros s Hstep Hs Hrun; simpl in Hrun.
  { by injection Hrun as <-. }
  destruct (f x s) as [s1|] eqn:Hf; [|done]. apply (IH s1); [|by eapply Hstep; [apply list_elem_of_here|..]|done].
  intros y ? ? Hy. apply Hstep. by apply list_elem_of_further.
Qed.

Lemma zip_range_elem {A} (l : list A) j x : (j, x) ∈ zip (range (zlen l)) l <-> zget l j = Some x.
Proof.
  unfold range, zlen. rewrite Nat2Z.id. rewrite list_elem_of_lookup. split.
  - intros [k Hk]. rewrite lookup_zip_with in Hk.
    destruct (map Z.of_nat (seq 0 (length l)) !! k) as [j'|] eqn:Ej; simpl in Hk; [|done].
    destruct (l !! k) as [x'|] eqn:El; simpl in Hk; [|done]. injection Hk as -> ->.
    change (map ?f ?y) with (f <$> y) in Ej. rewrite list_lookup_fmap in Ej.
    destruct (seq 0 (length l) !! k) as [k'|] eqn:Ek; simpl in Ej; [|done].
    apply lookup_seq in Ek as [-> _]. injection Ej as <-. simpl.
    apply zget_Some_lookup. split; [lia|]. by rewrite Nat2Z.id.
  - intros Hg. pose proof (zget_Some_range _ _ _ Hg) as Hr.
    apply zget_Some_lookup in Hg as [_ Hg]. exists (Z.to_nat j).
    rewrite lookup_zip_with. change (map ?f ?y) with (f <$> y). rewrite list_lookup_fmap.
    rewrite lookup_seq_lt by (unfold zlen in Hr; lia). simpl. rewrite Hg. simpl.
    do 2 f_equal. lia.
Qed.
End loops.

(** ** Ends of the network *)

Section network.
Context {Cmd W : Type}.
Implicit Types (nt : LabRpc.Network (Name := string + Z) (W := W)).

(** Ends can only be made under new names. *)
Lemma make_ends_run (l : list ((string + Z) * string)) nt nt' :
  each (Cmd := Cmd) l make_end nt = Done nt' ->
  exists es en cn, nt' = LabRpc.set_ends es en cn nt /\
    (forall j e, (j, e) ∈ l -> LabRpc.ends nt !! inl e = None /\
       is_Some (es !! inl e) /\ en !! inl e = Some false /\ cn !! inl e = Some (Some j)) /\
    (forall e, is_Some (LabRpc.ends nt !! inl e) ->
       is_Some (es !! inl e) /\ en !! inl e = LabRpc.enabled nt !! inl e /\
       cn !! inl e = LabRpc.connections nt !! inl e).
Proof.
  revert nt. induction l as [|[j e] l IH]; intros nt; simpl.
  { intros [= <-]. exists (LabRpc.ends nt), (LabRpc.enabled nt), (LabRpc.connections nt).
    split; [by destruct nt|]. split; [|done]. by intros j e ?%not_elem_of_nil. }
  unfold make_end, LabRpc.MakeEnd. simpl.
  destruct (LabRpc.ends nt !! inl e) eqn:He; simpl; [done|]. intros Hrun.
  apply IH in Hrun as (es & en & cn & -> & Hnew & Hold). simpl in Hnew, Hold.
  exists es, en, cn. split; [done|]. split.
  - intros j' e' [[= -> ->]|Hin]%elem_of_cons.
    + destruct (Hold e) as (? & -> & ->); [rewrite lookup_insert_eq; by eexists|].
      by rewrite !lookup_insert_eq.
    + destruct (Hnew j' e' Hin) as (Hf & Hrest). split; [|done].
      apply lookup_insert_None in Hf as [? _]. done.
  - intros e' He'. assert (e' <> e) as Hne by (intros ->; rewrite He in He'; by destruct He').
    destruct (Hold e') as (? & -> & ->); [by rewrite lookup_insert_ne by congruence|].
    by rewrite !lookup_insert_ne by congruence.
Qed.

(** So the names of a loop that ends are distinct. *)
Lemma make_ends_distinct (l : list ((string + Z) * string)) nt nt' :
  each (Cmd := Cmd) l make_end nt = Done nt' -> NoDup l.*2.
Proof.
  revert nt. induction l as [|[j e] l IH]; intros nt; simpl; [by intros; apply NoDup_nil|].
  destruct (make_end (j, e) nt) as [nt1|] eqn:Hme; simpl; [|done]. intros Hrun.
  assert (LabRpc.ends nt1 !! inl e = Some tt) as He.
  { unfold make_end, LabRpc.MakeEnd in Hme. simpl in Hme.
    destruct (LabRpc.ends nt !! inl e); [done|]. injection Hme as <-. simpl.
    by rewrite lookup_insert_eq. }
  apply NoDup_cons. split; [|by eapply IH]. intros ([j' e'] & Hee & Hin)%list_elem_of_fmap.
  simpl in Hee. subst e'. apply make_ends_run in Hrun as (? & ? & ? & _ & Hnew & _).
  destruct (Hnew j' e Hin) as [Hf _]. by rewrite He in Hf.
Qed.

Lemma to_servers_elem (names : list string) j e :
  zget names j = Some e -> (inr j, e) ∈ to_servers (zlen names) names.
Proof.
  intros He%zip_range_elem. unfold to_servers.
  replace (zip (map inr (range (zlen names))) names)
    with (map (fun je : Z * string => (inr je.1 : string + Z, je.2)) (zip (range (zlen names)) names)).
  - apply list_elem_of_fmap. by exists (j, e).
  - generalize (range (zlen names)). clear He. intros l. revert names.
    induction l as [|x l IH]; intros [|y names]; simpl; try done. by rewrite IH.
Qed.

Lemma to_servers_names (names : list string) : (to_servers (zlen names) names).*2 = names.
Proof.
  unfold to_servers. rewrite snd_zip; [done|].
  unfold range, zlen. rewrite !length_map, length_seq, Nat2Z.id. lia.
Qed.

(** The loop that makes a server's ends: their names are distinct and new. *)
Lemma make_row_run (names : list string) nt nt' :
  each (Cmd := Cmd) (to_servers (zlen names) names) make_end nt = Done nt' ->
  NoDup names /\ exists es en cn, nt' = LabRpc.set_ends es en cn nt /\
    (forall j e, zget names j = Some e -> LabRpc.ends nt !! inl e = None /\
       is_Some (es !! inl e) /\ en !! inl e = Some false /\ cn !! inl e = Some (Some (inr j))) /\
    (forall e, is_Some (LabRpc.ends nt !! inl e) ->
       is_Some (es !! inl e) /\ en !! inl e = LabRpc.enabled nt !! inl e /\
       cn !! inl e = LabRpc.connections nt !! inl e).
Proof.
  intros Hrun. split.
  - apply make_ends_distinct in Hrun. by rewrite to_servers_names in Hrun.
  - apply make_ends_run in Hrun as (es & en & cn & -> & Hnew & Hold).
    exists es, en, cn. split; [done|]. split; [|done]. intros j e He. by apply Hnew, to_servers_elem.
Qed.
End network.

(** ** The wiring of the Raft tests *)

Section wiring.
Context {Cmd W : Type} `{!EqDecision Cmd}.
Context `{!Gob Z, !Gob (list (Raft.LogEntry Cmd)), !Gob (list (option Cmd))}.
Context (raft_methods : list (string * LabRpc.method (W := W))).
Implicit Types (cfg : config (Cmd := Cmd) (W := W)) (e : string).

(** The end of server [i] for server [j]. *)
Definition name_at cfg (i j : Z) : option string :=
  row ← default None (zget (endnames cfg) i); zget row j.

Definition is_connected cfg (i : Z) : bool := default false (zget (connected cfg) i).

Definition is_running cfg (i : Z) : Prop :=
  exists rf, zget (rafts cfg) i = Some (Some rf).

Definition is_started cfg (i : Z) : Prop :=
  exists row, zget (endnames cfg) i = Some (Some row).

(** Every server started has an end of its own for every server. *)
Record well_named cfg : Prop := {
  wn_connected : zlen (connected cfg) = n cfg;
  wn_endnames : zlen (endnames cfg) = n cfg;
  wn_rafts : zlen (rafts cfg) = n cfg;
  wn_saved : zlen (saved cfg) = n cfg;
  wn_row i row : zget (endnames cfg) i = Some (Some row) -> zlen row = n cfg;
  wn_end i j e : name_at cfg i j = Some e ->
    is_Some (LabRpc.ends (net cfg) !! inl e) /\
    LabRpc.connections (net cfg) !! inl e = Some (Some (inr j));
  wn_inj i j i' j' e : name_at cfg i j = Some e -> name_at cfg i' j' = Some e ->
    i = i' /\ j = j';
  wn_server i : 0 <= i < n cfg ->
    (exists p, LabRpc.servers (net cfg) !! inr i = Some (Some p)) <-> is_running cfg i }.

(** It is enabled when both servers are connected. *)
Record wired cfg : Prop := {
  wi_named : well_named cfg;
  wi_started i : is_connected cfg i = true -> is_started cfg i;
  wi_enabled i j e : name_at cfg i j = Some e ->
    LabRpc.enabled (net cfg) !! inl e = Some (is_connected cfg i && is_connected cfg j) }.

(** *** Enabling and disabling ends *)

Definition with_enabled en cfg : config :=
  set_net (LabRpc.set_ends (LabRpc.ends (net cfg)) en (LabRpc.connections (net cfg)) (net cfg)) cfg.

(** The ends that [P] selects are set to [v], and no other end of a server. *)
Definition marks (P : Z -> Z -> bool) (v : bool) cfg cfg' : Prop :=
  exists en, cfg' = with_enabled en cfg /\ forall a b e, name_at cfg a b = Some e ->
    en !! inl e = if P a b then Some v else LabRpc.enabled (net cfg) !! inl e.

Lemma marks_none v cfg : marks (fun _ _ => false) v cfg cfg.
Proof. exists (LabRpc.enabled (net cfg)). split; [|done]. by destruct cfg as [[]]. Qed.

Lemma marks_ext P Q v cfg cfg' :
  (forall a b e, name_at cfg a b = Some e -> P a b = Q a b) -> marks P v cfg cfg' ->
  marks Q v cfg cfg'.
Proof.
  intros HPQ (en & -> & Hen). exists en. split; [done|]. intros a b e He.
  rewrite (Hen _ _ _ He). by erewrite HPQ.
Qed.

Lemma marks_enable P Q v cfg cfg' i j e :
  well_named cfg -> name_at cfg i j = Some e -> marks P v cfg cfg' ->
  (forall a b, Q a b = P a b || (bool_decide (a = i) && bool_decide (b = j))) ->
  marks Q v cfg (enable e v cfg').
Proof.
  intros Hw He (en & -> & Hen) HQ. exists (<[inl e := v]> en). split; [done|].
  intros a b e' He'. rewrite (HQ a b). destruct (decide (e' = e)) as [->|Hne].
  - destruct (wn_inj _ Hw _ _ _ _ _ He' He) as [-> ->].
    by rewrite lookup_insert_eq, !bool_decide_eq_true_2, orb_true_r.
  - rewrite lookup_insert_ne by congruence. rewrite (Hen _ _ _ He').
    destruct (decide (a = i)) as [->|]; [|by rewrite (bool_decide_eq_false_2 (a = i)), orb_false_r].
    destruct (decide (b = j)) as [->|]; [congruence|].
    by rewrite (bool_decide_eq_false_2 (b = j)), andb_false_r, orb_false_r.
Qed.

Lemma name_at_range cfg i j e :
  well_named cfg -> name_at cfg i j = Some e -> 0 <= i < n cfg /\ 0 <= j < n cfg.
Proof.
  intros Hw He. unfold name_at in He.
  destruct (zget (endnames cfg) i) as [[row|]|] eqn:Hi; simpl in He; [|done..].
  pose proof (zget_Some_range _ _ _ Hi). pose proof (zget_Some_range _ _ _ He).
  rewrite (wn_endnames _ Hw) in *. rewrite (wn_row _ Hw _ _ Hi) in *. done.
Qed.

Lemma started_name cfg i j :
  well_named cfg -> is_started cfg i -> 0 <= j < n cfg -> exists e, name_at cfg i j = Some e.
Proof.
  intros Hw [row Hi] Hj. unfold name_at. rewrite Hi. simpl. apply zget_is_Some.
  by rewrite (wn_row _ Hw _ _ Hi).
Qed.

Lemma name_at_endname cfg i j e : name_at cfg i j = Some e -> endname i j cfg = Done e.
Proof.
  unfold name_at, endname. destruct (zget (endnames cfg) i) as [[row|]|]; simpl; [|done..].
  by intros ->.
Qed.

(** The ends [(a j, b j)] for the [j] that the guard [g] selects. *)
Definition selects (m : Z) (g : Z -> bool) (a b : Z -> Z) (x y : Z) : bool :=
  existsb (fun j => g j && (bool_decide (x = a j) && bool_decide (y = b j))) (range m).

(** A loop that sets them. *)
Lemma mark_loop P v cfg cfg' g a b (f : Z -> config -> outcome Cmd config) :
  well_named cfg -> 0 <= n cfg -> marks P v cfg cfg' ->
  (forall j en, 0 <= j < n cfg ->
     if (g j : bool) then exists e, name_at cfg (a j) (b j) = Some e /\
       f j (with_enabled en cfg) = Done (enable e v (with_enabled en cfg))
     else f j (with_enabled en cfg) = Done (with_enabled en cfg)) ->
  exists cfg'', each (range (n cfg)) f cfg' = Done cfg'' /\
    marks (fun x y => P x y || selects (n cfg) g a b x y) v cfg cfg''.
Proof.
  intros Hw Hn Hm Hf.
  apply (each_range (fun k s => marks (fun x y => P x y || selects k g a b x y) v cfg s)); [done| |].
  - eapply marks_ext; [|done]. intros x y e _. unfold selects. simpl. by rewrite orb_false_r.
  - intros j s Hj Hs. pose proof Hs as (en & -> & _). specialize (Hf j en Hj).
    assert (forall x y, selects (j + 1) g a b x y = selects j g a b x y ||
      (g j && (bool_decide (x = a j) && bool_decide (y = b j)))) as Hsel.
    { intros x y. unfold selects. rewrite <- (Z2Nat.id j) by lia.
      replace (Z.of_nat (Z.to_nat j) + 1) with (Z.of_nat (S (Z.to_nat j))) by lia.
      rewrite range_S, existsb_app. simpl. by rewrite orb_false_r. }
    destruct (g j).
    + destruct Hf as (e & He & ->). eexists. split; [done|].
      eapply marks_enable; [done|done|exact Hs|]. intros x y. by rewrite Hsel, orb_assoc.
    + rewrite Hf. eexists. split; [done|]. eapply marks_ext; [|exact Hs].
      intros x y e _. by rewrite Hsel, orb_false_r.
Qed.

Lemma selects_iff m g a b x y :
  selects m g a b x y = true <-> exists j, 0 <= j < m /\ g j = true /\ x = a j /\ y = b j.
Proof.
  unfold selects. rewrite existsb_exists. unfold range. split.
  - intros (j & (k & <- & Hk%in_seq)%in_map_iff & H).
    rewrite !andb_true_iff, !bool_decide_eq_true in H. exists (Z.of_nat k). split; [lia|tauto].
  - intros (j & Hj & Hg & -> & ->). exists j. split.
    + apply in_map_iff. exists (Z.to_nat j). split; [lia|]. apply in_seq. lia.
    + by rewrite Hg, !bool_decide_eq_true_2.
Qed.

(** *** Connecting and disconnecting *)

Lemma well_named_enabled en cfg : well_named cfg -> well_named (with_enabled en cfg).
Proof. intros []. by split. Qed.

Lemma well_named_connected cs cfg :
  well_named cfg -> zlen cs = n cfg -> well_named (set_connected cs cfg).
Proof. intros [] ?. by split. Qed.

Lemma n_nonneg cfg : well_named cfg -> 0 <= n cfg.
Proof. intros Hw. rewrite <- (wn_connected _ Hw). apply zlen_nonneg. Qed.

Lemma is_connected_set cfg i v j :
  0 <= i < zlen (connected cfg) ->
  is_connected (set_connected (<[Z.to_nat i := v]> (connected cfg)) cfg) j =
    if decide (j = i) then v else is_connected cfg j.
Proof.
  intros Hi. unfold is_connected. simpl. destruct (decide (j = i)) as [->|].
  - by rewrite zget_insert_eq.
  - by rewrite zget_insert_ne by (lia || done).
Qed.

Lemma enable_if_connected cfg en j a b :
  0 <= j < zlen (connected cfg) -> (is_connected cfg j = true -> exists e, name_at cfg a b = Some e) ->
  if is_connected cfg j then exists e, name_at cfg a b = Some e /\
    enable_if j a b (with_enabled en cfg) = Done (enable e true (with_enabled en cfg))
  else enable_if j a b (with_enabled en cfg) = Done (with_enabled en cfg).
Proof.
  intros Hj He. unfold enable_if, is_connected in *. simpl.
  apply zget_is_Some in Hj as [c Hc]. rewrite Hc in *. simpl in *.
  destruct c; [|done]. destruct He as [e He]; [done|]. exists e. split; [done|].
  by rewrite (name_at_endname (with_enabled en cfg) a b e He).
Qed.

Lemma pair_unmarked (c : Z -> bool) i x y :
  (x = i -> (if decide (y = i) then true else c y) = false) ->
  (y = i -> (if decide (x = i) then true else c x) = false) ->
  c x && c y = (if decide (x = i) then true else c x) && (if decide (y = i) then true else c y).
Proof.
  intros Hx Hy. destruct (decide (x = i)) as [Ex|], (decide (y = i)) as [Ey|]; [|..|done].
  - by specialize (Hx Ex).
  - rewrite (Hx Ex). by rewrite !andb_false_r.
  - by rewrite (Hy Ey).
Qed.

(** [connect]: the server is marked, and the ends between it and the other
    connected servers are enabled. *)
Lemma connect_run cfg i :
  wired cfg -> 0 <= i < n cfg -> is_started cfg i ->
  exists en, let cfg' := with_enabled en
               (set_connected (<[Z.to_nat i := true]> (connected cfg)) cfg) in
    connect i cfg = Done cfg' /\ wired cfg'.
Proof.
  intros [Hw Hst Hen] Hi Hsi. pose proof (wn_connected _ Hw) as Hlen.
  set (cfg1 := set_connected (<[Z.to_nat i := true]> (connected cfg)) cfg).
  assert (well_named cfg1) as Hw1 by (apply well_named_connected; [done|by rewrite zlen_insert]).
  assert (forall j, is_connected cfg1 j = if decide (j = i) then true else is_connected cfg j)
    as Hc1 by (intros j; apply is_connected_set; lia).
  assert (forall j, is_connected cfg1 j = true -> is_started cfg j) as Hst1.
  { intros j. rewrite (Hc1 j). destruct (decide (j = i)) as [->|]; [done|apply Hst]. }
  pose proof (n_nonneg _ Hw1) as Hn. pose proof (wn_connected _ Hw1) as Hlen1.
  destruct (mark_loop (fun _ _ => false) true cfg1 cfg1 (is_connected cfg1) (fun _ => i)
    (fun j => j) (fun j => enable_if j i j) Hw1 Hn (marks_none _ _)) as (c2 & Hrun2 & Hm2).
  { intros j en Hj. apply enable_if_connected; [lia|]. intros _. by apply (started_name cfg). }
  destruct (mark_loop _ true cfg1 c2 (is_connected cfg1) (fun j => j) (fun _ => i)
    (fun j => enable_if j j i) Hw1 Hn Hm2) as (c3 & Hrun3 & en & -> & Hm3).
  { intros j en Hj. apply enable_if_connected; [lia|]. intros Hc.
    apply (started_name cfg); [done|by apply Hst1|done]. }
  assert (n c2 = n cfg1) as Hn2 by (by destruct Hm2 as (? & -> & _)).
  exists en. split.
  { unfold connect. rewrite zset_in by lia. simpl. fold cfg1.
    change (n cfg) with (n cfg1) in *. rewrite Hrun2. simpl. by rewrite Hn2. }
  split; [by apply well_named_enabled| |].
  - exact Hst1.
  - intros x y e He. simpl. rewrite (Hm3 x y e He).
    destruct (name_at_range cfg x y e Hw He) as [Hx Hy].
    change (is_connected (with_enabled en cfg1) ?z) with (is_connected cfg1 z).
    rewrite !Hc1. simpl.
    destruct (selects _ _ _ _ x y || selects _ _ _ _ x y) eqn:E.
    + apply orb_true_iff in E as [E|E]; apply selects_iff in E as (j & Hj & Hcj & -> & ->);
        rewrite Hc1 in Hcj; rewrite Hcj; by destruct (decide (i = i)), (decide (j = i)).
    + apply orb_false_iff in E as [E1 E2].
      rewrite (Hen x y e He). f_equal. apply pair_unmarked; intros ->; rewrite <- Hc1.
      * apply not_true_iff_false. intros Hc. apply not_true_iff_false in E1.
        apply E1, selects_iff. by exists y.
      * apply not_true_iff_false. intros Hc. apply not_true_iff_false in E2.
        apply E2, selects_iff. by exists x.
Qed.

Definition has_row cfg (i : Z) : bool :=
  match zget (endnames cfg) i with Some (Some _) => true | _ => false end.

Lemma name_at_has_row cfg i j e : name_at cfg i j = Some e -> has_row cfg i = true.
Proof. unfold name_at, has_row. by destruct (zget (endnames cfg) i) as [[row|]|]. Qed.

Lemma disable_if_row cfg en a b :
  well_named cfg -> 0 <= a < n cfg -> 0 <= b < n cfg ->
  if has_row cfg a then exists e, name_at cfg a b = Some e /\
    disable_if a b (with_enabled en cfg) = Done (enable e false (with_enabled en cfg))
  else disable_if a b (with_enabled en cfg) = Done (with_enabled en cfg).
Proof.
  intros Hw Ha Hb. unfold disable_if, has_row, name_at. simpl.
  rewrite <- (wn_endnames _ Hw) in Ha. apply zget_is_Some in Ha as [[row|] Hr]; rewrite Hr; [|done].
  simpl. rewrite <- (wn_row _ Hw _ _ Hr) in Hb. apply zget_is_Some in Hb as [e He].
  exists e. rewrite He. done.
Qed.

(** [disconnect]: the server is unmarked, and all its ends are disabled. *)
Lemma disconnect_run cfg i :
  wired cfg -> 0 <= i < n cfg ->
  exists en, let cfg' := with_enabled en
               (set_connected (<[Z.to_nat i := false]> (connected cfg)) cfg) in
    disconnect i cfg = Done cfg' /\ wired cfg'.
Proof.
  intros [Hw Hst Hen] Hi. pose proof (wn_connected _ Hw) as Hlen.
  set (cfg1 := set_connected (<[Z.to_nat i := false]> (connected cfg)) cfg).
  assert (well_named cfg1) as Hw1 by (apply well_named_connected; [done|by rewrite zlen_insert]).
  assert (forall j, is_connected cfg1 j = if decide (j = i) then false else is_connected cfg j)
    as Hc1 by (intros j; apply is_connected_set; lia).
  pose proof (n_nonneg _ Hw1) as Hn.
  destruct (mark_loop (fun _ _ => false) false cfg1 cfg1 (fun _ => has_row cfg i) (fun _ => i)
    (fun j => j) (fun j => disable_if i j) Hw1 Hn (marks_none _ _)) as (c2 & Hrun2 & Hm2).
  { intros j en Hj. by apply (disable_if_row cfg1). }
  destruct (mark_loop _ false cfg1 c2 (has_row cfg) (fun j => j) (fun _ => i)
    (fun j => disable_if j i) Hw1 Hn Hm2) as (c3 & Hrun3 & en & -> & Hm3).
  { intros j en Hj. by apply (disable_if_row cfg1). }
  assert (n c2 = n cfg1) as Hn2 by (by destruct Hm2 as (? & -> & _)).
  exists en. split.
  { unfold disconnect. rewrite zset_in by lia. simpl. fold cfg1.
    change (n cfg) with (n cfg1) in *. rewrite Hrun2. simpl. by rewrite Hn2. }
  split; [by apply well_named_enabled| |].
  - intros j. change (is_connected (with_enabled en cfg1) j) with (is_connected cfg1 j).
    rewrite Hc1. destruct (decide (j = i)); [done|apply Hst].
  - intros x y e He. simpl. rewrite (Hm3 x y e He).
    destruct (name_at_range cfg x y e Hw He) as [Hx Hy].
    change (is_connected (with_enabled en cfg1) ?z) with (is_connected cfg1 z). rewrite !Hc1. simpl.
    pose proof (name_at_has_row _ _ _ _ He) as Hrow.
    destruct (selects _ _ _ _ x y || selects _ _ _ _ x y) eqn:E.
    + apply orb_true_iff in E as [E|E]; apply selects_iff in E as (j & Hj & Hcj & -> & ->);
        destruct (decide (i = i)); try done. by rewrite andb_false_r.
    + apply orb_false_iff in E as [E1 E2].
      destruct (decide (x = i)) as [->|].
      { exfalso. apply not_true_iff_false in E1. apply E1, selects_iff. by exists y. }
      destruct (decide (y = i)) as [->|].
      { exfalso. apply not_true_iff_false in E2. apply E2, selects_iff. by exists x. }
      exact (Hen x y e He).
Qed.

(** *** Crashing *)

(** What the wiring depends on. *)
Lemma wired_frame cfg cfg' :
  net cfg' = net cfg -> n cfg' = n cfg -> rafts cfg' = rafts cfg ->
  connected cfg' = connected cfg -> endnames cfg' = endnames cfg ->
  zlen (saved cfg') = zlen (saved cfg) -> wired cfg -> wired cfg'.
Proof.
  intros Hnet Hn Hr Hc He Hs [[Hw1 Hw2 Hw3 Hw4 Hw5 Hw6 Hw7 Hw8] Hst Hen].
  unfold name_at, is_connected, is_started, is_running in *.
  split; [split|..]; unfold name_at, is_connected, is_started, is_running;
    rewrite ?Hnet, ?Hn, ?Hr, ?Hc, ?He, ?Hs; done.
Qed.

(** What a crash does to a server that is disconnected already. *)
Lemma well_named_crashed cfg i :
  well_named cfg -> 0 <= i < n cfg ->
  well_named (set_rafts (<[Z.to_nat i := None]> (rafts cfg))
    (set_net (LabRpc.DeleteServer (inr i) (net cfg)) cfg)).
Proof.
  intros Hw Hi. pose proof (wn_rafts _ Hw) as Hl. destruct Hw as [Hw1 Hw2 Hw3 Hw4 Hw5 Hw6 Hw7 Hw8].
  split; try done.
  { simpl. by rewrite zlen_insert. }
  intros j Hj. unfold is_running. simpl. destruct (decide (j = i)) as [->|Hne].
  - rewrite lookup_insert_eq, zget_insert_eq by lia. split; [by intros [? ?]|by intros [? ?]].
  - rewrite lookup_insert_ne by congruence. rewrite zget_insert_ne by (lia || done). by apply Hw8.
Qed.

Lemma remove_peer (l : list (option (Raft.Raft Cmd))) i rf :
  zget l i = Some rf ->
  match rf with Some _ => must (zset l i None) | None => Done l end
    = Done (Cmd := Cmd) (<[Z.to_nat i := None]> l).
Proof.
  intros Hl. pose proof (zget_Some_range _ _ _ Hl). destruct rf; [by rewrite zset_in|].
  apply zget_Some_lookup in Hl as [_ Hl]. by rewrite list_insert_id.
Qed.

(** A crash is total: the server is disconnected, and gone from the network;
    what it saved stays. *)
Lemma crash1_run cfg i :
  wired cfg -> 0 <= i < n cfg ->
  exists cfg' rf, crash1 i cfg = Done (cfg', rf) /\ wired cfg' /\ n cfg' = n cfg /\
    connected cfg' = <[Z.to_nat i := false]> (connected cfg) /\
    endnames cfg' = endnames cfg /\ rafts cfg' = <[Z.to_nat i := None]> (rafts cfg) /\
    saved cfg' = saved cfg.
Proof.
  intros Hw Hi. destruct (disconnect_run cfg i Hw Hi) as (en & Hrun & Hw1).
  pose proof (wn_saved _ (wi_named _ Hw)) as Hlsv. pose proof (wn_rafts _ (wi_named _ Hw)) as Hlrf.
  destruct (proj2 (zget_is_Some (saved cfg) i)) as [sv Hsv]; [lia|].
  destruct (proj2 (zget_is_Some (rafts cfg) i)) as [rf Hrf]; [lia|].
  unfold crash1. rewrite Hrun. simpl. rewrite Hsv. simpl.
  exists (set_rafts (<[Z.to_nat i := None]> (rafts cfg))
    (set_net (LabRpc.DeleteServer (inr i) (LabRpc.set_ends (LabRpc.ends (net cfg)) en
      (LabRpc.connections (net cfg)) (net cfg)))
      (set_connected (<[Z.to_nat i := false]> (connected cfg)) cfg))), (option_map Raft.Kill rf).
  split.
  { destruct sv as [p|]; simpl.
    - rewrite (zset_in (saved cfg)) by lia. simpl. rewrite Hrf. simpl. rewrite (remove_peer _ _ _ Hrf). simpl.
      rewrite zget_insert_eq by lia. simpl. rewrite zset_in by (rewrite zlen_insert; lia). simpl.
      rewrite list_insert_insert_eq, list_insert_id; [done|].
      apply zget_Some_lookup in Hsv as [_ ->]. by destruct p.
    - rewrite Hrf. simpl. rewrite (remove_peer _ _ _ Hrf). simpl. rewrite Hsv. done. }
  split; [|done]. destruct Hw1 as [Hwn Hst Hen]. split; [|exact Hst|exact Hen].
  exact (well_named_crashed _ i Hwn Hi).
Qed.

(** *** Starting *)

Lemma restore_frame i cfg cfg' :
  restore i cfg = Done cfg' ->
  net cfg' = net cfg /\ n cfg' = n cfg /\ rafts cfg' = rafts cfg /\
  connected cfg' = connected cfg /\ endnames cfg' = endnames cfg /\
  zlen (saved cfg') = zlen (saved cfg).
Proof.
  unfold restore. destruct (zget (saved cfg) i) as [[p|]|] eqn:Hp; simpl; [..|done].
  2: { rewrite zset_in by (by eapply zget_Some_range). intros [= <-]. simpl. by rewrite zlen_insert. }
  rewrite zset_in by (by eapply zget_Some_range). simpl.
  destruct (0 <? _); [|intros [= <-]; simpl; by rewrite zlen_insert].
  unfold ingestSnap. destruct (decide _); [done|]. destruct (dec _ ≫= _) as [[x xlog]|]; [|done].
  simpl. destruct (zset (logs cfg) i _); simpl; [|done].
  destruct (zset (lastApplied cfg) i _); simpl; [|done]. intros [= <-]. simpl. by rewrite zlen_insert.
Qed.

Lemma put_peer_run cfg i rf :
  well_named cfg -> 0 <= i < n cfg ->
  put_peer i rf cfg = Done (set_saved (<[Z.to_nat i := Some (Raft.persister rf)]> (saved cfg))
    (set_rafts (<[Z.to_nat i := Some rf]> (rafts cfg)) cfg)).
Proof.
  intros Hw Hi. unfold put_peer. rewrite (zset_in (rafts cfg)) by (rewrite (wn_rafts _ Hw); lia). simpl.
  by rewrite zset_in by (rewrite (wn_saved _ Hw); lia).
Qed.

(** A disconnected server gets new ends. *)
Lemma new_ends_wired cfg i names nt :
  wired cfg -> 0 <= i < n cfg -> is_connected cfg i = false -> zlen names = n cfg ->
  each (Cmd := Cmd) (to_servers (n cfg) names) make_end (net cfg) = Done nt ->
  wired (set_net nt (set_endnames (<[Z.to_nat i := Some names]> (endnames cfg)) cfg)).
Proof.
  intros [Hw Hst Hen] Hi Hci Hlen Hrun. rewrite <- Hlen in Hrun.
  apply make_row_run in Hrun as (Hnd & es & en & cn & -> & Hnew' & Hold).
  assert (forall a b, name_at (set_net (LabRpc.set_ends es en cn (net cfg))
      (set_endnames (<[Z.to_nat i := Some names]> (endnames cfg)) cfg)) a b =
    if decide (a = i) then zget names b else name_at cfg a b) as Hname.
  { intros a b. unfold name_at. simpl. pose proof (wn_endnames _ Hw).
    destruct (decide (a = i)) as [->|]; [by rewrite zget_insert_eq by lia|].
    by rewrite zget_insert_ne by (lia || done). }
  assert (forall a b e, name_at cfg a b = Some e -> is_Some (es !! inl e) /\
    en !! inl e = LabRpc.enabled (net cfg) !! inl e /\
    cn !! inl e = LabRpc.connections (net cfg) !! inl e) as Hold'.
  { intros a b e He. by apply Hold, (wn_end _ Hw a b e). }
  destruct Hw as [Hw1 Hw2 Hw3 Hw4 Hw5 Hw6 Hw7 Hw8]. split; [split; try done| |].
  - simpl. by rewrite zlen_insert.
  - intros j row. simpl. destruct (decide (j = i)) as [->|].
    + rewrite zget_insert_eq by lia. by intros [= <-].
    + rewrite zget_insert_ne by (lia || done). apply Hw5.
  - intros a b e. rewrite Hname. simpl. destruct (decide (a = i)) as [->|].
    + intros He. by destruct (Hnew' b e He) as (_ & ? & _ & ?).
    + intros He. destruct (Hold' a b e He) as (? & _ & ->). split; [done|]. by apply (Hw6 a).
  - intros a b a' b' e. rewrite !Hname.
    assert (forall b e, zget names b = Some e -> forall a' b', name_at cfg a' b' = Some e -> False) as Hx.
    { intros x y Hxy a1 b1 H1. destruct (Hnew' x y Hxy) as (Hf & _).
      destruct (Hw6 _ _ _ H1) as [[? ?] _]. congruence. }
    destruct (decide (a = i)) as [->|], (decide (a' = i)) as [->|].
    + intros [Hb He]%zget_Some_lookup [Hb' He']%zget_Some_lookup. split; [done|].
      pose proof (NoDup_lookup names _ _ e Hnd He He'). lia.
    + intros He He'. by destruct (Hx b e He a' b').
    + intros He He'. by destruct (Hx b' e He' a b).
    + apply Hw7.
  - intros j Hj. destruct (Hst j Hj) as [row Hrow]. unfold is_started. simpl.
    destruct (decide (j = i)) as [->|]; [rewrite zget_insert_eq by lia; by eexists|].
    rewrite zget_insert_ne by (lia || done). by exists row.
  - intros a b e. rewrite Hname. simpl. unfold is_connected in *. simpl.
    destruct (decide (a = i)) as [->|].
    + intros He. destruct (Hnew' b e He) as (_ & _ & -> & _). by rewrite Hci.
    + intros He. destruct (Hold' a b e He) as (_ & -> & _). by apply Hen.
Qed.

(** A peer that is up is added to the network. *)
Lemma server_wired cfg i rf srv cfg' :
  wired cfg -> 0 <= i < n cfg -> put_peer i rf cfg = Done cfg' ->
  wired (set_net (addServer (inr i) srv (net cfg')) cfg').
Proof.
  intros [Hw Hst Hen] Hi Hput. rewrite put_peer_run in Hput by done. injection Hput as <-.
  destruct Hw as [Hw1 Hw2 Hw3 Hw4 Hw5 Hw6 Hw7 Hw8].
  split; [split; try done; simpl; try by rewrite zlen_insert| |]; [|done..].
  intros j Hj. unfold is_running. simpl. destruct (decide (j = i)) as [->|Hne].
  - rewrite lookup_insert_eq, zget_insert_eq by lia. split; intros _; by eexists.
  - rewrite lookup_insert_ne by congruence. rewrite zget_insert_ne by (lia || done). by apply Hw8.
Qed.

Lemma crash1_in_range cfg i r : crash1 i cfg = Done r -> 0 <= i < zlen (connected cfg).
Proof.
  unfold crash1, disconnect. destruct (zset (connected cfg) i false) eqn:E; [|done].
  intros _. by apply zset_Some in E as [? _].
Qed.

(** A start, when it succeeds: the server runs, under new names, and is not
    connected. *)
Lemma start1_done cfg i names k cfg' sp :
  wired cfg -> zlen names = n cfg -> start1 raft_methods i names k cfg = Done (cfg', sp) ->
  wired cfg' /\ n cfg' = n cfg /\ 0 <= i < n cfg /\
  connected cfg' = <[Z.to_nat i := false]> (connected cfg) /\
  endnames cfg' = <[Z.to_nat i := Some names]> (endnames cfg) /\
  exists rf, rafts cfg' = <[Z.to_nat i := Some rf]> (rafts cfg).
Proof.
  intros Hw Hlen. unfold start1.
  destruct (crash1 i cfg) as [[cfg1 rf0]|] eqn:Hcr; simpl; [|done].
  pose proof (crash1_in_range _ _ _ Hcr) as Hi. rewrite (wn_connected _ (wi_named _ Hw)) in Hi.
  destruct (crash1_run cfg i Hw Hi) as (c1 & r1 & Hcr' & Hw1 & Hn1 & Hc1 & He1 & Hr1 & _).
  rewrite Hcr in Hcr'. injection Hcr' as <- <-.
  rewrite (zset_in (endnames cfg1)) by (rewrite (wn_endnames _ (wi_named _ Hw1)); lia). simpl.
  destruct (each _ _ _) as [nt|] eqn:Hme; simpl; [|done].
  apply (new_ends_wired cfg1 i) in Hme as Hw3; [|done|lia| |lia].
  2: { unfold is_connected. rewrite Hc1, zget_insert_eq; [done|].
       by rewrite (wn_connected _ (wi_named _ Hw)). }
  simpl. destruct (zset (lastApplied cfg1) i 0) as [la|]; simpl; [|done].
  destruct (restore i _) as [cfg5|] eqn:Hre; simpl; [|done].
  apply restore_frame in Hre as (Hnet5 & Hn5 & Hr5 & Hc5 & He5 & Hs5). simpl in *.
  eapply (wired_frame _ cfg5) in Hw3; [|done..].
  destruct (zget (saved cfg5) i) as [[p|]|]; simpl; [|done..].
  destruct (put_peer i _ cfg5) as [cfg6|] eqn:Hput; simpl; [|done].
  intros [= <- <-]. pose proof Hput as Hput'.
  eapply server_wired in Hput'; [|done|lia]. split; [exact Hput'|].
  rewrite put_peer_run in Hput; [|apply Hw3|lia]. injection Hput as <-. simpl.
  rewrite Hn5, Hc5, He5, Hr5, Hn1, Hc1, He1, Hr1.
  split; [done|]. split; [done|]. split; [done|]. split; [done|].
  eexists. by rewrite list_insert_insert_eq.
Qed.

(** *** A test *)

(** All servers have been started once. *)
Definition ready cfg : Prop := wired cfg /\ forall i, 0 <= i < n cfg -> is_started cfg i.

Lemma is_started_set cfg i names j :
  0 <= i < zlen (endnames cfg) ->
  (exists row, zget (<[Z.to_nat i := Some names]> (endnames cfg)) j = Some (Some row)) <->
    j = i \/ is_started cfg j.
Proof.
  intros Hi. destruct (decide (j = i)) as [->|].
  - rewrite zget_insert_eq by done. split; [by left|by eexists].
  - rewrite zget_insert_ne by (lia || done). unfold is_started. naive_solver.
Qed.

Lemma zget_replicate {A} k (x y : A) i : zget (replicate k x) i = Some y -> y = x.
Proof. intros [_ Hl]%zget_Some_lookup. by apply lookup_replicate in Hl as [-> _]. Qed.

(** Before the first start. *)
Lemma blank_wired cfg k :
  n cfg = Z.of_nat k -> rafts cfg = replicate k None -> connected cfg = replicate k false ->
  saved cfg = replicate k None -> endnames cfg = replicate k None ->
  LabRpc.servers (net cfg) = ∅ -> wired cfg.
Proof.
  intros Hn Hr Hc Hs He Hsv.
  assert (forall i j, name_at cfg i j = None) as Hname.
  { intros i j. unfold name_at. rewrite He. destruct (zget _ i) as [row|] eqn:Hi; [|done].
    by apply zget_replicate in Hi as ->. }
  split; [split| |]; try by rewrite ?Hr, ?Hc, ?Hs, ?He, zlen_replicate.
  - intros i row Hi. rewrite He in Hi. by apply zget_replicate in Hi.
  - intros i j e. by rewrite Hname.
  - intros i j i' j' e. by rewrite Hname.
  - intros i _. rewrite Hsv. split; [by intros [p Hp]|]. intros [rf Hi]. rewrite Hr in Hi.
    by apply zget_replicate in Hi.
  - intros i. unfold is_connected. rewrite Hc. destruct (zget _ i) as [b|] eqn:Hi; [|done].
    by apply zget_replicate in Hi as ->.
  - intros i j e. by rewrite Hname.
Qed.

(** All of the first servers up to [j]. *)
Definition up_to (j : Z) (P : Z -> Prop) : Prop := forall a, 0 <= a < j -> P a.

Lemma start_loop m names k cfg cfg' :
  0 <= m -> (forall i, 0 <= i < m -> zlen (names i) = m) -> wired cfg -> n cfg = m ->
  each (range m) (fun i cfg =>
    ls ← must (zset (logs cfg) i ∅);
    '(cfg, _) ← start1 raft_methods i (names i) k (set_logs ls cfg); Done cfg) cfg = Done cfg' ->
  wired cfg' /\ n cfg' = m /\ up_to m (fun a => is_started cfg' a /\ is_running cfg' a).
Proof.
  intros Hm Hnames Hw Hn Hrun.
  apply (each_range_done (fun j s => wired s /\ n s = m /\
    up_to j (fun a => is_started s a /\ is_running s a))) in Hrun; [done|done|..].
  { split; [done|]. split; [done|]. intros a Ha. lia. }
  clear Hrun Hw Hn cfg cfg'. intros j cfg cfg' Hj (Hw & Hn & Hup).
  destruct (zset (logs cfg) j ∅) as [ls|]; simpl; [|done].
  destruct (start1 _ _ _ _ _) as [[cfg1 sp]|] eqn:Hst; simpl; [|done]. intros [= <-].
  eapply wired_frame in Hw; [|reflexivity..].
  apply start1_done in Hst as (Hw1 & Hn1 & _ & _ & He1 & rf & Hr1);
    [|by apply (wired_frame cfg)|simpl; rewrite Hn; by apply Hnames].
  simpl in *. split; [done|]. split; [by rewrite Hn1|].
  intros a Ha. unfold is_started, is_running. rewrite He1, Hr1.
  pose proof (wn_endnames _ (wi_named _ Hw)). pose proof (wn_rafts _ (wi_named _ Hw)).
  destruct (decide (a = j)) as [->|Hne].
  - rewrite !zget_insert_eq by lia. split; by eexists.
  - rewrite !zget_insert_ne by (lia || done). apply Hup. lia.
Qed.

Lemma make_config_ready m unreliable names k now cfg :
  (forall i, 0 <= i < m -> zlen (names i) = m) ->
  make_config raft_methods m unreliable names k now = Done cfg ->
  ready cfg /\ n cfg = m /\ up_to m (fun i => is_running cfg i /\ is_connected cfg i = true).
Proof.
  intros Hnames. unfold make_config. destruct (m <? 0) eqn:Hm; [done|].
  apply Z.ltb_ge in Hm. cbv zeta.
  match goal with |- context [each (range m) ?f ?c] => set (cfg0 := c); set (loop := f) end.
  intros Hrun. destruct (each (range m) loop cfg0) as [cfg1|] eqn:H1; simpl in Hrun; [|done].
  apply start_loop in H1 as (Hw1 & Hn1 & Hup1); [|done|done| |done].
  2: { by apply (blank_wired _ (Z.to_nat m)); [simpl; lia|..]. }
  apply (each_range_done (fun j s => wired s /\ n s = m /\
    up_to m (fun a => is_started s a /\ is_running s a) /\
    up_to j (fun a => is_connected s a = true))) in Hrun; [|done|..].
  { destruct Hrun as (Hw & Hn & Hup & Hc). split; [split; [done|]|split; [done|]].
    - rewrite Hn. intros i Hi. by apply Hup.
    - intros i Hi. split; [by apply Hup|by apply Hc]. }
  - split; [done|]. split; [done|]. split; [done|]. intros a Ha. lia.
  - clear Hrun Hw1 Hn1 Hup1 cfg1 cfg. intros j cfg1 cfg Hj (Hw & Hn & Hup & Hc).
    destruct (connect_run cfg1 j) as (en & -> & Hw'); [done|lia|by apply Hup|].
    intros [= <-]. split; [done|]. split; [done|]. split; [exact Hup|].
    intros a Ha. change (is_connected (with_enabled en ?c) a) with (is_connected c a).
    rewrite is_connected_set by (rewrite (wn_connected _ (wi_named _ Hw)); lia).
    destruct (decide (a = j)); [done|]. apply Hc. lia.
Qed.

(** What a test does to the cluster; [OPeer]: a running peer moves on. *)
Inductive op :=
  | OConnect (i : Z)
  | ODisconnect (i : Z)
  | OCrash (i : Z)
  | OStart (i : Z) (names : list string) (k : Raft.tick)
  | OPeer (i : Z) (rf : Raft.Raft Cmd).

Definition run_op (o : op) cfg : outcome Cmd (config (Cmd := Cmd) (W := W)) :=
  match o with
  | OConnect i => connect i cfg
  | ODisconnect i => disconnect i cfg
  | OCrash i => '(cfg, _) ← crash1 i cfg; Done cfg
  | OStart i names k => '(cfg, _) ← start1 raft_methods i names k cfg; Done cfg
  | OPeer i rf =>
      r ← must (zget (rafts cfg) i);
      match r with None => Done cfg | Some _ => put_peer i rf cfg end
  end.

(** A start draws a name for each server. *)
Definition op_ok (m : Z) (o : op) : Prop :=
  match o with OStart _ names _ => zlen names = m | _ => True end.

Lemma run_op_ready o cfg cfg' :
  ready cfg -> op_ok (n cfg) o -> run_op o cfg = Done cfg' -> ready cfg' /\ n cfg' = n cfg.
Proof.
  intros [Hw Hst] Hok Hrun. pose proof (wi_named _ Hw) as Hwn.
  assert (forall i v cs, zset (connected cfg) i v = Some cs -> 0 <= i < n cfg) as Hin.
  { intros i v cs [? _]%zset_Some. by rewrite <- (wn_connected _ Hwn). }
  destruct o as [i|i|i|i names k|i rf]; simpl in *.
  - assert (0 <= i < n cfg) as Hi.
    { unfold connect in Hrun. destruct (zset _ i true) eqn:E; [by eapply Hin|done]. }
    destruct (connect_run cfg i Hw Hi (Hst i Hi)) as (en & Hc & Hw'). rewrite Hc in Hrun.
    injection Hrun as <-. done.
  - assert (0 <= i < n cfg) as Hi.
    { unfold disconnect in Hrun. destruct (zset _ i false) eqn:E; [by eapply Hin|done]. }
    destruct (disconnect_run cfg i Hw Hi) as (en & Hc & Hw'). rewrite Hc in Hrun.
    injection Hrun as <-. done.
  - destruct (crash1 i cfg) as [[c r]|] eqn:E; simpl in Hrun; [|done]. injection Hrun as <-.
    pose proof (crash1_in_range _ _ _ E) as Hi. rewrite (wn_connected _ Hwn) in Hi.
    destruct (crash1_run cfg i Hw Hi) as (c1 & r1 & E1 & Hw1 & Hn1 & _ & He1 & _).
    rewrite E in E1. injection E1 as -> ->. split; [split; [done|]|done].
    unfold is_started. rewrite Hn1, He1. exact Hst.
  - destruct (start1 _ _ _ _ _) as [[c sp]|] eqn:E; simpl in Hrun; [|done]. injection Hrun as <-.
    apply start1_done in E as (Hw1 & Hn1 & Hi & _ & He1 & _); [|done|done].
    split; [split; [done|]|done]. rewrite Hn1. intros j Hj. unfold is_started. rewrite He1.
    apply is_started_set; [by rewrite (wn_endnames _ Hwn)|]. right. by apply Hst.
  - destruct (zget (rafts cfg) i) as [[rf0|]|] eqn:Hr; simpl in Hrun; [|by injection Hrun as <-|done].
    assert (0 <= i < n cfg) as Hi by (rewrite <- (wn_rafts _ Hwn); by eapply zget_Some_range).
    rewrite put_peer_run in Hrun by done. injection Hrun as <-. split; [split; [|exact Hst]|done].
    destruct Hw as [[Hw1 Hw2 Hw3 Hw4 Hw5 Hw6 Hw7 Hw8] H1 H2].
    split; [split; try done; simpl; try by rewrite zlen_insert|done|done].
    intros j Hj. rewrite (Hw8 j Hj). unfold is_running. simpl.
    destruct (decide (j = i)) as [->|]; [|by rewrite zget_insert_ne by (lia || done)].
    rewrite zget_insert_eq by lia. split; intros _; by eexists.
Qed.

Lemma run_ops_ready ops cfg cfg' :
  ready cfg -> Forall (op_ok (n cfg)) ops -> each ops run_op cfg = Done cfg' ->
  ready cfg' /\ n cfg' = n cfg.
Proof.
  intros Hr Hok Hrun. rewrite Forall_forall in Hok.
  apply (each_done (fun s => ready s /\ n s = n cfg)) in Hrun; [done| |done].
  intros o s s' Ho [Hs Hn] Hstep.
  destruct (run_op_ready o s s' Hs) as [? ?]; [rewrite Hn; by apply Hok|done|].
  split; [done|congruence].
Qed.

(** C25. A test cuts off exactly the servers it disconnects: after any sequence of
    connections, disconnections, crashes, starts and steps of the peers, a
    request from server [i] to server [j] reaches a handler only if both are
    marked as connected and [j] runs, and it is then the server [j] that runs
    it; on a reliable network that is enough. *)
Theorem servers_talk_iff_connected m unreliable names k now cfg0 ops cfg i j meth args d :
  (forall i, 0 <= i < m -> zlen (names i) = m) -> Forall (op_ok m) ops ->
  make_config raft_methods m unreliable names k now = Done cfg0 -> each ops run_op cfg0 = Done cfg ->
  0 <= i < m -> 0 <= j < m ->
  let talks := is_connected cfg i && is_connected cfg j = true /\ is_running cfg j in
  exists e, name_at cfg i j = Some e /\
    match LabRpc.process_begin (LabRpc.mkReq (inl e) meth args) d (net cfg) with
    | LabRpc.Executing _ s _ _ _ => s = inr j /\ talks
    | LabRpc.Answered _ r => LabRpc.ok r = false /\ (talks -> LabRpc.reliable (net cfg) = false)
    end.
Proof.
  intros Hnames Hok Hmake Hops Hi Hj. simpl.
  apply make_config_ready in Hmake as (Hr0 & Hn0 & _); [|done].
  destruct (run_ops_ready ops cfg0 cfg Hr0) as [[[Hw Hst Hen] Hall] Hn]; [by rewrite Hn0|done|].
  rewrite Hn0 in Hn. rewrite <- Hn in Hi, Hj.
  destruct (started_name cfg i j Hw (Hall i Hi) Hj) as [e He]. exists e. split; [done|].
  destruct (wn_end _ Hw i j e He) as [_ Hcn]. pose proof (wn_server _ Hw j Hj) as Hsv.
  unfold LabRpc.process_begin, LabRpc.readEndnameInfo. simpl. rewrite Hcn, (Hen i j e He). simpl.
  destruct (is_connected cfg i && is_connected cfg j); [|split; [done|by intros [? _]]].
  destruct (LabRpc.servers (net cfg) !! inr j) as [[p|]|] eqn:Hs; simpl.
  - assert (is_running cfg j) as Hrun by (apply Hsv; by exists p).
    destruct (negb (LabRpc.reliable (net cfg))) eqn:Hrel; simpl; [|done].
    apply negb_true_iff in Hrel. destruct (_ <? 100); simpl; done.
  - split; [done|]. intros [_ [p Hp]%Hsv]. congruence.
  - split; [done|]. intros [_ [p Hp]%Hsv]. congruence.
Qed.
End wiring.

Section wiring_witness.
Import Raft.

(** Two servers; [tag] makes the names of a start new. *)
Definition two_names (tag : string) (i : Z) : list string :=
  if i =? 0 then [tag ++ "00"; tag ++ "01"]%string else [tag ++ "10"; tag ++ "11"]%string.

Definition two : outcome Z (config (Cmd := Z) (W := unit)) :=
  make_config [] 2 false (two_names "a") (mkTick 0 0) 0.

(** Server 1 is cut off, crashes, starts again and is connected. *)
Definition cycle : list (op (Cmd := Z)) :=
  [ODisconnect 1; OCrash 1; OStart 1 (two_names "b" 1) (mkTick 0 0); OConnect 1].

Definition config_of (o : outcome Z (config (Cmd := Z) (W := unit))) : config :=
  match o with
  | Done c => c
  | Stopped _ => mkConfig LabRpc.MakeNetwork 0 [] [] [] [] [] [] [] 0 0 0 0 0 0 0 0
  end.

Definition cycled : config := config_of (each cycle (run_op []) (config_of two)).

Lemma servers_talk_iff_connected_witness :
  exists e, name_at cycled 1 0 = Some e /\
    match LabRpc.process_begin (LabRpc.mkReq (inl e) "Raft.RequestVote" [])
            (LabRpc.mkDice 0 0 0 0 0 0) (net cycled) with
    | LabRpc.Executing _ s _ _ _ => s = inr 0
    | LabRpc.Answered _ _ => False
    end.
Proof.
  destruct (servers_talk_iff_connected [] 2 false (two_names "a") (mkTick 0 0) 0 (config_of two)
    cycle cycled 1 0 "Raft.RequestVote" [] (LabRpc.mkDice 0 0 0 0 0 0)) as (e & He & Hp).
  - intros i Hi. unfold two_names. by destruct (i =? 0).
  - repeat constructor.
  - by vm_compute.
  - by vm_compute.
  - lia.
  - lia.
  - exists e. split; [exact He|]. destruct (LabRpc.process_begin _ _ _) as [t r|t s p rel reord].
    + destruct Hp as [_ Hrel].
      assert (LabRpc.reliable (net cycled) = true) as Hr by (by vm_compute).
      rewrite Hrel in Hr; [done|]. split; [by vm_compute|].
      assert (bool_decide (is_Some (default None (zget (rafts cycled) 0))) = true) as Hb by (by vm_compute).
      apply bool_decide_eq_true in Hb as [rf Hrf]. exists rf.
      destruct (zget (rafts cycled) 0) as [r'|]; simpl in Hrf; [by rewrite Hrf|done].
    + by destruct Hp as [-> _].
Defined.
End wiring_witness.
End Wiring.
