(* ===== verification/HarnessProps.v ===== *)
(** What the test harness of Raft decides: the appliers accept exactly the
    deliveries that agree and are in order, the network connects exactly the
    servers marked as connected, and the checks for leaders are sound. *)
From S2P Require Import Prelude Persister LabRpc RaftNode RaftFacts RaftSpec RaftSafety RaftCluster ClusterSafety ClusterRefines ClusterRuns ClusterLogs RaftHarness Wiring.
Import Persister RaftHarness Wiring.

Module HarnessProps.

(** ** The appliers *)

Section appliers.
Context {Cmd W : Type} `{!EqDecision Cmd}.
Context `{!Gob Z, !Gob (list (Raft.LogEntry Cmd)), !Gob (list (option Cmd))}.
Implicit Types (cfg : config (Cmd := Cmd) (W := W)) (m : Raft.ApplyMsg Cmd).
Implicit Types (ms prev : list (Z * Raft.ApplyMsg Cmd)) (ls : list (gmap Z (option Cmd))).

(** Two deliveries at one index carry the same command. *)
Definition agree ms : Prop :=
  forall i j m m', (i, m) ∈ ms -> (j, m') ∈ ms ->
  Raft.CommandValid m = true -> Raft.CommandValid m' = true ->
  Raft.CommandIndex m = Raft.CommandIndex m' -> Raft.Command m = Raft.Command m'.

(** Server [i] was given a command at index [x] before. *)
Definition delivered ms (i x : Z) : Prop :=
  exists m, (i, m) ∈ ms /\ Raft.CommandValid m = true /\ Raft.CommandIndex m = x.

(** Each server is given the command before an index first. *)
Definition in_order ms : Prop :=
  forall before i m after, ms = before ++ (i, m) :: after -> Raft.CommandValid m = true ->
  1 < Raft.CommandIndex m -> delivered before i (Raft.CommandIndex m - 1).

(** The logs hold what was delivered. *)
Definition recorded prev ls : Prop :=
  forall i l, zget ls i = Some l -> forall x v, l !! x = Some v <->
    exists m, (i, m) ∈ prev /\ Raft.CommandValid m = true /\ Raft.CommandIndex m = x /\
      Raft.Command m = v.

(** A delivery that the harness accepts after [prev]. *)
Definition acceptable prev (i : Z) m : Prop :=
  Raft.CommandValid m = true ->
  (forall j m', (j, m') ∈ prev -> Raft.CommandValid m' = true ->
     Raft.CommandIndex m' = Raft.CommandIndex m -> Raft.Command m' = Raft.Command m) /\
  (1 < Raft.CommandIndex m -> delivered prev i (Raft.CommandIndex m - 1)).

Lemma clash_spec i m jls err :
  match fold_left (clash i m) jls err with
  | None => err = None /\ forall jl old, jl ∈ jls ->
      jl.2 !! Raft.CommandIndex m = Some old -> old = Raft.Command m
  | Some _ => is_Some err \/ exists jl old, jl ∈ jls /\
      jl.2 !! Raft.CommandIndex m = Some old /\ old <> Raft.Command m
  end.
Proof.
  revert err. induction jls as [|jl jls IH]; intros err; simpl.
  { destruct err; [by left; eexists|]. split; [done|]. by intros jl old ?%not_elem_of_nil. }
  specialize (IH (clash i m err jl)). destruct (fold_left _ _ _).
  - destruct IH as [He|(jl' & old & ? & ? & ?)].
    + unfold clash in He. destruct (jl.2 !! _) as [old|] eqn:E; [|by left].
      destruct (decide (old = Raft.Command m)); [by left|right].
      exists jl, old. split; [apply list_elem_of_here|done].
    + right. exists jl', old. split; [by apply list_elem_of_further|done].
  - destruct IH as [He Hall]. unfold clash in He.
    assert (err = None /\ forall old, jl.2 !! Raft.CommandIndex m = Some old ->
      old = Raft.Command m) as [Hn Hjl].
    { destruct (jl.2 !! _) as [old|]; [|done]. destruct (decide (old = _)); [|done].
      split; [done|]. congruence. }
    split; [done|]. intros jl' old' [->|Hin]%elem_of_cons Hl; [by apply Hjl|by eapply Hall].
Qed.

(** A delivery before it disagrees with [m]. *)
Definition contradicted prev m : Prop :=
  exists j m', (j, m') ∈ prev /\ Raft.CommandValid m' = true /\
    Raft.CommandIndex m' = Raft.CommandIndex m /\ Raft.Command m' <> Raft.Command m.

Lemma recorded_ignore prev ls i m :
  Raft.CommandValid m = false -> recorded prev ls -> recorded (prev ++ [(i, m)]) ls.
Proof.
  intros Hv Hrec j l Hl x v. rewrite (Hrec j l Hl x v). split.
  - intros (m' & Hin & H). exists m'. split; [by apply elem_of_app; left|done].
  - intros (m' & Hin & Hv' & H). exists m'. split; [|done].
    apply elem_of_app in Hin as [?|[= -> ->]%list_elem_of_singleton]; [done|congruence].
Qed.

Lemma recorded_insert prev ls i m l :
  recorded prev ls -> zget ls i = Some l -> Raft.CommandValid m = true ->
  (forall m', (i, m') ∈ prev -> Raft.CommandValid m' = true ->
     Raft.CommandIndex m' = Raft.CommandIndex m -> Raft.Command m' = Raft.Command m) ->
  recorded (prev ++ [(i, m)])
    (<[Z.to_nat i := <[Raft.CommandIndex m := Raft.Command m]> l]> ls).
Proof.
  intros Hrec Hl Hv Hag j lj Hj x v. pose proof (zget_Some_range _ _ _ Hl) as Hi.
  assert (forall m', (j, m') ∈ prev ++ [(i, m)] <-> (j, m') ∈ prev \/ (j = i /\ m' = m)) as Hin.
  { intros m'. rewrite elem_of_app, list_elem_of_singleton. naive_solver. }
  destruct (decide (j = i)) as [->|Hne].
  - rewrite zget_insert_eq in Hj by done. injection Hj as <-.
    rewrite lookup_insert_Some, (Hrec i l Hl x v). split.
    + intros [[<- <-]|(Hx & m' & ? & ? & ? & ?)]; [exists m|exists m']; rewrite Hin; auto.
    + intros (m' & [Hp|[_ ->]]%Hin & Hv' & Hx & Hc); [|by left].
      destruct (decide (Raft.CommandIndex m = x)) as [Heq|Hne].
      * left. split; [done|]. rewrite <- Hc. symmetry. apply Hag; congruence.
      * right. split; [done|]. by exists m'.
  - rewrite zget_insert_ne in Hj by (lia || done). rewrite (Hrec j lj Hj x v). split.
    + intros (m' & ? & ?). exists m'. rewrite Hin. auto.
    + intros (m' & [?|[? _]]%Hin & ?); [by exists m'|done].
Qed.

(** The scan: no disagreement with what was delivered, and the command before
    was delivered; the log is extended in any case. *)
Lemma checkLogs_spec prev i m cfg l :
  recorded prev (logs cfg) -> (forall j m', (j, m') ∈ prev -> 0 <= j < zlen (logs cfg)) ->
  zget (logs cfg) i = Some l ->
  exists err prevok cfg', checkLogs i m cfg = Done (err, prevok, cfg') /\
    logs cfg' = <[Z.to_nat i := <[Raft.CommandIndex m := Raft.Command m]> l]> (logs cfg) /\
    (err = None -> forall j m', (j, m') ∈ prev -> Raft.CommandValid m' = true ->
       Raft.CommandIndex m' = Raft.CommandIndex m -> Raft.Command m' = Raft.Command m) /\
    (is_Some err -> contradicted prev m) /\
    (prevok = true <-> delivered prev i (Raft.CommandIndex m - 1)).
Proof.
  intros Hrec Hprev Hl. pose proof (zget_Some_range _ _ _ Hl) as Hi. unfold checkLogs.
  rewrite Hl. simpl. rewrite zset_in by done. simpl. eexists _, _, _. split; [done|].
  pose proof (clash_spec i m (zip (range (zlen (logs cfg))) (logs cfg)) None) as Hcl.
  split; [by destruct (maxIndex cfg <? _)|]. split; [|split].
  - intros He j m' Hin Hv' Hx. rewrite He in Hcl. destruct Hcl as [_ Hall].
    destruct (proj2 (zget_is_Some (logs cfg) j)) as [lj Hlj]; [by eapply Hprev|].
    eapply (Hall (j, lj)); [by apply zip_range_elem|]. simpl. apply (Hrec j lj Hlj).
    by exists m'.
  - intros [e He]. rewrite He in Hcl. destruct Hcl as [[? ?]|([j lj] & old & Hin & Hold & Hne)];
      [done|]. apply zip_range_elem in Hin.
    apply (Hrec j lj Hin) in Hold as (m' & Hin' & Hv' & Hx & <-). by exists j, m'.
  - rewrite bool_decide_eq_true. split.
    + intros [v Hlv]. apply (Hrec i l Hl) in Hlv as (m' & ? & ? & ? & _). by exists m'.
    + intros (m' & ? & ? & ?). exists (Raft.Command m'). apply (Hrec i l Hl). by exists m'.
Qed.

(** One message: accepted exactly when it is acceptable. *)
Lemma applier_spec prev i m cfg :
  recorded prev (logs cfg) -> (forall j m', (j, m') ∈ prev -> 0 <= j < zlen (logs cfg)) ->
  0 <= i < zlen (logs cfg) ->
  (acceptable prev i m /\ exists cfg', applier i m cfg = Done cfg' /\
     zlen (logs cfg') = zlen (logs cfg) /\ recorded (prev ++ [(i, m)]) (logs cfg')) \/
  (~ acceptable prev i m /\ exists why, applier i m cfg = Stopped (Exited why) /\
     (why = OutOfOrder i (Raft.CommandIndex m) \/
      (Raft.CommandValid m = true /\ contradicted prev m))).
Proof.
  intros Hrec Hprev Hi. unfold applier, acceptable.
  destruct (Raft.CommandValid m) eqn:Hv; simpl.
  2: { left. split; [done|]. exists cfg. split; [done|]. split; [done|].
       by apply recorded_ignore. }
  destruct (proj2 (zget_is_Some (logs cfg) i) Hi) as [l Hl].
  destruct (checkLogs_spec prev i m cfg l Hrec Hprev Hl)
    as (err & prevok & cfg' & -> & Hlogs & Hnone & Hsome & Hok). simpl.
  destruct ((1 <? Raft.CommandIndex m) && negb prevok) eqn:Eo.
  - right. apply andb_true_iff in Eo as [Hx%Z.ltb_lt Hn%negb_true_iff].
    split; [|by eexists; split; [|left]]. intros Hacc. destruct Hacc as [_ Hd]; [done|].
    apply Hd, Hok in Hx. congruence.
  - assert (1 < Raft.CommandIndex m -> delivered prev i (Raft.CommandIndex m - 1)) as Hd.
    { intros Hx. apply Hok. apply Z.ltb_lt in Hx. rewrite Hx in Eo. by destruct prevok. }
    destruct err as [e|].
    + right. destruct Hsome as (j & m' & Hin & Hv' & Hx & Hne); [done|]. split.
      * intros Hacc. destruct Hacc as [Hag _]; [done|]. by apply Hne, (Hag j).
      * exists e. split; [done|right]. split; [done|]. by exists j, m'.
    + left. specialize (Hnone eq_refl). split; [done|]. exists cfg'. split; [done|].
      rewrite Hlogs. split; [by rewrite zlen_insert|].
      apply recorded_insert; try done. intros m'. apply Hnone.
Qed.

(** Every delivery is acceptable after those before it. *)
Definition all_acceptable prev ms : Prop :=
  forall before i m after, ms = before ++ (i, m) :: after -> acceptable (prev ++ before) i m.

Lemma all_acceptable_cons prev i m ms :
  all_acceptable prev ((i, m) :: ms) <->
  acceptable prev i m /\ all_acceptable (prev ++ [(i, m)]) ms.
Proof.
  split.
  - intros H. split.
    { pose proof (H [] i m ms eq_refl) as H0. by rewrite app_nil_r in H0. }
    intros before j m' after ->. rewrite <- app_assoc.
    by apply (H ((i, m) :: before) j m' after).
  - intros [H0 H] before j m' after Heq. destruct before as [|[i0 m0] before].
    + injection Heq as <- <- <-. by rewrite app_nil_r.
    + injection Heq as <- <- ->. specialize (H before j m' after eq_refl).
      by rewrite <- app_assoc in H.
Qed.

Lemma appliers_run prev ms cfg :
  recorded prev (logs cfg) -> (forall j m', (j, m') ∈ prev -> 0 <= j < zlen (logs cfg)) ->
  Forall (fun im => 0 <= im.1 < zlen (logs cfg)) ms ->
  (all_acceptable prev ms /\ exists cfg', appliers ms cfg = Done cfg' /\
     recorded (prev ++ ms) (logs cfg')) \/
  (~ all_acceptable prev ms /\ exists before i m after why, ms = before ++ (i, m) :: after /\
     appliers ms cfg = Stopped (Exited why) /\
     (why = OutOfOrder i (Raft.CommandIndex m) \/
      (Raft.CommandValid m = true /\ contradicted (prev ++ before) m))).
Proof.
  revert prev cfg. induction ms as [|[i m] ms IH]; intros prev cfg Hrec Hprev Hms.
  { left. split; [intros [|x before] j m' after Heq; done|]. exists cfg. by rewrite app_nil_r. }
  apply Forall_cons in Hms as [Hi Hms]. rewrite all_acceptable_cons.
  unfold appliers. simpl. change (each ms _) with (appliers (Cmd := Cmd) (W := W) ms).
  destruct (applier_spec prev i m cfg Hrec Hprev Hi)
    as [(Hacc & cfg1 & -> & Hlen & Hrec1)|(Hno & why & -> & Hwhy)]; simpl.
  - destruct (IH (prev ++ [(i, m)]) cfg1) as [(Hall & cfg' & Hrun & Hrec')
      |(Hno & before & j & m' & after & why & -> & Hrun & Hwhy)]; try done.
    + intros j m' [?|[= -> ->]%list_elem_of_singleton]%elem_of_app; rewrite Hlen; [by eapply Hprev|done].
    + by rewrite Hlen.
    + left. split; [done|]. exists cfg'. by rewrite <- app_assoc in Hrec'.
    + right. split; [by intros [_ ?]|]. exists ((i, m) :: before), j, m', after, why.
      split; [done|]. split; [done|]. by rewrite <- app_assoc in Hwhy.
  - right. split; [by intros [? _]|]. exists [], i, m, ms, why. by rewrite app_nil_r.
Qed.

Lemma all_acceptable_iff ms : all_acceptable [] ms <-> agree ms /\ in_order ms.
Proof.
  split.
  - intros Hall. split.
    + intros i j m m' Hin Hin' Hv Hv' Hx.
      apply list_elem_of_split in Hin as (a & b & ->).
      apply elem_of_app in Hin' as [Hin'|[Heq|Hin']%elem_of_cons].
      * symmetry. by eapply (Hall a i m b).
      * by injection Heq as -> ->.
      * apply list_elem_of_split in Hin' as (b1 & b2 & ->).
        apply (Hall (a ++ (i, m) :: b1) j m' b2) with i; [by rewrite <- app_assoc|done| |done|done].
        simpl. apply elem_of_app. right. apply list_elem_of_here.
    + intros before i m after -> Hv Hx. by apply (Hall before i m after).
  - intros [Hag Hord] before i m after -> Hv. simpl. split.
    + intros j m' Hin Hv' Hx. eapply (Hag j i m' m); try done; set_solver.
    + intros Hx. by eapply Hord.
Qed.

(** The logs before anything is delivered. *)
Definition fresh cfg : Prop := forall i l, zget (logs cfg) i = Some l -> l = ∅.

Lemma fresh_recorded cfg : fresh cfg -> recorded [] (logs cfg).
Proof.
  intros Hf i l Hl x v. rewrite (Hf i l Hl), lookup_empty. split; [done|].
  by intros (m & ?%not_elem_of_nil & _).
Qed.

(** The appliers of the Raft tests let a sequence of deliveries pass exactly
    when state machine safety holds of it - any two commands delivered at one
    index, to any servers, are equal - and each server was given its commands in
    order; otherwise the test process exits. *)
Theorem appliers_spec ms cfg :
  fresh cfg -> Forall (fun im => 0 <= im.1 < zlen (logs cfg)) ms ->
  (agree ms /\ in_order ms /\ exists cfg', appliers ms cfg = Done cfg') \/
  (~ (agree ms /\ in_order ms) /\ exists why, appliers ms cfg = Stopped (Exited why)).
Proof.
  intros Hf Hms. destruct (appliers_run [] ms cfg) as [(Hall & cfg' & Hrun & _)
    |(Hno & before & i & m & after & why & _ & Hrun & _)]; try done.
  - by apply fresh_recorded.
  - by intros j m' ?%not_elem_of_nil.
  - left. apply all_acceptable_iff in Hall as [? ?]. split; [done|]. split; [done|].
    by exists cfg'.
  - right. rewrite all_acceptable_iff in Hno. split; [done|]. by exists why.
Qed.

(** C19. A run of the cluster passes the tests' comparison of the servers: when no
    server votes twice in a term and at most 100 commands are submitted, and the
    harness starts with an empty log per server, the appliers never report that two servers disagree; they may only report that a
    server was given a command before its predecessor. *)
Theorem cluster_passes_appliers n k acts c cfg :
  RaftCluster.exec (RaftCluster.init n k) acts = Ret c ->
  RaftSpec.single (RaftCluster.c_votes c) -> ClusterRuns.commands acts <= 100 ->
  fresh cfg -> zlen (logs cfg) = Z.of_nat n ->
  (exists cfg', appliers (RaftCluster.c_applied c) cfg = Done cfg') \/
  (exists i x, appliers (RaftCluster.c_applied c) cfg = Stopped (Exited (OutOfOrder i x))).
Proof.
  intros Hex Hs Hcap Hf Hn.
  destruct (ClusterLogs.run_messages n k acts c Hex Hs Hcap) as (s & Hinv & Happ).
  destruct (appliers_run [] (RaftCluster.c_applied c) cfg) as [(_ & cfg' & Hrun & _)
    |(_ & before & i & m & after & why & Heq & Hrun & Hwhy)].
  - by apply fresh_recorded.
  - by intros j m' ?%not_elem_of_nil.
  - rewrite Hn. apply Forall_forall. intros im Him. by apply Happ.
  - left. by exists cfg'.
  - right. exists i, (Raft.CommandIndex m). rewrite Hrun. do 2 f_equal.
    destruct Hwhy as [->|(_ & j & m' & Hin & _ & Hx & Hne)]; [done|].
    destruct (Happ (j, m')) as [_ Hm'].
    { rewrite Heq. simpl in Hin. apply elem_of_app. by left. }
    destruct (Happ (i, m)) as [_ Hm].
    { rewrite Heq. apply elem_of_app. right. apply list_elem_of_here. }
    simpl in Hm, Hm'. by destruct (Hne (ClusterLogs.msgs_agree n s _ _ m' m Hinv Hm' Hm Hx)).
Qed.
End appliers.

Section applier_witnesses.
Import Raft.

(** Three servers, before anything is delivered. *)
Definition fresh3 : config (Cmd := Z) (W := unit) :=
  mkConfig LabRpc.MakeNetwork 3 [None; None; None] [None; None; None] [true; true; true]
    [None; None; None] [None; None; None] [∅; ∅; ∅] [0; 0; 0] 0 0 0 0 0 0 0 0.

Lemma fresh3_fresh : fresh fresh3.
Proof.
  intros i l Hl. unfold zget in Hl. destruct (i <? 0); [done|]. simpl in Hl.
  destruct (Z.to_nat i) as [|[|[|?]]]; simpl in Hl; try done; by injection Hl as <-.
Qed.

(** Server 1 is given another command than server 0. *)
Definition disagreeing : list (Z * Raft.ApplyMsg Z) :=
  [(0, RaftCluster.msg 1 7); (1, RaftCluster.msg 1 8)].

Lemma appliers_spec_witness :
  ~ (agree disagreeing /\ in_order disagreeing) /\
  exists why, appliers disagreeing fresh3 = Stopped (Exited why).
Proof.
  destruct (appliers_spec disagreeing fresh3 fresh3_fresh) as [(Hag & _)|H].
  - change (zlen (logs fresh3)) with 3. by repeat constructor.
  - assert (Some 7 = Some 8) as [=].
    apply (Hag 0 1 (RaftCluster.msg 1 7) (RaftCluster.msg 1 8)); try done;
      apply list_elem_of_In; simpl; auto.
  - exact H.
Defined.

Lemma cluster_passes_appliers_witness :
  zlen (RaftCluster.c_applied ClusterLogs.applied_twice) = 2 /\
  ((exists cfg', appliers (RaftCluster.c_applied ClusterLogs.applied_twice) fresh3 = Done cfg') \/
   (exists i x, appliers (RaftCluster.c_applied ClusterLogs.applied_twice) fresh3 =
      Stopped (Exited (OutOfOrder i x)))).
Proof.
  split; [by vm_compute|].
  apply (cluster_passes_appliers 3 RaftCluster.t0
    (ClusterLogs.acknowledge ++ ClusterLogs.takeover ++ ClusterLogs.second_apply)).
  - exact ClusterLogs.applied_twice_runs.
  - exact ClusterLogs.applied_twice_single.
  - by vm_compute.
  - exact fresh3_fresh.
  - done.
Defined.
End applier_witnesses.

(** ** The checks for leaders *)

Section leaders.
Context {Cmd W : Type} `{!EqDecision Cmd}.
Context `{!Gob Z, !Gob (list (Raft.LogEntry Cmd)), !Gob (list (option Cmd))}.
Implicit Types (rd : Z -> config (Cmd := Cmd) (W := W)) (i j T : Z) (m : gmap Z (list Z)).

(** When it is read, server [i] is connected and says it leads term [T]. *)
Definition claims rd i T : Prop :=
  is_connected (rd i) i = true /\
  exists rf, zget (rafts (rd i)) i = Some (Some rf) /\ Raft.GetState rf = (T, true).

(** Every server can be read: one that is connected runs. *)
Definition readable (k : Z) rd : Prop :=
  forall i, 0 <= i < k -> exists c, zget (connected (rd i)) i = Some c /\
    (c = true -> exists rf, zget (rafts (rd i)) i = Some (Some rf) /\ 0 <= Raft.currentTerm rf).

(** The map of a round lists who claims each term. *)
Record collected (k : Z) rd m : Prop := {
  co_mem i T : i ∈ default [] (m !! T) <-> 0 <= i < k /\ claims rd i T;
  co_nodup T : NoDup (default [] (m !! T));
  co_ne T l : m !! T = Some l -> l <> [];
  co_term T l : m !! T = Some l -> 0 <= T }.

Lemma claims_unique rd i T T' : claims rd i T -> claims rd i T' -> T = T'.
Proof. intros (_ & rf & Hr & Hg) (_ & rf' & Hr' & Hg'). congruence. Qed.

Lemma collect_leaders_spec k rd :
  0 <= k -> readable k rd -> exists m, collect_leaders k rd = Done m /\ collected k rd m.
Proof.
  intros Hk Hr. unfold collect_leaders. apply (each_range (fun j => collected j rd)); [done| |].
  { split.
    - intros i T. rewrite lookup_empty. simpl. split; [by intros ?%not_elem_of_nil|lia].
    - intros T. rewrite lookup_empty. apply NoDup_nil. constructor.
    - intros T l. by rewrite lookup_empty.
    - intros T l. by rewrite lookup_empty. }
  intros i m Hi [Hmem Hnd Hne Htm]. destruct (Hr i Hi) as (c & Hc & Hrun).
  unfold if_connected, state_of. rewrite Hc. simpl.
  assert (forall j T, 0 <= j < i + 1 /\ claims rd j T <->
    (0 <= j < i /\ claims rd j T) \/ (j = i /\ claims rd i T)) as Hsplit.
  { intros j T. split; [|intros [?|[-> ?]]; [split; [lia|tauto]|split; [lia|done]]].
    intros [Hj Hcl]. destruct (decide (j = i)) as [->|]; [by right|left]. split; [lia|done]. }
  destruct c.
  2: { exists m. split; [done|]. split; [|done..]. intros j T. rewrite Hmem, Hsplit.
       assert (~ claims rd i T) by (intros [Hf _]; unfold is_connected in Hf; by rewrite Hc in Hf).
       tauto. }
  destruct Hrun as (rf & Hrf & H0); [done|]. rewrite Hrf. simpl.
  unfold Raft.GetState. destruct (bool_decide (Raft.state rf = Raft.Leader)) eqn:Hl.
  - set (T0 := Raft.currentTerm rf) in *. set (l0 := default [] (m !! T0)) in *.
    assert (claims rd i T0) as Hcl.
    { split; [unfold is_connected; by rewrite Hc|]. exists rf. split; [done|].
      unfold Raft.GetState. by rewrite Hl. }
    assert (i ∉ l0) as Hni by (intros [? _]%Hmem; lia).
    assert (forall T, <[T0 := l0 ++ [i]]> m !! T =
      if decide (T = T0) then Some (l0 ++ [i]) else m !! T) as Hins.
    { intros T. destruct (decide (T = T0)) as [->|]; [by rewrite lookup_insert_eq|].
      by rewrite lookup_insert_ne by congruence. }
    eexists. split; [done|]. split.
    + intros j T. rewrite Hins, Hsplit. destruct (decide (T = T0)) as [->|Hne'].
      * simpl. rewrite elem_of_app, list_elem_of_singleton. unfold l0. rewrite Hmem. tauto.
      * rewrite Hmem. assert (~ claims rd i T); [|tauto].
        intros Hcl'. by apply Hne', (claims_unique rd i).
    + intros T. rewrite Hins. destruct (decide (T = T0)); [|apply Hnd]. simpl.
      apply NoDup_app. split; [apply Hnd|]. split; [|apply NoDup_singleton].
      by intros x Hx ->%list_elem_of_singleton.
    + intros T l. rewrite Hins. destruct (decide (T = T0)); [|apply Hne].
      intros [= <-]. by destruct l0.
    + intros T l. rewrite Hins. destruct (decide (T = T0)) as [->|]; [done|apply Htm].
  - exists m. split; [done|]. split; [|done..]. intros j T. rewrite Hmem, Hsplit.
    assert (~ claims rd i T); [|tauto]. intros (_ & rf' & Hrf' & Hg). rewrite Hrf in Hrf'.
    injection Hrf' as <-. unfold Raft.GetState in Hg. congruence.
Qed.

(** The last term with a leader, unless a term has several. *)
Lemma last_term_spec (l : list (Z * list Z)) (last : Z) :
  match each l (fun tl last =>
    if 1 <? zlen tl.2 then Stopped (Failed ManyLeaders)
    else Done (if last <? tl.1 then tl.1 else last)) last : outcome Cmd Z with
  | Done r => (forall t ls, (t, ls) ∈ l -> zlen ls <= 1 /\ t <= r) /\ last <= r /\
      (r = last \/ exists ls, (r, ls) ∈ l)
  | Stopped e => e = Failed ManyLeaders /\ exists t ls, (t, ls) ∈ l /\ 1 < zlen ls
  end.
Proof.
  revert last. induction l as [|[t ls] l IH]; intros last; simpl.
  { split; [by intros t ls ?%not_elem_of_nil|]. split; [lia|by left]. }
  destruct (1 <? zlen ls) eqn:E1; simpl.
  { apply Z.ltb_lt in E1. split; [done|]. exists t, ls. split; [apply list_elem_of_here|done]. }
  apply Z.ltb_ge in E1. set (last1 := if last <? t then t else last).
  assert (last <= last1 /\ t <= last1 /\ (last1 = last \/ last1 = t)) as (H1 & H2 & H3).
  { unfold last1. destruct (last <? t) eqn:E; [apply Z.ltb_lt in E|apply Z.ltb_ge in E]; lia. }
  clearbody last1. specialize (IH last1). destruct (each l _ last1) as [r|e].
  - destruct IH as (Hall & Hle & Hr). split; [|split; [lia|]].
    + intros t' ls' [[= -> ->]|Hin]%elem_of_cons; [lia|by apply Hall].
    + destruct Hr as [->|[ls' Hin]]; [|right; exists ls'; by apply list_elem_of_further].
      destruct H3 as [->| ->]; [by left|right; exists ls; apply list_elem_of_here].
  - destruct IH as (He & t' & ls' & Hin & Hlen). split; [done|]. exists t', ls'.
    split; [by apply list_elem_of_further|done].
Qed.

(** One server alone leads the highest term that is claimed. *)
Definition leads (k : Z) rd i : Prop :=
  0 <= i < k /\ exists T, claims rd i T /\
    forall j T', 0 <= j < k -> claims rd j T' -> T' <= T /\ (T' = T -> j = i).

(** Two servers lead one term. *)
Definition contested (k : Z) rd : Prop :=
  exists i j T, i <> j /\ 0 <= i < k /\ 0 <= j < k /\ claims rd i T /\ claims rd j T.

Definition unclaimed (k : Z) rd : Prop := forall i T, 0 <= i < k -> ~ claims rd i T.

Lemma one_leader_round_spec k rd :
  0 <= k -> readable k rd ->
  match one_leader_round k rd with
  | Done None => unclaimed k rd
  | Done (Some i) => leads k rd i
  | Stopped e => e = Failed ManyLeaders /\ contested k rd
  end.
Proof.
  intros Hk Hr. destruct (collect_leaders_spec k rd Hk Hr) as (m & Hm & [Hmem Hnd Hne Htm]).
  unfold one_leader_round. rewrite Hm. simpl. pose proof (last_term_spec (map_to_list m) (-1)) as Hsp.
  destruct (each (map_to_list m) _ (-1)) as [last|e]; simpl.
  2: { destruct Hsp as (-> & t & ls & Hin & Hlen). split; [done|].
       apply elem_of_map_to_list in Hin.
       pose proof (Hnd t) as Hn. assert (forall i, i ∈ ls -> 0 <= i < k /\ claims rd i t) as Hin'.
       { intros i Hi. apply Hmem. by rewrite Hin. }
       rewrite Hin in Hn. simpl in Hn. destruct ls as [|i [|j ls]]; [by compute in Hlen..|].
       exists i, j, t. destruct (Hin' i) as [? ?]; [apply list_elem_of_here|].
       destruct (Hin' j) as [? ?]; [apply list_elem_of_further, list_elem_of_here|].
       split; [|done]. intros ->. apply NoDup_cons in Hn as [Hn _]. apply Hn, list_elem_of_here. }
  destruct Hsp as (Hall & _ & Hlast). destruct (decide (m = ∅)) as [->|Hm0].
  { intros i T Hi Hcl. assert (i ∈ default [] ((∅ : gmap Z (list Z)) !! T)) as Hin by by apply Hmem.
    rewrite lookup_empty in Hin. by apply not_elem_of_nil in Hin. }
  assert (exists ls, m !! last = Some ls) as [ls Hls].
  { destruct Hlast as [->|[ls Hin]]; [|exists ls; by apply elem_of_map_to_list].
    destruct (map_choose m Hm0) as (t & ls & Ht). pose proof (Htm t ls Ht).
    apply elem_of_map_to_list, Hall in Ht. lia. }
  rewrite Hls. simpl. assert (zlen ls <= 1) as Hl1 by (eapply Hall; by apply elem_of_map_to_list).
  destruct ls as [|i [|j ls]]; [by apply Hne in Hls| |].
  2: { unfold zlen in Hl1. simpl in Hl1. lia. }
  simpl. assert (0 <= i < k /\ claims rd i last) as [Hi Hcl].
  { apply Hmem. rewrite Hls. apply list_elem_of_here. }
  split; [done|]. exists last. split; [done|]. intros j T' Hj Hclj.
  assert (j ∈ default [] (m !! T')) as Hin by by apply Hmem.
  destruct (m !! T') as [l'|] eqn:HT; [|by apply not_elem_of_nil in Hin]. split.
  - eapply Hall. by apply elem_of_map_to_list.
  - intros ->. rewrite Hls in HT. injection HT as <-. by apply list_elem_of_singleton in Hin.
Qed.

(** checkOneLeader tells the truth: the server it returns was connected and
    alone at leading the highest term claimed in its round; it fails with
    several leaders only when two servers claimed one term, and with none when
    in all its rounds nobody claimed to lead. *)
Theorem checkOneLeader_spec k rounds :
  0 <= k -> Forall (readable k) rounds ->
  match checkOneLeader k rounds with
  | Done i => exists rd, rd ∈ rounds /\ leads k rd i
  | Stopped (Failed ManyLeaders) => exists rd, rd ∈ rounds /\ contested k rd
  | Stopped e => e = Failed NoLeader /\ Forall (unclaimed k) rounds
  end.
Proof.
  intros Hk. induction rounds as [|rd rounds IH]; intros Hr; simpl; [done|].
  apply Forall_cons in Hr as [Hrd Hr]. specialize (IH Hr).
  pose proof (one_leader_round_spec k rd Hk Hrd) as Hsp.
  destruct (one_leader_round k rd) as [[i|]|e]; simpl.
  - exists rd. split; [apply list_elem_of_here|done].
  - destruct (checkOneLeader k rounds) as [i|[|why|why]].
    + destruct IH as (rd' & ? & ?). exists rd'. split; [by apply list_elem_of_further|done].
    + by destruct IH.
    + by destruct IH.
    + destruct why; try (destruct IH as [? IH]; split; [done|by apply Forall_cons]).
      destruct IH as (rd' & ? & ?). exists rd'. split; [by apply list_elem_of_further|done].
  - destruct Hsp as [-> Hc]. exists rd. split; [apply list_elem_of_here|done].
Qed.

(** The peers of a round are those of a run of the cluster that ends in [c],
    each at some moment of the run. *)
Definition reads_run (k : nat) (c : RaftCluster.Cluster Cmd) rd : Prop :=
  forall i rf, 0 <= i < Z.of_nat k -> zget (rafts (rd i)) i = Some (Some rf) ->
  exists ci acts, RaftCluster.reachable k ci /\ RaftCluster.exec ci acts = Ret c /\
    zget (RaftCluster.c_nodes ci) i = Some rf.

Lemma not_contested k c rd :
  RaftSpec.single (RaftCluster.c_votes c) -> reads_run k c rd -> ~ contested (Z.of_nat k) rd.
Proof.
  intros Hs Hrun (i & j & T & Hne & Hi & Hj & Hcl & Hcl'). apply Hne.
  assert (forall x, 0 <= x < Z.of_nat k -> claims rd x T ->
    RaftSpec.quorum (Z.of_nat k) (RaftCluster.c_votes c) x T) as Hq.
  { intros x Hx (_ & rf & Hrf & [= HT Hl]). apply bool_decide_eq_true in Hl.
    destruct (Hrun x rf Hx Hrf) as (ci & acts & Hreach & Hex & Hrfi).
    apply ClusterSafety.reachable_good in Hreach.
    pose proof (ClusterSafety.ni_leader _ _ _ _
      (ClusterSafety.ci_nodes _ _ _ _ _ Hreach x rf Hrfi) Hl) as HQ.
    rewrite HT in HQ. eapply RaftSpec.quorum_mono; [|exact HQ].
    by eapply ClusterRuns.exec_votes. }
  eapply RaftSpec.quorum_single; [exact Hs|by apply Hq..].
Qed.

(** C20. A run of the cluster passes checkOneLeader, although the servers are read
    one after the other while they run: when no server votes twice in a term,
    it never finds two leaders of one term. *)
Theorem cluster_passes_checkOneLeader k c rounds :
  RaftSpec.single (RaftCluster.c_votes c) -> Forall (readable (Z.of_nat k)) rounds ->
  Forall (reads_run k c) rounds ->
  checkOneLeader (Z.of_nat k) rounds <> Stopped (Failed ManyLeaders).
Proof.
  intros Hs. induction rounds as [|rd rounds IH]; intros Hr Hread; simpl; [done|].
  apply Forall_cons in Hr as [Hrd Hr]. apply Forall_cons in Hread as [Hrr Hread].
  pose proof (one_leader_round_spec (Z.of_nat k) rd (Nat2Z.is_nonneg k) Hrd) as Hsp.
  destruct (one_leader_round (Z.of_nat k) rd) as [[i|]|e]; simpl; [done|by apply IH|].
  destruct Hsp as [_ Hc]. by destruct (not_contested k c rd Hs Hrr).
Qed.
End leaders.

(** ** Agreement *)

Section agreement.
Context {Cmd W : Type} `{!EqDecision Cmd}.
Context `{!Gob Z, !Gob (list (Raft.LogEntry Cmd)), !Gob (list (option Cmd))}.
Implicit Types (rd : Z -> config (Cmd := Cmd) (W := W)) (x : Z) (i : Z) (v : option Cmd).

(** When it is read, server [i] has applied a command at index [x]. *)
Definition applied rd x i v : Prop := exists l, zget (logs (rd i)) i = Some l /\ l !! x = Some v.

(** The servers below [k] that applied something at [x] are [Q], and they all
    applied [v]. *)
Definition counted (k : Z) rd x (Q : list Z) v : Prop :=
  NoDup Q /\ (forall i, i ∈ Q <-> 0 <= i < k /\ exists v', applied rd x i v') /\
  forall i v', i ∈ Q -> applied rd x i v' -> v' = v.

Lemma counted_skip k rd x Q v :
  0 <= k -> counted k rd x Q v -> (forall v', ~ applied rd x k v') -> counted (k + 1) rd x Q v.
Proof.
  intros Hk (Hnd & Hmem & Hv) Hno. split; [done|]. split; [|done].
  intros i. rewrite Hmem. split; [intros [? ?]; split; [lia|done]|].
  intros [Hi [v' Hv']]. destruct (decide (i = k)) as [->|]; [by destruct (Hno v')|].
  split; [lia|by exists v'].
Qed.

Lemma counted_add k rd x Q v v' :
  0 <= k -> counted k rd x Q v -> applied rd x k v' -> (Q <> [] -> v = v') ->
  counted (k + 1) rd x (Q ++ [k]) v'.
Proof.
  intros Hk (Hnd & Hmem & Hv) Hap Hsame.
  assert (forall i v', i ∈ Q -> applied rd x i v' -> Q <> []) as Hne by (by intros i ? H%elem_of_not_nil).
  assert (forall v1, applied rd x k v1 -> v1 = v') as Hun.
  { intros v1 (l1 & Hl1 & Hx1). destruct Hap as (l & Hl & Hx). congruence. }
  split; [|split].
  - apply NoDup_app. split; [done|]. split; [|apply NoDup_singleton].
    intros i [Hi _]%Hmem ->%list_elem_of_singleton. lia.
  - intros i. rewrite elem_of_app, list_elem_of_singleton, Hmem. split.
    + intros [[? ?]| ->]; [split; [lia|done]|split; [lia|by exists v']].
    + intros [Hi Hv']. destruct (decide (i = k)); [by right|left]. split; [lia|done].
  - intros i v1 [Hi| ->%list_elem_of_singleton]%elem_of_app Hv1; [|by apply Hun].
    rewrite <- Hsame by (by eapply Hne). by eapply Hv.
Qed.

(** The count of [nCommitted]. *)
Lemma nCommitted_counted x rd nd v :
  nCommitted x rd = Done (nd, v) ->
  exists Q, counted (zlen (rafts (rd 0))) rd x Q v /\ zlen Q = nd.
Proof.
  unfold nCommitted. intros Hrun.
  apply (each_range_done (fun k '(nd, v) => exists Q, counted k rd x Q v /\ zlen Q = nd)) in Hrun;
    [done|apply zlen_nonneg|..].
  { exists []. split; [|done]. split; [constructor|]. split; [|by intros i v' ?%not_elem_of_nil].
    intros i. split; [by intros ?%not_elem_of_nil|lia]. }
  clear Hrun nd v. intros k [nd v] [nd' v'] Hk (Q & HQ & Hlen) Hrun.
  destruct (zget (applyErr (rd k)) k) as [[why|]|]; simpl in Hrun; try done.
  destruct (zget (logs (rd k)) k) as [l|] eqn:Hl; simpl in Hrun; [|done].
  destruct (l !! x) as [v1|] eqn:Hx.
  - assert (applied rd x k v1) as Hap by (by exists l).
    destruct ((0 <? nd) && negb (bool_decide (v = v1))) eqn:E; [done|]. injection Hrun as <- <-.
    exists (Q ++ [k]). split; [|rewrite zlen_app, Hlen; done].
    eapply counted_add; [lia|done|done|]. intros HQ0.
    apply zlen_pos in HQ0. rewrite Hlen in HQ0. apply Z.ltb_lt in HQ0. rewrite HQ0 in E.
    simpl in E. by apply negb_false_iff, bool_decide_eq_true in E.
  - injection Hrun as <- <-. exists Q. split; [|done]. apply counted_skip; [lia|done|].
    intros v2 (l2 & Hl2 & Hx2). congruence.
Qed.

(** Enough servers were seen to have applied [cmd] at [x], and none anything
    else. *)
Definition agreed_on rd x (cmd : Cmd) (expectedServers : Z) : Prop :=
  exists Q, counted (zlen (rafts (rd 0))) rd x Q (Some cmd) /\ expectedServers <= zlen Q.

Lemma one_wait_agreed cmd x k rounds :
  one_wait cmd x k rounds = Done true -> exists rd, rd ∈ rounds /\ agreed_on rd x cmd k.
Proof.
  induction rounds as [|rd rounds IH]; simpl; [done|].
  unfold one_committed. destruct (nCommitted x rd) as [[nd v]|] eqn:Hn; simpl; [|done].
  destruct ((0 <? nd) && (k <=? nd) && bool_decide (v = Some cmd)) eqn:E.
  - intros _. apply andb_true_iff in E as [[_ Hk%Z.leb_le]%andb_true_iff Hv%bool_decide_eq_true].
    apply nCommitted_counted in Hn as (Q & HQ & Hlen). subst v nd.
    exists rd. split; [apply list_elem_of_here|by exists Q].
  - intros Hrun. destruct (IH Hrun) as (rd' & ? & ?). exists rd'.
    split; [by apply list_elem_of_further|done].
Qed.

(** When one returns an index, the servers agree on the command there: in
    one of its readings at least as many servers as expected had applied it,
    and no server had applied anything else at that index. *)
Theorem one_agreed cmd k retry starts attempts over x subs :
  one cmd k retry starts attempts over = Done (x, subs) -> x <> -1 ->
  exists cfg rounds rd, (cfg, rounds) ∈ attempts /\ rd ∈ rounds /\ agreed_on rd x cmd k.
Proof.
  revert starts subs. induction attempts as [|[cfg rounds] attempts IH]; intros starts subs; simpl.
  { destruct over; [|done]. by intros [= <- <-]. }
  destruct (one_submit cmd starts _ cfg) as [[[[starts' ix] cfg'] sp]|]; simpl; [|done].
  assert (forall o, ('(index, subs) ← one cmd k retry starts' attempts over;
      Done (index, (cfg', sp) :: subs)) = Done (x, o) -> x <> -1 ->
    exists cfg0 rounds0 rd, (cfg0, rounds0) ∈ (cfg, rounds) :: attempts /\ rd ∈ rounds0 /\
      agreed_on rd x cmd k) as Hrest.
  { intros o. destruct (one cmd k retry starts' attempts over) as [[ix' subs']|] eqn:Ho; simpl; [|done].
    intros [= <- <-] Hne. destruct (IH _ _ Ho Hne) as (cfg0 & rounds0 & rd & Hin & ? & ?).
    exists cfg0, rounds0, rd. split; [by apply list_elem_of_further|done]. }
  destruct ix as [ix|]; simpl; [|apply Hrest].
  destruct (one_wait cmd ix k rounds) as [[]|] eqn:Hw; simpl; [| |done].
  - intros [= -> <-] _. apply one_wait_agreed in Hw as (rd & ? & ?).
    exists cfg, rounds, rd. split; [apply list_elem_of_here|done].
  - destruct retry; simpl; [apply Hrest|done].
Qed.
End agreement.

Section leader_witnesses.
Import Raft.

(** All servers of a cluster, read at once. *)
Definition reading_of (c : RaftCluster.Cluster Z) : Z -> config (Cmd := Z) (W := unit) := fun _ =>
  mkConfig LabRpc.MakeNetwork 3 (map Some (RaftCluster.c_nodes c))
    [None; None; None] [true; true; true] [None; None; None] [None; None; None] [∅; ∅; ∅]
    [0; 0; 0] 0 0 0 0 0 0 0 0.

Lemma reading_of_run k c : RaftCluster.reachable k c -> reads_run k c (reading_of c).
Proof.
  intros Hr i rf Hi Hrf. exists c, []. split; [done|]. split; [done|].
  unfold reading_of in Hrf. simpl in Hrf. rewrite ClusterRefines.zget_map in Hrf.
  destruct (zget (RaftCluster.c_nodes c) i) as [r|]; [|done]. by injection Hrf as <-.
Qed.

(** Server 0 leads. *)
Definition reading := reading_of ClusterSafety.one_leader.

Lemma reading_readable : readable 3 reading.
Proof.
  intros i Hi. exists true.
  assert (i = 0 \/ i = 1 \/ i = 2) as [->|[->| ->]] by lia; (split; [done|]); intros _;
    eexists; (split; [by vm_compute|by vm_compute]).
Qed.

Lemma one_leader_single : RaftSpec.single (RaftCluster.c_votes ClusterSafety.one_leader).
Proof. intros v T i j Hi Hj. vm_compute in Hi, Hj. set_solver. Qed.

Lemma checkOneLeader_spec_witness :
  checkOneLeader 3 [reading] = Done 0 /\ exists rd, rd ∈ [reading] /\ leads 3 rd 0.
Proof.
  assert (checkOneLeader 3 [reading] = Done 0) as Hc by (by vm_compute).
  split; [exact Hc|].
  assert (Forall (readable 3) [reading]) as Hr by (by repeat constructor; apply reading_readable).
  pose proof (checkOneLeader_spec 3 [reading] ltac:(lia) Hr) as H. by rewrite Hc in H.
Defined.

Lemma cluster_passes_checkOneLeader_witness :
  checkOneLeader 3 [reading] <> Stopped (Failed ManyLeaders).
Proof.
  apply (cluster_passes_checkOneLeader 3 ClusterSafety.one_leader [reading]).
  - exact one_leader_single.
  - apply Forall_singleton. exact reading_readable.
  - apply Forall_singleton. apply reading_of_run. exact ClusterSafety.one_leader_reachable.
Defined.

(** Two of the three servers applied the command. *)
Definition two_applied : Z -> config (Cmd := Z) (W := unit) := fun i =>
  set_logs [ {[1 := Some 7]}; {[1 := Some 7]}; ∅] (reading i).

Definition tries : list (config * list (Z -> config)) := [(reading 0, [reading; two_applied])].

Lemma one_run : exists subs, one 7 2 false 0 tries false = Done (1, subs).
Proof. eexists. vm_compute. reflexivity. Qed.

Lemma one_agreed_witness :
  exists cfg rounds rd, (cfg, rounds) ∈ tries /\ rd ∈ rounds /\ agreed_on rd 1 7 2.
Proof. destruct one_run as [subs E]. exact (one_agreed 7 2 false 0 tries false 1 subs E ltac:(done)). Defined.
End leader_witnesses.
End HarnessProps.
