(* ===== verification/ServiceHarness.v ===== *)
(** The test harnesses of the replicated services: src/kvraft/config.go and
    src/shardctrler/config.go, which is the same code but for the functions at
    the end.  Random names and draws, and the clock, are inputs. *)
From S2P Require Import Prelude Persister LabRpc RaftNode KVRaft ShardCtrler RaftHarness.
Import Persister RaftHarness.

Module ServiceHarness.

(** What a harness does with the service it tests: [StartKVServer] or
    [StartServer], [Kill], the field [rf]. *)
Class Replica (Cmd Srv : Type) := {
  replica_name : string;
  start_replica : Z -> Z -> Persister -> Z -> Raft.tick -> Srv * list Raft.spawn;
  kill_replica : Srv -> Srv;
  replica_rf : Srv -> Raft.Raft Cmd }.

#[export] Instance kv_replica `{!Gob Z, !Gob (list (Raft.LogEntry KVRaft.command))} :
    Replica KVRaft.command KVRaft.KVServer := {|
  replica_name := "KVServer";
  start_replica := KVRaft.StartKVServer;
  kill_replica := KVRaft.Kill;
  replica_rf := KVRaft.rf |}.

#[export] Instance ctrler_replica `{!Gob Z, !Gob (list (Raft.LogEntry unit))} :
    Replica unit ShardCtrler.ShardCtrler := {|
  replica_name := "ShardCtrler";
  start_replica servers me persister _ := ShardCtrler.StartServer servers me persister;
  kill_replica := ShardCtrler.Kill_ctrler;
  replica_rf := ShardCtrler.sc_rf |}.

(** [rand.Intn(k)] from a number drawn. *)
Definition Intn (k draw : Z) : Z := draw `mod` k.

(** [sa[i], sa[j] = sa[j], sa[i]] *)
Definition swap {A} (i j : Z) (sa : list A) : option (list A) :=
  x ← zget sa i; y ← zget sa j; sa ← zset sa i y; zset sa j x.

Definition random_handles {Cmd A} (draw : Z -> Z) (kvh : list A) : outcome Cmd (list A) :=
  each (range (zlen kvh)) (fun i sa => must (swap i (Intn (i + 1) (draw i)) sa)) kvh.

Section harness.
Context {Cmd Srv W : Type} `{!Replica Cmd Srv}.

(** The methods reflection finds on a server and on a Raft peer. *)
Context (srv_methods raft_methods : list (string * LabRpc.method (W := W))).

Abbreviation Network := (LabRpc.Network (Name := string + Z) (W := W)).

(** [servers]: nil when shut down.  [endnames]: nil before the first start.
    A clerk is a pointer; [nclerks] of them were made.  A running server writes
    to [saved[i]]: between the operations of the harness both change together. *)
Record config := mkConfig {
  net : Network; n : Z;
  servers : list (option Srv); saved : list (option Persister);
  endnames : list (option (list string));
  clerks : gmap nat (list string); nclerks : nat; nextClientId : Z;
  maxraftstate : Z; start : Z;
  t0 : Z; rpcs0 : Z; ops : Z }.

Implicit Types (cfg : config).

Definition set_net v cfg := mkConfig v (n cfg) (servers cfg) (saved cfg) (endnames cfg)
  (clerks cfg) (nclerks cfg) (nextClientId cfg) (maxraftstate cfg) (start cfg) (t0 cfg)
  (rpcs0 cfg) (ops cfg).
Definition set_servers v cfg := mkConfig (net cfg) (n cfg) v (saved cfg) (endnames cfg)
  (clerks cfg) (nclerks cfg) (nextClientId cfg) (maxraftstate cfg) (start cfg) (t0 cfg)
  (rpcs0 cfg) (ops cfg).
Definition set_saved v cfg := mkConfig (net cfg) (n cfg) (servers cfg) v (endnames cfg)
  (clerks cfg) (nclerks cfg) (nextClientId cfg) (maxraftstate cfg) (start cfg) (t0 cfg)
  (rpcs0 cfg) (ops cfg).
Definition set_endnames v cfg := mkConfig (net cfg) (n cfg) (servers cfg) (saved cfg) v
  (clerks cfg) (nclerks cfg) (nextClientId cfg) (maxraftstate cfg) (start cfg) (t0 cfg)
  (rpcs0 cfg) (ops cfg).
Definition set_clerks v k next cfg := mkConfig (net cfg) (n cfg) (servers cfg) (saved cfg)
  (endnames cfg) v k next (maxraftstate cfg) (start cfg) (t0 cfg) (rpcs0 cfg) (ops cfg).
Definition set_stats t r o cfg := mkConfig (net cfg) (n cfg) (servers cfg) (saved cfg)
  (endnames cfg) (clerks cfg) (nclerks cfg) (nextClientId cfg) (maxraftstate cfg) (start cfg)
  t r o.

(** ** Sizes and the end of a test *)

(** [passed]: nanoseconds since the start of the test. *)
Definition checkTimeout (failed : bool) (now : Z) cfg : outcome Cmd unit :=
  if negb failed && (120 * 10 ^ 9 <? now - start cfg) then Stopped (Failed TooSlow) else Done tt.

Definition cleanup (failed : bool) (now : Z) cfg : outcome Cmd config :=
  let cfg := set_servers (map (option_map kill_replica) (servers cfg)) cfg in
  nt ← must (LabRpc.Cleanup (net cfg));
  let cfg := set_net nt cfg in
  _ ← checkTimeout failed now cfg; Done cfg.

(** The largest size of the saved states. *)
Definition largest (size : Persister -> Z) cfg : outcome Cmd Z :=
  each (range (n cfg)) (fun i best =>
    sv ← must (zget (saved cfg) i); p ← must sv;
    let n := size p in Done (if best <? n then n else best)) 0.

Definition LogSize cfg : outcome Cmd Z := largest RaftStateSize cfg.
Definition SnapshotSize cfg : outcome Cmd Z := largest SnapshotSize cfg.

(** ** Connections *)

Definition enable (e : string) (yes : bool) cfg : config :=
  set_net (LabRpc.Enable (inl e) yes (net cfg)) cfg.

(** [cfg.endnames[i][j]] *)
Definition endname (i j : Z) cfg : outcome Cmd string :=
  row ← must (zget (endnames cfg) i); must (zget (default [] row) j).

Definition set_end (yes : bool) (i j : Z) cfg : outcome Cmd config :=
  e ← endname i j cfg; Done (enable e yes cfg).

Definition connectUnlocked (i : Z) (to : list Z) cfg : outcome Cmd config :=
  cfg ← each to (fun x => set_end true i x) cfg;
  each to (fun x => set_end true x i) cfg.

(** The incoming ends are guarded by [cfg.endnames[j]], [j] being the place in
    [from] and not the server. *)
Definition disconnectUnlocked (i : Z) (from : list Z) cfg : outcome Cmd config :=
  cfg ← each from (fun x cfg =>
    row ← must (zget (endnames cfg) i);
    match row with None => Done cfg | Some _ => set_end false i x cfg end) cfg;
  each (zip (range (zlen from)) from) (fun jx cfg =>
    row ← must (zget (endnames cfg) jx.1);
    match row with None => Done cfg | Some _ => set_end false jx.2 i cfg end) cfg.

Definition All cfg : list Z := range (n cfg).

Definition ConnectAll cfg : outcome Cmd config :=
  each (range (n cfg)) (fun i cfg => connectUnlocked i (All cfg) cfg) cfg.

Definition partition (p1 p2 : list Z) cfg : outcome Cmd config :=
  cfg ← each p1 (fun i cfg => cfg ← disconnectUnlocked i p2 cfg; connectUnlocked i p1 cfg) cfg;
  each p2 (fun i cfg => cfg ← disconnectUnlocked i p1 cfg; connectUnlocked i p2 cfg) cfg.

(** ** Clients *)

Definition set_client_end (yes : bool) (ck : nat) (x : Z) cfg : outcome Cmd config :=
  s ← must (zget (default [] (clerks cfg !! ck)) x); Done (enable s yes cfg).

Definition ConnectClientUnlocked (ck : nat) (to : list Z) cfg : outcome Cmd config :=
  each to (set_client_end true ck) cfg.

Definition DisconnectClientUnlocked (ck : nat) (from : list Z) cfg : outcome Cmd config :=
  each from (set_client_end false ck) cfg.

(** The result is the clerk, and the ends it is given ([MakeClerk]). *)
Definition makeClient (to : list Z) (names : list string) (draw : Z -> Z) cfg :
    outcome Cmd (config * nat * list string) :=
  nt ← each (to_servers (n cfg) names) make_end (net cfg);
  handles ← random_handles draw names;
  let ck := nclerks cfg in
  let cfg := set_clerks (<[ck := names]> (clerks cfg)) (S ck) (nextClientId cfg + 1)
               (set_net nt cfg) in
  cfg ← ConnectClientUnlocked ck to cfg; Done (cfg, ck, handles).

(** The ends stay in the network; no file has their names. *)
Definition deleteClient (ck : nat) cfg : config :=
  set_clerks (delete ck (clerks cfg)) (nclerks cfg) (nextClientId cfg) cfg.

(** ** Servers *)

(** The result is also the server that was killed. *)
Definition ShutdownServer (i : Z) cfg : outcome Cmd (config * option Srv) :=
  cfg ← disconnectUnlocked i (All cfg) cfg;
  let cfg := set_net (LabRpc.DeleteServer (inr i) (net cfg)) cfg in
  sv ← must (zget (saved cfg) i);
  sv ← (match sv with
        | Some p => must (zset (saved cfg) i (Some (Copy p)))
        | None => Done (saved cfg)
        end);
  let cfg := set_saved sv cfg in
  kv ← must (zget (servers cfg) i);
  ss ← (match kv with Some _ => must (zset (servers cfg) i None) | None => Done (servers cfg) end);
  Done (set_servers ss cfg, option_map kill_replica kv).

Definition StartServer (i : Z) (names : list string) (k : Raft.tick) cfg :
    outcome Cmd (config * list Raft.spawn) :=
  en ← must (zset (endnames cfg) i (Some names));
  let cfg := set_endnames en cfg in
  nt ← each (to_servers (n cfg) names) make_end (net cfg);
  let cfg := set_net nt cfg in
  sv ← must (zget (saved cfg) i);
  let p := match sv with Some p => Copy p | None => MakePersister end in
  sv ← must (zset (saved cfg) i (Some p));
  let cfg := set_saved sv cfg in
  let '(kv, spawns) := start_replica (n cfg) i p (maxraftstate cfg) k in
  ss ← must (zset (servers cfg) i (Some kv));
  let cfg := set_servers ss cfg in
  let kvsvc := LabRpc.MakeService replica_name srv_methods in
  let rfsvc := LabRpc.MakeService "Raft" raft_methods in
  let srv := LabRpc.AddService (LabRpc.AddService LabRpc.MakeServer kvsvc) rfsvc in
  Done (set_net (addServer (inr i) srv (net cfg)) cfg, spawns).

(** Two sides, the leader in the smaller one. *)
Definition make_partition (l n : Z) : outcome Cmd (list Z * list Z) :=
  let p1 := replicate (Z.to_nat (n `quot` 2 + 1)) 0 in
  let p2 := replicate (Z.to_nat (n `quot` 2)) 0 in
  '(p1, p2, _) ← each (range n) (fun i '(p1, p2, j) =>
    if negb (i =? l) then
      if j <? zlen p1 then p1 ← must (zset p1 j i); Done (p1, p2, j + 1)
      else p2 ← must (zset p2 (j - zlen p1) i); Done (p1, p2, j + 1)
    else Done (p1, p2, j)) (p1, p2, 0);
  p2 ← must (zset p2 (zlen p2 - 1) l);
  Done (p1, p2).

(** [names i]: the random strings of server [i]. *)
Definition make_config (n : Z) (unreliable : bool) (maxraftstate : Z) (names : Z -> list string)
    (k : Raft.tick) (now : Z) : outcome Cmd config :=
  if n <? 0 then Stopped Panicked else
  let cnt := Z.to_nat n in
  let cfg := mkConfig LabRpc.MakeNetwork n (replicate cnt None) (replicate cnt None)
    (replicate cnt None) ∅ 0 (n + 1000) maxraftstate now 0 0 0 in
  cfg ← each (range n) (fun i cfg => '(cfg, _) ← StartServer i (names i) k cfg; Done cfg) cfg;
  cfg ← ConnectAll cfg;
  Done (set_net (LabRpc.Reliable (negb unreliable) (net cfg)) cfg).

Definition rpcTotal cfg : Z := LabRpc.GetTotalCount (net cfg).

Definition begin (now : Z) cfg : config := set_stats now (rpcTotal cfg) 0 cfg.

Definition op cfg : config := set_stats (t0 cfg) (rpcs0 cfg) (ops cfg + 1) cfg.

(** What the end of a test prints: time, peers, calls, operations. *)
Definition end_ (failed : bool) (now : Z) cfg : outcome Cmd (option (Z * Z * Z * Z)) :=
  _ ← checkTimeout failed now cfg;
  Done (if failed then None
        else Some (now - t0 cfg, n cfg, rpcTotal cfg - rpcs0 cfg, ops cfg)).

(** ** The leader

    The servers that shut down are nil: kvraft reads them all the same,
    shardctrler passes over them. *)

Definition Leader_from (skip_nil : bool) cfg : outcome Cmd (bool * Z) :=
  found ← each (range (n cfg)) (fun i found =>
    match found with
    | Some _ => Done found
    | None =>
        s ← must (zget (servers cfg) i);
        match s with
        | None => if skip_nil then Done None else Stopped Panicked
        | Some s => Done (if (Raft.GetState (replica_rf s)).2 then Some i else None)
        end
    end) None;
  Done (match found with Some i => (true, i) | None => (false, 0) end).

Definition kv_Leader cfg : outcome Cmd (bool * Z) := Leader_from false cfg.
Definition ctrler_Leader cfg : outcome Cmd (bool * Z) := Leader_from true cfg.

(** [make_partition] of either package. *)
Definition kv_make_partition cfg : outcome Cmd (list Z * list Z) :=
  '(_, l) ← kv_Leader cfg; make_partition l (n cfg).
Definition ctrler_make_partition cfg : outcome Cmd (list Z * list Z) :=
  '(_, l) ← ctrler_Leader cfg; make_partition l (n cfg).
End harness.
End ServiceHarness.
