(* ===== verification/ServiceProps.v ===== *)
(** What the harnesses of kvraft and shardctrler do to the network: a partition
    lets exactly the servers of one side talk, [make_partition] puts the leader
    in the smaller side when the number of servers is odd, a client reaches
    the servers it was connected to. *)
From S2P Require Import Prelude Persister LabRpc RaftNode KVRaft ShardCtrler RaftHarness Wiring ServiceHarness.
Import Persister.

Module ServiceProps.
Import RaftHarness Wiring ServiceHarness.

(** ** Sides *)

Section sides.
Context {Cmd : Type}.

(** A slice of [k] numbers of which the first ones are set. *)
Definition padded (l : list Z) (k : nat) : list Z := l ++ replicate (k - length l) 0.

Lemma zlen_padded l k : (length l <= k)%nat -> zlen (padded l k) = Z.of_nat k.
Proof. intros Hl. unfold padded, zlen. rewrite length_app, length_replicate. lia. Qed.

Lemma padded_set l k x :
  (length l < k)%nat -> zset (padded l k) (zlen l) x = Some (padded (l ++ [x]) k).
Proof.
  intros Hl. rewrite zset_in by (rewrite zlen_padded; unfold zlen; lia). f_equal.
  unfold padded, zlen. rewrite Nat2Z.id, insert_app_r_alt by lia. rewrite Nat.sub_diag.
  rewrite length_app. simpl. destruct (k - length l)%nat as [|m] eqn:Ek; [lia|].
  simpl. rewrite <- app_assoc. simpl. do 3 f_equal. lia.
Qed.

(** The servers below [k] but [l]. *)
Definition others (l k : Z) : list Z := filter (fun i => i <> l) (range k).

Lemma range_next k : 0 <= k -> range (k + 1) = range k ++ [k].
Proof.
  intros Hk. rewrite <- (Z2Nat.id k) at 1 by done.
  replace (Z.of_nat (Z.to_nat k) + 1) with (Z.of_nat (S (Z.to_nat k))) by lia.
  rewrite range_S, Z2Nat.id by done. done.
Qed.

Lemma others_next l k : 0 <= k ->
  others l (k + 1) = if decide (k = l) then others l k else others l k ++ [k].
Proof.
  intros Hk. unfold others. rewrite range_next, filter_app by done. simpl.
  destruct (decide (k = l)) as [->|Hne].
  - rewrite filter_cons_False by naive_solver. by rewrite app_nil_r.
  - by rewrite filter_cons_True.
Qed.

Lemma elem_of_range k i : i ∈ range k <-> 0 <= i < k.
Proof.
  unfold range. change (map ?f ?x) with (f <$> x). rewrite list_elem_of_fmap. split.
  - intros (j & -> & Hj%elem_of_seq). lia.
  - intros Hi. exists (Z.to_nat i). split; [lia|]. apply elem_of_seq. lia.
Qed.

Lemma NoDup_range k : NoDup (range k).
Proof. unfold range. apply NoDup_fmap_2; [apply _|apply NoDup_seq]. Qed.

Lemma elem_of_others l k i : i ∈ others l k <-> 0 <= i < k /\ i <> l.
Proof. unfold others. rewrite list_elem_of_filter, elem_of_range. tauto. Qed.

Lemma NoDup_others l k : NoDup (others l k).
Proof. apply NoDup_filter, NoDup_range. Qed.

Lemma range_others l k : 0 <= l < k -> range k ≡ₚ l :: others l k.
Proof.
  intros Hl. apply NoDup_Permutation.
  - apply NoDup_range.
  - apply NoDup_cons. split; [|apply NoDup_others]. intros [_ ?]%elem_of_others. done.
  - intros i. rewrite elem_of_cons, elem_of_range, elem_of_others. destruct (decide (i = l)); lia.
Qed.

Lemma length_others l k : 0 <= l < k -> length (others l k) = (Z.to_nat k - 1)%nat.
Proof.
  intros Hl. pose proof (Permutation_length (range_others l k Hl)) as Hlen. simpl in Hlen.
  unfold range in Hlen at 1. rewrite length_map, length_seq in Hlen. lia.
Qed.

Lemma length_others_le l k j : 0 <= l < k -> 0 <= j <= k -> (length (others l j) <= Z.to_nat k - 1)%nat.
Proof.
  intros Hl Hj. rewrite <- (length_others l k Hl). apply submseteq_length, NoDup_submseteq; [apply NoDup_others|].
  intros i. rewrite !elem_of_others. lia.
Qed.

(** The two slices while the loop runs. *)
Definition filling (l : Z) (k1 k2 : nat) (i : Z) (s : list Z * list Z * Z) : Prop :=
  let o := others l i in
  s = (padded (take k1 o) k1, padded (drop k1 o) k2, zlen o).

(** With an odd number of servers, the leader is alone with the last others. *)
Lemma make_partition_odd (m : nat) (l : Z) :
  let n := 2 * Z.of_nat m + 1 in
  (1 <= m)%nat -> 0 <= l < n ->
  make_partition (Cmd := Cmd) l n =
    Done (take (m + 1) (others l n), drop (m + 1) (others l n) ++ [l]).
Proof.
  intros n Hm Hl. unfold make_partition.
  assert (n `quot` 2 = Z.of_nat m) as -> by (unfold n; rewrite Z.quot_div_nonneg by lia;
    replace (2 * Z.of_nat m + 1) with (1 + Z.of_nat m * 2) by lia; rewrite Z.div_add by lia; done).
  replace (Z.to_nat (Z.of_nat m + 1)) with (m + 1)%nat by lia. rewrite Nat2Z.id.
  edestruct (each_range (Cmd := Cmd) (filling l (m + 1) m)) as (s' & Hrun & Hs');
    [..|rewrite Hrun]; [unfold n; lia| | |].
  - unfold filling. change (others l 0) with (@nil Z). unfold padded.
    rewrite take_nil, drop_nil. simpl. by rewrite !Nat.sub_0_r.
  - intros i s Hi ->. unfold filling. rewrite others_next by lia.
    set (o := others l i). assert (length o <= 2 * m)%nat as Ho.
    { unfold o. pose proof (length_others_le l n i Hl). unfold n in *. lia. }
    destruct (decide (i = l)) as [->|Hne]; [by rewrite Z.eqb_refl; eexists|].
    rewrite (proj2 (Z.eqb_neq _ _)) by done. simpl.
    rewrite zlen_padded by (rewrite length_take; lia).
    destruct (zlen o <? Z.of_nat (m + 1)) eqn:E.
    + apply Z.ltb_lt in E. unfold zlen in E.
      rewrite !take_ge, !drop_ge by (rewrite ?length_app; simpl; lia).
      rewrite padded_set by lia. simpl. eexists. split; [done|]. by rewrite zlen_app.
    + apply Z.ltb_ge in E. unfold zlen in E.
      assert (length o < 2 * m)%nat as Ho'.
      { pose proof (length_others_le l n (i + 1) Hl) as H. rewrite others_next in H by lia.
        destruct (decide (i = l)); [done|]. fold o in H. rewrite length_app in H. simpl in H.
        unfold n in *. lia. }
      rewrite take_app_le, drop_app_le by lia.
      replace (zlen o - Z.of_nat (m + 1)) with (zlen (drop (m + 1) o))
        by (unfold zlen; rewrite length_drop; lia).
      rewrite padded_set by (rewrite length_drop; lia). simpl. eexists. split; [done|].
      by rewrite zlen_app.
  - rewrite Hs'. simpl. pose proof (length_others l n Hl) as Hlo.
    set (o := others l n) in *. assert (length o = 2 * m)%nat as Ho by (unfold n in Hlo; lia).
    rewrite zlen_padded by (rewrite length_drop; lia).
    replace (Z.of_nat m - 1) with (zlen (drop (m + 1) o)) by (unfold zlen; rewrite length_drop; lia).
    rewrite padded_set by (rewrite length_drop; lia). simpl. unfold padded.
    rewrite length_take, length_app, length_drop. simpl.
    replace (m + 1 - _)%nat with 0%nat by lia. replace (m - _)%nat with 0%nat by lia.
    simpl. by rewrite !app_nil_r.
Qed.
End sides.

(** ** Writes

    A sequence of [Enable] calls, as the pairs of servers they are about. *)

Definition write := (Z * Z * bool)%type.

(** What the calls leave at the end of [a] for [b]. *)
Fixpoint last_write (l : list write) (a b : Z) : option bool :=
  match l with
  | [] => None
  | (i, j, v) :: l =>
      match last_write l a b with
      | Some v' => Some v'
      | None => if bool_decide (i = a /\ j = b) then Some v else None
      end
  end.

Lemma last_write_app l l' a b :
  last_write (l ++ l') a b =
    match last_write l' a b with Some v => Some v | None => last_write l a b end.
Proof.
  induction l as [|[[i j] v] l IH]; simpl; [by destruct (last_write l' a b)|].
  rewrite IH. by destruct (last_write l' a b).
Qed.

Lemma last_write_elem l a b v : last_write l a b = Some v -> (a, b, v) ∈ l.
Proof.
  induction l as [|[[i j] w] l IH]; simpl; [done|].
  destruct (last_write l a b) as [v'|].
  - intros [= ->]. by apply list_elem_of_further, IH.
  - destruct (bool_decide _) eqn:E; [|done]. apply bool_decide_eq_true in E as [-> ->].
    intros [= ->]. apply list_elem_of_here.
Qed.

Lemma last_write_None l a b : last_write l a b = None -> forall v, (a, b, v) ∉ l.
Proof.
  induction l as [|[[i j] w] l IH]; simpl; [by intros _ v ?%not_elem_of_nil|].
  destruct (last_write l a b) as [v'|]; [done|].
  destruct (bool_decide _) eqn:E; [done|]. apply bool_decide_eq_false in E.
  intros _ v [[= -> -> ->]|Hin]%elem_of_cons; [by apply E|by eapply IH].
Qed.

(** If all the writes agree. *)
Lemma last_write_all l a b v :
  (a, b, v) ∈ l -> (forall v', (a, b, v') ∈ l -> v' = v) -> last_write l a b = Some v.
Proof.
  intros Hin Hall. destruct (last_write l a b) as [v'|] eqn:E.
  - f_equal. by apply Hall, last_write_elem.
  - by destruct (last_write_None _ _ _ E v).
Qed.

(** [connectUnlocked] and [disconnectUnlocked]. *)
Definition both_ways (v : bool) (i : Z) (to : list Z) : list write :=
  flat_map (fun x => [(i, x, v)]) to ++ flat_map (fun x => [(x, i, v)]) to.

Lemma elem_of_flat_map {A B} (f : A -> list B) l y :
  y ∈ flat_map f l <-> exists x, x ∈ l /\ y ∈ f x.
Proof.
  rewrite list_elem_of_In, in_flat_map. split; intros (x & Hx & Hy); exists x;
    by rewrite ?list_elem_of_In in *.
Qed.

Lemma elem_of_both_ways v i to a b w :
  (a, b, w) ∈ both_ways v i to <-> w = v /\ ((a = i /\ b ∈ to) \/ (b = i /\ a ∈ to)).
Proof.
  unfold both_ways. rewrite elem_of_app, !elem_of_flat_map. split.
  - intros [(x & Hx & [= -> -> ->]%list_elem_of_singleton)|(x & Hx & [= -> -> ->]%list_elem_of_singleton)];
      (split; [done|]); [by left|by right].
  - intros [-> [[-> Hb]|[-> Ha]]]; [left; exists b|right; exists a];
      (split; [done|apply list_elem_of_here]).
Qed.

(** [partition] *)
Definition partition_writes (p1 p2 : list Z) : list write :=
  flat_map (fun i => both_ways false i p2 ++ both_ways true i p1) p1 ++
  flat_map (fun i => both_ways false i p1 ++ both_ways true i p2) p2.

Lemma elem_of_partition_writes p1 p2 a b v :
  (a, b, v) ∈ partition_writes p1 p2 <->
    (v = true /\ ((a ∈ p1 /\ b ∈ p1) \/ (a ∈ p2 /\ b ∈ p2))) \/
    (v = false /\ ((a ∈ p1 /\ b ∈ p2) \/ (a ∈ p2 /\ b ∈ p1))).
Proof.
  unfold partition_writes. rewrite elem_of_app, !elem_of_flat_map.
  setoid_rewrite elem_of_app. setoid_rewrite elem_of_both_ways. naive_solver.
Qed.

(** Sides that do not overlap: what [partition] leaves. *)
Lemma partition_last p1 p2 a b :
  p1 ## p2 -> a ∈ p1 ++ p2 -> b ∈ p1 ++ p2 ->
  last_write (partition_writes p1 p2) a b =
    Some (bool_decide ((a ∈ p1 /\ b ∈ p1) \/ (a ∈ p2 /\ b ∈ p2))).
Proof.
  intros Hd Ha%elem_of_app Hb%elem_of_app.
  assert (a ∈ p1 -> a ∈ p2 -> False) as Ha' by (by intros; apply (Hd a)).
  assert (b ∈ p1 -> b ∈ p2 -> False) as Hb' by (by intros; apply (Hd b)).
  apply last_write_all.
  - apply elem_of_partition_writes. destruct (bool_decide _) eqn:E.
    + left. by apply bool_decide_eq_true in E.
    + right. apply bool_decide_eq_false in E. tauto.
  - intros v [[-> Hv]|[-> Hv]]%elem_of_partition_writes; symmetry.
    + by apply bool_decide_eq_true.
    + apply bool_decide_eq_false. tauto.
Qed.

(** ** The ends of the servers *)

Section wiring.
Context {Cmd Srv W : Type} `{!Replica Cmd Srv}.
Context (srv_methods raft_methods : list (string * LabRpc.method (W := W))).
Implicit Types (cfg : config (Srv := Srv) (W := W)) (e : string).

(** The end of server [i] for server [j]. *)
Definition name_at cfg (i j : Z) : option string :=
  row ← default None (zget (endnames cfg) i); zget row j.

Definition is_started cfg (i : Z) : Prop :=
  exists row, zget (endnames cfg) i = Some (Some row).

Definition is_running cfg (i : Z) : Prop :=
  exists s, zget (servers cfg) i = Some (Some s).

(** A server that was started has an end of its own for every server, and one
    that runs is on the network. *)
Record named cfg : Prop := {
  nm_endnames : zlen (endnames cfg) = n cfg;
  nm_servers : zlen (servers cfg) = n cfg;
  nm_saved : zlen (saved cfg) = n cfg;
  nm_row i row : zget (endnames cfg) i = Some (Some row) -> zlen row = n cfg;
  nm_end i j e : name_at cfg i j = Some e ->
    is_Some (LabRpc.ends (net cfg) !! inl e) /\
    LabRpc.connections (net cfg) !! inl e = Some (Some (inr j));
  nm_inj i j i' j' e : name_at cfg i j = Some e -> name_at cfg i' j' = Some e ->
    i = i' /\ j = j';
  nm_server i : is_running cfg i -> exists p, LabRpc.servers (net cfg) !! inr i = Some (Some p) }.

Definition all_started cfg : Prop := forall i, 0 <= i < n cfg -> is_started cfg i.

Lemma server_name cfg i j :
  named cfg -> is_started cfg i -> 0 <= j < n cfg -> exists e, name_at cfg i j = Some e.
Proof.
  intros Hw [row Hi] Hj. unfold name_at. rewrite Hi. simpl. apply zget_is_Some.
  by rewrite (nm_row _ Hw _ _ Hi).
Qed.

Lemma endname_run cfg i j e : name_at cfg i j = Some e -> endname (Cmd := Cmd) i j cfg = Done e.
Proof.
  unfold name_at, endname. destruct (zget (endnames cfg) i) as [[row|]|]; simpl; [|done..].
  by intros ->.
Qed.

Definition with_enabled en cfg : config (Srv := Srv) (W := W) :=
  set_net (LabRpc.set_ends (LabRpc.ends (net cfg)) en (LabRpc.connections (net cfg)) (net cfg)) cfg.

(** The ends of the servers are as the writes [l] leave them. *)
Definition writes (l : list write) cfg cfg' : Prop :=
  exists en, cfg' = with_enabled en cfg /\ forall a b e, name_at cfg a b = Some e ->
    en !! inl e = match last_write l a b with
                  | Some v => Some v
                  | None => LabRpc.enabled (net cfg) !! inl e
                  end.

Lemma writes_nil cfg : writes [] cfg cfg.
Proof. exists (LabRpc.enabled (net cfg)). split; [by destruct cfg as [[]]|done]. Qed.

Lemma writes_app l l' cfg cfg1 cfg2 :
  writes l cfg cfg1 -> writes l' cfg1 cfg2 -> writes (l ++ l') cfg cfg2.
Proof.
  intros (en & -> & Hen) (en' & -> & Hen'). exists en'. split; [done|].
  intros a b e He. rewrite (Hen' a b e He), last_write_app.
  destruct (last_write l' a b); [done|]. apply (Hen a b e He).
Qed.

Lemma named_enabled en cfg : named cfg -> named (with_enabled en cfg).
Proof. intros []. by split. Qed.

Lemma writes_named l cfg cfg' :
  writes l cfg cfg' -> named cfg -> all_started cfg ->
  named cfg' /\ all_started cfg' /\ n cfg' = n cfg /\ endnames cfg' = endnames cfg.
Proof.
  intros (en & -> & _) Hn Hs. split; [by apply named_enabled|]. done.
Qed.

Lemma set_end_writes v i j cfg :
  named cfg -> all_started cfg -> 0 <= i < n cfg -> 0 <= j < n cfg ->
  exists cfg', set_end v i j cfg = Done (Cmd := Cmd) cfg' /\ writes [(i, j, v)] cfg cfg'.
Proof.
  intros Hn Hs Hi Hj. destruct (server_name cfg i j Hn (Hs i Hi) Hj) as [e He].
  unfold set_end. rewrite (endname_run _ _ _ _ He). simpl. eexists. split; [done|].
  exists (<[inl e := v]> (LabRpc.enabled (net cfg))). split; [done|].
  intros a b e' He'. simpl. destruct (bool_decide (i = a /\ j = b)) eqn:E.
  - apply bool_decide_eq_true in E as [<- <-]. rewrite He in He'. injection He' as <-.
    by rewrite lookup_insert_eq.
  - apply bool_decide_eq_false in E. rewrite lookup_insert_ne; [done|].
    intros [= <-]. apply E, (nm_inj _ Hn i j a b e He He').
Qed.

(** A loop of such calls. *)
Lemma each_writes {X} (l : list X) (f : X -> config -> outcome Cmd config) (g : X -> list write) cfg :
  named cfg -> all_started cfg ->
  (forall x c, x ∈ l -> named c -> all_started c -> n c = n cfg -> endnames c = endnames cfg ->
     exists c', f x c = Done c' /\ writes (g x) c c') ->
  exists cfg', each l f cfg = Done cfg' /\ writes (flat_map g l) cfg cfg'.
Proof.
  revert cfg. induction l as [|x l IH]; intros cfg Hn Hs Hf; simpl.
  { eexists. split; [done|]. apply writes_nil. }
  destruct (Hf x cfg) as (c1 & -> & Hw1); [apply list_elem_of_here|done..|]. simpl.
  destruct (writes_named _ _ _ Hw1 Hn Hs) as (Hn1 & Hs1 & Hnn & He).
  destruct (IH c1 Hn1 Hs1) as (c2 & Hr2 & Hw2).
  { intros y c Hy Hnc Hsc Hcn Hce. apply Hf; [by apply list_elem_of_further|done..|congruence|congruence]. }
  exists c2. split; [done|]. by eapply writes_app.
Qed.

(** Servers of the cluster. *)
Definition inside cfg (l : list Z) : Prop := Forall (fun i => 0 <= i < n cfg) l.

Lemma inside_elem cfg l x : inside cfg l -> x ∈ l -> 0 <= x < n cfg.
Proof. intros Hi Hx. unfold inside in Hi. rewrite Forall_forall in Hi. by apply Hi. Qed.

Lemma connect_writes i to cfg :
  named cfg -> all_started cfg -> 0 <= i < n cfg -> inside cfg to ->
  exists cfg', connectUnlocked i to cfg = Done (Cmd := Cmd) cfg' /\ writes (both_ways true i to) cfg cfg'.
Proof.
  intros Hn Hs Hi Hto. unfold connectUnlocked.
  destruct (each_writes to (fun x => set_end true i x) (fun x => [(i, x, true)]) cfg Hn Hs)
    as (c1 & -> & Hw1).
  { intros x c Hx Hnc Hsc Hc _. apply set_end_writes; [done..|by rewrite Hc|].
    rewrite Hc. by eapply inside_elem. }
  destruct (writes_named _ _ _ Hw1 Hn Hs) as (Hn1 & Hs1 & Hc1 & _). simpl.
  destruct (each_writes to (fun x => set_end true x i) (fun x => [(x, i, true)]) c1 Hn1 Hs1)
    as (c2 & -> & Hw2).
  { intros x c Hx Hnc Hsc Hc _. apply set_end_writes; [done..| |by rewrite Hc, Hc1].
    rewrite Hc, Hc1. by eapply inside_elem. }
  exists c2. split; [done|]. by eapply writes_app.
Qed.

Lemma flat_map_zip_range {X} (f : X -> list write) (l : list X) :
  flat_map (fun jx : Z * X => f jx.2) (zip (range (zlen l)) l) = flat_map f l.
Proof.
  unfold range, zlen. rewrite Nat2Z.id. generalize 0%nat.
  induction l as [|x l IH]; intros k; simpl; [done|]. by rewrite IH.
Qed.

Lemma disconnect_writes i from cfg :
  named cfg -> all_started cfg -> 0 <= i < n cfg -> inside cfg from -> zlen from <= n cfg ->
  exists cfg', disconnectUnlocked i from cfg = Done (Cmd := Cmd) cfg' /\
    writes (both_ways false i from) cfg cfg'.
Proof.
  intros Hn Hs Hi Hfr Hlen. unfold disconnectUnlocked.
  destruct (each_writes from (fun x cfg => row ← must (zget (endnames cfg) i);
    match row with None => Done cfg | Some _ => set_end false i x cfg end)
    (fun x => [(i, x, false)]) cfg Hn Hs) as (c1 & -> & Hw1).
  { intros x c Hx Hnc Hsc Hc _. destruct (Hsc i) as [row ->]; [by rewrite Hc|]. simpl.
    apply set_end_writes; [done..|by rewrite Hc|]. rewrite Hc. by eapply inside_elem. }
  destruct (writes_named _ _ _ Hw1 Hn Hs) as (Hn1 & Hs1 & Hc1 & _). simpl.
  destruct (each_writes (zip (range (zlen from)) from) (fun jx cfg =>
    row ← must (zget (endnames cfg) jx.1);
    match row with None => Done cfg | Some _ => set_end false jx.2 i cfg end)
    (fun jx => [(jx.2, i, false)]) c1 Hn1 Hs1) as (c2 & -> & Hw2).
  { intros [j x] c Hx%Wiring.zip_range_elem Hnc Hsc Hc _. simpl.
    pose proof (zget_Some_range _ _ _ Hx). destruct (Hsc j) as [row ->]; [lia|]. simpl.
    apply set_end_writes; [done..| |by rewrite Hc, Hc1]. rewrite Hc, Hc1.
    eapply inside_elem; [done|]. apply zget_Some_lookup in Hx as [_ Hx].
    by eapply list_elem_of_lookup_2. }
  exists c2. split; [done|]. rewrite (flat_map_zip_range (fun x => [(x, i, false)])) in Hw2.
  by eapply writes_app.
Qed.

(** [partition] never stops on servers that were started. *)
Lemma partition_run p1 p2 cfg :
  named cfg -> all_started cfg -> inside cfg p1 -> inside cfg p2 ->
  zlen p1 <= n cfg -> zlen p2 <= n cfg ->
  exists cfg', partition p1 p2 cfg = Done (Cmd := Cmd) cfg' /\
    writes (partition_writes p1 p2) cfg cfg'.
Proof.
  intros Hn Hs H1 H2 Hl1 Hl2.
  assert (forall i p q c, 0 <= i < n cfg -> inside cfg p -> inside cfg q -> zlen p <= n cfg ->
    named c -> all_started c -> n c = n cfg ->
    exists c', (c ← disconnectUnlocked i p c; connectUnlocked i q c) = Done (Cmd := Cmd) c' /\
      writes (both_ways false i p ++ both_ways true i q) c c') as Hstep.
  { intros i p q c Hi Hp Hq Hl Hnc Hsc Hc. unfold inside in *. rewrite <- Hc in *.
    destruct (disconnect_writes i p c) as (c1 & -> & Hw1); [done..|]. simpl.
    destruct (writes_named _ _ _ Hw1 Hnc Hsc) as (Hn1 & Hs1 & Hc1 & _).
    destruct (connect_writes i q c1) as (c2 & -> & Hw2); [done|done|by rewrite Hc1| |].
    { unfold inside. by rewrite Hc1. }
    exists c2. split; [done|]. by eapply writes_app. }
  unfold partition.
  destruct (each_writes p1 (fun i cfg => cfg ← disconnectUnlocked i p2 cfg; connectUnlocked i p1 cfg)
    (fun i => both_ways false i p2 ++ both_ways true i p1) cfg Hn Hs) as (c1 & -> & Hw1).
  { intros i c Hi Hnc Hsc Hc _. apply Hstep; try done. by apply (inside_elem cfg p1). }
  destruct (writes_named _ _ _ Hw1 Hn Hs) as (Hn1 & Hs1 & Hc1 & _). simpl.
  destruct (each_writes p2 (fun i cfg => cfg ← disconnectUnlocked i p1 cfg; connectUnlocked i p2 cfg)
    (fun i => both_ways false i p1 ++ both_ways true i p2) c1 Hn1 Hs1) as (c2 & -> & Hw2).
  { intros i c Hi Hnc Hsc Hc _. apply Hstep; try done; [by apply (inside_elem cfg p2)|congruence]. }
  exists c2. split; [done|]. by eapply writes_app.
Qed.

(** *** Starting *)

Lemma name_at_row cfg i names nt a b :
  0 <= i < zlen (endnames cfg) ->
  name_at (set_net nt (set_endnames (<[Z.to_nat i := Some names]> (endnames cfg)) cfg)) a b =
    if decide (a = i) then zget names b else name_at cfg a b.
Proof.
  intros Hi. unfold name_at. simpl. destruct (decide (a = i)) as [->|].
  - by rewrite zget_insert_eq.
  - by rewrite zget_insert_ne by (lia || done).
Qed.

(** New ends for one server. *)
Lemma new_ends_named cfg i names nt :
  named cfg -> 0 <= i < n cfg -> zlen names = n cfg ->
  each (Cmd := Cmd) (to_servers (n cfg) names) make_end (net cfg) = Done nt ->
  named (set_net nt (set_endnames (<[Z.to_nat i := Some names]> (endnames cfg)) cfg)).
Proof.
  intros Hw Hi Hlen Hrun. rewrite <- Hlen in Hrun.
  apply make_row_run in Hrun as (Hnd & es & en & cn & -> & Hnew & Hold).
  pose proof (name_at_row cfg i names (LabRpc.set_ends es en cn (net cfg))) as Hname.
  rewrite (nm_endnames _ Hw) in Hname. specialize (fun a b => Hname a b Hi).
  destruct Hw as [Hw1 Hw2 Hw3 Hw4 Hw5 Hw6 Hw7]. split; try done; simpl.
  - by rewrite zlen_insert.
  - intros j row. destruct (decide (j = i)) as [->|].
    + rewrite zget_insert_eq by lia. by intros [= <-].
    + rewrite zget_insert_ne by (lia || done). apply Hw4.
  - intros a b e. rewrite Hname by done. destruct (decide (a = i)) as [->|].
    + intros He. by destruct (Hnew b e He) as (_ & ? & _ & ?).
    + intros He. destruct (Hw5 a b e He) as [Hin Hcn].
      destruct (Hold e Hin) as (? & _ & ->). done.
  - intros a b a' b' e. rewrite !Hname by done.
    assert (forall b e, zget names b = Some e -> forall a' b', name_at cfg a' b' = Some e -> False) as Hx.
    { intros x y Hxy a1 b1 H1. destruct (Hnew x y Hxy) as (Hf & _).
      destruct (Hw5 _ _ _ H1) as [[? ?] _]. congruence. }
    destruct (decide (a = i)) as [->|], (decide (a' = i)) as [->|].
    + intros [Hb He]%zget_Some_lookup [Hb' He']%zget_Some_lookup. split; [done|].
      pose proof (NoDup_lookup names _ _ e Hnd He He'). lia.
    + intros He He'. by destruct (Hx b e He a' b').
    + intros He He'. by destruct (Hx b' e He' a b).
    + apply Hw6.
Qed.

Lemma StartServer_done cfg i names k cfg' sp :
  named cfg -> zlen names = n cfg ->
  StartServer (Cmd := Cmd) srv_methods raft_methods i names k cfg = Done (cfg', sp) ->
  named cfg' /\ n cfg' = n cfg /\ 0 <= i < n cfg /\
  endnames cfg' = <[Z.to_nat i := Some names]> (endnames cfg) /\
  exists kv, servers cfg' = <[Z.to_nat i := Some kv]> (servers cfg).
Proof.
  intros Hw Hlen. unfold StartServer.
  destruct (zset (endnames cfg) i (Some names)) as [en|] eqn:Hen; simpl; [|done].
  apply zset_Some in Hen as [Hi ->]. rewrite (nm_endnames _ Hw) in Hi.
  destruct (each (to_servers (n cfg) names) make_end (net cfg)) as [nt|] eqn:Hnt; simpl; [|done].
  pose proof (new_ends_named cfg i names nt Hw Hi Hlen Hnt) as Hw1.
  destruct (zget (saved cfg) i) as [sv|]; simpl; [|done].
  set (p := match sv with Some p => Copy p | None => MakePersister end). clearbody p.
  destruct (zset (saved cfg) i (Some p)) as [sv'|] eqn:Hsv; simpl; [|done].
  apply zset_Some in Hsv as [_ ->].
  destruct (start_replica (n cfg) i p (maxraftstate cfg) k) as [kv spawns]. simpl.
  destruct (zset (servers cfg) i (Some kv)) as [ss|] eqn:Hss; simpl; [|done].
  apply zset_Some in Hss as [_ ->]. intros [= <- <-]. simpl. split; [|by eauto].
  destruct Hw1 as [Hw1 Hw2 Hw3 Hw4 Hw5 Hw6 Hw7]. split; try done; simpl in *; try by rewrite zlen_insert.
  intros j [s Hs]. simpl in Hs. destruct (decide (j = i)) as [->|Hne].
  - rewrite lookup_insert_eq. by eexists.
  - rewrite lookup_insert_ne by congruence. apply Hw7. exists s. simpl.
    by rewrite zget_insert_ne in Hs by (lia || done).
Qed.

(** Before the first start. *)
Lemma blank_named cfg k :
  n cfg = Z.of_nat k -> servers cfg = replicate k None -> saved cfg = replicate k None ->
  endnames cfg = replicate k None -> named cfg.
Proof.
  intros Hn Hr Hs He.
  assert (forall i j, name_at cfg i j = None) as Hname.
  { intros i j. unfold name_at. rewrite He. destruct (zget _ i) as [row|] eqn:Hi; [|done].
    by apply zget_replicate in Hi as ->. }
  split; try by rewrite ?Hr, ?Hs, ?He, zlen_replicate.
  - intros i row Hi. rewrite He in Hi. by apply zget_replicate in Hi.
  - intros i j e. by rewrite Hname.
  - intros i j i' j' e. by rewrite Hname.
  - intros i [s Hi]. rewrite Hr in Hi. by apply zget_replicate in Hi.
Qed.

(** [ConnectAll] *)
Lemma ConnectAll_run cfg :
  named cfg -> all_started cfg ->
  exists cfg', ConnectAll cfg = Done (Cmd := Cmd) cfg' /\
    writes (flat_map (fun i => both_ways true i (range (n cfg))) (range (n cfg))) cfg cfg'.
Proof.
  intros Hn Hs. unfold ConnectAll. apply each_writes; [done|done|].
  intros i c Hi%elem_of_range Hnc Hsc Hc _. unfold All. rewrite Hc.
  apply connect_writes; [done|done|lia|]. apply Forall_forall. intros x Hx%elem_of_range. lia.
Qed.

Lemma connect_all_last m a b :
  0 <= a < m -> 0 <= b < m ->
  last_write (flat_map (fun i => both_ways true i (range m)) (range m)) a b = Some true.
Proof.
  intros Ha Hb. apply last_write_all.
  - apply elem_of_flat_map. exists a. rewrite elem_of_range, elem_of_both_ways, elem_of_range. auto.
  - intros v (i & _ & [-> _]%elem_of_both_ways)%elem_of_flat_map. done.
Qed.

(** A new cluster: all servers run, and every end between them is enabled. *)
Lemma make_config_run m unreliable maxraft names k now cfg :
  (forall i, 0 <= i < m -> zlen (names i) = m) ->
  make_config (Cmd := Cmd) srv_methods raft_methods m unreliable maxraft names k now = Done cfg ->
  named cfg /\ n cfg = m /\ LabRpc.reliable (net cfg) = negb unreliable /\
  (forall i, 0 <= i < m -> is_started cfg i /\ is_running cfg i) /\
  forall i j e, name_at cfg i j = Some e -> LabRpc.enabled (net cfg) !! inl e = Some true.
Proof.
  intros Hnames. unfold make_config. destruct (m <? 0) eqn:Hm; [done|].
  apply Z.ltb_ge in Hm. cbv zeta.
  match goal with |- context [each (range m) ?f ?c] => set (cfg0 := c); set (loop := f) end.
  destruct (each (range m) loop cfg0) as [cfg1|] eqn:H1; simpl; [|done].
  apply (each_range_done (fun j s => named s /\ n s = m /\
    forall a, 0 <= a < j -> is_started s a /\ is_running s a)) in H1; [|done|..].
  2: { split; [by apply (blank_named _ (Z.to_nat m)); [simpl; lia|..]|]. split; [done|]. intros a Ha. lia. }
  2: { intros j s s' Hj (Hn & Hc & Hup). unfold loop.
       destruct (StartServer _ _ _ _ _ _) as [[c sp]|] eqn:Hst; simpl; [|done]. intros [= <-].
       apply StartServer_done in Hst as (Hn1 & Hc1 & _ & He1 & kv & Hs1);
         [|done|rewrite Hc; by apply Hnames].
       split; [done|]. split; [by rewrite Hc1|]. intros a Ha.
       unfold is_started, is_running. rewrite He1, Hs1.
       pose proof (nm_endnames _ Hn). pose proof (nm_servers _ Hn).
       destruct (decide (a = j)) as [->|Hne].
       - rewrite !zget_insert_eq by lia. split; by eexists.
       - rewrite !zget_insert_ne by (lia || done). apply Hup. lia. }
  destruct H1 as (Hn1 & Hc1 & Hup1). assert (all_started cfg1) as Hs1.
  { intros i Hi. apply Hup1. by rewrite <- Hc1. }
  destruct (ConnectAll_run cfg1 Hn1 Hs1) as (c2 & Hrun & en & -> & Hen). rewrite Hrun. simpl.
  intros [= <-]. split; [destruct Hn1; by split|]. split; [done|]. split; [done|]. split; [exact Hup1|].
  intros i j e He. simpl. rewrite (Hen i j e He), connect_all_last; [done|..].
  - unfold name_at in He. simpl in He. destruct (zget (endnames cfg1) i) as [row|] eqn:Hi; [|done].
    apply zget_Some_range in Hi. by rewrite (nm_endnames _ Hn1) in Hi.
  - unfold name_at in He. simpl in He. destruct (zget (endnames cfg1) i) as [[row|]|] eqn:Hi; [|done..].
    apply zget_Some_range in He. by rewrite (nm_row _ Hn1 _ _ Hi) in He.
Qed.

(** *** Partitions *)

(** Servers [i] and [j] are on one side. *)
Definition same_side (p1 p2 : list Z) (i j : Z) : Prop :=
  (i ∈ p1 /\ j ∈ p1) \/ (i ∈ p2 /\ j ∈ p2).

(** A request of server [i] to server [j] reaches a handler only if [P], and
    then the one of [j]; it does when [P], unless the network loses it. *)
Definition talks_when (P : Prop) cfg (i j : Z) : Prop :=
  exists e, name_at cfg i j = Some e /\ forall meth args d,
    match LabRpc.process_begin (LabRpc.mkReq (inl e) meth args) d (net cfg) with
    | LabRpc.Executing _ s _ _ _ => s = inr j /\ P
    | LabRpc.Answered _ r => LabRpc.ok r = false /\
        (P -> is_running cfg j -> LabRpc.reliable (net cfg) = false)
    end.

Lemma talks_enabled (P : Prop) `{!Decision P} cfg i j e :
  named cfg -> name_at cfg i j = Some e ->
  LabRpc.enabled (net cfg) !! inl e = Some (bool_decide P) -> talks_when P cfg i j.
Proof.
  intros Hn He Hen. exists e. split; [done|]. intros meth args d.
  destruct (nm_end _ Hn i j e He) as [_ Hcn].
  unfold LabRpc.process_begin, LabRpc.readEndnameInfo. simpl. rewrite Hen, Hcn. simpl.
  destruct (bool_decide P) eqn:HP; [apply bool_decide_eq_true in HP|apply bool_decide_eq_false in HP].
  2: { split; [done|]. by intros ?%HP. }
  destruct (LabRpc.servers (net cfg) !! inr j) as [[p|]|] eqn:Hs; simpl.
  - destruct (LabRpc.reliable (net cfg)); simpl; [done|]. destruct (_ <? 100); simpl; done.
  - split; [done|]. intros _ [p Hp]%(nm_server _ Hn). congruence.
  - split; [done|]. intros _ [p Hp]%(nm_server _ Hn). congruence.
Qed.

(** A partition of all servers. *)
Lemma partition_splits p1 p2 cfg :
  named cfg -> all_started cfg -> p1 ++ p2 ≡ₚ range (n cfg) ->
  exists cfg', partition p1 p2 cfg = Done (Cmd := Cmd) cfg' /\ n cfg' = n cfg /\ named cfg' /\
    forall i j, 0 <= i < n cfg -> 0 <= j < n cfg -> talks_when (same_side p1 p2 i j) cfg' i j.
Proof.
  intros Hn Hs Hp.
  assert (NoDup (p1 ++ p2)) as Hnd by (rewrite Hp; apply NoDup_range).
  apply NoDup_app in Hnd as (_ & Hd & _).
  assert (forall i, i ∈ p1 ++ p2 <-> 0 <= i < n cfg) as Hin by (intros i; by rewrite Hp, elem_of_range).
  assert (forall p, p = p1 \/ p = p2 -> inside cfg p /\ zlen p <= n cfg) as Hside.
  { pose proof (Permutation_length Hp) as Hl. unfold range in Hl.
    rewrite length_app, length_map, length_seq in Hl. pose proof (zlen_nonneg (endnames cfg)) as H0.
    rewrite (nm_endnames _ Hn) in H0. unfold zlen, inside. intros p [->| ->]; (split; [|lia]);
      apply Forall_forall; intros i Hi; apply Hin, elem_of_app; auto. }
  destruct (Hside p1) as [? ?]; [by left|]. destruct (Hside p2) as [? ?]; [by right|].
  destruct (partition_run p1 p2 cfg) as (cfg' & Hrun & Hw); [done..|].
  destruct (writes_named _ _ _ Hw Hn Hs) as (Hn' & _ & Hc & _).
  exists cfg'. split; [done|]. split; [done|]. split; [done|]. intros i j Hi Hj.
  destruct Hw as (en & -> & Hen).
  destruct (server_name cfg i j Hn (Hs i Hi) Hj) as [e He].
  apply (talks_enabled _ _ i j e Hn' He). simpl. rewrite (Hen i j e He).
  by rewrite partition_last; [|intros x Hx Hx'; by apply (Hd x)|apply Hin|apply Hin].
Qed.

(** The leader, in the smaller side, is cut off from the others. *)
Lemma leader_cut_off m l cfg :
  named cfg -> all_started cfg -> n cfg = 2 * Z.of_nat m + 1 -> (1 <= m)%nat -> 0 <= l < n cfg ->
  exists p1 p2 cfg',
    make_partition l (n cfg) = Done (Cmd := Cmd) (p1, p2) /\ partition p1 p2 cfg = Done (Cmd := Cmd) cfg' /\
    p1 ++ p2 ≡ₚ range (n cfg) /\ zlen p1 = Z.of_nat m + 1 /\ zlen p2 = Z.of_nat m /\ l ∈ p2 /\
    forall i j, 0 <= i < n cfg -> 0 <= j < n cfg -> talks_when (same_side p1 p2 i j) cfg' i j.
Proof.
  intros Hn Hs Hc Hm Hl. pose proof (length_others l (n cfg) Hl) as Hlen.
  set (o := others l (n cfg)) in *.
  set (p1 := take (m + 1) o). set (p2 := drop (m + 1) o ++ [l]).
  assert (p1 ++ p2 ≡ₚ range (n cfg)) as Hp.
  { rewrite (range_others l (n cfg) Hl). unfold p1, p2. rewrite app_assoc, take_drop.
    by rewrite Permutation_app_comm. }
  destruct (partition_splits p1 p2 cfg Hn Hs Hp) as (cfg' & Hrun & _ & _ & Htalk).
  exists p1, p2, cfg'. split; [unfold p1, p2, o; rewrite Hc in Hl |- *; by apply make_partition_odd|].
  split; [done|]. split; [done|]. unfold p1, p2, zlen.
  rewrite length_app, length_take, length_drop. simpl. split; [lia|]. split; [lia|].
  split; [|done]. apply elem_of_app. right. by apply list_elem_of_singleton.
Qed.

(** C27. make_partition and partition, with an odd number of servers, three or more
    (one server alone makes make_partition panic), all started on a network laid out
    by the harness: the servers are split in two, the leader in the smaller side.
    From then on a request from one server to another reaches a handler only if
    both are on one side, and then the target's, so the leader can no longer reach
    a majority; and a request within a side does reach it if the target runs and the
    network is reliable, while an unreliable network may lose it. *)
Theorem make_partition_cuts m l cfg :
  named cfg -> all_started cfg -> n cfg = 2 * Z.of_nat m + 1 -> (1 <= m)%nat -> 0 <= l < n cfg ->
  exists p1 p2 cfg',
    make_partition l (n cfg) = Done (Cmd := Cmd) (p1, p2) /\ partition p1 p2 cfg = Done (Cmd := Cmd) cfg' /\
    p1 ++ p2 ≡ₚ range (n cfg) /\ zlen p1 = Z.of_nat m + 1 /\ zlen p2 = Z.of_nat m /\ l ∈ p2 /\
    forall i j, 0 <= i < n cfg -> 0 <= j < n cfg -> talks_when (same_side p1 p2 i j) cfg' i j.
Proof. apply leader_cut_off. Qed.
End wiring.

(** *** Leaders *)

Section leaders.
Context {Cmd Srv W : Type} `{!Replica Cmd Srv}.
Implicit Types (cfg : config (Srv := Srv) (W := W)).

(** Server [i] runs and leads. *)
Definition leads cfg (i : Z) : Prop :=
  exists s, zget (servers cfg) i = Some (Some s) /\ Raft.state (replica_rf s) = Raft.Leader.

(** Both packages find the first leader; where servers before it are shut down,
    only shardctrler does. *)
Lemma Leader_finds skip cfg l :
  zlen (servers cfg) = n cfg -> 0 <= l < n cfg -> leads cfg l -> (forall i, i < l -> ~ leads cfg i) ->
  skip = true \/ (forall i, 0 <= i < l -> zget (servers cfg) i <> Some None) ->
  Leader_from skip cfg = Done (true, l).
Proof.
  intros Hlen Hl (s & Hs & Hst) Hbefore Hup. unfold Leader_from.
  edestruct (each_range (Cmd := Cmd) (fun j found => found = if l <? j then Some l else None))
    as (found & -> & ->); [lia| | |].
  - by destruct (l <? 0) eqn:E; bsimp; [lia|].
  - intros j found Hj ->. eexists. split; [|done].
    destruct (l <? j) eqn:E; bsimp.
    { by rewrite (proj2 (Z.ltb_lt l (j + 1))) by lia. }
    destruct (proj2 (zget_is_Some (servers cfg) j)) as [o Ho]; [lia|]. rewrite Ho. simpl.
    destruct (decide (j = l)) as [->|Hne].
    + rewrite Hs in Ho. injection Ho as <-. simpl. rewrite (proj2 (Z.ltb_lt l (l + 1))) by lia.
      unfold Raft.GetState. simpl. by rewrite bool_decide_eq_true_2.
    + rewrite (proj2 (Z.ltb_ge l (j + 1))) by lia. destruct o as [x|].
      * simpl. unfold Raft.GetState. simpl. rewrite bool_decide_eq_false_2; [done|].
        intros Hx. apply (Hbefore j); [lia|]. by exists x.
      * destruct Hup as [->|Hup]; [done|]. by destruct (Hup j); [lia|].
  - simpl. by rewrite (proj2 (Z.ltb_lt l (n cfg))) by lia.
Qed.

Lemma range_split i m : 0 <= i < m -> exists rest, range m = range i ++ i :: rest.
Proof.
  intros Hi. exists (map Z.of_nat (seq (S (Z.to_nat i)) (Z.to_nat (m - i - 1)))). unfold range.
  replace (Z.to_nat m) with (Z.to_nat i + S (Z.to_nat (m - i - 1)))%nat by lia.
  rewrite seq_app, map_app. f_equal. simpl. f_equal. lia.
Qed.

(** Leader of kvraft panics at the first server that is shut down, if it found no
    leader before. *)
Theorem kv_Leader_panics cfg i :
  zlen (servers cfg) = n cfg -> 0 <= i < n cfg -> zget (servers cfg) i = Some None ->
  (forall j, 0 <= j < i -> zget (servers cfg) j <> Some None /\ ~ leads cfg j) ->
  kv_Leader cfg = Stopped Panicked.
Proof.
  intros Hlen Hi Hnil Hbefore. unfold kv_Leader, Leader_from.
  destruct (range_split i (n cfg) Hi) as [rest ->]. rewrite each_app.
  edestruct (each_range (Cmd := Cmd) (fun _ (found : option Z) => found = None)) as (found & -> & ->);
    [apply Hi|done| |].
  - intros j found Hj ->. eexists. split; [|done]. destruct (Hbefore j Hj) as [Hne Hno].
    destruct (proj2 (zget_is_Some (servers cfg) j)) as [[x|] Hx]; [lia| |done]. rewrite Hx. simpl.
    unfold Raft.GetState. simpl. rewrite bool_decide_eq_false_2; [done|].
    intros Hst. apply Hno. by exists x.
  - simpl. by rewrite Hnil.
Qed.
End leaders.

(** *** Handles and clients *)

Lemma swap_run {A} (i j : Z) (sa : list A) :
  0 <= i < zlen sa -> 0 <= j < zlen sa -> exists sa', swap i j sa = Some sa' /\ sa' ≡ₚ sa.
Proof.
  intros Hi Hj. unfold swap.
  destruct (proj2 (zget_is_Some sa i) Hi) as [x Hx]. destruct (proj2 (zget_is_Some sa j) Hj) as [y Hy].
  rewrite Hx, Hy. simpl. rewrite zset_in by done. simpl. rewrite zset_in by (by rewrite zlen_insert).
  eexists. split; [done|]. apply zget_Some_lookup in Hx as [_ Hx], Hy as [_ Hy].
  by apply Permutation_insert_swap.
Qed.

(** random_handles gives the ends in another order, whatever is drawn: it
    never fails and loses or repeats none. *)
Theorem random_handles_permutes {Cmd A} (draw : Z -> Z) (kvh : list A) :
  exists sa, random_handles draw kvh = Done (Cmd := Cmd) sa /\ sa ≡ₚ kvh.
Proof.
  destruct (each_range (Cmd := Cmd) (fun _ sa => sa ≡ₚ kvh)
    (fun i sa => must (swap i (Intn (i + 1) (draw i)) sa)) kvh (zlen kvh)) as (sa & Hrun & Hsa).
  - apply zlen_nonneg.
  - done.
  - intros i sa Hi Hsa. assert (zlen sa = zlen kvh) as Hl by (unfold zlen; by rewrite Hsa).
    unfold Intn. destruct (swap_run i (draw i `mod` (i + 1)) sa) as (sa' & -> & Hp); [lia| |].
    { pose proof (Z.mod_pos_bound (draw i) (i + 1)). lia. }
    exists sa'. split; [done|]. by rewrite Hp.
  - by exists sa.
Qed.

Section client.
Context {Cmd Srv W : Type} `{!Replica Cmd Srv}.
Implicit Types (cfg : config (Srv := Srv) (W := W)).

(** The ends of a clerk after some were enabled. *)
Lemma ConnectClient_run ck names to cfg :
  clerks cfg !! ck = Some names -> Forall (fun x => 0 <= x < zlen names) to ->
  exists en, ConnectClientUnlocked ck to cfg = Done (Cmd := Cmd) (with_enabled en cfg) /\
    (forall x e, x ∈ to -> zget names x = Some e -> en !! inl e = Some true) /\
    (forall e, (forall x, x ∈ to -> zget names x <> Some e) ->
       en !! inl e = LabRpc.enabled (net cfg) !! inl e).
Proof.
  unfold ConnectClientUnlocked. revert cfg.
  induction to as [|x to IH]; intros cfg Hck Hto; simpl.
  { exists (LabRpc.enabled (net cfg)). split; [by destruct cfg as [[]]|].
    split; [by intros x e ?%not_elem_of_nil|done]. }
  apply Forall_cons in Hto as [Hx Hto]. apply zget_is_Some in Hx as [s Hs].
  assert (set_client_end true ck x cfg = Done (Cmd := Cmd) (enable s true cfg)) as ->.
  { unfold set_client_end. rewrite Hck. simpl. by rewrite Hs. }
  simpl.
  destruct (IH (enable s true cfg) Hck Hto) as (en & Hrun & Hin & Hout).
  exists en. split; [done|]. split.
  - intros y e [->|Hy]%elem_of_cons He; [|by eapply Hin]. rewrite Hs in He. injection He as <-.
    destruct (decide (Exists (fun z => zget names z = Some s) to)) as [(z & Hz & Hze)%Exists_exists|Hno].
    + by eapply Hin.
    + rewrite Hout; [by apply lookup_insert_eq|]. intros z Hz Hze. apply Hno, Exists_exists. by exists z.
  - intros e Hno. rewrite Hout.
    + apply lookup_insert_ne. intros [= <-]. by apply (Hno x); [apply list_elem_of_here|].
    + intros z Hz. apply Hno. by apply list_elem_of_further.
Qed.

(** A client is given its ends in some order, one for each server, and
    reaches exactly the servers it was connected to. *)
Theorem makeClient_reaches to names draw cfg cfg' ck handles :
  zlen names = n cfg -> Forall (fun x => 0 <= x < n cfg) to ->
  makeClient (Cmd := Cmd) to names draw cfg = Done (cfg', ck, handles) ->
  handles ≡ₚ names /\ clerks cfg' !! ck = Some names /\
  forall j e meth args d, zget names j = Some e ->
    match LabRpc.process_begin (LabRpc.mkReq (inl e) meth args) d (net cfg') with
    | LabRpc.Executing _ s _ _ _ => s = inr j /\ j ∈ to
    | LabRpc.Answered _ r => LabRpc.ok r = false
    end.
Proof.
  intros Hlen Hto. unfold makeClient. rewrite <- Hlen in *.
  destruct (each (to_servers (zlen names) names) make_end (net cfg)) as [nt|] eqn:Hnt; simpl; [|done].
  apply make_row_run in Hnt as (Hnd & es & en0 & cn & -> & Hnew & _).
  destruct (random_handles_permutes (Cmd := Cmd) draw names) as (sa & -> & Hp). simpl.
  match goal with |- context [ConnectClientUnlocked ?k to ?c] => set (cfg0 := c); set (ck0 := k) end.
  destruct (ConnectClient_run ck0 names to cfg0) as (en & -> & Hin & Hout);
    [by apply lookup_insert_eq|done|].
  simpl. intros [= <- <- <-]. split; [done|]. split; [by apply lookup_insert_eq|].
  intros j e meth args d He. destruct (Hnew j e He) as (_ & _ & Hen0 & Hcn).
  unfold LabRpc.process_begin, LabRpc.readEndnameInfo. simpl. rewrite Hcn. simpl.
  destruct (decide (j ∈ to)) as [Hj|Hj].
  - rewrite (Hin j e Hj He). simpl.
    destruct (LabRpc.servers (net cfg) !! inr j) as [[p|]|]; simpl; [|done..].
    by destruct (_ && _).
  - rewrite Hout; [simpl; by rewrite Hen0|]. intros x Hx Hxe. apply Hj.
    apply zget_Some_lookup in He as [? He], Hxe as [? Hxe].
    by replace j with x by (pose proof (NoDup_lookup names _ _ e Hnd He Hxe); lia).
Qed.
End client.

Section witnesses.
Import Raft KVRaft.

(** Three servers; the names of each are distinct. *)
Definition names3 (i : Z) : list string :=
  if i =? 0 then ["00"; "01"; "02"]%string
  else if i =? 1 then ["10"; "11"; "12"]%string else ["20"; "21"; "22"]%string.

Definition made3 : outcome command (config (Srv := KVServer) (W := unit)) :=
  make_config [] [] 3 false (-1) names3 (mkTick 0 0) 0.

Definition cfg3 : config (Srv := KVServer) (W := unit) :=
  match made3 with
  | RaftHarness.Done c => c
  | Stopped _ => mkConfig LabRpc.MakeNetwork 0 [] [] [] ∅ 0 0 0 0 0 0 0
  end.

Lemma made3_done : made3 = RaftHarness.Done cfg3.
Proof. by vm_compute. Qed.

Lemma cfg3_named : named cfg3 /\ all_started cfg3 /\ n cfg3 = 3.
Proof.
  destruct (make_config_run [] [] 3 false (-1) names3 (mkTick 0 0) 0 cfg3)
    as (Hn & Hc & _ & Hup & _); [|exact made3_done|].
  - intros i Hi. unfold names3. by destruct (i =? 0), (i =? 1).
  - split; [done|]. split; [|done]. intros i Hi. apply Hup. by rewrite <- Hc.
Qed.

Lemma make_partition_cuts_witness :
  exists p1 p2 cfg', make_partition (Cmd := command) 1 3 = RaftHarness.Done (p1, p2) /\
    partition (Cmd := command) p1 p2 cfg3 = RaftHarness.Done cfg' /\ 1 ∈ p2 /\ zlen p2 = 1 /\
    talks_when (same_side p1 p2 1 0) cfg' 1 0.
Proof.
  destruct cfg3_named as (Hn & Hs & Hc). revert Hn Hs Hc. generalize cfg3. intros c Hn Hs Hc.
  destruct (make_partition_cuts (Cmd := command) 1 1 c Hn Hs)
    as (p1 & p2 & cfg' & Hmk & Hrun & _ & _ & Hl2 & Hin & Htalk); [lia|lia|lia|].
  rewrite Hc in Hmk, Htalk. exists p1, p2, cfg'. split; [exact Hmk|]. split; [exact Hrun|].
  split; [exact Hin|]. split; [exact Hl2|]. apply Htalk; lia.
Defined.

Definition client3 : outcome command (config * nat * list string) :=
  makeClient [0; 2] ["a"; "b"; "c"]%string (fun i => i) cfg3.

Lemma client3_done : exists cfg' ck handles, client3 = RaftHarness.Done (cfg', ck, handles).
Proof. eexists _, _, _. vm_compute. reflexivity. Qed.

Lemma makeClient_reaches_witness :
  exists cfg' ck handles, client3 = RaftHarness.Done (cfg', ck, handles) /\
    handles ≡ₚ ["a"; "b"; "c"]%string.
Proof.
  destruct client3_done as (cfg' & ck & handles & E). exists cfg', ck, handles. split; [exact E|].
  assert (n cfg3 = 3) as Hc by apply cfg3_named. unfold client3 in E. revert Hc E.
  generalize cfg3. intros c Hc E.
  apply (makeClient_reaches (Cmd := command) [0; 2] ["a"; "b"; "c"]%string (fun i => i) c cfg' ck handles).
  - by rewrite Hc.
  - rewrite Hc. by repeat constructor.
  - exact E.
Defined.
End witnesses.

(** With an even number of servers, server 0 is left on both sides. *)
Theorem make_partition_even :
  make_partition (Cmd := unit) 3 4 = Done ([0; 1; 2], [0; 3]).
Proof. done. Qed.

(** With one server there is no smaller side. *)
Theorem make_partition_alone : make_partition (Cmd := unit) 0 1 = Stopped Panicked.
Proof. done. Qed.
End ServiceProps.
