(* ===== verification/CtrlerHarness.v ===== *)
(** The test harness of the shard controllers (src/shardctrler/config.go): the
    model of ServiceHarness.v at this package's server.  The two packages have the
    same text but for four places: here a server takes no maxraftstate, tests keep
    no statistics, there is no SnapshotSize, and Leader passes over the servers
    that are shut down. *)
From S2P Require Import Prelude Persister LabRpc RaftNode RaftFacts ShardCtrler RaftHarness Wiring ServiceHarness ServiceProps.
Import Persister RaftHarness Wiring.Wiring ServiceProps.ServiceProps.

Module CtrlerHarness.

#[local] Existing Instance ServiceHarness.ctrler_replica.

Definition random_handles {A} (draw : Z -> Z) (kvh : list A) : outcome unit (list A) :=
  ServiceHarness.random_handles draw kvh.

Section harness.
Context `{!Gob Z, !Gob (list (Raft.LogEntry unit))}.
Context {W : Type} (srv_methods raft_methods : list (string * LabRpc.method (W := W))).

(** The fields of the generic record that this package does not have keep their
    initial values. *)
Definition config := ServiceHarness.config (Srv := ShardCtrler.ShardCtrler) (W := W).
Implicit Types (cfg : config).

Definition checkTimeout (failed : bool) (now : Z) cfg : outcome unit unit :=
  ServiceHarness.checkTimeout failed now cfg.
Definition cleanup (failed : bool) (now : Z) cfg : outcome unit config :=
  ServiceHarness.cleanup failed now cfg.
Definition LogSize cfg : outcome unit Z := ServiceHarness.LogSize cfg.

(** The functions that take the lock are those that run with it. *)
Definition connectUnlocked (i : Z) (to : list Z) cfg : outcome unit config :=
  ServiceHarness.connectUnlocked i to cfg.
Definition connect (i : Z) (to : list Z) cfg : outcome unit config := connectUnlocked i to cfg.
Definition disconnectUnlocked (i : Z) (from : list Z) cfg : outcome unit config :=
  ServiceHarness.disconnectUnlocked i from cfg.
Definition disconnect (i : Z) (from : list Z) cfg : outcome unit config :=
  disconnectUnlocked i from cfg.
Definition All cfg : list Z := ServiceHarness.All cfg.
Definition ConnectAll cfg : outcome unit config := ServiceHarness.ConnectAll cfg.
Definition partition (p1 p2 : list Z) cfg : outcome unit config := ServiceHarness.partition p1 p2 cfg.

Definition makeClient (to : list Z) (names : list string) (draw : Z -> Z) cfg :
    outcome unit (config * nat * list string) := ServiceHarness.makeClient to names draw cfg.
Definition deleteClient (ck : nat) cfg : config := ServiceHarness.deleteClient ck cfg.
Definition ConnectClientUnlocked (ck : nat) (to : list Z) cfg : outcome unit config :=
  ServiceHarness.ConnectClientUnlocked ck to cfg.
Definition ConnectClient (ck : nat) (to : list Z) cfg : outcome unit config :=
  ConnectClientUnlocked ck to cfg.
Definition DisconnectClientUnlocked (ck : nat) (from : list Z) cfg : outcome unit config :=
  ServiceHarness.DisconnectClientUnlocked ck from cfg.
Definition DisconnectClient (ck : nat) (from : list Z) cfg : outcome unit config :=
  DisconnectClientUnlocked ck from cfg.

Definition ShutdownServer (i : Z) cfg : outcome unit (config * option ShardCtrler.ShardCtrler) :=
  ServiceHarness.ShutdownServer i cfg.
Definition StartServer (i : Z) (names : list string) (k : Raft.tick) cfg :
    outcome unit (config * list Raft.spawn) :=
  ServiceHarness.StartServer srv_methods raft_methods i names k cfg.
Definition make_config (n : Z) (unreliable : bool) (names : Z -> list string) (k : Raft.tick)
    (now : Z) : outcome unit config :=
  ServiceHarness.make_config srv_methods raft_methods n unreliable 0 names k now.

(** ** The leader among servers some of which are shut down *)

Abbreviation n := ServiceHarness.n.

(** A partition of the controllers cuts the first leader off from a majority,
    although other servers may be shut down at the time. *)
Theorem ctrler_partition_cuts m l cfg :
  named cfg -> all_started cfg -> n cfg = 2 * Z.of_nat m + 1 -> (1 <= m)%nat -> 0 <= l < n cfg ->
  leads cfg l -> (forall i, i < l -> ~ leads cfg i) ->
  exists p1 p2 cfg', ServiceHarness.ctrler_make_partition cfg = Done (p1, p2) /\
    partition p1 p2 cfg = Done cfg' /\ l ∈ p2 /\ zlen p2 = Z.of_nat m /\
    forall i j, 0 <= i < n cfg -> 0 <= j < n cfg -> talks_when (same_side p1 p2 i j) cfg' i j.
Proof.
  intros Hn Hs Hc Hm Hl Hld Hfirst.
  destruct (leader_cut_off (Cmd := unit) m l cfg Hn Hs Hc Hm Hl)
    as (p1 & p2 & cfg' & Hmk & Hp & _ & _ & Hlen & Hin & Htalk).
  exists p1, p2, cfg'. unfold ServiceHarness.ctrler_make_partition, ServiceHarness.ctrler_Leader.
  rewrite (Leader_finds true cfg l) by (auto; apply Hn). simpl. auto.
Qed.
End harness.
End CtrlerHarness.
