(* ===== verification/KVSrvHarness.v ===== *)
(** The test harness of kvsrv (src/kvsrv/config.go): a single server on the
    simulated network and its clerks. *)
From S2P Require Import Prelude Persister LabRpc KVSrv RaftHarness.
Import RaftHarness.

Module KVSrvHarness.

Definition SERVERID : Z := 0.

Section harness.
Context {W : Type}.
(** The methods reflection finds on the server. *)
Context (srv_methods : list (string * LabRpc.method (W := W))).

(** A clerk is a pointer; [nclerks] of them were made. *)
Record config := mkConfig {
  net : LabRpc.Network (Name := string + Z) (W := W);
  kvserver : option KVSrv.KVServer;
  clerks : gmap nat string; nclerks : nat; nextClientId : Z; start : Z;
  t0 : Z; rpcs0 : Z; ops : Z }.

Implicit Types (cfg : config).

Definition set_net v cfg := mkConfig v (kvserver cfg) (clerks cfg) (nclerks cfg)
  (nextClientId cfg) (start cfg) (t0 cfg) (rpcs0 cfg) (ops cfg).
Definition set_clerks v k next cfg := mkConfig (net cfg) (kvserver cfg) v k next (start cfg)
  (t0 cfg) (rpcs0 cfg) (ops cfg).
Definition set_stats t r o cfg := mkConfig (net cfg) (kvserver cfg) (clerks cfg) (nclerks cfg)
  (nextClientId cfg) (start cfg) t r o.

Definition checkTimeout (failed : bool) (now : Z) cfg : outcome unit unit :=
  if negb failed && (120 * 10 ^ 9 <? now - start cfg) then Stopped (Failed TooSlow) else Done tt.

Definition cleanup (failed : bool) (now : Z) cfg : outcome unit config :=
  nt ← must (LabRpc.Cleanup (net cfg));
  let cfg := set_net nt cfg in
  _ ← checkTimeout failed now cfg; Done cfg.

(** A clerk that is not in the map has the empty name. *)
Definition name_of (ck : nat) cfg : string := default EmptyString (clerks cfg !! ck).

Definition ConnectClientUnlocked (ck : nat) cfg : config :=
  set_net (LabRpc.Enable (inl (name_of ck cfg)) true (net cfg)) cfg.

(** [name]: the random string; [nrand]: the identifier the clerk draws. *)
Definition makeClient (name : string) (nrand : Z) cfg : outcome unit (config * nat * KVSrv.Clerk) :=
  match LabRpc.MakeEnd (inl name) (net cfg) with
  | None => Stopped (Exited (EndExists name))
  | Some nt =>
      let nt := LabRpc.Connect (inl name) (inr SERVERID) nt in
      let ck := nclerks cfg in
      let cfg := set_clerks (<[ck := name]> (clerks cfg)) (S ck) (nextClientId cfg + 1)
                   (set_net nt cfg) in
      Done (ConnectClientUnlocked ck cfg, ck, KVSrv.MakeClerk nrand)
  end.

(** No file has the name of the end. *)
Definition deleteClient (ck : nat) cfg : outcome unit config :=
  match LabRpc.DeleteEnd (inl (name_of ck cfg)) (net cfg) with
  | None => Stopped (Exited (EndMissing (name_of ck cfg)))
  | Some nt =>
      Done (set_clerks (delete ck (clerks cfg)) (nclerks cfg) (nextClientId cfg) (set_net nt cfg))
  end.

Definition StartServer cfg : config :=
  let kvsvc := LabRpc.MakeService "KVServer" srv_methods in
  let srv := LabRpc.AddService LabRpc.MakeServer kvsvc in
  let nt := addServer (inr 0) srv (net cfg) in
  mkConfig nt (Some KVSrv.StartKVServer) (clerks cfg) (nclerks cfg) (nextClientId cfg)
    (start cfg) (t0 cfg) (rpcs0 cfg) (ops cfg).

Definition make_config (unreliable : bool) (now : Z) : config :=
  let cfg := mkConfig LabRpc.MakeNetwork None ∅ 0 (SERVERID + 1) now 0 0 0 in
  let cfg := StartServer cfg in
  set_net (LabRpc.Reliable (negb unreliable) (net cfg)) cfg.

Definition rpcTotal cfg : Z := LabRpc.GetTotalCount (net cfg).

Definition begin (now : Z) cfg : config := set_stats now (rpcTotal cfg) 0 cfg.

Definition op cfg : config := set_stats (t0 cfg) (rpcs0 cfg) (ops cfg + 1) cfg.

(** What the end of a test prints: time, calls, operations. *)
Definition end_ (failed : bool) (now : Z) cfg : outcome unit (option (Z * Z * Z)) :=
  _ ← checkTimeout failed now cfg;
  Done (if failed then None else Some (now - t0 cfg, rpcTotal cfg - rpcs0 cfg, ops cfg)).
End harness.
End KVSrvHarness.
