(* ===== verification/KVSrvHarnessProps.v ===== *)
(** The harness of kvsrv: a client of the single server reaches it from its
    creation to its deletion. *)
From S2P Require Import Prelude Persister LabRpc KVSrv RaftHarness Wiring KVSrvHarness.
Import RaftHarness Wiring.

Module KVSrvHarnessProps.
Import KVSrvHarness.

Section props.
Context {W : Type} (srv_methods : list (string * LabRpc.method (W := W))).
Implicit Types (cfg : config (W := W)).

(** The server is on the network. *)
Definition serving cfg : Prop := exists p, LabRpc.servers (net cfg) !! inr SERVERID = Some (Some p).

Lemma make_config_serving unreliable now : serving (make_config srv_methods unreliable now).
Proof. by eexists. Qed.

(** Whether a request on the end [name] can reach a handler. *)
Definition reaches (name : string) cfg : Prop :=
  forall meth args d,
    match LabRpc.process_begin (LabRpc.mkReq (inl name) meth args) d (net cfg) with
    | LabRpc.Executing _ s _ _ _ => s = inr SERVERID
    | LabRpc.Answered _ r => LabRpc.ok r = false /\ LabRpc.reliable (net cfg) = false
    end.

Definition unreachable (name : string) cfg : Prop :=
  forall meth args d,
    match LabRpc.process_begin (LabRpc.mkReq (inl name) meth args) d (net cfg) with
    | LabRpc.Executing _ _ _ _ _ => False
    | LabRpc.Answered _ r => LabRpc.ok r = false
    end.

(** The life of a client of kvsrv: when it is made, its end is new and
    reaches the server; when it is deleted, the end is gone, nothing else
    changed for the other ends, and its requests fail; deleting it again ends
    the process. *)
Theorem client_lifecycle name nrand cfg cfg1 ck c :
  serving cfg -> LabRpc.ends (net cfg) !! inl EmptyString = None ->
  makeClient name nrand cfg = Done (cfg1, ck, c) -> name <> EmptyString ->
  c = KVSrv.MakeClerk nrand /\ reaches name cfg1 /\
  exists cfg2, deleteClient ck cfg1 = Done cfg2 /\ unreachable name cfg2 /\
    LabRpc.ends (net cfg2) = LabRpc.ends (net cfg) /\
    (forall e, e <> inl name -> LabRpc.enabled (net cfg2) !! e = LabRpc.enabled (net cfg) !! e /\
       LabRpc.connections (net cfg2) !! e = LabRpc.connections (net cfg) !! e) /\
    deleteClient ck cfg2 = Stopped (Exited (EndMissing EmptyString)).
Proof.
  intros [p Hp] Hempty Hmk Hne. unfold makeClient, LabRpc.MakeEnd in Hmk.
  destruct (LabRpc.ends (net cfg) !! inl name) eqn:He; [done|]. injection Hmk as <- <- <-.
  unfold ConnectClientUnlocked, name_of. simpl. rewrite lookup_insert_eq. simpl.
  split; [done|]. split.
  { intros meth args d. unfold LabRpc.process_begin, LabRpc.readEndnameInfo. simpl.
    rewrite !lookup_insert_eq. simpl. rewrite Hp. simpl.
    destruct (LabRpc.reliable (net cfg)); simpl; [done|]. by destruct (_ <? 100). }
  unfold deleteClient, name_of. simpl. rewrite lookup_insert_eq. simpl.
  unfold LabRpc.DeleteEnd at 1. simpl. rewrite lookup_insert_eq. eexists. split; [done|].
  split; [|split; [|split]].
  - intros meth args d. unfold LabRpc.process_begin, LabRpc.readEndnameInfo. simpl.
    by rewrite lookup_delete_eq.
  - simpl. rewrite delete_insert_eq, delete_id; done.
  - intros e Hene. simpl. rewrite !lookup_delete_ne, !lookup_insert_ne; done.
  - simpl. rewrite lookup_delete_eq. simpl. unfold LabRpc.DeleteEnd. simpl.
    rewrite lookup_delete_ne, lookup_insert_ne, Hempty; congruence || done.
Qed.
End props.

Definition made : config (W := unit) := make_config [] false 0.

Lemma client_lifecycle_witness :
  exists cfg1 ck c, makeClient "a" 7 made = Done (cfg1, ck, c) /\ reaches "a" cfg1.
Proof.
  eexists _, _, _. split; [by vm_compute|].
  destruct (client_lifecycle "a" 7 made) with (cfg1 := ConnectClientUnlocked 0 (set_clerks
    {[0%nat := "a"%string]} 1 2 (set_net (LabRpc.Connect (inl "a"%string) (inr SERVERID)
      (default (net made) (LabRpc.MakeEnd (inl "a"%string) (net made)))) made)))
    (ck := 0%nat) (c := KVSrv.MakeClerk 7) as (_ & Hr & _).
  - apply make_config_serving.
  - done.
  - by vm_compute.
  - done.
  - exact Hr.
Defined.
End KVSrvHarnessProps.
