(* ===== verification/KVSrvSystem.v ===== *)
(** The single-server service from end to end: the clerks of src/kvsrv on the
    simulated network of src/labrpc, as the harness of src/kvsrv/config.go puts
    them together.  A clerk's loop encodes its request, the network loses it or
    runs the handler that reflection finds, loses the reply or delivers it, and
    the clerk decodes it or tries again.  One transition per point where the
    code waits; the dice of the network are inputs.  The state also keeps the
    history the clerks observe. *)
From S2P Require Import Prelude Porcupine KvModel Persister LabRpc KVSrv RaftHarness KVSrvHarness.
Import RaftHarness Persister LabRpc KVSrv KVSrvHarness.

Module KVSrvSystem.

Section system.
Context `{!Gob GetArgs, !Gob GetReply, !Gob PutAppendArgs, !Gob PutAppendReply}.

Abbreviation iname := (string + Z)%type.

(** ** The server's side *)

Definition exported {A R} `{!Gob A, !Gob R} (zero : A) (f : A -> KVServer -> KVServer * R) :
    method (W := KVServer) :=
  mkMethod "" 3 true 0 (handler zero (fun kv a => f a kv)).

(** The methods reflection finds on a [*KVServer]. *)
Definition srv_methods : list (string * method (W := KVServer)) :=
  [("Get"%string, exported (mkGetArgs "" 0 0) Get);
   ("Put"%string, exported (mkPutAppendArgs "" "" 0 0) Put);
   ("Append"%string, exported (mkPutAppendArgs "" "" 0 0) Append)].

(** ** The clerk's side *)

(** The request [ck.server.Call] makes on the end [e]. *)
Definition request_of (e : string) (c : call) : reqMsg (Name := iname) :=
  match c with
  | CGet args => Call_request (inl e) "KVServer.Get" args
  | CPut args => Call_request (inl e) "KVServer.Put" args
  | CAppend args => Call_request (inl e) "KVServer.Append" args
  end.

(** What [Call] returns, and with it the clerk: [Some None], [ok] is false. *)
Definition returned (c : call) (r : replyMsg) : option (option string) :=
  match c with
  | CGet _ => option_map (option_map gr_Value) (Call_return r)
  | CPut _ | CAppend _ => option_map (option_map par_Value) (Call_return r)
  end.

(** Where a call of [Call] is: at its beginning, received by the network, with
    its handler started or done, or with its reply on the way. *)
Inductive stage :=
  | Top
  | Taken
  | Running (s : iname) (server : nat) (reliable longreordering : bool)
  | Ran (s : iname) (server : nat) (reliable longreordering : bool) (r : replyMsg)
  | Replied (r : replyMsg).

Inductive phase :=
  | Idle
  | Calling (id : nat) (c : call) (st : stage)
  | Gone.

(** A client of a test: the name of its end, the harness's pointer to its clerk,
    the clerk. *)
Record client := mkClient { cl_end : string; cl_ptr : nat; cl_ck : Clerk; cl_phase : phase }.

(** ** The state *)

(** An operation of client [ob_client]: when it began; what it returned, when. *)
Record observed := mkObserved {
  ob_client : nat; ob_call : call; ob_time : Z; ob_done : option (string * Z) }.

(** [sy_orphans]: requests whose handlers the network stopped waiting for. *)
Record system := mkSystem {
  sy_cfg : config (W := KVServer);
  sy_kv : KVServer;
  sy_clients : list client;
  sy_orphans : list (nat * reqMsg (Name := iname));
  sy_calls : list observed;
  sy_clock : Z }.

Implicit Types (sy : system) (cl : client).

Definition set_cfg v sy := mkSystem v (sy_kv sy) (sy_clients sy) (sy_orphans sy) (sy_calls sy) (sy_clock sy).
Definition set_kv v sy := mkSystem (sy_cfg sy) v (sy_clients sy) (sy_orphans sy) (sy_calls sy) (sy_clock sy).
Definition set_clients v sy := mkSystem (sy_cfg sy) (sy_kv sy) v (sy_orphans sy) (sy_calls sy) (sy_clock sy).
Definition set_orphans v sy := mkSystem (sy_cfg sy) (sy_kv sy) (sy_clients sy) v (sy_calls sy) (sy_clock sy).
Definition set_calls v sy := mkSystem (sy_cfg sy) (sy_kv sy) (sy_clients sy) (sy_orphans sy) v (sy_clock sy).
Definition set_clock v sy := mkSystem (sy_cfg sy) (sy_kv sy) (sy_clients sy) (sy_orphans sy) (sy_calls sy) v.

Definition set_net_of nt sy := set_cfg (set_net nt (sy_cfg sy)) sy.
Definition set_client (m : nat) cl sy := set_clients (<[m := cl]> (sy_clients sy)) sy.
Definition set_phase (m : nat) (p : phase) cl sy :=
  set_client m (mkClient (cl_end cl) (cl_ptr cl) (cl_ck cl) p) sy.

(** ** The steps *)

(** [run_client]: a clerk of its own for a new client. *)
Definition new_client (name : string) (nrand : Z) sy : outcome unit system :=
  '(cfg, ptr, ck) ← makeClient name nrand (sy_cfg sy);
  Done (set_clients (sy_clients sy ++ [mkClient name ptr ck Idle]) (set_cfg cfg sy)).

(** The client is done. *)
Definition leave (m : nat) cl sy : outcome unit system :=
  cfg ← deleteClient (cl_ptr cl) (sy_cfg sy);
  Done (set_phase m Gone cl (set_cfg cfg sy)).

(** The clerk [ck] of client [m], with a new number, begins [c]. *)
Definition begin (m : nat) (ck : Clerk) (c : call) cl sy : system :=
  set_client m (mkClient (cl_end cl) (cl_ptr cl) ck (Calling (length (sy_calls sy)) c Top))
    (set_calls (sy_calls sy ++ [mkObserved m c (sy_clock sy) None]) sy).

(** The operation returns; the test counts it. *)
Definition complete (m id : nat) (value : string) cl sy : system :=
  set_phase m Idle cl
    (set_cfg (op (sy_cfg sy))
       (set_calls (alter (fun x => mkObserved (ob_client x) (ob_call x) (ob_time x)
                                     (Some (value, sy_clock sy))) id (sy_calls sy)) sy)).

(** [Call] sends, or returns false at once. *)
Definition send (m : nat) (gone : bool) id c cl sy : system :=
  match Call_send gone (request_of (cl_end cl) c) (net (sy_cfg sy)) with
  | Some nt => set_phase m (Calling id c Taken) cl (set_net_of nt sy)
  | None => sy
  end.

(** [processReq] up to the start of the handler. *)
Definition process (m : nat) (d : dice) id c cl sy : system :=
  set_phase m (Calling id c match process_begin (request_of (cl_end cl) c) d (net (sy_cfg sy)) with
                            | Answered _ r => Replied r
                            | Executing _ s p rel reord => Running s p rel reord
                            end) cl sy.

(** The handler runs. *)
Definition execute (m : nat) s p rel reord id c cl sy : outcome unit system :=
  '(nt, kv, r) ← must (process_execute p (request_of (cl_end cl) c) (net (sy_cfg sy)) (sy_kv sy));
  Done (set_phase m (Calling id c (Ran s p rel reord r)) cl (set_kv kv (set_net_of nt sy))).

(** The check after 100 ms: the network stops waiting for a dead server. *)
Definition look (m : nat) s p rel reord (d : dice) id c cl sy : system :=
  let nt := net (sy_cfg sy) in
  if isServerDead (inl (cl_end cl)) s p nt then
    set_phase m (Calling id c (Replied (process_end (inl (cl_end cl)) s p rel reord None d nt).2)) cl
      (set_orphans (sy_orphans sy ++ [(p, request_of (cl_end cl) c)]) sy)
  else sy.

(** The handler of a request that nobody waits for runs. *)
Definition orphan (i : nat) sy : outcome unit system :=
  match sy_orphans sy !! i with
  | Some (p, req) =>
      '(nt, kv, _) ← must (process_execute p req (net (sy_cfg sy)) (sy_kv sy));
      Done (set_orphans (delete i (sy_orphans sy)) (set_kv kv (set_net_of nt sy)))
  | None => Done sy
  end.

(** The end of [processReq]. *)
Definition settle (m : nat) s p rel reord r (d : dice) id c cl sy : system :=
  set_phase m (Calling id c (Replied (process_end (inl (cl_end cl)) s p rel reord (Some r) d
                                        (net (sy_cfg sy))).2)) cl sy.

(** The reply arrives: the clerk returns, or its loop goes round. *)
Definition receive (m : nat) r id c cl sy : outcome unit system :=
  let sy := set_net_of (send_reply r (net (sy_cfg sy))) sy in
  o ← must (returned c r);
  Done match o with
       | Some value => complete m id value cl sy
       | None => set_phase m (Calling id c Top) cl sy
       end.

(** ** Runs *)

Inductive act :=
  | Tick (d : nat)
  | NewClient (name : string) (nrand : Z)
  | Leave (m : nat)
  | CallGet (m : nat) (key : string)
  | CallPut (m : nat) (key value : string)
  | CallAppend (m : nat) (key value : string)
  | Send (m : nat) (gone : bool)
  | Process (m : nat) (d : dice)
  | Execute (m : nat)
  | Look (m : nat) (d : dice)
  | Settle (m : nat) (d : dice)
  | Receive (m : nat)
  | Orphan (i : nat)
  | CleanUp (failed : bool) (now : Z).

(** What client [m] does next, where it is at [st] of a call. *)
Definition call_step (a : act) (m : nat) id c st cl sy : outcome unit system :=
  match a, st with
  | Send _ gone, Top => Done (send m gone id c cl sy)
  | Process _ d, Taken => Done (process m d id c cl sy)
  | Execute _, Running s p rel reord => execute m s p rel reord id c cl sy
  | Look _ d, Running s p rel reord => Done (look m s p rel reord d id c cl sy)
  | Settle _ d, Ran s p rel reord r => Done (settle m s p rel reord r d id c cl sy)
  | Receive _, Replied r => receive m r id c cl sy
  | _, _ => Done sy
  end.

(** What an idle client does next. *)
Definition idle_step (a : act) (m : nat) cl sy : outcome unit system :=
  match a with
  | CallGet _ key => let '(ck, args) := clerk_Get_args (cl_ck cl) key in Done (begin m ck (CGet args) cl sy)
  | CallPut _ key value =>
      let '(ck, args) := clerk_PutAppend_args (cl_ck cl) key value in Done (begin m ck (CPut args) cl sy)
  | CallAppend _ key value =>
      let '(ck, args) := clerk_PutAppend_args (cl_ck cl) key value in Done (begin m ck (CAppend args) cl sy)
  | Leave _ => leave m cl sy
  | _ => Done sy
  end.

Definition client_step (a : act) (m : nat) sy : outcome unit system :=
  match sy_clients sy !! m with
  | Some cl =>
      match cl_phase cl with
      | Idle => idle_step a m cl sy
      | Calling id c st => call_step a m id c st cl sy
      | Gone => Done sy
      end
  | None => Done sy
  end.

Definition sy_step sy (a : act) : outcome unit system :=
  match a with
  | Tick d => Done (set_clock (sy_clock sy + Z.of_nat d) sy)
  | NewClient name nrand => new_client name nrand sy
  | Orphan i => orphan i sy
  | CleanUp failed now => cfg ← cleanup failed now (sy_cfg sy); Done (set_cfg cfg sy)
  | Leave m | CallGet m _ | CallPut m _ _ | CallAppend m _ _ | Send m _ | Process m _ | Execute m
  | Look m _ | Settle m _ | Receive m => client_step a m sy
  end.

Fixpoint sy_exec sy (acts : list act) : outcome unit system :=
  match acts with
  | [] => Done sy
  | a :: acts => sy ← sy_step sy a; sy_exec sy acts
  end.

(** [make_config], at time [now]. *)
Definition sy_init (unreliable : bool) (now : Z) : system :=
  let cfg := make_config srv_methods unreliable now in
  mkSystem cfg (default StartKVServer (kvserver cfg)) [] [] [] now.

(** ** The history *)

(** The operations as the tests record them for the checker. *)
Definition input_of (c : call) : KvModel.KvInput :=
  match c with
  | CGet args => KvModel.mkKvInput 0 (ga_Key args) ""
  | CPut args => KvModel.mkKvInput 1 (pa_Key args) (pa_Value args)
  | CAppend args => KvModel.mkKvInput 3 (pa_Key args) (pa_Value args)
  end.

(** A test does not record what a Put answers. *)
Definition output_of (c : call) (value : string) : KvModel.KvOutput :=
  KvModel.mkKvOutput match c with CPut _ => ""%string | _ => value end.

Definition operation_of (x : observed) (value : string) (t : Z) : Porcupine.Operation KvModel.value :=
  Porcupine.mkOperation (Z.of_nat (ob_client x)) (KvModel.VInput (input_of (ob_call x))) (ob_time x)
    (KvModel.VOutput (output_of (ob_call x) value)) t.

(** The operations that returned, and the others in as far as [guess] says what
    they are about to return. *)
Definition completion (guess : nat -> option string) sy : list (Porcupine.Operation KvModel.value) :=
  omap (fun '(id, x) => match ob_done x with
                        | Some (value, t) => Some (operation_of x value t)
                        | None => (fun value => operation_of x value (sy_clock sy)) <$> guess id
                        end) (imap pair (sy_calls sy)).

Definition history sy : list (Porcupine.Operation KvModel.value) := completion (fun _ => None) sy.
End system.
End KVSrvSystem.
