(* ===== verification/KVSrvExecutions.v ===== *)
(** What the executions of operations by the single server explain: a list of
    executions, in their order, accounts for the store and for every answer that
    was given.  Beginning, executing, executing a Get again and returning an
    operation keep such an account. *)
From stdpp Require Import sorting.
From S2P Require Import Prelude Porcupine Linearizability KvModel Persister LabRpc KVSrv RaftHarness KVSrvHarness KVSrvSystem.
Import RaftHarness Persister LabRpc KVSrv KVSrvHarness KVSrvSystem.

Module KVSrvExecutions.

(** ** Sorted lists *)

Lemma StronglySorted_weaken {A} (R R' : relation A) l :
  (forall a b, a ∈ l -> b ∈ l -> R a b -> R' a b) -> StronglySorted R l -> StronglySorted R' l.
Proof.
  induction l as [|a l IH]; intros Himp; [constructor|].
  rewrite !StronglySorted_cons, !Forall_forall. intros [Ha Hl]. split; [|set_solver].
  intros b Hb. apply Himp; [set_solver..|auto].
Qed.

Lemma StronglySorted_filter {A} (R : relation A) (P : A -> Prop) `{!forall x, Decision (P x)} l :
  StronglySorted R l -> StronglySorted R (filter P l).
Proof.
  induction l as [|a l IH]; [done|]. rewrite StronglySorted_cons. intros [Ha Hl].
  rewrite filter_cons. destruct (decide (P a)); [|auto]. apply StronglySorted_cons. split; [|auto].
  rewrite Forall_forall in *. intros b [_ Hb]%list_elem_of_filter. auto.
Qed.

Lemma StronglySorted_snoc {A} (R : relation A) l b :
  StronglySorted R l -> (forall a, a ∈ l -> R a b) -> StronglySorted R (l ++ [b]).
Proof.
  induction l as [|a l IH]; simpl; intros Hl Hb; [by repeat constructor|].
  apply StronglySorted_cons in Hl as [Ha Hl]. apply StronglySorted_cons. split; [|set_solver].
  apply Forall_app. split; [done|]. constructor; [set_solver|done].
Qed.

(** ** The service as a store *)

(** What an operation does to the store, and its answer. *)
Definition effect (c : call) (d : gmap string string) : gmap string string * string :=
  match c with
  | CGet args => (d, default "" (d !! ga_Key args))
  | CPut args => (<[pa_Key args := pa_Value args]> d, "")
  | CAppend args =>
      let old := default "" (d !! pa_Key args) in
      (<[pa_Key args := (old ++ pa_Value args)%string]> d, old)
  end%string.

(** The server does not remember the request. *)
Definition new_to (kv : KVServer) (c : call) : Prop :=
  match c with CGet _ => True | CPut args | CAppend args => cached args kv = None end.

Lemma handle_effect c kv :
  new_to kv c -> data (handle c kv).1 = (effect c (data kv)).1 /\
    (handle c kv).2 = (effect c (data kv)).2.
Proof.
  destruct c as [args|args|args]; simpl; unfold Get, Put, Append; [|intros ->; done..].
  by destruct (data kv !! ga_Key args).
Qed.

(** The model of the checker agrees, on stores that read the same. *)
Lemma effect_legal c d m :
  (forall k, KvModel.get m k = default ""%string (d !! k)) ->
  exists m', KvModel.store_Step m (KvModel.VInput (input_of c))
      (KvModel.VOutput (output_of c (effect c d).2)) = Some (true, m') /\
    forall k, KvModel.get m' k = default ""%string ((effect c d).1 !! k).
Proof.
  intros Hm. destruct c as [args|args|args]; simpl; unfold KvModel.store_Step; simpl;
    rewrite ?Hm, ?String.eqb_refl; simpl; (eexists; split; [done|]); intros k.
  - destruct (decide (ga_Key args = k)) as [<-|]; [by rewrite KvModel.get_insert_eq|].
    by rewrite KvModel.get_insert_ne.
  - destruct (decide (pa_Key args = k)) as [<-|];
      [by rewrite KvModel.get_insert_eq, lookup_insert_eq|].
    by rewrite KvModel.get_insert_ne, lookup_insert_ne.
  - destruct (decide (pa_Key args = k)) as [<-|];
      [by rewrite KvModel.get_insert_eq, lookup_insert_eq|].
    by rewrite KvModel.get_insert_ne, lookup_insert_ne.
Qed.

(** ** Executions *)

(** The execution of operation [lo_id]: what it was, what it answered. *)
Record execution := mkExecution { lo_id : nat; lo_call : call; lo_val : string }.

Implicit Types (Q : list execution) (o : execution) (d : gmap string string) (calls : list observed).

Fixpoint replays d Q d' : Prop :=
  match Q with
  | [] => d = d'
  | o :: Q => (effect (lo_call o) d).2 = lo_val o /\ replays (effect (lo_call o) d).1 Q d'
  end.

Lemma replays_snoc d Q d' o :
  replays d Q d' -> (effect (lo_call o) d').2 = lo_val o ->
  replays d (Q ++ [o]) (effect (lo_call o) d').1.
Proof. revert d. induction Q as [|o' Q IH]; intros d; simpl; [by intros ->|naive_solver]. Qed.

Definition is_get (c : call) : bool := match c with CGet _ => true | _ => false end.

(** A Get leaves no trace. *)
Lemma replays_forget id d Q d' :
  (forall o, o ∈ Q -> lo_id o = id -> is_get (lo_call o) = true) ->
  replays d Q d' -> replays d (filter (fun o => lo_id o <> id) Q) d'.
Proof.
  revert d. induction Q as [|o Q IH]; intros d Hg; [done|]. simpl. intros [Hv Hr].
  rewrite filter_cons. destruct (decide (lo_id o <> id)) as [_|He]; simpl.
  - split; [done|]. apply IH; [set_solver|done].
  - apply IH; [set_solver|]. assert (is_get (lo_call o) = true) as Ho.
    { apply Hg; [set_solver|]. by destruct (decide (lo_id o = id)). }
    by destruct (lo_call o).
Qed.

(** [a] may be executed before [b]: [b] did not return before [a] was called. *)
Definition may_precede calls (a b : execution) : Prop :=
  forall xa xb v t, calls !! lo_id a = Some xa -> calls !! lo_id b = Some xb ->
  ob_done xb = Some (v, t) -> ob_time xa <= t.

(** The executions [Q] explain the calls and the store [d]. *)
Record explained calls (clock : Z) d Q : Prop := {
  ex_ids : NoDup (map lo_id Q);
  ex_calls o : o ∈ Q -> exists x, calls !! lo_id o = Some x /\ ob_call x = lo_call o;
  ex_times x : x ∈ calls -> ob_time x <= clock /\
    forall v t, ob_done x = Some (v, t) -> ob_time x <= t <= clock;
  ex_done id x v t : calls !! id = Some x -> ob_done x = Some (v, t) -> mkExecution id (ob_call x) v ∈ Q;
  ex_order : StronglySorted (may_precede calls) Q;
  ex_replays : replays ∅ Q d }.

Lemma explained_clock calls clock clock' d Q :
  clock <= clock' -> explained calls clock d Q -> explained calls clock' d Q.
Proof.
  intros Hle [? ? Ht ? ? ?]. split; try done. intros x [? Hd]%Ht. split; [lia|].
  intros v t Hv. pose proof (Hd v t Hv). lia.
Qed.

(** An execution has its id to itself. *)
Lemma ids_unique Q o o' : NoDup (map lo_id Q) -> o ∈ Q -> o' ∈ Q -> lo_id o = lo_id o' -> o = o'.
Proof.
  intros Hnd [i Hi]%list_elem_of_lookup [j Hj]%list_elem_of_lookup Heq.
  assert (i = j) as ->; [|congruence].
  apply (NoDup_lookup _ _ _ (lo_id o) Hnd); change (map lo_id Q) with (lo_id <$> Q);
    rewrite list_lookup_fmap; [by rewrite Hi|rewrite Hj; simpl; by rewrite Heq].
Qed.

Lemma ids_filter Q (P : execution -> Prop) `{!forall o, Decision (P o)} :
  NoDup (map lo_id Q) -> NoDup (map lo_id (filter P Q)).
Proof.
  induction Q as [|o Q IH]; [done|]. simpl. intros [Hnin Hn]%NoDup_cons. rewrite filter_cons.
  destruct (decide (P o)); [|auto]. simpl. apply NoDup_cons. split; [|auto].
  intros (o' & Heq & [_ Hin]%list_elem_of_filter)%list_elem_of_fmap. apply Hnin. rewrite Heq.
  by apply list_elem_of_fmap_2.
Qed.

(** A call begins. *)
Lemma explained_begin calls clock d Q m c :
  explained calls clock d Q -> explained (calls ++ [mkObserved m c clock None]) clock d Q.
Proof.
  intros [Hn Hc Ht Hd Ho Hr].
  assert (forall o x, o ∈ Q -> (calls ++ [mkObserved m c clock None]) !! lo_id o = Some x ->
    calls !! lo_id o = Some x) as Hback.
  { intros o x (y & Hy & _)%Hc Hx. rewrite (lookup_app_l_Some _ _ _ _ Hy) in Hx. congruence. }
  split; try done.
  - intros o (x & Hx & ?)%Hc. exists x. split; [by apply lookup_app_l_Some|done].
  - intros x [Hx%Ht | ->%list_elem_of_singleton]%elem_of_app; [done|]. simpl. split; [lia|done].
  - intros id x v t [Hx|[_ Hx]]%lookup_app_Some Hv; [by eapply Hd|].
    apply list_lookup_singleton_Some in Hx as [_ <-]. done.
  - eapply StronglySorted_weaken; [|exact Ho]. intros a b Ha Hb Hab xa xb v t Hxa Hxb.
    apply (Hab xa xb v t); by apply Hback.
Qed.

(** An operation in progress is executed for the first time. *)
Lemma explained_execute calls clock d Q id x :
  explained calls clock d Q -> calls !! id = Some x -> ob_done x = None ->
  (forall o, o ∈ Q -> lo_id o <> id) ->
  explained calls clock (effect (ob_call x) d).1
    (Q ++ [mkExecution id (ob_call x) (effect (ob_call x) d).2]).
Proof.
  intros [Hn Hc Ht Hd Ho Hr] Hx Hnd Hfresh. split; try done.
  - rewrite map_app. apply NoDup_app. split; [done|]. split; [|apply NoDup_singleton].
    intros i (o & -> & Hin)%list_elem_of_fmap Heq%list_elem_of_singleton. by apply (Hfresh o).
  - intros o [Hin| ->%list_elem_of_singleton]%elem_of_app; [by apply Hc|]. by exists x.
  - intros i y v t Hy Hv. apply elem_of_app. left. by eapply Hd.
  - apply StronglySorted_snoc; [done|]. intros a Ha xa xb v t _ Hxb Hv. simpl in Hxb. congruence.
  - by apply (replays_snoc _ _ _ (mkExecution id (ob_call x) (effect (ob_call x) d).2)).
Qed.

(** An execution of a Get in progress is forgotten. *)
Lemma explained_forget calls clock d Q id x :
  explained calls clock d Q -> calls !! id = Some x -> ob_done x = None ->
  is_get (ob_call x) = true -> explained calls clock d (filter (fun o => lo_id o <> id) Q).
Proof.
  intros [Hn Hc Ht Hd Ho Hr] Hx Hnd Hg.
  assert (forall o, o ∈ filter (fun o => lo_id o <> id) Q -> o ∈ Q) as Hsub.
  { intros o [_ Hin]%list_elem_of_filter. done. }
  split; try done.
  - by apply ids_filter.
  - intros o Hin. apply Hc. auto.
  - intros i y v t Hy Hv. apply list_elem_of_filter. split; [|by eapply Hd]. simpl. congruence.
  - by apply StronglySorted_filter.
  - apply replays_forget; [|done]. intros o (y & Hy & <-)%Hc <-. congruence.
Qed.

(** A call returns what its execution answered. *)
Lemma explained_return calls clock d Q id x v :
  explained calls clock d Q -> calls !! id = Some x -> mkExecution id (ob_call x) v ∈ Q ->
  explained (alter (fun x => mkObserved (ob_client x) (ob_call x) (ob_time x) (Some (v, clock))) id calls)
    clock d Q.
Proof.
  intros [Hn Hc Ht Hd Ho Hr] Hx Hin.
  assert (forall i y, alter (fun x => mkObserved (ob_client x) (ob_call x) (ob_time x) (Some (v, clock)))
      id calls !! i = Some y ->
    exists z, calls !! i = Some z /\ ob_call y = ob_call z /\ ob_time y = ob_time z /\
      (ob_done y = ob_done z \/ i = id /\ ob_done y = Some (v, clock))) as Hback.
  { intros i y. destruct (decide (i = id)) as [->|Hne].
    - rewrite list_lookup_alter_eq, Hx. simpl. intros [= <-]. exists x. simpl. split_and!; auto.
    - rewrite list_lookup_alter_ne by done. intros Hy. exists y. split_and!; auto. }
  split; try done.
  - intros o (y & Hy & Heq)%Hc. destruct (decide (lo_id o = id)) as [He|Hne].
    + rewrite He, list_lookup_alter_eq, Hx. simpl. eexists. split; [done|]. simpl. congruence.
    + rewrite list_lookup_alter_ne by done. by exists y.
  - intros y [i Hi]%list_elem_of_lookup. destruct (Hback i y Hi) as (z & Hz & _ & -> & Hdone).
    apply list_elem_of_lookup_2, Ht in Hz as [Hle Hr']. split; [done|]. intros w t Hw.
    destruct Hdone as [Hdone|[_ Hdone]]; [apply (Hr' w); congruence|].
    rewrite Hdone in Hw. injection Hw as <- <-. lia.
  - intros i y w t Hy Hw. destruct (Hback i y Hy) as (z & Hz & -> & _ & [Hdone|[-> Hdone]]).
    + apply (Hd i z w t Hz). congruence.
    + rewrite Hdone in Hw. injection Hw as <- <-. by replace z with x by congruence.
  - eapply StronglySorted_weaken; [|exact Ho]. intros a b Ha Hb Hab xa xb w t Hxa Hxb Hw.
    destruct (Hback _ _ Hxa) as (za & Hza & _ & -> & _).
    destruct (Hback _ _ Hxb) as (zb & Hzb & _ & _ & [Hdone|[_ Hdone]]).
    + apply (Hab za zb w t Hza Hzb). congruence.
    + rewrite Hdone in Hw. injection Hw as _ <-. by apply list_elem_of_lookup_2, Ht in Hza as [? _].
Qed.
End KVSrvExecutions.
