(* ===== verification/KVSrvSystemInv.v ===== *)
(** What every run of the single-server system keeps: its executions explain the
    store and the answers, every client reaches the server and knows what became
    of its operation, and no handler is abandoned. *)
From S2P Require Import Prelude Persister LabRpc KVSrv RaftHarness KVSrvHarness KVSrvSystem KVSrvExecutions.
From Stdlib Require Import Ascii.
Import RaftHarness Persister LabRpc KVSrv KVSrvHarness KVSrvSystem KVSrvExecutions.

Module KVSrvSystemInv.

Section inv.
Context `{!Gob GetArgs, !Gob GetReply, !Gob PutAppendArgs, !Gob PutAppendReply}.

Abbreviation srv_methods := KVSrvSystem.srv_methods.
Abbreviation Network := (LabRpc.Network (Name := string + Z) (W := KVServer)).

Implicit Types (sy : system) (cl : client) (cfg : config (W := KVServer)) (nt : Network).
Implicit Types (Q : list execution) (o : execution) (calls : list observed) (kv : KVServer).
Implicit Types (m id : nat) (e : string) (c : call).

(** ** The network *)

(** The server is where the harness put it, with its methods. *)
Definition served nt : Prop :=
  servers nt !! inr SERVERID = Some (Some 0%nat) /\
  exists rs, heap nt !! 0%nat = Some rs /\
    services rs !! "KVServer"%string = Some (MakeService "KVServer" srv_methods).

(** The end [e] leads to the server. *)
Definition reaches nt e : Prop :=
  enabled nt !! inl e = Some true /\ connections nt !! inl e = Some (Some (inr SERVERID)).

Lemma reaches_alive nt e : served nt -> reaches nt e -> isServerDead (inl e) (inr SERVERID) 0 nt = false.
Proof. intros [Hs _] [He _]. by apply isServerDead_false. Qed.

(** A request is answered by a failure, or starts a handler of the server. *)
Lemma reaches_begins nt e req d :
  served nt -> reaches nt e -> endname req = inl e ->
  (exists after, process_begin req d nt = Answered after (mkReply false [])) \/
  exists after rel reord, process_begin req d nt = Executing after (inr SERVERID) 0 rel reord.
Proof.
  intros [Hs _] [He Hc] Hn. unfold process_begin, readEndnameInfo. rewrite Hn, He, Hc. simpl. rewrite Hs.
  destruct (negb (reliable nt)); simpl; [destruct (_ <? 100)|]; eauto.
Qed.

(** The handler of a request is the method of the server. *)
Lemma execute_handles nt e c kv :
  served nt -> exists nt' r,
    process_execute 0 (request_of e c) nt kv = Some (nt', (handle c kv).1, r) /\
    ok r = true /\ returned c r = Some (Some (handle c kv).2) /\
    served nt' /\ ends nt' = ends nt /\ enabled nt' = enabled nt /\
    connections nt' = connections nt /\ destroyed nt' = destroyed nt.
Proof.
  intros [Hs (rs & Hh & Hsv)].
  assert (forall A R (GA : Gob A) (GR : Gob R) zero (f : A -> KVServer -> KVServer * R) meth mname a,
    meth = ("KVServer" ++ String "." mname)%string ->
    dotless mname = true ->
    methods (MakeService "KVServer" srv_methods) !! mname = Some (exported zero f) ->
    exists nt' r, process_execute 0 (Call_request (inl e) meth a) nt kv =
      Some (nt', (f a kv).1, r) /\ ok r = true /\ Call_return r = Some (Some (f a kv).2) /\
    served nt' /\ ends nt' = ends nt /\ enabled nt' = enabled nt /\
    connections nt' = connections nt /\ destroyed nt' = destroyed nt) as Hrun.
  { intros A R GA GR zero f meth mname a -> Hdl Hm. unfold process_execute, Call_request. rewrite Hh. simpl.
    rewrite (Server_dispatch_app rs _ _ mname _ (inl e) (enc a) kv Hdl Hsv Hm). simpl.
    rewrite handler_enc. simpl. eexists _, _. split; [done|]. split; [done|].
    split; [apply Call_return_enc|]. split; [|done]. split; [done|].
    exists (mkServer (services rs) (count rs + 1)). simpl. split; [|done].
    apply list_lookup_insert_eq. by eapply lookup_lt_Some. }
  destruct c as [args|args|args]; cbn [request_of returned handle].
  - destruct (Hrun _ _ _ _ (mkGetArgs "" 0 0) Get "KVServer.Get" "Get" args)
      as (nt' & r & Hp & Hok & Hr & Hw); [reflexivity..|].
    exists nt', r. rewrite Hp, Hr. by destruct (Get args kv).
  - destruct (Hrun _ _ _ _ (mkPutAppendArgs "" "" 0 0) Put "KVServer.Put" "Put" args)
      as (nt' & r & Hp & Hok & Hr & Hw); [reflexivity..|].
    exists nt', r. rewrite Hp, Hr. by destruct (Put args kv).
  - destruct (Hrun _ _ _ _ (mkPutAppendArgs "" "" 0 0) Append "KVServer.Append" "Append" args)
      as (nt' & r & Hp & Hok & Hr & Hw); [reflexivity..|].
    exists nt', r. rewrite Hp, Hr. by destruct (Append args kv).
Qed.
(** ** The clients *)

(** The end and the clerk of client [m] are its own, and lead to the server. *)
Definition wired cfg m cl : Prop :=
  cl_ptr cl = m /\ clerks cfg !! m = Some (cl_end cl) /\ reaches (net cfg) (cl_end cl).

(** The operation [id] of client [m] is in progress. *)
Definition own calls m id c : Prop :=
  exists x, calls !! id = Some x /\ ob_client x = m /\ ob_call x = c /\ ob_done x = None.

(** What the server knows of a Put or Append in progress: it was executed and
    its answer is remembered, or it was not executed yet. *)
Definition pending kv Q (ck : Clerk) id c : Prop :=
  match c with
  | CGet _ => True
  | CPut args | CAppend args =>
      pa_ClientId args = clientId ck /\ pa_RequestId args = requestId ck /\
      ((exists v, mkExecution id c v ∈ Q /\
          lastRequest kv !! clientId ck = Some (mkClientRequest (requestId ck) v)) \/
       (forall o, o ∈ Q -> lo_id o <> id) /\ cached args kv = None)
  end.

(** A reply carries the answer of the execution. *)
Definition answered Q id c (r : replyMsg) : Prop :=
  exists v, mkExecution id c v ∈ Q /\ returned c r = Some (Some v).

Definition stage_ok Q id c (st : stage) : Prop :=
  match st with
  | Top | Taken => True
  | Running s p _ _ => s = inr SERVERID /\ p = 0%nat
  | Ran s p _ _ r => s = inr SERVERID /\ p = 0%nat /\ answered Q id c r
  | Replied r => r = mkReply false [] \/ answered Q id c r
  end.

Definition client_ok sy Q m cl : Prop :=
  (forall q, lastRequest (sy_kv sy) !! clientId (cl_ck cl) = Some q -> RequestId q <= requestId (cl_ck cl)) /\
  0 <= requestId (cl_ck cl) <= zlen (sy_calls sy) /\
  match cl_phase cl with
  | Gone => True
  | Idle => wired (sy_cfg sy) m cl
  | Calling id c st =>
      wired (sy_cfg sy) m cl /\ own (sy_calls sy) m id c /\ pending (sy_kv sy) Q (cl_ck cl) id c /\
      stage_ok Q id c st
  end.

(** The harness gave each clerk an end of its own. *)
Record tidy cfg (n : nat) : Prop := {
  td_count : nclerks cfg = n;
  td_ends m e : clerks cfg !! m = Some e -> (m < n)%nat /\ ends (net cfg) !! inl e = Some tt;
  td_inj m m' e : clerks cfg !! m = Some e -> clerks cfg !! m' = Some e -> m = m' }.

Definition identity cl : Z := clientId (cl_ck cl).

Record sy_inv sy Q : Prop := {
  si_explained : explained (sy_calls sy) (sy_clock sy) (data (sy_kv sy)) Q;
  si_served : served (net (sy_cfg sy));
  si_orphans : sy_orphans sy = [];
  si_tidy : tidy (sy_cfg sy) (length (sy_clients sy));
  si_known cid q : lastRequest (sy_kv sy) !! cid = Some q -> cid ∈ map identity (sy_clients sy);
  si_clients m cl : sy_clients sy !! m = Some cl -> client_ok sy Q m cl }.

(** The clerks drew different identifiers, and their counters did not overflow. *)
Definition distinct sy : Prop :=
  NoDup (map identity (sy_clients sy)) /\ zlen (sy_calls sy) < 2 ^ 63.

(** ** What concerns one client leaves the others alone *)

Record untouched m (cid : Z) sy Q sy' Q' : Prop := {
  ut_last cid' : cid' <> cid -> lastRequest (sy_kv sy') !! cid' = lastRequest (sy_kv sy) !! cid';
  ut_calls id x : sy_calls sy !! id = Some x -> ob_client x <> m -> sy_calls sy' !! id = Some x;
  ut_length : zlen (sy_calls sy) <= zlen (sy_calls sy');
  ut_lin id x o : sy_calls sy !! id = Some x -> ob_client x <> m -> lo_id o = id -> o ∈ Q' <-> o ∈ Q }.

Lemma untouched_refl m cid sy sy' Q :
  sy_kv sy' = sy_kv sy -> sy_calls sy' = sy_calls sy -> untouched m cid sy Q sy' Q.
Proof. intros Hk Hc. split; rewrite ?Hk, ?Hc; done. Qed.

Lemma client_ok_untouched m cid sy Q sy' Q' j cl :
  untouched m cid sy Q sy' Q' -> j <> m -> identity cl <> cid ->
  (wired (sy_cfg sy) j cl -> wired (sy_cfg sy') j cl) ->
  client_ok sy Q j cl -> client_ok sy' Q' j cl.
Proof.
  intros [Hl Hc Hn Hq] Hj Hid Hw (Hreq & Hr & Hp). unfold identity in Hid.
  split; [by rewrite Hl|]. split; [lia|]. destruct (cl_phase cl) as [|id c st|]; [auto| |done].
  destruct Hp as (Hwi & (x & Hx & Hxm & Hxc & Hxd) & Hpe & Hst). split; [auto|].
  assert (ob_client x <> m) as Hne by congruence.
  pose proof (fun o => Hq id x o Hx Hne) as Hin.
  split; [exists x; split; [by apply Hc|done]|].
  assert (forall a, pa_ClientId a = clientId (cl_ck cl) -> cached a (sy_kv sy') = cached a (sy_kv sy)) as Hca.
  { intros a Ha. unfold cached. by rewrite Ha, Hl. }
  assert (forall r, answered Q id c r -> answered Q' id c r) as Han.
  { intros r (v & Hv & ?). exists v. split; [|done]. by apply Hin. }
  split.
  - destruct c as [a|a|a]; [done| |]; destruct Hpe as (Hac & Har & Hpe);
      (split; [done|split; [done|]]);
      (destruct Hpe as [(v & Hv & Hlv)|[Hf Hcv]];
       [left; exists v; split; [by apply Hin|by rewrite Hl]
       |right; split; [intros o Ho He; apply (Hf o); [by apply Hin|done]|by rewrite Hca]]).
  - destruct st; simpl in *; naive_solver.
Qed.
(** The configuration changed in its statistics only. *)
Definition same_wiring cfg cfg' : Prop :=
  clerks cfg' = clerks cfg /\ nclerks cfg' = nclerks cfg /\ ends (net cfg') = ends (net cfg) /\
  enabled (net cfg') = enabled (net cfg) /\ connections (net cfg') = connections (net cfg) /\
  (served (net cfg) -> served (net cfg')).

Lemma same_wiring_wired cfg cfg' m cl : same_wiring cfg cfg' -> wired cfg m cl -> wired cfg' m cl.
Proof. intros (Hc & _ & _ & He & Hn & _). unfold wired, reaches. by rewrite Hc, He, Hn. Qed.

Lemma same_wiring_tidy cfg cfg' n : same_wiring cfg cfg' -> tidy cfg n -> tidy cfg' n.
Proof. intros (Hc & Hn & He & _) [Ht Hd Hi]. split; rewrite ?Hc, ?Hn, ?He; done. Qed.

(** Two clients have two identifiers. *)
Lemma identity_ne sy j m cl cl' :
  distinct sy -> sy_clients sy !! j = Some cl -> sy_clients sy !! m = Some cl' -> j <> m ->
  identity cl <> identity cl'.
Proof.
  intros [Hn _] Hj Hm Hne Heq. apply Hne.
  apply (NoDup_lookup _ _ _ (identity cl) Hn); change (map ?f ?l) with (f <$> l);
    rewrite list_lookup_fmap; [by rewrite Hj|by rewrite Hm, Heq].
Qed.

(** A step of client [m]. *)
Lemma inv_moves sy Q sy' Q' m cl cl' :
  sy_inv sy Q -> distinct sy -> sy_clients sy !! m = Some cl ->
  sy_clients sy' = <[m := cl']> (sy_clients sy) -> identity cl' = identity cl ->
  same_wiring (sy_cfg sy) (sy_cfg sy') -> sy_orphans sy' = [] ->
  explained (sy_calls sy') (sy_clock sy') (data (sy_kv sy')) Q' ->
  untouched m (identity cl) sy Q sy' Q' -> client_ok sy' Q' m cl' -> sy_inv sy' Q'.
Proof.
  intros [_ Hs _ Ht Hk Hcl] Hdi Hm Hcs Hid Hw Ho Hex Hun Hok.
  pose proof (lookup_lt_Some _ _ _ Hm) as Hlt.
  assert (map identity (sy_clients sy') = map identity (sy_clients sy)) as Hids.
  { rewrite Hcs. change (map identity ?l) with (identity <$> l). rewrite list_fmap_insert, Hid.
    apply list_insert_id. by rewrite list_lookup_fmap, Hm. }
  split; try done.
  - by apply Hw.
  - rewrite Hcs, length_insert. by eapply same_wiring_tidy.
  - intros cid q Hq. rewrite Hids. destruct (decide (cid = identity cl)) as [->|Hne].
    + apply list_elem_of_fmap_2. by eapply list_elem_of_lookup_2.
    + rewrite (ut_last _ _ _ _ _ _ Hun) in Hq by done. by eapply Hk.
  - intros j cl0. rewrite Hcs. destruct (decide (j = m)) as [->|Hne].
    + rewrite list_lookup_insert_eq by done. by intros [= <-].
    + rewrite list_lookup_insert_ne by done. intros Hj.
      eapply client_ok_untouched; [done|done|by eapply identity_ne| |by apply Hcl].
      by apply same_wiring_wired.
Qed.

(** What the handler of an operation in progress does: it executes it, or, for a
    Put or Append it remembers, repeats the answer; a Get is executed again. *)
Record handled sy Q ck id c Q' : Prop := {
  hd_explained : explained (sy_calls sy) (sy_clock sy) (data (handle c (sy_kv sy)).1) Q';
  hd_answer : mkExecution id c (handle c (sy_kv sy)).2 ∈ Q';
  hd_pending : pending (handle c (sy_kv sy)).1 Q' ck id c;
  hd_others o : lo_id o <> id -> o ∈ Q' <-> o ∈ Q;
  hd_last cid : cid <> clientId ck ->
    lastRequest (handle c (sy_kv sy)).1 !! cid = lastRequest (sy_kv sy) !! cid;
  hd_number q : lastRequest (handle c (sy_kv sy)).1 !! clientId ck = Some q ->
    lastRequest (sy_kv sy) !! clientId ck = Some q \/ RequestId q = requestId ck }.

Lemma get_handled sy Q m ck id a :
  explained (sy_calls sy) (sy_clock sy) (data (sy_kv sy)) Q -> own (sy_calls sy) m id (CGet a) ->
  exists Q', handled sy Q ck id (CGet a) Q'.
Proof.
  intros Hex (x & Hx & _ & Hxc & Hxd).
  destruct (handle_effect (CGet a) (sy_kv sy) I) as [Hdt Hv].
  pose proof (explained_forget _ _ _ _ _ _ Hex Hx Hxd) as Hf. rewrite Hxc in Hf. specialize (Hf eq_refl).
  eapply explained_execute in Hf; [|exact Hx|done|by intros o [? _]%list_elem_of_filter].
  rewrite Hxc, <- Hdt, <- Hv in Hf. eexists. split; [exact Hf|set_solver|done| |by intros|by left].
  intros o Hne. rewrite elem_of_app, list_elem_of_singleton, list_elem_of_filter. naive_solver.
Qed.

Lemma write_handled sy Q m ck id c a :
  explained (sy_calls sy) (sy_clock sy) (data (sy_kv sy)) Q -> own (sy_calls sy) m id c ->
  executed_by c a -> pending (sy_kv sy) Q ck id c -> exists Q', handled sy Q ck id c Q'.
Proof.
  intros Hex (x & Hx & _ & Hxc & Hxd) Hby Hpe.
  assert (pa_ClientId a = clientId ck /\ pa_RequestId a = requestId ck /\
      ((exists v, mkExecution id c v ∈ Q /\
          lastRequest (sy_kv sy) !! clientId ck = Some (mkClientRequest (requestId ck) v)) \/
       (forall o, o ∈ Q -> lo_id o <> id) /\ cached a (sy_kv sy) = None)) as (Hac & Har & Hcase)
    by (by destruct Hby as [-> | ->]).
  destruct Hcase as [(v & Hv & Hl)|[Hf Hc]].
  - assert (handle c (sy_kv sy) = (sy_kv sy, v)) as Hh.
    { apply (handle_cached c a); [done|]. by rewrite Hac, Har. }
    exists Q. by split; rewrite ?Hh; simpl; try done; left.
  - destruct (handle_effect c (sy_kv sy)) as [Hdt Hv]; [by destruct Hby as [-> | ->]|].
    destruct (handle_remembers c a (sy_kv sy) Hby) as (resp & Hl & Hresp). rewrite Hac, Har in Hl.
    pose proof (explained_execute _ _ _ _ _ _ Hex Hx Hxd Hf) as Hex'. rewrite Hxc, <- Hdt, <- Hv in Hex'.
    eexists. split; [exact Hex'|set_solver| | | |].
    + assert (exists v, mkExecution id c v ∈ Q ++ [mkExecution id c (handle c (sy_kv sy)).2] /\
        lastRequest (handle c (sy_kv sy)).1 !! clientId ck = Some (mkClientRequest (requestId ck) v)) as Hr.
      { exists resp. rewrite Hresp in *. split; [set_solver|done]. }
      destruct Hby as [-> | ->]; simpl in *; auto.
    + intros o Hne. rewrite elem_of_app, list_elem_of_singleton. naive_solver.
    + intros cid Hne. apply handle_other. destruct Hby as [-> | ->]; simpl; congruence.
    + rewrite Hl. intros q [= <-]. by right.
Qed.
(** ** The steps of a call *)

Lemma si_client sy Q m cl : sy_inv sy Q -> sy_clients sy !! m = Some cl -> client_ok sy Q m cl.
Proof. intros H. apply (si_clients _ _ H). Qed.

(** Only the stage of the call changes, and perhaps the statistics. *)
Lemma inv_stage sy Q m cl id c st st' nt :
  sy_inv sy Q -> distinct sy -> sy_clients sy !! m = Some cl -> cl_phase cl = Calling id c st ->
  same_wiring (sy_cfg sy) (set_net nt (sy_cfg sy)) -> stage_ok Q id c st' ->
  sy_inv (set_phase m (Calling id c st') cl (set_net_of nt sy)) Q.
Proof.
  intros Hinv Hdi Hm Hp Hw Hst. destruct (si_client _ _ _ _ Hinv Hm) as (Hreq & Hr & Hc).
  rewrite Hp in Hc. destruct Hc as (Hwi & Hown & Hpe & _).
  eapply inv_moves; [exact Hinv|done|exact Hm|done|done|exact Hw|apply Hinv|apply Hinv| |].
  - by apply untouched_refl.
  - split; [done|]. split; [done|]. simpl. split; [|done]. by eapply same_wiring_wired.
Qed.

Lemma same_wiring_refl cfg : same_wiring cfg cfg.
Proof. done. Qed.

Lemma set_net_same cfg : set_net (net cfg) cfg = cfg.
Proof. by destruct cfg. Qed.

Lemma set_net_of_same sy : set_net_of (net (sy_cfg sy)) sy = sy.
Proof. unfold set_net_of. rewrite set_net_same. by destruct sy. Qed.

Lemma inv_stage_only sy Q m cl id c st st' :
  sy_inv sy Q -> distinct sy -> sy_clients sy !! m = Some cl -> cl_phase cl = Calling id c st ->
  stage_ok Q id c st' -> sy_inv (set_phase m (Calling id c st') cl sy) Q.
Proof.
  intros Hinv Hdi Hm Hp Hst. rewrite <- (set_net_of_same sy) at 1.
  by eapply inv_stage.
Qed.

Lemma inv_process sy Q m cl id c st d :
  sy_inv sy Q -> distinct sy -> sy_clients sy !! m = Some cl -> cl_phase cl = Calling id c st ->
  sy_inv (process m d id c cl sy) Q.
Proof.
  intros Hinv Hdi Hm Hp. eapply inv_stage_only; try done.
  destruct (si_client _ _ _ _ Hinv Hm) as (_ & _ & Hc). rewrite Hp in Hc. destruct Hc as ((_ & _ & Hre) & _).
  destruct (reaches_begins (net (sy_cfg sy)) (cl_end cl) (request_of (cl_end cl) c) d) as
    [(t & ->)|(t & rel & reord & ->)]; [apply Hinv|done|by destruct c|by left|done].
Qed.

(** What happened to the reply. *)
Lemma process_end_some e s p rel reord r d nt :
  (process_end (inl e) s p rel reord (Some r) d nt).2 = mkReply false [] \/
  (process_end (inl e) s p rel reord (Some r) d nt).2 = r.
Proof. unfold process_end. repeat case_match; auto. Qed.

Lemma inv_settle sy Q m cl id c s p rel reord r d :
  sy_inv sy Q -> distinct sy -> sy_clients sy !! m = Some cl ->
  cl_phase cl = Calling id c (Ran s p rel reord r) -> sy_inv (settle m s p rel reord r d id c cl sy) Q.
Proof.
  intros Hinv Hdi Hm Hp. eapply inv_stage_only; try done.
  destruct (si_client _ _ _ _ Hinv Hm) as (_ & _ & Hc). rewrite Hp in Hc.
  destruct Hc as (_ & _ & _ & _ & _ & Han).
  destruct (process_end_some (cl_end cl) s p rel reord r d (net (sy_cfg sy))) as [-> | ->];
    [by left|by right].
Qed.

(** Nobody stops waiting for a handler. *)
Lemma look_waits sy Q m cl id c s p rel reord d :
  sy_inv sy Q -> sy_clients sy !! m = Some cl -> cl_phase cl = Calling id c (Running s p rel reord) ->
  look m s p rel reord d id c cl sy = sy.
Proof.
  intros Hinv Hm Hp. destruct (si_client _ _ _ _ Hinv Hm) as (_ & _ & Hc). rewrite Hp in Hc.
  destruct Hc as ((_ & _ & Hre) & _ & _ & -> & ->). unfold look.
  by rewrite (reaches_alive _ _ (si_served _ _ Hinv) Hre).
Qed.

Lemma inv_execute sy Q m cl id c s p rel reord sy' :
  sy_inv sy Q -> distinct sy -> sy_clients sy !! m = Some cl ->
  cl_phase cl = Calling id c (Running s p rel reord) ->
  execute m s p rel reord id c cl sy = Done sy' -> exists Q', sy_inv sy' Q'.
Proof.
  intros Hinv Hdi Hm Hp Hx. destruct (si_client _ _ _ _ Hinv Hm) as (Hreq & Hr & Hc).
  rewrite Hp in Hc. destruct Hc as (Hwi & Hown & Hpe & -> & ->).
  destruct (execute_handles (net (sy_cfg sy)) (cl_end cl) c (sy_kv sy) (si_served _ _ Hinv))
    as (nt' & r & Hrun & Hok & Hret & Hse & Hends & Hen & Hco & _).
  unfold execute in Hx. rewrite Hrun in Hx. simpl in Hx. injection Hx as <-.
  assert (exists Q', handled sy Q (cl_ck cl) id c Q') as [Q' [Hex Hv Hpe' Hoth Hl Hnum]].
  { destruct c as [a|a|a]; [by eapply get_handled, Hown; apply Hinv| |];
      (eapply (write_handled sy Q m _ _ _ a); [apply Hinv|done|(by left) || (by right)|done]). }
  assert (same_wiring (sy_cfg sy) (set_net nt' (sy_cfg sy))) as Hw by (unfold same_wiring; by split_and!).
  exists Q'. eapply inv_moves; [exact Hinv|done|exact Hm|done|done|exact Hw|apply Hinv|done| |].
  - split; simpl; try done. intros id' x o Hx Hxm <-. apply Hoth. intros Heq.
    destruct Hown as (y & Hy & ? & _). rewrite Heq in Hx. congruence.
  - split; [|split; [done|]]; simpl.
    + intros q Hq. destruct (Hnum q Hq) as [Hq'| ->]; [by apply Hreq|lia].
    + split; [by eapply same_wiring_wired|]. split; [done|]. split; [done|]. split; [done|]. split; [done|].
      by eexists.
Qed.
Lemma inv_send sy Q m cl id c gone :
  sy_inv sy Q -> distinct sy -> sy_clients sy !! m = Some cl -> cl_phase cl = Calling id c Top ->
  sy_inv (send m gone id c cl sy) Q.
Proof.
  intros Hinv Hdi Hm Hp. unfold send, Call_send.
  destruct (destroyed _ && gone); [done|]. by eapply inv_stage.
Qed.

Lemma returned_false c : returned c (mkReply false []) = Some None.
Proof. by destruct c. Qed.

(** The operation of client [m] returns [v]. *)
Lemma inv_complete sy Q m cl id c st v :
  sy_inv sy Q -> distinct sy -> sy_clients sy !! m = Some cl -> cl_phase cl = Calling id c st ->
  mkExecution id c v ∈ Q -> sy_inv (complete m id v cl sy) Q.
Proof.
  intros Hinv Hdi Hm Hp Hv. destruct (si_client _ _ _ _ Hinv Hm) as (Hreq & Hr & Hc).
  rewrite Hp in Hc. destruct Hc as (Hwi & (x & Hx & Hxm & Hxc & _) & _).
  eapply inv_moves; [exact Hinv|done|exact Hm|done|done|done|apply Hinv| | |].
  - simpl. eapply explained_return; [apply Hinv|exact Hx|by rewrite Hxc].
  - split; simpl; try done; [|unfold zlen; by rewrite length_alter].
    intros id' y Hy Hym. rewrite list_lookup_alter_ne; [done|]. intros ->. congruence.
  - split; [done|]. simpl. unfold zlen in *. by rewrite length_alter.
Qed.

Lemma inv_receive sy Q m cl id c r sy' :
  sy_inv sy Q -> distinct sy -> sy_clients sy !! m = Some cl -> cl_phase cl = Calling id c (Replied r) ->
  receive m r id c cl sy = Done sy' -> sy_inv sy' Q.
Proof.
  intros Hinv Hdi Hm Hp Hx. destruct (si_client _ _ _ _ Hinv Hm) as (_ & _ & Hc).
  rewrite Hp in Hc. destruct Hc as (_ & _ & _ & Hst). unfold receive in Hx.
  assert (same_wiring (sy_cfg sy) (set_net (send_reply r (net (sy_cfg sy))) (sy_cfg sy))) as Hw
    by (unfold send_reply; by destruct (ok r)).
  destruct Hst as [->|(v & Hv & Hret)].
  - rewrite returned_false in Hx. simpl in Hx. injection Hx as <-. by eapply inv_stage.
  - rewrite Hret in Hx. simpl in Hx. injection Hx as <-.
    eapply (inv_complete (set_net_of (send_reply r (net (sy_cfg sy))) sy)); [|done..].
    assert (sy_inv (set_phase m (cl_phase cl) cl (set_net_of (send_reply r (net (sy_cfg sy))) sy)) Q) as Hi.
    { rewrite Hp. eapply inv_stage; [done..|]. right. by exists v. }
    unfold set_phase, set_client in Hi. destruct cl as [e p ck ph]. simpl in Hi.
    by rewrite list_insert_id in Hi.
Qed.

(** ** The steps of idle clients *)

Lemma cached_later kv a ck :
  (forall q, lastRequest kv !! clientId ck = Some q -> RequestId q <= requestId ck) ->
  pa_ClientId a = clientId ck -> requestId ck < pa_RequestId a -> cached a kv = None.
Proof.
  intros Hq Hc Hr. unfold cached. rewrite Hc. destruct (lastRequest kv !! clientId ck) as [q|] eqn:E; [|done].
  destruct (RequestId q =? pa_RequestId a) eqn:E2; bsimp; [|done]. pose proof (Hq q eq_refl). lia.
Qed.

(** The client and the number of a Put or Append. *)
Definition stamped (ck : Clerk) c : Prop :=
  match c with
  | CGet _ => True
  | CPut a | CAppend a => pa_ClientId a = clientId ck /\ pa_RequestId a = requestId ck
  end.

Lemma inv_begin sy Q m cl c :
  sy_inv sy Q -> distinct (begin m (next_id (cl_ck cl)) c cl sy) -> distinct sy ->
  sy_clients sy !! m = Some cl -> cl_phase cl = Idle -> stamped (next_id (cl_ck cl)) c ->
  sy_inv (begin m (next_id (cl_ck cl)) c cl sy) Q.
Proof.
  intros Hinv [_ Hmax] Hdi Hm Hp Hc. destruct (si_client _ _ _ _ Hinv Hm) as (Hreq & Hr & Hwi).
  rewrite Hp in Hwi. simpl in Hmax. rewrite zlen_app in Hmax. unfold zlen at 2 in Hmax. simpl in Hmax.
  assert (requestId (next_id (cl_ck cl)) = requestId (cl_ck cl) + 1) as Hnext.
  { simpl. apply wrap64_id. unfold int64_range. lia. }
  assert (forall o, o ∈ Q -> lo_id o <> length (sy_calls sy)) as Hfresh.
  { intros o (x & Hx & _)%(ex_calls _ _ _ _ (si_explained _ _ Hinv)) Heq.
    apply lookup_lt_Some in Hx. lia. }
  eapply inv_moves; [exact Hinv|done|exact Hm|done|done|done|apply Hinv| | |].
  - apply explained_begin, Hinv.
  - split; simpl; try done; [|rewrite zlen_app; unfold zlen; simpl; lia].
    intros id x Hx _. by apply lookup_app_l_Some.
  - split; [|split]; cbn [cl_ck cl_phase begin set_client set_clients set_calls sy_calls sy_kv sy_cfg].
    + rewrite Hnext. intros q Hq%Hreq. lia.
    + rewrite Hnext, zlen_app. unfold zlen at 2. simpl. lia.
    + split; [done|]. split; [eexists; by rewrite list_lookup_middle|]. split; [|done].
      destruct c as [a|a|a]; [done| |]; destruct Hc as [Hca Hcr]; (split; [done|split; [done|]]); right;
        (split; [done|]); eapply cached_later; try done; lia.
Qed.
(** The ends of the other clients are not touched. *)
Lemma wired_ne cfg cfg' m e j cl :
  clerks cfg' !! j = clerks cfg !! j ->
  (forall e', e' <> e -> enabled (net cfg') !! inl e' = enabled (net cfg) !! inl e' /\
     connections (net cfg') !! inl e' = connections (net cfg) !! inl e') ->
  clerks cfg !! m = Some e \/ clerks cfg !! m = None /\ ends (net cfg) !! inl e = None ->
  forall n, tidy cfg n -> j <> m -> wired cfg j cl -> wired cfg' j cl.
Proof.
  intros Hc Hne Hm n [_ He Hinj] Hj (Hp & Hcl & Hen & Hco). split; [done|]. rewrite Hc. split; [done|].
  assert (cl_end cl <> e) as Hd.
  { intros Heq. rewrite Heq in Hcl. destruct Hm as [Hm|[_ Hm]].
    - apply Hj. by eapply Hinj.
    - destruct (He _ _ Hcl) as [_ ?]. congruence. }
  unfold reaches. by destruct (Hne _ Hd) as [-> ->].
Qed.

Lemma inv_leave sy Q m cl sy' :
  sy_inv sy Q -> distinct sy -> sy_clients sy !! m = Some cl -> cl_phase cl = Idle ->
  leave m cl sy = Done sy' -> sy_inv sy' Q.
Proof.
  intros Hinv Hdi Hm Hp Hx. destruct (si_client _ _ _ _ Hinv Hm) as (Hreq & Hr & Hwi).
  rewrite Hp in Hwi. destruct Hwi as (Hptr & Hck & _). pose proof (si_tidy _ _ Hinv) as Htd.
  unfold leave, deleteClient, DeleteEnd, name_of in Hx. rewrite Hptr, Hck in Hx. simpl in Hx.
  destruct (td_ends _ _ Htd _ _ Hck) as [Hlt Hend]. rewrite Hend in Hx. simpl in Hx. injection Hx as <-.
  destruct Hinv as [Hex Hs Ho _ Hk Hcl]. split; try done; simpl.
  - rewrite length_insert. destruct Htd as [Ht He Hinj]. split; simpl; [done| |].
    + intros j e. rewrite lookup_delete_Some. intros [Hne Hj]. destruct (He _ _ Hj) as [? Hje].
      split; [done|]. rewrite lookup_delete_ne; [done|]. intros [= <-]. apply Hne. by eapply Hinj.
    + intros j j' e. rewrite !lookup_delete_Some. intros [_ ?] [_ ?]. by eapply Hinj.
  - intros cid q Hq. change (map ?f ?l) with (f <$> l). rewrite list_fmap_insert. simpl.
    rewrite list_insert_id; [by eapply Hk|]. by rewrite list_lookup_fmap, Hm.
  - intros j cl0. destruct (decide (j = m)) as [->|Hne].
    + rewrite list_lookup_insert_eq by (by eapply lookup_lt_Some). by intros [= <-].
    + rewrite list_lookup_insert_ne by done. intros Hj.
      eapply (client_ok_untouched m (identity cl) sy Q);
        [by apply untouched_refl|done|by eapply identity_ne| |by apply Hcl].
      eapply (wired_ne _ _ m (cl_end cl)); [|intros e' He'|by left|done|done].
      * simpl. by rewrite lookup_delete_ne.
      * simpl. by rewrite !lookup_delete_ne by congruence.
Qed.

Lemma inv_new_client sy Q name nrand sy' :
  sy_inv sy Q -> distinct sy' -> new_client name nrand sy = Done sy' -> sy_inv sy' Q.
Proof.
  intros Hinv [Hnd _] Hx. unfold new_client, makeClient, MakeEnd in Hx.
  destruct (ends (net (sy_cfg sy)) !! inl name) eqn:Hnew; [done|]. simpl in Hx. injection Hx as <-.
  destruct Hinv as [Hex Hs Ho Htd Hk Hcl]. pose proof (td_count _ _ Htd) as Hcount.
  assert (clerks (sy_cfg sy) !! nclerks (sy_cfg sy) = None) as Hfree.
  { destruct (clerks (sy_cfg sy) !! nclerks (sy_cfg sy)) eqn:E; [|done].
    apply (td_ends _ _ Htd) in E as [? _]. lia. }
  unfold ConnectClientUnlocked, name_of in *. simpl in *. rewrite lookup_insert_eq in *. simpl in *.
  split; try done; simpl.
  - rewrite length_app. simpl. destruct Htd as [Ht He Hinj]. split; simpl; [lia| |].
    + intros j e. rewrite lookup_insert_Some. intros [[<- <-]|[Hne Hj]].
      * rewrite lookup_insert_eq. split; [lia|done].
      * destruct (He _ _ Hj) as [? Hje]. split; [lia|]. rewrite lookup_insert_ne; [done|]. congruence.
    + intros j j' e. rewrite !lookup_insert_Some.
      intros [[<- <-]|[_ Hj]] [[<- Heq]|[_ Hj']]; [done| | |by eapply Hinj].
      * destruct (He _ _ Hj') as [_ ?]. congruence.
      * subst e. destruct (He _ _ Hj) as [_ ?]. congruence.
  - intros cid q Hq%Hk. rewrite map_app. apply elem_of_app. by left.
  - intros j cl0 [Hj|[Hge Hj]]%lookup_app_Some.
    + pose proof (lookup_lt_Some _ _ _ Hj). assert (j <> nclerks (sy_cfg sy)) as Hne by lia.
      eapply (client_ok_untouched (nclerks (sy_cfg sy)) nrand sy Q);
        [by apply untouched_refl|done| | |by apply Hcl].
      * rewrite map_app in Hnd. apply NoDup_app in Hnd as (_ & Hnd & _). intros Heq.
        apply (Hnd (identity cl0)); [apply list_elem_of_fmap_2; by eapply list_elem_of_lookup_2|].
        rewrite Heq. simpl. set_solver.
      * eapply (wired_ne _ _ (nclerks (sy_cfg sy)) name); [|intros e' He'|by right|done|done].
        -- simpl. by rewrite lookup_insert_ne.
        -- simpl. by rewrite !lookup_insert_ne by congruence.
    + apply list_lookup_singleton_Some in Hj as [Hj <-]. split; [|split]; simpl.
      * intros q Hq%Hk. exfalso. rewrite map_app in Hnd. apply NoDup_app in Hnd as (_ & Hnd & _).
        apply (Hnd nrand Hq). simpl. set_solver.
      * unfold zlen. lia.
      * split; simpl; [lia|]. split; [|split; simpl; rewrite !lookup_insert_eq; done].
        rewrite <- lookup_insert_eq with (m := clerks (sy_cfg sy)) (i := nclerks (sy_cfg sy)) (x := name).
        f_equal. lia.
Qed.

Lemma inv_cleanup sy Q failed now cfg :
  sy_inv sy Q -> cleanup failed now (sy_cfg sy) = Done cfg -> sy_inv (set_cfg cfg sy) Q.
Proof.
  intros [Hex Hs Ho Htd Hk Hcl] Hx. unfold cleanup, Cleanup in Hx.
  destruct (destroyed (net (sy_cfg sy))); [done|]. simpl in Hx.
  destruct (checkTimeout _ _ _) as [u|]; [|done]. simpl in Hx. injection Hx as <-.
  split; try done. simpl. by destruct Htd.
Qed.
(** ** Runs *)

(** Identifiers and calls are only added. *)
Definition grows sy sy' : Prop :=
  (exists l, map identity (sy_clients sy') = map identity (sy_clients sy) ++ l) /\
  zlen (sy_calls sy) <= zlen (sy_calls sy').

#[local] Instance grows_trans : Transitive grows.
Proof.
  intros a b c [[l Hl] Hn] [[l' Hl'] Hn']. split; [|lia]. exists (l ++ l'). by rewrite Hl', Hl, app_assoc.
Qed.

Lemma grows_same sy sy' :
  map identity (sy_clients sy') = map identity (sy_clients sy) ->
  zlen (sy_calls sy) <= zlen (sy_calls sy') -> grows sy sy'.
Proof. intros Hid Hn. split; [|done]. exists []. by rewrite Hid, app_nil_r. Qed.

Lemma distinct_grows sy sy' : grows sy sy' -> distinct sy' -> distinct sy.
Proof. intros [[l Hl] Hn] [Hnd Hm]. split; [|lia]. rewrite Hl in Hnd. by apply NoDup_app in Hnd as [? _]. Qed.

(** Identifiers and calls are the same. *)
Definition level sy sy' : Prop :=
  map identity (sy_clients sy') = map identity (sy_clients sy) /\ zlen (sy_calls sy') = zlen (sy_calls sy).

Lemma level_grows sy sy' : level sy sy' -> grows sy sy'.
Proof. intros [Hid Hn]. apply grows_same; [done|lia]. Qed.

Lemma level_distinct sy sy' : level sy sy' -> distinct sy -> distinct sy'.
Proof. intros [Hid Hn] [Hnd Hm]. split; [by rewrite Hid|lia]. Qed.

Lemma set_client_identity m cl cl' sy sy0 :
  sy_clients sy !! m = Some cl -> identity cl' = identity cl -> sy_clients sy0 = sy_clients sy ->
  map identity (sy_clients (set_client m cl' sy0)) = map identity (sy_clients sy).
Proof.
  intros Hm Hid Hc. simpl. rewrite Hc.
  change (map identity ?l) with (identity <$> l). rewrite list_fmap_insert, Hid.
  apply list_insert_id. by rewrite list_lookup_fmap, Hm.
Qed.

Lemma set_phase_level m cl p sy sy0 :
  sy_clients sy !! m = Some cl -> sy_clients sy0 = sy_clients sy ->
  zlen (sy_calls sy0) = zlen (sy_calls sy) -> level sy (set_phase m p cl sy0).
Proof. intros Hm Hc Hn. split; [by eapply set_client_identity|done]. Qed.

Lemma call_step_level a m id c st cl sy sy' :
  sy_clients sy !! m = Some cl -> call_step a m id c st cl sy = Done sy' -> level sy sy'.
Proof.
  intros Hm Hx. assert (level sy sy) as Hrefl by done.
  destruct a; simpl in Hx; try (by injection Hx as <-);
    destruct st; try (injection Hx as <-); try done.
  - unfold send. destruct (Call_send _ _ _); [by eapply set_phase_level|done].
  - by eapply set_phase_level.
  - unfold execute, must in Hx. destruct (process_execute _ _ _ _) as [[[nt kv] r]|]; simpl in Hx; [|done].
    injection Hx as <-. by eapply set_phase_level.
  - unfold look. destruct (isServerDead _ _ _ _); [by eapply set_phase_level|done].
  - by eapply set_phase_level.
  - unfold receive, must in Hx. destruct (returned c r) as [[v|]|]; simpl in Hx; [..|done];
      injection Hx as <-; eapply set_phase_level; try done. simpl. unfold zlen. by rewrite length_alter.
Qed.

Lemma idle_step_grows a m cl sy sy' :
  sy_clients sy !! m = Some cl -> idle_step a m cl sy = Done sy' -> grows sy sy'.
Proof.
  intros Hm Hx. assert (grows sy sy) as Hrefl by (by apply grows_same).
  assert (forall ck c, clientId ck = identity cl -> grows sy (begin m ck c cl sy)) as Hb.
  { intros ck c Hck. apply grows_same; [by eapply set_client_identity|]. simpl. rewrite zlen_app. unfold zlen. lia. }
  destruct a; simpl in Hx; try (by injection Hx as <-); try (injection Hx as <-; by apply Hb).
  unfold leave in Hx. destruct (deleteClient _ _); simpl in Hx; [|done].
  injection Hx as <-. by eapply level_grows, set_phase_level.
Qed.

Lemma client_step_grows a m sy sy' : client_step a m sy = Done sy' -> grows sy sy'.
Proof.
  unfold client_step. destruct (sy_clients sy !! m) as [cl|] eqn:Hm; [|by intros [= <-]; apply grows_same].
  destruct (cl_phase cl); [by apply idle_step_grows| |by intros [= <-]; apply grows_same].
  intros Hx. by eapply level_grows, call_step_level.
Qed.

Lemma step_grows sy a sy' : sy_step sy a = Done sy' -> grows sy sy'.
Proof.
  destruct a; simpl; try apply client_step_grows.
  - intros [= <-]. by apply grows_same.
  - unfold new_client. destruct (makeClient _ _ _) as [[[cfg ptr] ck]|]; simpl; [|done]. intros [= <-].
    split; [|simpl; lia]. simpl. rewrite map_app. by eexists.
  - unfold orphan. destruct (sy_orphans sy !! i) as [[p req]|]; [|by intros [= <-]; apply grows_same].
    destruct (process_execute _ _ _ _) as [[[nt kv] r]|]; simpl; [|done]. intros [= <-]. by apply grows_same.
  - destruct (cleanup _ _ _); simpl; [|done]. intros [= <-]. by apply grows_same.
Qed.

(** Every step keeps the invariant. *)
Lemma inv_call_step sy Q a m cl id c st sy' :
  sy_inv sy Q -> distinct sy -> sy_clients sy !! m = Some cl -> cl_phase cl = Calling id c st ->
  call_step a m id c st cl sy = Done sy' -> exists Q', sy_inv sy' Q'.
Proof.
  intros Hinv Hdi Hm Hp Hx. destruct a; simpl in Hx; try (injection Hx as <-; by exists Q);
    destruct st; try (injection Hx as <-; try by exists Q).
  - exists Q. by apply inv_send.
  - exists Q. by eapply inv_process.
  - by eapply inv_execute.
  - exists Q. by erewrite look_waits.
  - exists Q. by eapply inv_settle.
  - exists Q. by eapply inv_receive.
Qed.

Lemma inv_idle_step sy Q a m cl sy' :
  sy_inv sy Q -> distinct sy' -> distinct sy -> sy_clients sy !! m = Some cl -> cl_phase cl = Idle ->
  idle_step a m cl sy = Done sy' -> sy_inv sy' Q.
Proof.
  intros Hinv Hdi' Hdi Hm Hp Hx. destruct a; simpl in Hx; try (by injection Hx as <-);
    [by eapply inv_leave|..]; injection Hx as <-; by apply inv_begin.
Qed.

Lemma inv_step sy Q a sy' :
  sy_inv sy Q -> distinct sy' -> sy_step sy a = Done sy' -> exists Q', sy_inv sy' Q'.
Proof.
  intros Hinv Hdi' Hx. pose proof (distinct_grows _ _ (step_grows _ _ _ Hx) Hdi') as Hdi.
  assert (forall m, client_step a m sy = Done sy' -> exists Q', sy_inv sy' Q') as Hclient.
  { intros m. unfold client_step. destruct (sy_clients sy !! m) as [cl|] eqn:Hm; [|by intros [= <-]; exists Q].
    destruct (cl_phase cl) as [|id c st|] eqn:Hp; [|by eapply inv_call_step|by intros [= <-]; exists Q].
    intros Hi. exists Q. by eapply inv_idle_step. }
  destruct a; simpl in Hx; try (by eapply Hclient); exists Q.
  - injection Hx as <-. destruct Hinv as [Hex Hs Ho Htd Hk Hcl]. split; try done.
    simpl. eapply explained_clock; [|exact Hex]. lia.
  - by eapply inv_new_client.
  - unfold orphan in Hx. rewrite (si_orphans _ _ Hinv) in Hx. by injection Hx as <-.
  - destruct (cleanup _ _ _) as [cfg|] eqn:Hc; [|done]. injection Hx as <-. by eapply inv_cleanup.
Qed.

Lemma init_inv unreliable now : sy_inv (sy_init unreliable now) [].
Proof.
  split; simpl; try done; try by split.
  - split; try done; [constructor|by intros o ?%elem_of_nil|by intros x ?%elem_of_nil|constructor].
  - split; [done|]. eexists. split; [done|]. reflexivity.
Qed.

Lemma inv_exec acts : forall sy Q sy', sy_inv sy Q -> sy_exec sy acts = Done sy' -> distinct sy' ->
  exists Q', sy_inv sy' Q'.
Proof.
  induction acts as [|a acts IH]; intros sy Q sy' Hinv Hx Hdi; simpl in Hx.
  { injection Hx as <-. by exists Q. }
  destruct (sy_step sy a) as [sy1|] eqn:Hst; simpl in Hx; [|done].
  assert (grows sy1 sy') as Hg.
  { clear -Hx. revert sy1 Hx. induction acts as [|a acts IH]; intros sy1 Hx; simpl in Hx.
    - injection Hx as <-. by apply grows_same.
    - destruct (sy_step sy1 a) as [sy2|] eqn:Hst; simpl in Hx; [|done].
      etrans; [by eapply step_grows|by apply IH]. }
  destruct (inv_step sy Q a sy1 Hinv (distinct_grows _ _ Hg Hdi) Hst) as [Q1 H1]. by eapply IH.
Qed.

(** Every run keeps it. *)
Lemma run_inv unreliable now acts sy :
  sy_exec (sy_init unreliable now) acts = Done sy -> distinct sy -> exists Q, sy_inv sy Q.
Proof. intros Hx. eapply inv_exec; [apply init_inv|exact Hx]. Qed.
End inv.
End KVSrvSystemInv.
