(* ===== verification/KVSrvSystemProps.v ===== *)
(** The single-server service of src/kvsrv is linearizable over the network of
    src/labrpc, src/porcupine accepts what its clerks observe, and their calls
    return. *)
From S2P Require Import Prelude Bitset Porcupine CheckerProof Linearizability CheckOps KvModel Persister LabRpc KVSrv RaftHarness KVSrvHarness KVSrvSystem KVSrvExecutions KVSrvSystemInv.
Import RaftHarness Persister LabRpc KVSrv KVSrvHarness KVSrvSystem KVSrvExecutions KVSrvSystemInv.

Module KVSrvSystemProps.

Section props.
Context `{!Gob GetArgs, !Gob GetReply, !Gob PutAppendArgs, !Gob PutAppendReply}.
Implicit Types (sy : system) (Q : list execution) (o : execution) (x : observed).

(** ** The executions in order *)

Section order.
Context sy Q (Hex : explained (sy_calls sy) (sy_clock sy) (data (sy_kv sy)) Q).

Definition end_of x : Z := match ob_done x with Some (_, t) => t | None => sy_clock sy end.

Definition no_call : observed := mkObserved 0 (CGet (mkGetArgs "" 0 0)) 0 None.
Definition call_of o : observed := default no_call (sy_calls sy !! lo_id o).

Definition shown (y : nat * observed * string) : Porcupine.Operation KvModel.value :=
  operation_of y.1.2 y.2 (end_of y.1.2).

Definition guess (id : nat) : option string :=
  (fun y => lo_val y.2) <$> list_find (fun o => lo_id o = id) Q.

Lemma guess_spec id v : guess id = Some v <-> exists o, o ∈ Q /\ lo_id o = id /\ lo_val o = v.
Proof.
  unfold guess. split.
  - intros ([i o] & (Hi & Hid & _)%list_find_Some & ->)%fmap_Some. exists o. split; [|done].
    by eapply list_elem_of_lookup_2.
  - intros (o & Hin & Hid & <-).
    destruct (list_find_elem_of (fun o => lo_id o = id) Q o Hin Hid) as [[i o'] Hf]. rewrite Hf. simpl.
    apply list_find_Some in Hf as (Hi & Hid' & _). f_equal. f_equal.
    eapply ids_unique; [apply Hex|by eapply list_elem_of_lookup_2|done|congruence].
Qed.

Lemma call_of_spec o : o ∈ Q -> sy_calls sy !! lo_id o = Some (call_of o) /\ ob_call (call_of o) = lo_call o.
Proof. intros (x & Hx & Hc)%(ex_calls _ _ _ _ Hex). unfold call_of. by rewrite Hx. Qed.

Lemma done_guess id x v t : sy_calls sy !! id = Some x -> ob_done x = Some (v, t) -> guess id = Some v.
Proof. intros Hx Hv. apply guess_spec. eexists. split; [by eapply (ex_done _ _ _ _ Hex)|done]. Qed.

(** The completed history is the executions, in another order. *)
Lemma completion_perm :
  completion guess sy ≡ₚ map (fun o => shown (lo_id o, call_of o, lo_val o)) Q.
Proof.
  unfold completion.
  rewrite (omap_as_map _ shown (fun y => (fun v => (y, v)) <$> guess y.1)).
  2: { intros [id x] Hin. apply elem_of_lookup_imap in Hin as (i & y & [= -> ->] & Hi). simpl.
    unfold shown, end_of. destruct (ob_done y) as [[v t]|] eqn:Hd.
    - rewrite (done_guess _ _ _ _ Hi Hd). simpl. by rewrite Hd.
    - destruct (guess i); simpl; [by rewrite Hd|done]. }
  rewrite <- (map_map (fun o => (lo_id o, call_of o, lo_val o)) shown). apply Permutation_map.
  assert (NoDup (imap pair (sy_calls sy))) as Hnd.
  { apply NoDup_alt. intros i j y. rewrite !list_lookup_imap.
    intros (a & _ & ->)%fmap_Some (b & _ & [= <- _])%fmap_Some. done. }
  apply NoDup_Permutation.
  - eapply (NoDup_fmap_1 fst), sublist_NoDup; [exact Hnd|apply omap_fst_sublist].
  - apply (NoDup_fmap_1 (fun y : nat * observed * string => y.1.1)).
    change (?f <$> ?l) with (map f l). rewrite map_map. apply (ex_ids _ _ _ _ Hex).
  - intros [[id x] v]. rewrite list_elem_of_omap, list_elem_of_fmap. split.
    + intros ([i y] & Hin & (w & Hw & [= -> -> ->])%fmap_Some).
      apply elem_of_lookup_imap in Hin as (k & z & [= -> ->] & Hk).
      simpl in Hw. apply guess_spec in Hw as (o & Ho & <- & <-). exists o. split; [|done]. f_equal. f_equal.
      destruct (call_of_spec o Ho). congruence.
    + intros (o & [= -> -> ->] & Ho). destruct (call_of_spec o Ho) as [Hc _].
      exists (lo_id o, call_of o). split; [apply elem_of_lookup_imap; by eauto|]. simpl.
      rewrite (proj2 (guess_spec (lo_id o) (lo_val o))); [done|by exists o].
Qed.

(** No operation that returned before another was called comes after it. *)
Lemma executions_realtime :
  Linearizability.realtime (map (fun o => shown (lo_id o, call_of o, lo_val o)) Q).
Proof.
  apply Linearizability.realtime_lookup. intros i j a b Hij Hi Hj Hprec.
  change (map ?f ?l) with (f <$> l) in Hi, Hj. rewrite list_lookup_fmap in Hi, Hj.
  apply fmap_Some in Hi as (oa & Ha & ->), Hj as (ob & Hb & ->).
  unfold Linearizability.precedes in Hprec. simpl in Hprec.
  pose proof (list_elem_of_lookup_2 _ _ _ Ha) as Hina. pose proof (list_elem_of_lookup_2 _ _ _ Hb) as Hinb.
  destruct (call_of_spec oa Hina) as [Hca _]. destruct (call_of_spec ob Hinb) as [Hcb _].
  destruct (ex_times _ _ _ _ Hex (call_of oa)) as [Hta _]; [by eapply list_elem_of_lookup_2|].
  unfold end_of in Hprec. destruct (ob_done (call_of ob)) as [[v t]|] eqn:Hd; [|lia].
  pose proof (ex_order _ _ _ _ Hex) as Hso.
  rewrite <- (take_drop (S i) Q), (take_S_r Q i oa Ha) in Hso.
  assert (may_precede (sy_calls sy) oa ob) as Hm.
  { eapply (sorting.StronglySorted_app_1_elem_of _ _ _ _ _ Hso); [set_solver|].
    apply (list_elem_of_lookup_2 _ (j - S i)). rewrite lookup_drop. by replace (S i + (j - S i))%nat with j by lia. }
  pose proof (Hm _ _ _ _ Hca Hcb Hd). lia.
Qed.

Lemma executions_legal :
  Linearizability.legal KvModel.StoreModel ∅ (map (fun o => shown (lo_id o, call_of o, lo_val o)) Q).
Proof.
  assert (forall Q' d m d', (forall o, o ∈ Q' -> o ∈ Q) -> replays d Q' d' ->
    (forall k, KvModel.get m k = default ""%string (d !! k)) ->
    Linearizability.legal KvModel.StoreModel m (map (fun o => shown (lo_id o, call_of o, lo_val o)) Q')) as Hall.
  { induction Q' as [|o Q' IH]; intros d m d' Hsub Hr Hm; [done|]. destruct Hr as [Hv Hr].
    destruct (call_of_spec o) as [_ Hc]; [apply Hsub; set_solver|].
    destruct (effect_legal (lo_call o) d m Hm) as (m' & Hst & Hm'). exists m'. simpl. rewrite Hc, <- Hv.
    split; [done|]. eapply IH; [set_solver|exact Hr|done]. }
  eapply (Hall Q ∅ ∅); [done|apply Hex|done].
Qed.

Lemma explained_linearizable : Linearizability.linearizable KvModel.StoreModel (completion guess sy).
Proof.
  eexists. split; [symmetry; apply completion_perm|]. split; [apply executions_realtime|apply executions_legal].
Qed.
End order.

(** ** Linearizability *)

(** C15. The single-server service is linearizable end to end: whatever requests
    and replies the network loses or delays, however the calls of the clerks
    interleave, and whichever clients come and go, what the clerks observed is a
    linearizable history of the key/value model of src/models, the operations
    still in progress completed with the answer they are about to get or left
    out.  The clerks have drawn different identifiers, and fewer than 2^63
    operations began. *)
Theorem kvsrv_linearizable unreliable now acts sy :
  sy_exec (sy_init unreliable now) acts = Done sy -> distinct sy ->
  exists guess, Linearizability.linearizable KvModel.StoreModel (completion guess sy).
Proof.
  intros Hx Hdi. destruct (run_inv unreliable now acts sy Hx Hdi) as [Q Hinv].
  exists (guess Q). by eapply explained_linearizable, si_explained.
Qed.

Lemma quiescent_history g sy :
  Forall (fun x => is_Some (ob_done x)) (sy_calls sy) -> completion g sy = history sy.
Proof.
  unfold history, completion. intros Hd. rewrite Forall_forall in Hd.
  apply omap_ext_in. intros [id x] Hin. apply elem_of_lookup_imap in Hin as (i & y & [= -> ->] & Hi).
  by destruct (Hd y (list_elem_of_lookup_2 _ _ _ Hi)) as [[v t] ->].
Qed.

Lemma history_elem w sy :
  w ∈ history sy -> exists x v t, x ∈ sy_calls sy /\ ob_done x = Some (v, t) /\ w = operation_of x v t.
Proof.
  intros ([id x] & Hin & Ho)%list_elem_of_omap. apply elem_of_lookup_imap in Hin as (i & y & [= -> ->] & Hi).
  destruct (ob_done y) as [[v t]|] eqn:Hd; [|done]. injection Ho as <-.
  exists y, v, t. split; [by eapply list_elem_of_lookup_2|done].
Qed.

Lemma history_typed sy : KvModel.kv_typed (history sy).
Proof. apply Forall_forall. intros w (x & v & t & _ & _ & ->)%history_elem. by split; eexists. Qed.

Lemma timely_history sy Q : sy_inv sy Q -> Linearizability.timely (history sy).
Proof.
  intros Hinv. apply Forall_forall. intros w (x & v & t & Hin & Hd & ->)%history_elem.
  destruct (ex_times _ _ _ _ (si_explained _ _ Hinv) x Hin) as [_ Ht]. pose proof (Ht v t Hd). simpl. lia.
Qed.

Context `{GS : GoSort}.

(** C16. The verdict of the tests: once every operation of a run returned (and
    there was one), [CheckOperations KvModel] of src/porcupine accepts the
    history that the tests recorded, in every order in which all its goroutines
    report, with a budget of search steps that depends on the length.  The clerks
    have drawn different identifiers, and fewer than 2^63 operations began. *)
Theorem kvsrv_passes_checker unreliable now acts sy :
  sy_exec (sy_init unreliable now) acts = Done sy -> distinct sy ->
  sy_calls sy <> [] -> Forall (fun x => is_Some (ob_done x)) (sy_calls sy) ->
  exists parts, KvModel.kv_Partition (history sy) = Some parts /\
    forall sched kills fuel, (CheckerProof.budget (length (history sy)) < fuel)%nat ->
    CheckOps.valid_run (length parts) 0 sched kills -> CheckOps.complete_run (length parts) sched ->
    Porcupine.CheckOperations KvModel.KvModel (history sy) sched kills fuel = Ret (Some true).
Proof.
  intros Hx Hdi Hne Hdone. destruct (run_inv unreliable now acts sy Hx Hdi) as [Q Hinv].
  pose proof (explained_linearizable sy Q (si_explained _ _ Hinv)) as Hlin.
  rewrite quiescent_history in Hlin by done.
  destruct (KvModel.kv_Partition_spec (history sy) (history_typed sy)) as (keys & Hp & _).
  revert Hp. generalize (map (fun k => KvModel.part_of k (history sy)) keys). intros parts Hp.
  exists parts. split; [exact Hp|]. intros sched kills fuel Hfuel Hvr Hcr.
  destruct (KvModel.CheckOperations_KvModel_decides (history sy) parts sched kills fuel
    (timely_history sy Q Hinv) (history_typed sy)) as (ok & Hok & Hiff); try done.
  - intros Hnil. apply Hne. destruct (sy_calls sy) as [|x xs] eqn:Exs; [done|].
    apply Forall_cons in Hdone as [[[v t] Hd] _]. unfold history, completion in Hnil.
    rewrite Exs in Hnil. simpl in Hnil. by rewrite Hd in Hnil.
  - rewrite Hok. do 2 f_equal. by apply Hiff.
Qed.

(** ** Progress *)

(** The next sections of client [m], when the network loses nothing. *)
Definition lucky : dice := mkDice 0 500 500 0 0 0.
Definition smooth (m : nat) (a : act) : Prop :=
  a = Send m true \/ a = Process m lucky \/ a = Execute m \/ a = Settle m lucky \/ a = Receive m.

Definition at_stage sy (m id : nat) c st : Prop :=
  exists cl, sy_clients sy !! m = Some cl /\ cl_phase cl = Calling id c st.

(** The network is there, and client [m] is at [st] of its call. *)
Record calling sy (m id : nat) c st : Prop := {
  ca_inv : exists Q, sy_inv sy Q;
  ca_distinct : distinct sy;
  ca_open : destroyed (net (sy_cfg sy)) = false;
  ca_stage : at_stage sy m id c st }.

(** A call in progress at [st] can return. *)
Definition can_return (m id : nat) c st (n : nat) : Prop :=
  forall sy, calling sy m id c st -> exists acts sy' x, Forall (smooth m) acts /\ (length acts <= n)%nat /\
    sy_exec sy acts = Done sy' /\ sy_calls sy' !! id = Some x /\ is_Some (ob_done x).

(** One section leads to a stage from which the call can return. *)
Lemma advance m id c st n a :
  smooth m a ->
  (forall sy Q cl, calling sy m id c st -> sy_inv sy Q -> sy_clients sy !! m = Some cl ->
     cl_phase cl = Calling id c st -> exists sy' st', call_step a m id c st cl sy = Done sy' /\
       destroyed (net (sy_cfg sy')) = false /\ at_stage sy' m id c st' /\ can_return m id c st' n) ->
  can_return m id c st (S n).
Proof.
  intros Ha Hstep sy Hc. pose proof Hc as [[Q Hinv] Hdi Hop (cl & Hm & Hp)].
  destruct (Hstep sy Q cl) as (sy1 & st' & Hst & Hop1 & Hat & Hn); try done.
  destruct (inv_call_step sy Q a m cl id c st sy1 Hinv Hdi Hm Hp Hst) as [Q1 Hinv1].
  destruct (Hn sy1) as (acts & sy' & x & Hsm & Hlen & Hex & Hx & Hd).
  { split; [by exists Q1| |done|done]. eapply level_distinct; [|exact Hdi]. by eapply call_step_level. }
  exists (a :: acts), sy', x. split; [by constructor|]. split; [simpl; lia|]. split; [|done].
  assert (sy_step sy a = client_step a m sy) as Hs by (by destruct Ha as [->|[->|[->|[->| ->]]]]).
  simpl. rewrite Hs. unfold client_step. rewrite Hm, Hp, Hst. done.
Qed.

Lemma set_phase_stage sy m cl id c st :
  sy_clients sy !! m = Some cl -> at_stage (set_phase m (Calling id c st) cl sy) m id c st.
Proof.
  intros Hm. eexists. split; [simpl; apply list_lookup_insert_eq; by eapply lookup_lt_Some|done].
Qed.

(** The reply of a call that succeeded arrives. *)
Lemma replied_returns m id c r :
  ok r = true -> can_return m id c (Replied r) 1.
Proof.
  intros Hok sy [[Q Hinv] Hdi Hop (cl & Hm & Hp)].
  destruct (si_client _ _ _ _ Hinv Hm) as (_ & _ & Hc). rewrite Hp in Hc.
  destruct Hc as (_ & (x & Hx & _) & _ & [-> | (v & Hv & Hret)]); [done|].
  exists [Receive m]. eexists _, _. split; [by repeat constructor; unfold smooth; auto|]. split; [simpl; lia|].
  simpl. unfold client_step. rewrite Hm, Hp. simpl. unfold receive. rewrite Hret. simpl.
  split; [done|]. simpl. rewrite list_lookup_alter_eq, Hx. simpl. split; [done|by eexists].
Qed.

(** The network loses nothing when it is lucky. *)
Lemma lucky_begins nt e req :
  served nt -> reaches nt e -> endname req = inl e ->
  exists after rel reord, process_begin req lucky nt = Executing after (inr SERVERID) 0 rel reord.
Proof.
  intros [Hs _] [He Hc] Hn. unfold process_begin, readEndnameInfo. rewrite Hn, He, Hc. simpl. rewrite Hs.
  destruct (negb (reliable nt)); simpl; by eexists _, _, _.
Qed.

Lemma lucky_ends nt e rel reord r :
  served nt -> reaches nt e ->
  (process_end (inl e) (inr SERVERID) 0 rel reord (Some r) lucky nt).2 = r.
Proof.
  intros Hs He. unfold process_end. rewrite (reaches_alive nt e Hs He).
  destruct (negb rel); simpl; destruct reord; done.
Qed.

Lemma ran_returns m id c s p rel reord r :
  ok r = true -> can_return m id c (Ran s p rel reord r) 2.
Proof.
  intros Hok. apply (advance m id c _ _ (Settle m lucky)); [unfold smooth; auto|].
  intros sy Q cl Hca Hinv Hm Hp. destruct (si_client _ _ _ _ Hinv Hm) as (_ & _ & Hc). rewrite Hp in Hc.
  destruct Hc as ((_ & _ & Hre) & _ & _ & -> & -> & _). exists (settle m (inr SERVERID) 0 rel reord r lucky id c cl sy).
  exists (Replied r). split; [done|]. split; [apply Hca|]. split; [|by apply replied_returns].
  unfold settle. rewrite (lucky_ends _ _ _ _ _ (si_served _ _ Hinv) Hre). by apply set_phase_stage.
Qed.

Lemma running_returns m id c s p rel reord : can_return m id c (Running s p rel reord) 3.
Proof.
  apply (advance m id c _ _ (Execute m)); [unfold smooth; auto|].
  intros sy Q cl Hca Hinv Hm Hp. destruct (si_client _ _ _ _ Hinv Hm) as (_ & _ & Hc). rewrite Hp in Hc.
  destruct Hc as (_ & _ & _ & -> & ->).
  destruct (execute_handles (net (sy_cfg sy)) (cl_end cl) c (sy_kv sy) (si_served _ _ Hinv))
    as (nt' & r & Hrun & Hok & _ & _ & _ & _ & _ & Hop).
  eexists _, (Ran (inr SERVERID) 0 rel reord r). simpl. unfold execute. rewrite Hrun. simpl.
  split; [done|]. split; [simpl; rewrite Hop; apply Hca|]. split; [by apply set_phase_stage|by apply ran_returns].
Qed.

Lemma taken_returns m id c : can_return m id c Taken 4.
Proof.
  apply (advance m id c _ _ (Process m lucky)); [unfold smooth; auto|].
  intros sy Q cl Hca Hinv Hm Hp. destruct (si_client _ _ _ _ Hinv Hm) as (_ & _ & Hc). rewrite Hp in Hc.
  destruct Hc as ((_ & _ & Hre) & _).
  destruct (lucky_begins (net (sy_cfg sy)) (cl_end cl) (request_of (cl_end cl) c)) as (t & rel & reord & Hb);
    [apply Hinv|done|by destruct c|].
  exists (process m lucky id c cl sy), (Running (inr SERVERID) 0 rel reord).
  split; [done|]. split; [apply Hca|]. split; [|apply running_returns].
  unfold process. rewrite Hb. by apply set_phase_stage.
Qed.

Lemma top_returns m id c : can_return m id c Top 5.
Proof.
  apply (advance m id c _ _ (Send m true)); [unfold smooth; auto|].
  intros sy Q cl Hca Hinv Hm Hp. exists (send m true id c cl sy), Taken. split; [done|].
  unfold send, Call_send. rewrite (ca_open _ _ _ _ _ Hca). simpl.
  split; [apply Hca|]. split; [by apply set_phase_stage|apply taken_returns].
Qed.

Lemma stage_returns m id c st : can_return m id c st 6.
Proof.
  assert (forall n, (n <= 6)%nat -> can_return m id c st n -> can_return m id c st 6) as Hle.
  { intros n Hn Hr sy Hca. destruct (Hr sy Hca) as (acts & sy' & x & ? & ? & ?). exists acts, sy', x.
    split; [done|]. split; [lia|done]. }
  destruct st as [| | |s p rel reord r|r].
  - apply (Hle 5%nat); [lia|apply top_returns].
  - apply (Hle 4%nat); [lia|apply taken_returns].
  - apply (Hle 3%nat); [lia|apply running_returns].
  - intros sy Hca. assert (ok r = true) as Hok; [|by apply (Hle 2%nat); [lia|by apply ran_returns|]].
    destruct Hca as [[Q Hinv] _ _ (cl & Hm & Hp)].
    destruct (si_client _ _ _ _ Hinv Hm) as (_ & _ & Hc). rewrite Hp in Hc.
    destruct Hc as (_ & _ & _ & _ & _ & (v & _ & Hret)). destruct r as [[] b]; [done|].
    destruct c; by simpl in Hret.
  - destruct (ok r) eqn:Hok; [by apply (Hle 1%nat); [lia|apply replied_returns]|].
    apply (advance m id c _ _ (Receive m)); [unfold smooth; auto|].
    intros sy Q cl Hca Hinv Hm Hp. destruct (si_client _ _ _ _ Hinv Hm) as (_ & _ & Hc). rewrite Hp in Hc.
    destruct Hc as (_ & _ & _ & [-> |(v & _ & Hret)]).
    + eexists _, Top. simpl. unfold receive. rewrite returned_false. simpl. split; [done|].
      split; [apply Hca|]. split; [by apply set_phase_stage|apply top_returns].
    + destruct r as [[] b]; [done|]. by destruct c.
Qed.

(** C17. No call hangs: from every state of a run, before the network is destroyed,
    each operation in progress returns within six sections of its own client, if
    the network loses neither the request nor the reply that follow.  The
    handler that reflection finds for the request exists, the reply it encodes
    decodes, and nothing that other clients have under way is needed.  The clerks
    have drawn different identifiers, and fewer than 2^63 operations began. *)
Theorem kvsrv_call_returns unreliable now acts sy m cl id c st :
  sy_exec (sy_init unreliable now) acts = Done sy -> distinct sy ->
  destroyed (net (sy_cfg sy)) = false ->
  sy_clients sy !! m = Some cl -> cl_phase cl = Calling id c st ->
  exists acts' sy' x, Forall (smooth m) acts' /\ (length acts' <= 6)%nat /\
    sy_exec sy acts' = Done sy' /\ sy_calls sy' !! id = Some x /\ is_Some (ob_done x).
Proof.
  intros Hx Hdi Hop Hm Hp. apply (stage_returns m id c st).
  split; [by eapply run_inv|done|done|by exists cl].
Qed.
End props.

(** ** A run *)

Section witnesses.
#[local] Existing Instance isort_GoSort.

#[local] Instance GetArgs_eq_dec : EqDecision GetArgs.
Proof. solve_decision. Defined.
#[local] Program Instance GetArgs_countable : Countable GetArgs :=
  inj_countable' (fun a => (ga_Key a, ga_ClientId a, ga_RequestId a))
    (fun x => mkGetArgs x.1.1 x.1.2 x.2) _.
Next Obligation. by intros []. Defined.
#[local] Instance GetReply_eq_dec : EqDecision GetReply.
Proof. solve_decision. Defined.
#[local] Program Instance GetReply_countable : Countable GetReply :=
  inj_countable' gr_Value mkGetReply _.
Next Obligation. by intros []. Defined.
#[local] Instance PutAppendArgs_eq_dec : EqDecision PutAppendArgs.
Proof. solve_decision. Defined.
#[local] Program Instance PutAppendArgs_countable : Countable PutAppendArgs :=
  inj_countable' (fun a => (pa_Key a, pa_Value a, pa_ClientId a, pa_RequestId a))
    (fun x => mkPutAppendArgs x.1.1.1 x.1.1.2 x.1.2 x.2) _.
Next Obligation. by intros []. Defined.
#[local] Instance PutAppendReply_eq_dec : EqDecision PutAppendReply.
Proof. solve_decision. Defined.
#[local] Program Instance PutAppendReply_countable : Countable PutAppendReply :=
  inj_countable' par_Value mkPutAppendReply _.
Next Obligation. by intros []. Defined.

Definition unlucky : dice := mkDice 5 7 7 0 0 0.

(** A call whose request is lost, then its reply; the third attempt succeeds. *)
Definition stubborn (m : nat) : list act :=
  [Send m true; Process m unlucky; Receive m; Tick 3;
   Send m true; Process m lucky; Execute m; Settle m unlucky; Receive m; Tick 3;
   Send m true; Process m lucky; Execute m; Settle m lucky; Receive m; Tick 1].

Definition plain (m : nat) : list act :=
  [Send m true; Process m lucky; Execute m; Settle m lucky; Receive m; Tick 1].

(** Client 0 appends and client 1 reads, at the same time and then again. *)
Definition two_clients : list act :=
  [NewClient "a" 7; NewClient "b" 9; CallAppend 0 "x" "1"; CallGet 1 "x"] ++ stubborn 0 ++ plain 1 ++
  [CallAppend 0 "x" "2"] ++ plain 0 ++ [CallPut 1 "y" "z"] ++ stubborn 1.

Definition ended (acts : list act) : system :=
  match sy_exec (sy_init true 0) acts with Done sy => sy | Stopped _ => sy_init true 0 end.

Definition ends_well (acts : list act) : bool :=
  match sy_exec (sy_init true 0) acts with Done _ => true | Stopped _ => false end.

Lemma ended_run acts : ends_well acts = true -> sy_exec (sy_init true 0) acts = Done (ended acts).
Proof. unfold ends_well, ended. by destruct (sy_exec _ acts). Qed.

Lemma two_clients_run : sy_exec (sy_init true 0) two_clients = Done (ended two_clients).
Proof. apply ended_run. by vm_compute. Qed.

Lemma two_clients_distinct : distinct (ended two_clients).
Proof. split; [|by vm_compute]. apply (bool_decide_unpack _). by vm_compute. Qed.

(** Client 1 waits for the reply of its Get while the append of client 0 is
    tried for the second time. *)
Definition midway : list act := firstn 14 two_clients ++ [Send 1 true; Process 1 unlucky].

Lemma midway_run : sy_exec (sy_init true 0) midway = Done (ended midway).
Proof. apply ended_run. by vm_compute. Qed.

Lemma midway_distinct : distinct (ended midway).
Proof. split; [|by vm_compute]. apply (bool_decide_unpack _). by vm_compute. Qed.

Lemma kvsrv_linearizable_witness :
  exists guess, Linearizability.linearizable KvModel.StoreModel (completion guess (ended midway)).
Proof. exact (kvsrv_linearizable true 0 midway _ midway_run midway_distinct). Defined.

Lemma all_ended_spec sy :
  forallb (fun x => bool_decide (is_Some (ob_done x))) (sy_calls sy) = true ->
  Forall (fun x => is_Some (ob_done x)) (sy_calls sy).
Proof.
  rewrite forallb_forall. intros H. apply Forall_forall.
  intros x Hx%list_elem_of_In. by apply H, bool_decide_eq_true in Hx.
Qed.

Lemma kvsrv_passes_checker_witness :
  exists parts, KvModel.kv_Partition (history (ended two_clients)) = Some parts /\
    forall sched kills fuel, (CheckerProof.budget (length (history (ended two_clients))) < fuel)%nat ->
    CheckOps.valid_run (length parts) 0 sched kills -> CheckOps.complete_run (length parts) sched ->
    Porcupine.CheckOperations KvModel.KvModel (history (ended two_clients)) sched kills fuel = Ret (Some true).
Proof.
  apply (kvsrv_passes_checker true 0 two_clients _ two_clients_run two_clients_distinct).
  - by vm_compute.
  - apply all_ended_spec. by vm_compute.
Defined.

Lemma kvsrv_call_returns_witness :
  exists acts' sy' x, Forall (smooth 1) acts' /\ (length acts' <= 6)%nat /\
    sy_exec (ended midway) acts' = Done sy' /\ sy_calls sy' !! 1%nat = Some x /\ is_Some (ob_done x).
Proof.
  apply (kvsrv_call_returns true 0 midway (ended midway) 1
    (mkClient "b" 1 (mkClerk 9 1) (Calling 1 (CGet (mkGetArgs "x" 9 1)) (Replied (mkReply false []))))
    1 (CGet (mkGetArgs "x" 9 1)) (Replied (mkReply false [])) midway_run midway_distinct); by vm_compute.
Defined.

Example two_clients_observed :
  map (fun x => fst <$> ob_done x) (sy_calls (ended two_clients)) =
    [Some ""; Some "1"; Some "1"; Some ""]%string /\
  data (sy_kv (ended two_clients)) !! "x"%string = Some "12"%string.
Proof. by vm_compute. Qed.
End witnesses.
End KVSrvSystemProps.
