(* ===== verification/ShardHarness.v ===== *)
(** The test harness of shardkv (src/shardkv/config.go): a controller service
    and groups of servers on one network, all ends enabled. *)
From S2P Require Import Prelude Persister LabRpc RaftNode ShardCtrler ShardKV MapReduce RaftHarness.
Import Persister RaftHarness.

Module ShardHarness.

Section harness.
Context {W : Type} `{!Gob Z, !Gob (list (Raft.LogEntry unit))}.

(** The methods reflection finds on the servers. *)
Context (skv_methods ctl_methods raft_methods : list (string * LabRpc.method (W := W))).

(** Servers are named by strings here. *)
Abbreviation Name := (string + Z)%type.
Abbreviation Network := (LabRpc.Network (Name := Name) (W := W)).
Abbreviation Srv := (ShardKV.ShardKV string).
Abbreviation Result A := (outcome unit A).

Record group := mkGroup {
  gid : Z; g_servers : list (option Srv); g_saved : list (option Persister);
  g_endnames : list (option (list string)); mendnames : list (option (list string)) }.

Record ctrler := mkCtrler {
  ctl_n : Z; ctl_servers : list (option ShardCtrler.ShardCtrler); names : list string;
  ctl_ck : option (ShardCtrler.Clerk string) }.

(** [ctl] and the groups are nil before [make_config] sets them. *)
Record config := mkConfig {
  net : Network; start : Z; ctl : option ctrler;
  ngroups : Z; n : Z; groups : list (option group);
  clerks : gmap nat (list string); nclerks : nat; nextClientId : Z; maxraftstate : Z }.

Implicit Types (cfg : config).

Definition set_net v cfg := mkConfig v (start cfg) (ctl cfg) (ngroups cfg) (n cfg) (groups cfg)
  (clerks cfg) (nclerks cfg) (nextClientId cfg) (maxraftstate cfg).
Definition set_ctl v cfg := mkConfig (net cfg) (start cfg) v (ngroups cfg) (n cfg) (groups cfg)
  (clerks cfg) (nclerks cfg) (nextClientId cfg) (maxraftstate cfg).
Definition set_groups v cfg := mkConfig (net cfg) (start cfg) (ctl cfg) (ngroups cfg) (n cfg) v
  (clerks cfg) (nclerks cfg) (nextClientId cfg) (maxraftstate cfg).
Definition set_clerks v k next cfg := mkConfig (net cfg) (start cfg) (ctl cfg) (ngroups cfg)
  (n cfg) (groups cfg) v k next (maxraftstate cfg).

(** [cfg.groups[gi]], dereferenced. *)
Definition group_at (gi : Z) cfg : Result group := g ← must (zget (groups cfg) gi); must g.

Definition put_group (gi : Z) (g : group) cfg : Result config :=
  gs ← must (zset (groups cfg) gi (Some g)); Done (set_groups gs cfg).

Definition get_ctl cfg : Result ctrler := must (ctl cfg).

Definition checkTimeout (failed : bool) (now : Z) cfg : Result unit :=
  if negb failed && (120 * 10 ^ 9 <? now - start cfg) then Stopped (Failed TooSlow) else Done tt.

(** No server's log is too big. *)
Definition checklogs cfg : Result unit :=
  each (range (ngroups cfg)) (fun gi _ =>
    each (range (n cfg)) (fun i _ =>
      g ← group_at gi cfg;
      p ← must (zget (g_saved g) i); p ← must p;
      let raft := RaftStateSize p in
      let snap := zlen (ReadSnapshot p) in
      if (0 <=? maxraftstate cfg) && (8 * maxraftstate cfg <? raft)
      then Stopped (Failed (LogTooBig raft))
      else if (maxraftstate cfg <? 0) && (0 <? snap) then Stopped (Failed SnapshotNotEmpty)
      else Done tt) tt) tt.

Definition ctrlername (c : ctrler) (i : Z) : Result string := must (zget (names c) i).

Definition servername (gid i : Z) : string :=
  "server-" ++ MapReduce.Itoa gid ++ "-" ++ MapReduce.Itoa i.

(** A new end, connected to a server and enabled: [make_end], and the loops
    that make the ends of a server or a clerk. *)
Definition open_end (name servername : string) (nt : Network) : Result Network :=
  nt ← make_end (inl servername, name) nt;
  Done (LabRpc.Enable (inl name) true nt).

(** [ends[j]] for [j] below [k], named [names[j]], to the servers [to]. *)
Definition open_ends (k : Z) (names : list string) (to : Z -> Result string) (nt : Network) :
    Result Network :=
  each (range k) (fun j nt =>
    name ← must (zget names j); s ← to j; open_end name s nt) nt.

(** [drawn]: the random names.  [endnames] has [cfg.n] places. *)
Definition makeClient (drawn : list string) cfg : Result (config * nat * list string) :=
  c ← get_ctl cfg;
  '(nt, endnames) ← each (range (ctl_n c)) (fun j '(nt, endnames) =>
    name ← must (zget drawn j);
    endnames ← must (zset endnames j name);
    s ← ctrlername c j;
    nt ← open_end name s nt;
    Done (nt, endnames)) (net cfg, replicate (Z.to_nat (n cfg)) EmptyString);
  let ck := nclerks cfg in
  Done (set_clerks (<[ck := endnames]> (clerks cfg)) (S ck) (nextClientId cfg + 1)
          (set_net nt cfg), ck, take (Z.to_nat (ctl_n c)) drawn).

(** The ends stay in the network; no file has their names. *)
Definition deleteClient (ck : nat) cfg : config :=
  set_clerks (delete ck (clerks cfg)) (nclerks cfg) (nextClientId cfg) cfg.

(** [cfg.net.Enable(names[j], false)] for each [j] below [k]. *)
Definition disable_all (k : Z) (names : list string) (nt : Network) : Result Network :=
  each (range k) (fun j nt =>
    name ← must (zget names j); Done (LabRpc.Enable (inl name) false nt)) nt.

(** The result is also the server that was killed. *)
Definition ShutdownServer (gi i : Z) cfg : Result (config * option Srv) :=
  g ← group_at gi cfg;
  row ← must (zget (g_endnames g) i);
  nt ← disable_all (zlen (g_servers g)) (default [] row) (net cfg);
  mrow ← must (zget (mendnames g) i);
  nt ← disable_all (zlen (default [] mrow)) (default [] mrow) nt;
  let nt := LabRpc.DeleteServer (inl (servername (gid g) i)) nt in
  sv ← must (zget (g_saved g) i);
  sv ← (match sv with
        | Some p => must (zset (g_saved g) i (Some (Copy p)))
        | None => Done (g_saved g)
        end);
  kv ← must (zget (g_servers g) i);
  ss ← (match kv with Some _ => must (zset (g_servers g) i None) | None => Done (g_servers g) end);
  cfg ← put_group gi (mkGroup (gid g) ss sv (g_endnames g) (mendnames g)) (set_net nt cfg);
  Done (cfg, option_map ShardKV.Kill_skv kv).

Definition ShutdownGroup (gi : Z) cfg : Result config :=
  each (range (n cfg)) (fun i cfg => '(cfg, _) ← ShutdownServer gi i cfg; Done cfg) cfg.

(** [drawn], [mdrawn]: the random names of the ends for the group and for the
    controllers. *)
Definition StartServer (gi i : Z) (drawn mdrawn : list string) (k : Raft.tick) cfg :
    Result (config * list Raft.spawn) :=
  g ← group_at gi cfg;
  en ← must (zset (g_endnames g) i (Some drawn));
  nt ← open_ends (n cfg) drawn (fun j => Done (servername (gid g) j)) (net cfg);
  c ← get_ctl cfg;
  me ← must (zset (mendnames g) i (Some mdrawn));
  nt ← open_ends (ctl_n c) mdrawn (ctrlername c) nt;
  sv ← must (zget (g_saved g) i);
  let p := match sv with Some p => Copy p | None => MakePersister end in
  sv ← must (zset (g_saved g) i (Some p));
  let '(kv, spawns) := ShardKV.StartServer (n cfg) i p (maxraftstate cfg) (gid g) mdrawn k in
  ss ← must (zset (g_servers g) i (Some kv));
  let kvsvc := LabRpc.MakeService "ShardKV" skv_methods in
  let rfsvc := LabRpc.MakeService "Raft" raft_methods in
  let srv := LabRpc.AddService (LabRpc.AddService LabRpc.MakeServer kvsvc) rfsvc in
  let nt := addServer (inl (servername (gid g) i)) srv nt in
  cfg ← put_group gi (mkGroup (gid g) ss sv en me) (set_net nt cfg);
  Done (cfg, spawns).

(** [drawn i]: the random names of server [i]. *)
Definition StartGroup (gi : Z) (drawn mdrawn : Z -> list string) (k : Raft.tick) cfg : Result config :=
  each (range (n cfg)) (fun i cfg =>
    '(cfg, _) ← StartServer gi i (drawn i) (mdrawn i) k cfg; Done cfg) cfg.

Definition StartCtrlerServer (i : Z) (drawn : list string) (k : Raft.tick) (c : ctrler) (nt : Network) :
    Result (ctrler * Network) :=
  nt ← open_ends (ctl_n c) drawn (ctrlername c) nt;
  let p := MakePersister in
  let '(sc, _) := ShardCtrler.StartServer (ctl_n c) i p k in
  ss ← must (zset (ctl_servers c) i (Some sc));
  let msvc := LabRpc.MakeService "ShardCtrler" ctl_methods in
  let rfsvc := LabRpc.MakeService "Raft" raft_methods in
  let srv := LabRpc.AddService (LabRpc.AddService LabRpc.MakeServer msvc) rfsvc in
  s ← ctrlername c i;
  Done (mkCtrler (ctl_n c) ss (names c) (ctl_ck c), addServer (inl s) srv nt).

Definition ctrlerclerk (drawn : list string) (c : ctrler) (nt : Network) :
    Result (ShardCtrler.Clerk string * Network) :=
  nt ← open_ends (ctl_n c) drawn (ctrlername c) nt;
  Done (ShardCtrler.MakeClerk (take (Z.to_nat (ctl_n c)) drawn), nt).

(** What [joinm] and [leavem] send. *)
Definition join_groups (gis : list Z) cfg : Result (gmap Z (list string)) :=
  each gis (fun gi m =>
    g ← group_at gi cfg;
    Done (<[gid g := map (servername (gid g)) (range (n cfg))]> m)) ∅.

Definition leave_gids (gis : list Z) cfg : Result (list Z) :=
  each gis (fun gi gids => g ← group_at gi cfg; Done (gids ++ [gid g])) [].

(** The calls of the controllers' clerk, by their number. *)
Definition joinm (fuel : nat) (call : ShardCtrler.JoinArgs -> string -> nat -> option ShardCtrler.StatusReply)
    (gis : list Z) (c : ctrler) (k : nat) cfg : Result (result nat) :=
  m ← join_groups gis cfg; ck ← must (ctl_ck c); Done (ShardCtrler.Join fuel call ck m k).

Definition join fuel call (gi : Z) (k : nat) cfg : Result (result nat) :=
  c ← get_ctl cfg; joinm fuel call [gi] c k cfg.

Definition ctljoin fuel call (gi : Z) (c : ctrler) (k : nat) cfg : Result (result nat) :=
  joinm fuel call [gi] c k cfg.

Definition leavem (fuel : nat) (call : ShardCtrler.LeaveArgs -> string -> nat -> option ShardCtrler.StatusReply)
    (gis : list Z) (k : nat) cfg : Result (result nat) :=
  gids ← leave_gids gis cfg; c ← get_ctl cfg; ck ← must (ctl_ck c);
  Done (ShardCtrler.Leave fuel call ck gids k).

Definition leave fuel call (gi : Z) (k : nat) cfg : Result (result nat) :=
  leavem fuel call [gi] k cfg.

(** [ctlr]: the random parts of the names of the controllers; [drawn i]: of
    the ends of controller [i]; [ckdrawn]: of the clerk. *)
Definition StartCtrlerService (ctlr : list string) (drawn : Z -> list string) (ckdrawn : list string)
    (k : Raft.tick) (nt : Network) : Result (ctrler * Network) :=
  let c := mkCtrler 3 (replicate 3 None) (map (fun s => "ctlr-" ++ s)%string (take 3 ctlr)) None in
  '(c, nt) ← each (range (ctl_n c)) (fun i '(c, nt) => StartCtrlerServer i (drawn i) k c nt) (c, nt);
  '(ck, nt) ← ctrlerclerk ckdrawn c nt;
  Done (mkCtrler (ctl_n c) (ctl_servers c) (names c) (Some ck), nt).

(** A group before its servers start: [mendnames] has a place per controller. *)
Definition new_group (gi n ctl_n : Z) : group :=
  mkGroup (100 + gi) (replicate (Z.to_nat n) None) (replicate (Z.to_nat n) None)
    (replicate (Z.to_nat n) None) (replicate (Z.to_nat ctl_n) None).

(** [drawn gi i], [mdrawn gi i]: the random names of server [i] of group [gi]. *)
Definition make_config (n : Z) (unreliable : bool) (maxraftstate : Z) (ctlr : list string)
    (cdrawn : Z -> list string) (ckdrawn : list string) (drawn mdrawn : Z -> Z -> list string)
    (k : Raft.tick) (now : Z) : Result config :=
  if n <? 0 then Stopped Panicked else
  '(c, nt) ← StartCtrlerService ctlr cdrawn ckdrawn k LabRpc.MakeNetwork;
  let cfg := mkConfig nt now (Some c) 3 n (replicate 3 None) ∅ 0 0 maxraftstate in
  cfg ← each (range (ngroups cfg)) (fun gi cfg =>
    cfg ← put_group gi (new_group gi n (ctl_n c)) cfg;
    each (range n) (fun i cfg =>
      '(cfg, _) ← StartServer gi i (drawn gi i) (mdrawn gi i) k cfg; Done cfg) cfg) cfg;
  let cfg := set_clerks ∅ 0 (n + 1000) cfg in
  Done (set_net (LabRpc.Reliable (negb unreliable) (net cfg)) cfg).

Definition cleanup (failed : bool) (now : Z) cfg : Result config :=
  cfg ← each (range (ngroups cfg)) ShutdownGroup cfg;
  c ← get_ctl cfg;
  ss ← each (range (ctl_n c)) (fun i ss =>
    s ← must (zget ss i); s ← must s; must (zset ss i (Some (ShardCtrler.Kill_ctrler s)))) (ctl_servers c);
  let cfg := set_ctl (Some (mkCtrler (ctl_n c) ss (names c) (ctl_ck c))) cfg in
  nt ← must (LabRpc.Cleanup (net cfg));
  let cfg := set_net nt cfg in
  _ ← checkTimeout failed now cfg; Done cfg.
End harness.
End ShardHarness.
