(* ===== verification/ShardHarnessProps.v ===== *)
(** The harness of shardkv: the server names that joining groups announce reach
    those servers, as long as they run, whatever a test did; it only works for three servers per
    group. *)
From S2P Require Import Prelude Persister LabRpc RaftNode ShardCtrler ShardKV RaftHarness Wiring ServiceProps ShardHarness.
Import Persister RaftHarness Wiring.

Module ShardHarnessProps.
Import ServiceProps(elem_of_range).
Import ShardHarness.

Section props.
Context {W : Type} `{!Gob Z, !Gob (list (Raft.LogEntry unit))}.
Context (skv_methods ctl_methods raft_methods : list (string * LabRpc.method (W := W))).
Implicit Types (cfg : config (W := W)) (nt : LabRpc.Network (Name := string + Z) (W := W)).
Implicit Types (g : group) (gi i : Z).

(** A server of that name is on the network. *)
Definition alive nt (s : string) : Prop := exists p, LabRpc.servers nt !! inl s = Some (Some p).

(** Server [i] of group [x] runs, as far as the harness knows. *)
Definition runs g i : Prop := exists kv, zget (g_servers g) i = Some (Some kv).

Definition shard_running cfg (x i : Z) : Prop :=
  exists g, zget (groups cfg) x = Some (Some g) /\ runs g i.

(** Nothing leaves the network. *)
Definition extends nt nt' : Prop := forall s, alive nt s -> alive nt' s.

Lemma extends_refl nt : extends nt nt.
Proof. by intros s. Qed.

Lemma extends_trans nt1 nt2 nt3 : extends nt1 nt2 -> extends nt2 nt3 -> extends nt1 nt3.
Proof. intros H1 H2 s Hs. by apply H2, H1. Qed.

Lemma addServer_alive s srv nt : alive (addServer (inl s) srv nt) s.
Proof. unfold alive. simpl. rewrite lookup_insert_eq. by eexists. Qed.

Lemma addServer_extends s srv nt : extends nt (addServer (inl s) srv nt).
Proof.
  intros s' [p Hp]. destruct (decide (s' = s)) as [->|]; [apply addServer_alive|].
  exists p. simpl. by rewrite lookup_insert_ne by congruence.
Qed.

(** Only ends changed. *)
Definition same_servers nt nt' : Prop :=
  LabRpc.servers nt' = LabRpc.servers nt /\ LabRpc.reliable nt' = LabRpc.reliable nt.

Lemma same_servers_trans nt1 nt2 nt3 :
  same_servers nt1 nt2 -> same_servers nt2 nt3 -> same_servers nt1 nt3.
Proof. unfold same_servers. intros [-> ->] [-> ->]. done. Qed.

Lemma open_end_servers name s nt nt' : open_end name s nt = Done nt' -> same_servers nt nt'.
Proof.
  unfold open_end, make_end, LabRpc.MakeEnd. simpl. destruct (LabRpc.ends nt !! inl name); [done|].
  by intros [= <-].
Qed.

Lemma open_ends_servers k names to nt nt' : open_ends k names to nt = Done nt' -> same_servers nt nt'.
Proof.
  intros Hrun. revert Hrun. apply (each_done (same_servers nt)); [|done].
  intros j nt1 nt2 _ Heq. destruct (zget names j); simpl; [|done]. destruct (to j); simpl; [|done].
  intros Ho%open_end_servers. by eapply same_servers_trans.
Qed.

Lemma disable_all_servers k names nt nt' : disable_all k names nt = Done nt' -> same_servers nt nt'.
Proof.
  intros Hrun. revert Hrun. apply (each_done (same_servers nt)); [|done].
  intros j nt1 nt2 _ Heq. destruct (zget names j); simpl; [|done]. intros [= <-].
  by eapply same_servers_trans.
Qed.

Lemma put_group_done gi g cfg cfg' :
  put_group gi g cfg = Done cfg' ->
  0 <= gi < zlen (groups cfg) /\ cfg' = set_groups (<[Z.to_nat gi := Some g]> (groups cfg)) cfg.
Proof.
  unfold put_group. destruct (zset (groups cfg) gi (Some g)) as [gs|] eqn:Hgs; simpl; [|done].
  apply zset_Some in Hgs as [? ->]. by intros [= <-].
Qed.

Lemma group_at_get gi cfg g : group_at gi cfg = Done g <-> zget (groups cfg) gi = Some (Some g).
Proof.
  unfold group_at. destruct (zget (groups cfg) gi) as [[g'|]|]; simpl; [|done..].
  split; by intros [= ->].
Qed.

(** The server [i] of group [gi] has changed, and with it its entry in the table of
    the network. *)
Record moved gi i cfg cfg' g g' (v : option nat) : Prop := {
  mv_group : zget (groups cfg) gi = Some (Some g);
  mv_groups : groups cfg' = <[Z.to_nat gi := Some g']> (groups cfg);
  mv_gid : gid g' = gid g;
  mv_in : 0 <= i < zlen (g_servers g);
  mv_servers : exists o, g_servers g' = <[Z.to_nat i := o]> (g_servers g) /\ (is_Some o <-> is_Some v);
  mv_n : n cfg' = n cfg;
  mv_net : LabRpc.servers (net cfg') = <[inl (servername (gid g) i) := v]> (LabRpc.servers (net cfg));
  mv_reliable : LabRpc.reliable (net cfg') = LabRpc.reliable (net cfg) }.

(** A start, when it succeeds: the server is on the network under its name,
    and only its group changed. *)
Lemma group_server_done gi i drawn mdrawn k cfg cfg' sp :
  StartServer skv_methods raft_methods gi i drawn mdrawn k cfg = Done (cfg', sp) ->
  exists g g', zget (groups cfg) gi = Some (Some g) /\ gid g' = gid g /\
    zlen (mendnames g') = zlen (mendnames g) /\ 0 <= i < zlen (mendnames g) /\
    groups cfg' = <[Z.to_nat gi := Some g']> (groups cfg) /\ n cfg' = n cfg /\
    ngroups cfg' = ngroups cfg /\ ctl cfg' = ctl cfg /\
    extends (net cfg) (net cfg') /\ alive (net cfg') (servername (gid g) i) /\
    exists p, moved gi i cfg cfg' g g' (Some p).
Proof.
  unfold StartServer. destruct (group_at gi cfg) as [g|] eqn:Hg; simpl; [|done].
  apply group_at_get in Hg.
  destruct (zset (g_endnames g) i (Some drawn)) as [en|]; simpl; [|done].
  destruct (open_ends (n cfg) drawn _ (net cfg)) as [nt1|] eqn:Hn1; simpl; [|done].
  destruct (get_ctl cfg) as [c|]; simpl; [|done].
  destruct (zset (mendnames g) i (Some mdrawn)) as [me|] eqn:Hme; simpl; [|done].
  apply zset_Some in Hme as [Hi ->].
  destruct (open_ends (ctl_n c) mdrawn _ nt1) as [nt2|] eqn:Hn2; simpl; [|done].
  destruct (zget (g_saved g) i) as [sv|]; simpl; [|done].
  destruct (zset (g_saved g) i _) as [sv'|]; simpl; [|done].
  destruct (zset (g_servers g) i _) as [ss|] eqn:Hss; simpl; [|done].
  apply zset_Some in Hss as [Hi' ->].
  destruct (put_group gi _ _) as [cfg1|] eqn:Hput; simpl; [|done]. intros [= <- <-].
  apply put_group_done in Hput as [_ ->]. simpl.
  apply open_ends_servers in Hn1, Hn2.
  destruct (same_servers_trans _ _ _ Hn1 Hn2) as [Hsv Hrel].
  exists g. eexists. split; [done|]. split; [|split; [|split; [done|split; [done|]]]];
    [simpl; done|simpl; by rewrite zlen_insert|]. split; [done|]. split; [done|]. split; [done|].
  split; [|split; [apply addServer_alive|]].
  - intros s [p Hp]. apply addServer_extends. exists p. by rewrite Hsv.
  - eexists. split; try done; simpl; [|by rewrite Hsv].
    eexists. split; [done|]. by split; intros _; eexists.
Qed.

(** A shutdown: the server is no longer on the network. *)
Lemma ShutdownServer_done gi i cfg cfg' kv :
  ShutdownServer gi i cfg = Done (cfg', kv) -> exists g g', moved gi i cfg cfg' g g' None.
Proof.
  unfold ShutdownServer. destruct (group_at gi cfg) as [g|] eqn:Hg; simpl; [|done].
  apply group_at_get in Hg. destruct (zget (g_endnames g) i) as [row|]; simpl; [|done].
  destruct (disable_all _ _ (net cfg)) as [nt1|] eqn:H1; simpl; [|done].
  destruct (zget (mendnames g) i) as [mrow|]; simpl; [|done].
  destruct (disable_all _ _ nt1) as [nt2|] eqn:H2; simpl; [|done].
  destruct (zget (g_saved g) i) as [sv|]; simpl; [|done].
  destruct (match sv with Some _ => _ | None => _ end) as [sv'|]; simpl; [|done].
  destruct (zget (g_servers g) i) as [kv'|] eqn:Hkv; simpl; [|done].
  apply disable_all_servers in H1, H2. destruct (same_servers_trans _ _ _ H1 H2) as [Hsv Hrel].
  pose proof (zget_Some_range _ _ _ Hkv) as Hi.
  assert (forall ss, (match kv' with Some _ => must (zset (g_servers g) i None) | None => Done (g_servers g) end)
    = Done (Cmd := unit) ss -> ss = <[Z.to_nat i := None]> (g_servers g)) as Hss.
  { intros ss. destruct kv' as [s|].
    - destruct (zset (g_servers g) i None) eqn:Hz; simpl; [|done]. apply zset_Some in Hz as [_ ->].
      by intros [= <-].
    - intros [= <-]. symmetry. apply list_insert_id. by apply zget_Some_lookup in Hkv as [_ ?]. }
  destruct (match kv' with Some _ => _ | None => _ end) as [ss|] eqn:Hs; simpl; [|done].
  specialize (Hss ss eq_refl) as ->.
  destruct (put_group gi _ _) as [cfg1|] eqn:Hput; simpl; [|done]. intros [= <- _].
  apply put_group_done in Hput as [_ ->]. exists g. eexists. split; try done; simpl; [|by rewrite Hsv].
  by exists None.
Qed.

(** All servers of the first [j] groups run and are on the network. *)
Definition grown (m j : Z) cfg : Prop :=
  n cfg = m /\ ngroups cfg = 3 /\ zlen (groups cfg) = 3 /\
  forall x, 0 <= x < j -> exists g, zget (groups cfg) x = Some (Some g) /\ gid g = 100 + x /\
    zlen (g_servers g) = m /\
    forall i, 0 <= i < m -> alive (net cfg) (servername (100 + x) i) /\ runs g i.

(** The servers of one group are started one by one; there is a place for the
    names of each. *)
Lemma start_group m gi g cfg cfg' (drawn mdrawn : Z -> list string) k :
  0 <= m -> 0 <= gi -> grown m gi cfg -> zget (groups cfg) gi = Some (Some g) -> gid g = 100 + gi ->
  zlen (g_servers g) = m -> each (range m) (fun i cfg =>
    '(cfg, _) ← StartServer skv_methods raft_methods gi i (drawn i) (mdrawn i) k cfg; Done cfg)
    cfg = Done cfg' ->
  grown m (gi + 1) cfg' /\ m <= zlen (mendnames g).
Proof.
  intros Hm Hgi Hgr Hg Hid Hsl Hrun.
  apply (each_range_done (fun i s => grown m gi s /\ i <= zlen (mendnames g) /\
    exists g', zget (groups s) gi = Some (Some g') /\ gid g' = 100 + gi /\
      zlen (mendnames g') = zlen (mendnames g) /\ zlen (g_servers g') = m /\
      forall i', 0 <= i' < i -> alive (net s) (servername (100 + gi) i') /\ runs g' i')) in Hrun; [|done|..].
  - destruct Hrun as ((Hn & Hng & Hl & Hall) & Hle & g' & Hg' & Hid' & _ & Hsl' & Hal). split; [|done].
    split; [done|]. split; [done|]. split; [done|]. intros x Hx.
    destruct (decide (x = gi)) as [->|]; [by exists g'|apply Hall; lia].
  - split; [done|]. split; [apply zlen_nonneg|]. exists g. split; [done|]. split; [done|].
    split; [done|]. split; [done|]. intros i' Hi'. lia.
  - clear Hrun cfg' Hgr Hg Hid cfg.
    intros i s s' Hi ((Hn & Hng & Hl & Hall) & Hle & g' & Hg' & Hid' & Hlm & Hsl' & Hal).
    destruct (StartServer _ _ _ _ _ _ _ _) as [[c sp]|] eqn:Hst; simpl; [|done]. intros [= <-].
    apply group_server_done in Hst
      as (g1 & g2 & Hg1 & Hid2 & Hlm2 & Hi2 & Hgs & Hnc & Hngc & _ & Hext & Halive & p & Hmv).
    destruct (mv_servers _ _ _ _ _ _ _ Hmv) as (o & Hss & Ho).
    rewrite Hg' in Hg1. injection Hg1 as <-. pose proof (zget_Some_range _ _ _ Hg') as Hr.
    split; [|split; [lia|]].
    + split; [congruence|]. split; [congruence|]. split; [by rewrite Hgs, zlen_insert|]. intros x Hx.
      rewrite Hgs, zget_insert_ne by lia. destruct (Hall x Hx) as (gx & ? & ? & ? & Hax).
      exists gx. split; [done|]. split; [done|]. split; [done|]. intros j Hj.
      destruct (Hax j Hj). split; [by apply Hext|done].
    + exists g2. rewrite Hgs, zget_insert_eq by done. split; [done|]. split; [congruence|].
      split; [congruence|]. split; [by rewrite Hss, zlen_insert|].
      intros i' Hi'. unfold runs. rewrite Hss. destruct (decide (i' = i)) as [->|].
      * rewrite Hid' in Halive. split; [done|]. rewrite zget_insert_eq by lia.
        destruct (proj2 Ho) as [kv ->]; [by eexists|by exists kv].
      * rewrite zget_insert_ne by lia. destruct (Hal i') as [Ha Hr']; [lia|].
        split; [by apply Hext|exact Hr'].
Qed.

Lemma StartCtrlerService_three ctlr drawn ckdrawn k nt c nt' :
  StartCtrlerService ctl_methods raft_methods ctlr drawn ckdrawn k nt = Done (c, nt') -> ctl_n c = 3.
Proof.
  unfold StartCtrlerService. cbv zeta.
  match goal with |- context [each (range _) ?f ?c] => destruct (each (range _) f c) as [[c1 nt1]|] eqn:H1 end;
    simpl; [|done].
  apply (each_done (fun s => ctl_n s.1 = 3)) in H1; [|..|done].
  - destruct (ctrlerclerk ckdrawn c1 nt1) as [[ck nt2]|]; simpl; [|done]. by intros [= <- <-].
  - intros j [c2 nt2] [c3 nt3] _ Hc. unfold StartCtrlerServer. simpl in *.
    destruct (open_ends _ _ _ _); simpl; [|done]. destruct (zset (ctl_servers c2) j _); simpl; [|done].
    destruct (ctrlername c2 j); simpl; [|done]. by intros [= <- <-].
Qed.

(** A configuration that was made. *)
Lemma make_config_grown m unreliable maxraft ctlr cdrawn ckdrawn drawn mdrawn k now cfg :
  make_config skv_methods ctl_methods raft_methods m unreliable maxraft ctlr cdrawn ckdrawn
    drawn mdrawn k now = Done cfg ->
  0 <= m <= 3 /\ grown m 3 cfg /\ (exists c, ctl cfg = Some c /\ ctl_n c = 3) /\
  LabRpc.reliable (net cfg) = negb unreliable.
Proof.
  unfold make_config. destruct (m <? 0) eqn:Hm; [done|]. apply Z.ltb_ge in Hm.
  destruct (StartCtrlerService _ _ _ _ _ _ _) as [[c nt]|] eqn:Hctl;
    cbn [mbind outcome_bind]; [|done].
  apply StartCtrlerService_three in Hctl. cbv zeta. cbn [ngroups].
  match goal with |- context [each (range 3) ?f ?c] => destruct (each (range 3) f c) as [cfg1|] eqn:H1 end;
    simpl; [|done].
  intros [= <-].
  apply (each_range_done (fun j s => grown m j s /\ ctl s = Some c /\ (0 < j -> m <= 3))) in H1; [|done|..].
  - destruct H1 as ((Hn & Hng & Hl & Hall) & Hc & H3). split; [lia|]. split; [|by eauto].
    split; [done|]. split; [done|]. split; [done|]. exact Hall.
  - split; [|split; [done|lia]]. split; [done|]. split; [done|]. split; [done|]. intros x Hx. lia.
  - clear H1 cfg1. intros gi s s' Hgi ((Hn & Hng & Hl & Hall) & Hc & _).
    destruct (put_group gi _ s) as [s1|] eqn:Hput; simpl; [|done].
    apply put_group_done in Hput as [_ ->]. intros Hrun.
    assert (ctl s' = Some c) as Hc'.
    { revert Hrun. apply (each_done (fun s => ctl s = Some c)); [|done].
      intros i t t' _ Ht. destruct (StartServer _ _ _ _ _ _ _ _) as [[u sp]|] eqn:Hst; simpl; [|done].
      intros [= <-]. apply group_server_done in Hst as (? & ? & _ & _ & _ & _ & _ & _ & _ & -> & _). done. }
    apply (start_group m gi (new_group gi m (ctl_n c))) in Hrun; [|done|lia|..].
    + destruct Hrun as [Hgr Hle]. split; [done|]. split; [done|]. intros _.
      simpl in Hle. rewrite zlen_replicate in Hle. lia.
    + split; [done|]. split; [done|]. split; [simpl; by rewrite zlen_insert|]. intros x Hx. simpl.
      rewrite zget_insert_ne by lia. by apply Hall.
    + simpl. apply zget_insert_eq. lia.
    + done.
    + simpl. rewrite zlen_replicate. lia.
Qed.

(** What [joinm] announces. *)
Definition announces cfg (m : gmap Z (list string)) : Prop :=
  forall gd l, m !! gd = Some l -> exists gi g, zget (groups cfg) gi = Some (Some g) /\
    gid g = gd /\ l = map (servername gd) (range (n cfg)).

Lemma join_groups_spec gis cfg m : join_groups gis cfg = Done m -> announces cfg m.
Proof.
  unfold join_groups. apply (each_done (announces cfg)).
  - intros gi m1 m2 _ HI. destruct (group_at gi cfg) as [g|] eqn:Hg; simpl; [|done].
    apply group_at_get in Hg. intros [= <-] gd' l' Hl.
    destruct (decide (gd' = gid g)) as [->|].
    + rewrite lookup_insert_eq in Hl. injection Hl as <-. by exists gi, g.
    + rewrite lookup_insert_ne in Hl by congruence. by apply HI.
  - intros gd' l'. by rewrite lookup_empty.
Qed.

(** ** What a test does *)

(** [SMakeEnd]: a clerk or a server opens an end to a name it was told of;
    [SServer]: a running server moves on, and writes to its persister. *)
Inductive shard_op :=
  | SShutdownServer (gi i : Z)
  | SShutdownGroup (gi : Z)
  | SStartServer (gi i : Z) (drawn mdrawn : list string) (k : Raft.tick)
  | SStartGroup (gi : Z) (drawn mdrawn : Z -> list string) (k : Raft.tick)
  | SMakeClient (drawn : list string)
  | SDeleteClient (ck : nat)
  | SMakeEnd (name s : string)
  | SReliable (yes : bool)
  | SServer (gi i : Z) (kv : ShardKV.ShardKV.ShardKV string) (p : Persister).

Definition run_shard_op (o : shard_op) cfg : outcome unit (config (W := W)) :=
  match o with
  | SShutdownServer gi i => '(cfg, _) ← ShutdownServer gi i cfg; Done cfg
  | SShutdownGroup gi => ShutdownGroup gi cfg
  | SStartServer gi i drawn mdrawn k =>
      '(cfg, _) ← StartServer skv_methods raft_methods gi i drawn mdrawn k cfg; Done cfg
  | SStartGroup gi drawn mdrawn k => StartGroup skv_methods raft_methods gi drawn mdrawn k cfg
  | SMakeClient drawn => '(cfg, _, _) ← makeClient drawn cfg; Done cfg
  | SDeleteClient ck => Done (deleteClient ck cfg)
  | SMakeEnd name s => nt ← open_end name s (net cfg); Done (set_net nt cfg)
  | SReliable yes => Done (set_net (LabRpc.Reliable yes (net cfg)) cfg)
  | SServer gi i kv p =>
      g ← group_at gi cfg;
      s ← must (zget (g_servers g) i);
      match s with
      | None => Done cfg
      | Some _ =>
          ss ← must (zset (g_servers g) i (Some kv));
          sv ← must (zset (g_saved g) i (Some p));
          put_group gi (mkGroup (gid g) ss sv (g_endnames g) (mendnames g)) cfg
      end
  end.

(** The names on the network are those of the servers that run. *)
Record tracked (m : Z) cfg : Prop := {
  tk_n : n cfg = m;
  tk_groups : zlen (groups cfg) = 3;
  tk_group x : 0 <= x < 3 ->
    exists g, zget (groups cfg) x = Some (Some g) /\ gid g = 100 + x /\ zlen (g_servers g) = m;
  tk_alive x i : 0 <= x < 3 -> 0 <= i < m ->
    (shard_running cfg x i <-> alive (net cfg) (servername (100 + x) i)) }.

(** Different servers have different names. *)
Lemma servername_inj x i y j :
  0 <= x < 3 -> 0 <= i < 3 -> 0 <= y < 3 -> 0 <= j < 3 ->
  servername (100 + x) i = servername (100 + y) j -> x = y /\ i = j.
Proof.
  intros Hx Hi Hy Hj.
  assert ((x = 0 \/ x = 1 \/ x = 2) /\ (i = 0 \/ i = 1 \/ i = 2) /\
    (y = 0 \/ y = 1 \/ y = 2) /\ (j = 0 \/ j = 1 \/ j = 2)) as (Ex & Ei & Ey & Ej) by lia.
  destruct Ex as [->|[->| ->]], Ei as [->|[->| ->]], Ey as [->|[->| ->]], Ej as [->|[->| ->]];
    by vm_compute.
Qed.

Lemma servername_ne x i y j :
  0 <= x < 3 -> 0 <= i < 3 -> 0 <= y < 3 -> 0 <= j < 3 -> ~ (x = y /\ i = j) ->
  (inl (servername (100 + x) i) : string + Z) <> inl (servername (100 + y) j).
Proof. intros Hx Hi Hy Hj Hne Heq%(inj inl). by apply Hne, servername_inj. Qed.

Lemma moved_tracked m gi i cfg cfg' g g' v :
  m <= 3 -> tracked m cfg -> moved gi i cfg cfg' g g' v -> tracked m cfg'.
Proof.
  intros Hm [Hn Hl Hg Ha] [Hgi Hgs Hid Hi (o & Hss & Ho) Hn' Hnet _].
  pose proof (zget_Some_range _ _ _ Hgi) as Hr. rewrite Hl in Hr.
  destruct (Hg gi Hr) as (g1 & Hg1 & Hid1 & Hs1). rewrite Hgi in Hg1. injection Hg1 as <-.
  rewrite Hid1 in Hnet. rewrite Hs1 in Hi.
  split; [congruence|by rewrite Hgs, zlen_insert|..].
  - intros x Hx. rewrite Hgs. destruct (decide (x = gi)) as [->|].
    + exists g'. rewrite zget_insert_eq by lia. by rewrite Hss, zlen_insert, Hid.
    + rewrite zget_insert_ne by lia. by apply Hg.
  - intros x j Hx Hj. unfold shard_running, alive. rewrite Hgs, Hnet.
    destruct (decide (x = gi)) as [->|Hxg].
    + rewrite zget_insert_eq by lia. destruct (decide (j = i)) as [->|Hji].
      * rewrite lookup_insert_eq. split.
        -- intros (g2 & [= <-] & kv & Hkv). rewrite Hss, zget_insert_eq in Hkv by lia.
           injection Hkv as ->. destruct (proj1 Ho) as [p ->]; [by eexists|by exists p].
        -- intros [p [= ->]]. destruct (proj2 Ho) as [kv Hkv]; [by eexists|].
           exists g'. split; [done|]. exists kv. rewrite Hss, zget_insert_eq by lia. by rewrite Hkv.
      * rewrite lookup_insert_ne by (apply servername_ne; lia).
        rewrite <- (Ha gi j Hx Hj). unfold shard_running, runs. rewrite Hgi. split.
        -- intros (g2 & [= <-] & kv & Hkv). rewrite Hss, zget_insert_ne in Hkv by lia. eauto.
        -- intros (g2 & [= <-] & kv & Hkv). exists g'. split; [done|]. exists kv.
           by rewrite Hss, zget_insert_ne by lia.
    + rewrite zget_insert_ne by lia.
      rewrite lookup_insert_ne by (apply servername_ne; lia). by apply Ha.
Qed.

(** A server that runs goes on running. *)
Lemma server_moves_tracked m gi i cfg g g' kv0 kv :
  tracked m cfg -> zget (groups cfg) gi = Some (Some g) -> zget (g_servers g) i = Some (Some kv0) ->
  gid g' = gid g -> g_servers g' = <[Z.to_nat i := Some kv]> (g_servers g) ->
  tracked m (set_groups (<[Z.to_nat gi := Some g']> (groups cfg)) cfg).
Proof.
  intros [Hn Hl Hg Ha] Hgi Hkv Hid Hss.
  pose proof (zget_Some_range _ _ _ Hgi) as Hr. pose proof (zget_Some_range _ _ _ Hkv) as Hi.
  rewrite Hl in Hr. split; [done|simpl; by rewrite zlen_insert|..]; simpl.
  - intros x Hx. destruct (Hg x Hx) as (g1 & Hg1 & Hid1 & Hs1). destruct (decide (x = gi)) as [->|].
    + rewrite Hgi in Hg1. injection Hg1 as <-. exists g'. rewrite zget_insert_eq by lia.
      by rewrite Hss, zlen_insert, Hid.
    + rewrite zget_insert_ne by lia. by exists g1.
  - intros x j Hx Hj. rewrite <- (Ha x j Hx Hj). unfold shard_running, runs. simpl.
    destruct (decide (x = gi)) as [->|]; [|by rewrite zget_insert_ne by lia].
    rewrite zget_insert_eq, Hgi by lia. destruct (decide (j = i)) as [->|].
    + split; intros _; eexists; (split; [done|]); [by exists kv0|].
      exists kv. by rewrite Hss, zget_insert_eq.
    + split; intros (g2 & [= <-] & kv2 & H2); eexists; (split; [done|]); exists kv2; revert H2;
        rewrite Hss, zget_insert_ne by lia; done.
Qed.

(** What changes neither the groups nor the servers of the network. *)
Lemma same_tracked m cfg cfg' :
  n cfg' = n cfg -> groups cfg' = groups cfg ->
  LabRpc.servers (net cfg') = LabRpc.servers (net cfg) -> tracked m cfg -> tracked m cfg'.
Proof.
  intros Hn Hg Hs [H1 H2 H3 H4]. split; unfold shard_running, alive; rewrite ?Hn, ?Hg, ?Hs; assumption.
Qed.

Lemma ShutdownServer_tracked m gi i cfg cfg' kv :
  m <= 3 -> tracked m cfg -> ShutdownServer gi i cfg = Done (cfg', kv) -> tracked m cfg'.
Proof. intros Hm Ht (g & g' & Hmv)%ShutdownServer_done. by eapply moved_tracked. Qed.

Lemma StartServer_tracked m gi i drawn mdrawn k cfg cfg' sp :
  m <= 3 -> tracked m cfg -> StartServer skv_methods raft_methods gi i drawn mdrawn k cfg = Done (cfg', sp) ->
  tracked m cfg'.
Proof.
  intros Hm Ht (g & g' & _ & _ & _ & _ & _ & _ & _ & _ & _ & _ & p & Hmv)%group_server_done.
  by eapply moved_tracked.
Qed.

Lemma makeClient_tracked m drawn cfg cfg' ck names :
  tracked m cfg -> makeClient drawn cfg = Done (cfg', ck, names) -> tracked m cfg'.
Proof.
  unfold makeClient. destruct (get_ctl cfg) as [c|]; simpl; [|done]. intros Ht.
  destruct (each _ _ _) as [[nt en]|] eqn:Hrun; simpl; [|done]. intros [= <- _ _].
  apply (same_tracked m cfg); try done. simpl.
  apply (each_done (fun s => LabRpc.servers s.1 = LabRpc.servers (net cfg))) in Hrun; [done| |done].
  intros j [nt1 en1] [nt2 en2] _ Hs. simpl in Hs. destruct (zget drawn j); simpl; [|done].
  destruct (zset en1 j _); simpl; [|done]. destruct (ctrlername c j); simpl; [|done].
  destruct (open_end _ _ nt1) as [nt3|] eqn:Ho; simpl; [|done].
  apply open_end_servers in Ho as [Ho _]. intros [= <- _]. simpl. congruence.
Qed.

Lemma run_shard_op_tracked m o cfg cfg' :
  m <= 3 -> tracked m cfg -> run_shard_op o cfg = Done cfg' -> tracked m cfg'.
Proof.
  intros Hm Ht. destruct o as [gi i|gi|gi i drawn mdrawn k|gi drawn mdrawn k|drawn|ck|name s|yes|gi i kv p];
    simpl.
  - destruct (ShutdownServer gi i cfg) as [[c kv]|] eqn:E; simpl; [|done]. intros [= <-].
    by eapply ShutdownServer_tracked.
  - apply (each_done (tracked m)); [|done]. intros i s s' _ Hs.
    destruct (ShutdownServer gi i s) as [[c kv]|] eqn:E; simpl; [|done]. intros [= <-].
    by eapply ShutdownServer_tracked.
  - destruct (StartServer _ _ _ _ _ _ _ _) as [[c sp]|] eqn:E; simpl; [|done]. intros [= <-].
    by eapply StartServer_tracked.
  - apply (each_done (tracked m)); [|done]. intros i s s' _ Hs.
    destruct (StartServer _ _ _ _ _ _ _ _) as [[c sp]|] eqn:E; simpl; [|done]. intros [= <-].
    by eapply StartServer_tracked.
  - destruct (makeClient drawn cfg) as [[[c ck] names]|] eqn:E; simpl; [|done]. intros [= <-].
    by eapply makeClient_tracked.
  - intros [= <-]. by apply (same_tracked m cfg).
  - destruct (open_end name s (net cfg)) as [nt|] eqn:E; simpl; [|done]. intros [= <-].
    apply open_end_servers in E as [E _]. by apply (same_tracked m cfg).
  - intros [= <-]. by apply (same_tracked m cfg).
  - destruct (group_at gi cfg) as [g|] eqn:Hg; simpl; [|done]. apply group_at_get in Hg.
    destruct (zget (g_servers g) i) as [[kv0|]|] eqn:Hkv; simpl; [|by intros [= <-]|done].
    destruct (zset (g_servers g) i _) as [ss|] eqn:Hss; simpl; [|done].
    apply zset_Some in Hss as [Hi ->]. destruct (zset (g_saved g) i _) as [sv|]; simpl; [|done].
    intros [_ ->]%put_group_done. by eapply server_moves_tracked.
Qed.

(** A joining group announces the names of its servers. *)
Lemma announced_names m cfg gis announced gd servers s :
  tracked m cfg -> join_groups gis cfg = Done announced -> announced !! gd = Some servers ->
  s ∈ servers -> exists x i, 0 <= x < 3 /\ 0 <= i < m /\ gd = 100 + x /\ s = servername gd i.
Proof.
  intros [Hn Hlen Hall _] Hjoin Hl Hs.
  destruct (join_groups_spec _ _ _ Hjoin _ _ Hl) as (x & g & Hg & Hid & ->).
  change (map ?f ?l) with (f <$> l) in Hs. apply list_elem_of_fmap in Hs as (i & -> & Hi%elem_of_range).
  pose proof (zget_Some_range _ _ _ Hg) as Hx. rewrite Hlen in Hx.
  destruct (Hall x Hx) as (g' & Hg' & Hid' & _). rewrite Hg in Hg'. injection Hg' as <-.
  exists x, i. rewrite <- Hid, Hid', <- Hn. done.
Qed.

Lemma make_config_tracked m unreliable maxraft ctlr cdrawn ckdrawn drawn mdrawn k now cfg :
  make_config skv_methods ctl_methods raft_methods m unreliable maxraft ctlr cdrawn ckdrawn
    drawn mdrawn k now = Done cfg ->
  m <= 3 /\ tracked m cfg.
Proof.
  intros ([_ Hm] & (Hn & _ & Hl & Hall) & _)%make_config_grown. split; [done|].
  split; [done|done|..].
  - intros x Hx. destruct (Hall x Hx) as (g & Hg & Hid & Hs & _). by exists g.
  - intros x i Hx Hi. destruct (Hall x Hx) as (g & Hg & _ & _ & Hr). destruct (Hr i Hi) as [Ha Hk].
    split; intros _; [done|]. by exists g.
Qed.

(** C35. The servers that a joining group announces can be reached while they run and
    the network is reliable.  A test may start, shut down and restart servers and
    groups, make and delete clients, open ends and turn the network's reliability on
    and off, before and after a group is announced; as long as none of this stops
    the test, an end then opened to one of the announced names has its requests
    handed only to the server of that name, and only if that server runs; they are
    handed to it if it runs and the network is reliable at that moment.  When it is
    shut down, or the network loses the request, the answer is a failure. *)
Theorem joined_servers_reachable m unreliable maxraft ctlr cdrawn ckdrawn drawn mdrawn k now cfg0
    before cfg1 gis announced gd servers s after cfg name nt :
  make_config skv_methods ctl_methods raft_methods m unreliable maxraft ctlr cdrawn ckdrawn
    drawn mdrawn k now = Done cfg0 ->
  each before run_shard_op cfg0 = Done cfg1 ->
  join_groups gis cfg1 = Done announced -> announced !! gd = Some servers -> s ∈ servers ->
  each after run_shard_op cfg1 = Done cfg -> open_end name s (net cfg) = Done nt ->
  exists x i, 0 <= x < 3 /\ 0 <= i < m /\ gd = 100 + x /\ s = servername gd i /\
    forall meth args d,
      match LabRpc.process_begin (LabRpc.mkReq (inl name) meth args) d nt with
      | LabRpc.Executing _ s' _ _ _ => s' = inl s /\ shard_running cfg x i
      | LabRpc.Answered _ r => LabRpc.ok r = false /\
          (shard_running cfg x i -> LabRpc.reliable (net cfg) = false)
      end.
Proof.
  intros [Hm Ht0]%make_config_tracked Hb Hjoin Hl Hs Ha Hopen.
  assert (forall ops c c', tracked m c -> each ops run_shard_op c = Done c' -> tracked m c') as Hops.
  { intros ops c c' Hc. apply (each_done (tracked m)); [|done].
    intros o s1 s2 _ Hs1. by apply run_shard_op_tracked. }
  apply Hops in Hb; [|done]. apply Hops in Ha; [|done].
  destruct (announced_names m cfg1 gis announced gd servers s) as (x & i & Hx & Hi & -> & ->); try done.
  exists x, i. do 4 (split; [done|]). intros meth args d.
  pose proof (tk_alive m cfg Ha x i Hx Hi) as Halive. clear -Hopen Halive.
  unfold open_end, make_end, LabRpc.MakeEnd in Hopen. simpl in Hopen.
  destruct (LabRpc.ends (net cfg) !! inl name); [done|]. injection Hopen as <-.
  unfold LabRpc.process_begin, LabRpc.readEndnameInfo. simpl. rewrite !lookup_insert_eq. simpl.
  destruct (LabRpc.servers (net cfg) !! inl (servername (100 + x) i)) as [[p|]|] eqn:Hp; simpl.
  - assert (shard_running cfg x i) as Hr by (apply Halive; by exists p).
    destruct (LabRpc.reliable (net cfg)); simpl; [done|]. by destruct (_ <? 100).
  - split; [done|]. intros [p Hp']%Halive. congruence.
  - split; [done|]. intros [p Hp']%Halive. congruence.
Qed.

(** The harness of shardkv fails unless there are three servers per group:
    with more, a configuration is never made, for the names of the ends to the
    controllers have a place per controller and not per server; with fewer, no
    client is ever made, for the names of its ends have a place per server and
    not per controller. *)
Theorem shardkv_needs_three m unreliable maxraft ctlr cdrawn ckdrawn drawn mdrawn k now cfg
    names made :
  make_config skv_methods ctl_methods raft_methods m unreliable maxraft ctlr cdrawn ckdrawn
    drawn mdrawn k now = Done cfg ->
  makeClient names cfg = Done made -> m = 3.
Proof.
  intros Hmk Hcl. apply make_config_grown in Hmk as (Hm & (Hn & _) & (c & Hc & H3) & _).
  unfold makeClient in Hcl. unfold get_ctl in Hcl. rewrite Hc in Hcl. simpl in Hcl.
  destruct (each _ _ _) as [[nt endnames]|] eqn:Hrun; simpl in Hcl; [|done].
  apply (each_range_done (fun j s => zlen s.2 = m /\ j <= m)) in Hrun; [lia|lia|..].
  - simpl. rewrite zlen_replicate, Hn. lia.
  - intros j [nt1 en1] [nt2 en2] Hj [Hl Hle]. destruct (zget names j); simpl; [|done].
    destruct (zset en1 j _) as [en|] eqn:Hen; simpl; [|done]. apply zset_Some in Hen as [Hr ->].
    destruct (ctrlername c j); simpl; [|done]. destruct (open_end _ _ _); simpl; [|done].
    intros [= <- <-]. simpl in *. rewrite zlen_insert. lia.
Qed.
End props.

Section witnesses.
Import Raft.

Definition digit (i : Z) : string := MapReduce.MapReduce.Itoa i.

(** Distinct names: a letter, the group, the server, the place. *)
Definition names_of (tag : string) (gi i : Z) : list string :=
  map (fun j => tag ++ digit gi ++ digit i ++ digit j)%string [0; 1; 2].

Definition made3 : outcome unit (config (W := unit)) :=
  make_config [] [] [] 3 false (-1) ["0"; "1"; "2"]%string (names_of "c" 0) (names_of "k" 0 0)
    (names_of "s") (names_of "m") (mkTick 0 0) 0.

(** Group 101 joins, and an end is opened to its last server; a client is made. *)
Definition joined_check (o : outcome unit (config (W := unit))) : bool :=
  match o with
  | Done cfg =>
      match join_groups [1] cfg with
      | Done m =>
          bool_decide ("server-101-2"%string ∈ default [] (m !! 101)) &&
          match open_end "x" "server-101-2" (net cfg), makeClient ["u"; "v"; "w"]%string cfg with
          | Done _, Done _ => true
          | _, _ => false
          end
      | Stopped _ => false
      end
  | Stopped _ => false
  end.

Lemma joined_check_spec o :
  joined_check o = true ->
  exists cfg announced servers nt made, o = Done cfg /\ join_groups [1] cfg = Done announced /\
    announced !! 101 = Some servers /\ "server-101-2"%string ∈ servers /\
    open_end "x" "server-101-2" (net cfg) = Done nt /\
    makeClient ["u"; "v"; "w"]%string cfg = Done made.
Proof.
  unfold joined_check. destruct o as [cfg|]; [|done].
  destruct (join_groups [1] cfg) as [m|] eqn:Hj; [|done]. intros [Hin H]%andb_true_iff.
  apply bool_decide_eq_true in Hin.
  destruct (m !! 101) as [servers|] eqn:Hm; simpl in Hin; [|by apply not_elem_of_nil in Hin].
  destruct (open_end _ _ _) as [nt|] eqn:Hnt; [|done].
  destruct (makeClient _ cfg) as [made|] eqn:Hmade; [|done].
  by exists cfg, m, servers, nt, made.
Qed.

Lemma made3_joined : joined_check made3 = true.
Proof. by vm_compute. Qed.

(** Server 2 of group 101 crashes before the group joins; afterwards the whole group
    is shut down and server 2 is started again. *)
Definition before3 : list shard_op := [SShutdownServer 1 2; SReliable true].
Definition after3 : list shard_op :=
  [SShutdownGroup 1; SStartServer 1 2 (names_of "t" 1 2) (names_of "n" 1 2) (mkTick 0 0)].

Definition restarted (o : outcome unit (config (W := unit))) :
    option (config (W := unit) * gmap Z (list string) * config (W := unit) *
            LabRpc.Network (Name := string + Z) (W := unit)) :=
  match o with
  | Done cfg0 =>
      match each before3 (run_shard_op [] []) cfg0 with
      | Done cfg1 =>
          match join_groups [1] cfg1, each after3 (run_shard_op [] []) cfg1 with
          | Done m, Done cfg =>
              match open_end "x" "server-101-2" (net cfg) with
              | Done nt => Some (cfg1, m, cfg, nt)
              | Stopped _ => None
              end
          | _, _ => None
          end
      | Stopped _ => None
      end
  | Stopped _ => None
  end.

(** The groups that joined, and the server in the end. *)
Definition restarted_check (o : outcome unit (config (W := unit))) : bool :=
  match restarted o with
  | Some (_, m, cfg, _) =>
      match m !! 101, zget (groups cfg) 1 with
      | Some servers, Some (Some g) =>
          bool_decide ("server-101-2"%string ∈ servers) && LabRpc.reliable (net cfg) &&
          match zget (g_servers g) 2, zget (g_servers g) 1 with Some (Some _), Some None => true | _, _ => false end
      | _, _ => false
      end
  | None => false
  end.

Lemma restarted_spec o :
  restarted_check o = true ->
  exists cfg0 cfg1 announced (servers : list string) cfg nt, o = Done cfg0 /\
    each before3 (run_shard_op [] []) cfg0 = Done cfg1 /\ join_groups [1] cfg1 = Done announced /\
    announced !! 101 = Some servers /\ "server-101-2"%string ∈ servers /\
    each after3 (run_shard_op [] []) cfg1 = Done cfg /\ open_end "x" "server-101-2" (net cfg) = Done nt /\
    LabRpc.reliable (net cfg) = true /\ shard_running cfg 1 2.
Proof.
  unfold restarted_check, restarted. destruct o as [cfg0|]; [|done].
  destruct (each before3 _ cfg0) as [cfg1|] eqn:Hb; [|done].
  destruct (join_groups [1] cfg1) as [m|] eqn:Hj; [|done].
  destruct (each after3 _ cfg1) as [cfg|] eqn:Ha; [|done].
  destruct (open_end _ _ _) as [nt|] eqn:Ho; [|done].
  destruct (m !! 101) as [servers|] eqn:Hm; [|done].
  destruct (zget (groups cfg) 1) as [[g|]|] eqn:Hg; [|done..].
  intros [[Hin Hrel]%andb_true_iff Hrun]%andb_true_iff. apply bool_decide_eq_true in Hin.
  exists cfg0, cfg1, m, servers, cfg, nt. do 8 (split; [done|]). exists g. split; [done|].
  unfold runs. destruct (zget (g_servers g) 2) as [[kv|]|]; [by exists kv|done..].
Qed.

Lemma made3_restarted : restarted_check made3 = true.
Proof. by vm_compute. Qed.

(** The restarted server is reached. *)
Lemma joined_servers_reachable_witness :
  exists cfg0 cfg1 cfg nt, made3 = Done cfg0 /\ each before3 (run_shard_op [] []) cfg0 = Done cfg1 /\
    each after3 (run_shard_op [] []) cfg1 = Done cfg /\ open_end "x" "server-101-2" (net cfg) = Done nt /\
    match LabRpc.process_begin (LabRpc.mkReq (inl "x"%string) "ShardKV.Get" [])
            (LabRpc.mkDice 0 0 0 0 0 0) nt with
    | LabRpc.Executing _ s' _ _ _ => s' = inl "server-101-2"%string
    | LabRpc.Answered _ _ => False
    end.
Proof.
  destruct (restarted_spec made3 made3_restarted)
    as (cfg0 & cfg1 & announced & servers & cfg & nt & Hmk & Hb & Hjoin & Hl & Hs & Ha & Hopen & Hrel & Hrun).
  exists cfg0, cfg1, cfg, nt. do 4 (split; [done|]).
  destruct (joined_servers_reachable [] [] [] 3 false (-1) _ _ _ _ _ _ _ cfg0 before3 cfg1 [1] announced
    101 servers "server-101-2" after3 cfg "x" nt Hmk Hb Hjoin Hl Hs Ha Hopen)
    as (x & i & Hx & Hi & Hgd & Hname & H).
  specialize (H "ShardKV.Get"%string [] (LabRpc.mkDice 0 0 0 0 0 0)).
  assert (x = 1) as -> by lia. apply (servername_inj 1 2 1 i) in Hname as [_ <-]; [|lia..].
  clear Hmk Hb Hjoin Ha Hopen.
  destruct (LabRpc.process_begin _ _ nt); [|exact (proj1 H)].
  destruct H as [_ H]. rewrite Hrel in H. discriminate (H Hrun).
Defined.

Lemma shardkv_needs_three_witness :
  exists cfg made, made3 = Done cfg /\ makeClient ["u"; "v"; "w"]%string cfg = Done made /\ 3 = 3.
Proof.
  destruct (joined_check_spec made3 made3_joined)
    as (cfg & _ & _ & _ & made & Hmk & _ & _ & _ & _ & Hmade).
  exists cfg, made. split; [exact Hmk|]. split; [exact Hmade|].
  exact (shardkv_needs_three [] [] [] 3 false (-1) _ _ _ _ _ _ _ cfg _ made Hmk Hmade).
Defined.
End witnesses.
End ShardHarnessProps.
